(* ===== verification/_CoqProject ===== *)
-Q . S2P
Prelude.v
Endian.v
Double.v
ByteArray.v
ByteArrayFacts.v
ByteArrayCodec.v
ByteArrayCodecFacts.v
ByteArrayView.v
StdSet.v
Timer.v
TimerFacts.v
Fiber.v
FiberFacts.v
LoadCounter.v
Scheduler.v
SchedulerFacts.v
Handover.v
HandoverFacts.v
EventPoller.v
EventPollerFacts.v
Text.v
Macro.v
Yaml.v
LexicalCast.v
LexicalCastFacts.v
Config.v
ConfigFacts.v
FSUtil.v
FSUtilFacts.v
Env.v
EnvFacts.v
Address.v
AddressFacts.v
FdManager.v
FdManagerFacts.v
Hook.v
HookFacts.v
IoWait.v
IoWaitFacts.v
IoWaitRefine.v
Sleep.v
SleepFacts.v
Logger.v
LoggerFacts.v
Socket.v
SocketFacts.v
TcpServer.v
TcpServerFacts.v
EchoServer.v
ConcurrentVector.v
ConcurrentVectorFacts.v
ConcurrentUse.v
ConcurrentUseFacts.v
Thread.v
ThreadFacts.v
Daemon.v
DaemonFacts.v
