(* ===== verification/Prelude.v ===== *)
(** * Sylar network framework: verification development

    This library models a C++ network framework (coroutine fibers, a scheduler of
    fibers over threads, timers, an epoll loop, hooked system calls, sockets and
    a TCP server, byte buffers, addresses, logging, configuration) and proves
    what its components promise each other and their users, including where the
    code departs from that.

    ** The program and its parts

    The parts below are in the order in which they are compiled; paths are those
    of the repository's src/ directory.

    - Byte order (socket/endian.h): Endian.  Fixed-width integer types, their
      object representation on either byte order (the class [Target]), byteswap.
    - Byte arrays (socket/bytearray.h, bytearray.cpp): ByteArray (the paged
      buffer: [addCapacity], [write], [read], [setPosition], [clear]),
      ByteArrayCodec (the typed readers and writers, zigzag, varints, strings),
      ByteArrayView (the iovec views and the file round trip).  Double gives the
      rounding of [ceil(1.0 * size / base)], which decides how many pages are
      allocated.  Memory is a list of nodes of optional bytes, uninitialised
      bytes being [None].
    - Timers (timer/timer.h, timer.cpp): StdSet ([std::set] as an ordered list)
      and Timer ([Timer] objects in a heap, [TimerManager] with the set ordered
      by deadline, [listExpiredCb], [getNextTimer], [cancel], [refresh], [reset]).
    - Fibers (fiber/fiber.h, fiber.cpp): Fiber.  A thread's fibers with their
      states; [swapcontext] saves and resumes abstract program points.
    - Scheduler (fiber/scheduler.h, scheduler.cpp): LoadCounter and Scheduler
      ([schedule], [start], [stop] and [run]).  [run] is a step relation: each
      thread is at a [phase], each critical section one step, and what a fiber
      does between being resumed and coming back is the environment's.  The
      pointers to fibers are counted, with the assertion of [~Fiber]; a call of
      [schedule] begins and ends in two steps, as it holds another mutex.
    - Fibers between threads (fiber/fiber.cpp, scheduler.cpp): Handover.  One fiber
      and the threads of a scheduler, a step being a single access to the state or
      the context of the fiber, so that it can be taken while it is on its way out.
    - Event poller (eventpoller/eventpoller.h, eventpoller.cpp): EventPoller.
      The table of descriptor contexts, [addEvent], [delEvent], [cancelEvent],
      [cancelAll], [triggerEvent], and the turns of [idle].  It is a client of
      the scheduler through the interface [TaskSink] with the laws
      [TaskSinkLaws], which Scheduler implements, and of TimerManager directly.
    - Socket addresses (socket/address.h, address.cpp): Text (strings, numerals,
      the order of bytes) and Address.  The name resolver and the interface list
      are parameters.
    - Descriptor contexts (socket/fdManager.h, fdManager.cpp): FdManager.  Shared
      contexts in a heap, the table of pointers, over the interface [Kernel] with
      the laws [KernelLaws] and the instance [TableKernel].
    - Hooked system calls (util/hook.h, hook.cpp): Hook.  [do_io] and every hooked
      function, over FdManager; the answers of the original functions are
      scripts, and what is done to timers and poller is a trace; the lock of the
      poller's table is kept ([removal_f]), as the removals release it twice.
    - Blocked calls (util/hook.cpp): IoWait.  [do_io] and [connect_with_timeout]
      in steps over EventPoller and Timer, interleaved with the closure of the
      timer, the idle fiber and whatever the rest of the program does; IoWaitFacts
      has what holds of every interleaving, IoWaitRefine that a run is the call of
      Hook.
    - Sleeping calls (util/hook.cpp): Sleep.  [sleep], [usleep] and [nanosleep] in
      steps over EventPoller and Timer, in the same way.
    - Logging (log/logger.h, logger.cpp): Logger.  The parser of format patterns,
      the items and their text, appenders, loggers and the manager.
    - Assertions and stack traces (util/macro.h, util.cpp): Macro, what a failed
      assertion logs.  [Assert] itself is below.
    - Configuration (config/config.h, config.cpp): Yaml (the parser and emitter of
      YAML as the class [Yaml] with the laws [YamlLaws], and the conversions of
      texts as [Lexical]), LexicalCast (the conversions of scalars and containers
      from and to YAML, over codes of types), Config (variables in a heap with
      their listeners, the table of names, [LoadFromYaml]).
    - Files and paths (util/util.h, util.cpp): FSUtil, over a file system given by
      the class [Files] with the laws [FilesLaws] and the instance [FlatFiles].
    - Environment (util/env.h, env.cc): Env.  Arguments, help texts and paths, and
      [LoadFromConfDir], which composes files, environment and configuration.
    - Sockets (socket/socket.h, socket.cpp): Socket.  Socket objects in a heap,
      over the hooked calls and the descriptor contexts.
    - TCP server (server/TCPserver.h, TCPserver.cpp): TcpServer, over sockets and
      two pollers given by [TaskSink].  Shared ownership of sockets is explicit:
      the last pointer that goes closes the socket.
    - Echo server (samples/EchoServer/main.cpp): EchoServer.  Sessions over
      Socket and the views of ByteArrayView, and the program around them.
    - Concurrent vector and singletons (util/ConcurrentVector.h, Singleton.h):
      ConcurrentVector.  Each call is a sequence of atomic parts, which a step
      relation interleaves for pushes; a change of [m_vector] or of [m_mtx] takes
      two steps, and a step that meets one under way is undefined.  ConcurrentUse has threads that make any
      list of calls on one vector, with the shared and exclusive locks of stripes.
    - Threads (thread/thread.h, thread.cpp, Mutex.h): Thread.  The semaphore, the
      task object and the handshake between a [Thread] and its thread, as a step
      relation.
    - Daemon (util/daemon.h, daemon.cpp): Daemon.

    A component's facts and properties are in the file of the same name with the
    suffix Facts (those of ByteArrayView, LoadCounter, Macro and EchoServer are in
    the file itself).
    The components meet in interfaces: the poller and the server use schedulers
    through [TaskSink], the hooks the kernel through [Kernel], the configuration
    YAML through [Yaml] and [Lexical], the environment files through [Files].

    ** Conventions

    A call that changes its object is in the monad [M] below: a normal return, an
    exception, a failed assertion, undefined behaviour, a self-deadlock, or an
    exhausted loop bound of the model.  Undefined behaviour is an outcome, so a
    theorem that a call returns also says that it is defined.  Integers are [Z]
    with the wrap-around of their width written out ([u64], [i32], [cast]).
    Addresses of shared objects are numbers; stores are [gmap]s; a smart pointer
    is an optional address.

    Loop bounds: the loops over the pages of a byte array get [walk_fuel], the
    number of nodes and two ([bytearray_terminates] shows that it is enough on
    every reachable array, [destroy_spec] for the destructor);
    [CountBytes] gets the width of its type and one ([CountBytes_spec]); [do_io] gets the number of answers in its script and
    one, and [do_io_spec] shows that it ends; a session of the echo server gets
    more than the number of its answers ([echo_session]); the two loops of the pattern
    parser get the length of the pattern and one ([pattern_parser]); [Logger_log]
    gets 2, since a root has no root ([log_dispatch]); [ListAllMember] gets the
    height of the node and one, [FSUtil_ListAllFile] and [FSUtil_Rm] the depth of
    the file system and one ([load_from_yaml_spec], [ListAllFile_spec],
    [Remove_spec]); the loop of the daemon runs at most once
    ([start_daemon_spec]); a listening loop gets the list of what other tasks do
    at its turns; all other recursion is structural.  A script of answers that is
    exhausted counts as a loop bound: most theorems on sockets and the server say
    what holds of every call that returns, and their witnesses run one; of
    the closure of [stop] it is shown that it returns when the script supplies
    what the closing of each socket asks for ([server_stop_spec]).

    ** The theorems

    - Byte arrays: the pages refine one flat stream with a cursor, every loop
      ends, the typed readers invert the writers, zigzag is a bijection, the
      varint readers decode LEB128; the varint writers drop the last group, and a
      write that exactly fills a page misplaces the next (both as the code is).
    - Timers: the set stays ordered by deadline with live members only under all
      operations; expiry fires exactly the due timers in order; the next time-out
      is exact; [cancel] disarms; [refresh] and [reset] never re-arm.
    - Fibers: hand-over between a fiber and the scheduler's, ends of fibers,
      and [yieldToReady], which resumes the fiber instead of the scheduler.
    - Scheduler: under every interleaving a step fails in two ways only, and both
      happen: the last pointer to a fiber that threw is dropped, or a scan comes
      during a call of [schedule]; otherwise a fiber runs on one thread at a time
      and on its own thread, and tasks are conserved; the scan
      takes the first eligible task; what [stopping] means; load percentages.
      Between threads: a fiber whose tasks are for one thread may be scheduled at
      any time and goes on where it stopped; with two threads it can be resumed
      from an old point, run twice at once or fail an assertion.
    - Event poller: the count of pending events, the registered waiters and the
      kernel's interest agree at all times; delivery schedules each waiter once;
      the public removals release the lock of the table once too often; [idle]
      never ends, a turn's time-out is bounded, and an interrupted wait starts
      over with the same time-out.
    - Addresses: prefixes and masks bit by bit, the order, the text of IPv6
      addresses, round trips through bytes and paths, names.
    - Contexts and hooks: the table of contexts and its race, the retry loop of
      [do_io] with the errno of every error path, the user's view of the non-blocking flag against the kernel's,
      durations.
    - Blocked calls: a fiber that waits is registered or queued exactly once; the
      flag is set only after a whole time-out; no timer outlives a wait; what
      wakes a held call and that a time-out can end it; that every call with a
      time-out can lose it, by an expiry before the registration; and the refinement to the calls of
      Hook.
    - Sleeping calls: a sleeping fiber has exactly one of its timer, its closure in
      the queue and itself in the queue; it does not return early and leaves
      nothing behind; it can always return at the end of its time.
    - Logging: the pattern parser inverts the writing of patterns and always
      ends; which appenders an event reaches.
    - Configuration: containers of values that the YAML library prints and reads
      back survive the way to YAML and back; a variable always holds a value of
      its type; a callback of [Visit] that registers variables is undefined; which variables [LoadFromYaml]
      sets, whom it tells and where it stops; what [Lookup] answers.
    - Files and environment: what [Mkdir], [Rm] and [Mv] leave behind; exactly
      which argument lists [init] accepts; loading a directory twice changes
      nothing.
    - Sockets: a connected socket has a descriptor, whatever is called; every way
      through [connect], [bind] and [accept], with the calls in their order; the
      probe of [bind] before it unlinks a path; which descriptors [accept] takes.
    - Server: [bind], with the [listen] of each socket, is all or nothing; [start]
      and [stop] hand exactly the right closures to the pollers; the closure of
      [stop] closes every socket, but is undefined when nobody shares the lock of
      the poller's table; each client has one closure and is closed after it.
    - Concurrent vector: one thread sees a list, up to the first lock that was
      never created; concurrent pushes lose nothing as long as none has been
      undefined, and the races that make one undefined are reached; threads that
      read and set elements see a list whose calls are made one after the other.
    - Threads and daemon: the handshake of the constructor and what it does not
      order; every way through [start_daemon].
    - Echo server: a session prints exactly the bytes the client sent.

    ** What is not modelled

    Thread creation itself, the assembly of contexts by ucontext, the frames of a
    stack, the log messages of the components (but their texts are evaluated where
    they may be undefined; a failed [addEvent] is taken to log without a change of
    errno) and the epoll descriptor are I/O or calls of
    libraries; the tests are drivers.  Within the modelled parts: a
    scheduler's counters change in single steps; Scheduler takes the way of a fiber
    out of a thread as one step, and Handover, which cuts it, has one fiber, memory
    that is sequentially consistent, and no [yieldToReady]; the operations on one
    descriptor context are one step each, as they hold its lock; in a blocked or
    sleeping call [yieldToHold] is one step, and the [cancelEvent] of a timer's
    closure is the part under the lock of the context; in Hook and Socket what
    [cancelEvent] and [cancelAll] do under the lock of a context is a recorded act
    with an answer from the script, and only the lock of the table is followed; a
    listener of a variable does not call the configuration; the payload of the data
    calls of a socket is followed only in EchoServer, since the kernel's answers
    are scripts elsewhere; in ConcurrentUse, but not in ConcurrentVector, what a
    push does to the table of locks while others read that table has no step of
    its own.

    This file: the monad of outcomes, machine integers, bytes of an integer,
    lists cut in pages, what a call ensures when it returns. *)
From stdpp Require Export base list numbers strings gmap sorting.
From Stdlib Require Export ZArith Lia.

#[global] Open Scope Z_scope.

(** ** Outcomes of a C++ operation

    [Ok a s] is a normal return, [Throw e s] an exception that leaves the
    object in state [s], [Abort] a failed [assert], [Ub] undefined behaviour
    (a null dereference, an access out of bounds, a signed overflow, ...),
    [Deadlock] a mutex the calling thread already holds, [NoFuel] an
    exhausted loop bound of the model.  Every [exn] derives from
    [std::exception] but the last. *)
Inductive exn :=
| out_of_range
| length_error
| logic_error
| invalid_argument
| runtime_error
| bad_cast
| bad_weak_ptr
| foreign_exception.

Inductive res (S A : Type) :=
| Ok (a : A) (s : S)
| Throw (e : exn) (s : S)
| Abort
| Ub
| Deadlock
| NoFuel.
Arguments Ok {S A} a s.
Arguments Throw {S A} e s.
Arguments Abort {S A}.
Arguments Ub {S A}.
Arguments Deadlock {S A}.
Arguments NoFuel {S A}.

(** A stateful computation over an object of type [S]. *)
Definition M (S A : Type) : Type := S -> res S A.

Definition mreturn {S A} (a : A) : M S A := fun s => Ok a s.
Definition bind {S A B} (m : M S A) (k : A -> M S B) : M S B := fun s =>
  match m s with
  | Ok a s' => k a s'
  | Throw e s' => Throw e s'
  | Abort => Abort
  | Ub => Ub
  | Deadlock => Deadlock
  | NoFuel => NoFuel
  end.
Definition get {S} : M S S := fun s => Ok s s.
Definition gets {S A} (f : S -> A) : M S A := fun s => Ok (f s) s.
Definition modify {S} (f : S -> S) : M S unit := fun s => Ok tt (f s).
Definition throw {S A} (e : exn) : M S A := fun s => Throw e s.
Definition ub {S A} : M S A := fun _ => Ub.
Definition nofuel {S A} : M S A := fun _ => NoFuel.
(** [Assert(x)] of util/macro.h: logs and aborts when [x] is false. *)
Definition Assert {S} (x : bool) : M S unit := fun s => if x then Ok tt s else Abort.
(** Dereference of a possibly null pointer or of an index out of range. *)
Definition deref {S A} (o : option A) : M S A := fun s =>
  match o with Some a => Ok a s | None => Ub end.
(** [try { m } catch (std::exception& e) { h e }] *)
Definition try_std {S A} (m : M S A) (h : exn -> M S A) : M S A := fun s =>
  match m s with
  | Throw foreign_exception s' => Throw foreign_exception s'
  | Throw e s' => h e s'
  | r => r
  end.
(** [try { m } catch (...) { h }] *)
Definition try_any {S A} (m : M S A) (h : M S A) : M S A := fun s =>
  match m s with Throw _ s' => h s' | r => r end.
(** The value of an expression that may throw and touches no state. *)
Definition lift {S A} (r : exn + A) : M S A :=
  match r with inl e => throw e | inr a => mreturn a end.
(** [for(auto& i : l) body] *)
Fixpoint for_each {S A} (body : A -> M S unit) (l : list A) : M S unit :=
  match l with
  | [] => mreturn tt
  | x :: l => fun s => bind (body x) (fun _ => for_each body l) s
  end.
(** The same with an accumulator. *)
Fixpoint fold_each {S A B} (body : A -> B -> M S A) (l : list B) (a : A) : M S A :=
  match l with
  | [] => mreturn a
  | x :: l => fun s => bind (body a x) (fold_each body l) s
  end.

Declare Scope cpp_scope.
Delimit Scope cpp_scope with cpp.
Notation "x <-- m ;; k" := (bind m (fun x => k))
  (at level 100, m at next level, right associativity) : cpp_scope.
Notation "m ;;; k" := (bind m (fun _ => k))
  (at level 100, right associativity) : cpp_scope.
#[global] Open Scope cpp_scope.

Section monad_laws.
Context {S A B : Type}.
Implicit Types (m : M S A) (k : A -> M S B).

Lemma bind_Ok m k s a s' : m s = Ok a s' -> bind m k s = k a s'.
Proof. unfold bind. by intros ->. Qed.
Lemma bind_ext m (k1 k2 : A -> M S B) s :
  (forall a s', k1 a s' = k2 a s') -> bind m k1 s = bind m k2 s.
Proof. intros Hk. unfold bind. destruct (m s); [apply Hk|done..]. Qed.
Lemma bind_bind {C} m k (k' : B -> M S C) s :
  bind (bind m k) k' s = bind m (fun a => bind (k a) k') s.
Proof. unfold bind. by destruct (m s). Qed.
Lemma bind_Throw m k s e s' : m s = Throw e s' -> bind m k s = Throw e s'.
Proof. unfold bind. by intros ->. Qed.
Lemma bind_Ub m k s : m s = Ub -> bind m k s = Ub.
Proof. unfold bind. by intros ->. Qed.
Lemma bind_Ok_inv m k s b s'' :
  bind m k s = Ok b s'' -> exists a s', m s = Ok a s' /\ k a s' = Ok b s''.
Proof. unfold bind. destruct (m s); naive_solver. Qed.
(** A sequence does not exhaust its fuel when neither part does. *)
Lemma bind_NoFuel m k s :
  m s <> NoFuel -> (forall a s', m s = Ok a s' -> k a s' <> NoFuel) ->
  bind m k s <> NoFuel.
Proof. unfold bind. destruct (m s); naive_solver. Qed.
End monad_laws.

(** What holds after a normal return. *)
Definition ensures {S A} (m : M S A) (s : S) (Q : A -> S -> Prop) : Prop := forall a s', m s = Ok a s' -> Q a s'.

Section ensures_rules.
Context {S : Type}.

Lemma ensures_bind {A B} (m : M S A) (k : A -> M S B) s Q R :
  ensures m s Q -> (forall a s', Q a s' -> ensures (k a) s' R) -> ensures (bind m k) s R.
Proof. intros Hm Hk b s'' H. apply bind_Ok_inv in H as (a & s' & Ha & Hb). by eapply Hk; [apply Hm|]. Qed.
Lemma ensures_weaken {A} (m : M S A) s (Q R : A -> S -> Prop) :
  ensures m s Q -> (forall a s', Q a s' -> R a s') -> ensures m s R.
Proof. intros Hm H a s' E. eauto. Qed.
Lemma ensures_self {A} (m : M S A) s (Q : A -> S -> Prop) :
  ensures m s Q -> ensures m s (fun a s' => m s = Ok a s' /\ Q a s').
Proof. intros H a s' E. eauto. Qed.
Lemma ensures_and {A} (m : M S A) s (Q R : A -> S -> Prop) :
  ensures m s Q -> ensures m s R -> ensures m s (fun a s' => Q a s' /\ R a s').
Proof. intros HQ HR a s' E. eauto. Qed.
Lemma ensures_return {A} (a : A) s (Q : A -> S -> Prop) : Q a s -> ensures (mreturn a) s Q.
Proof. by intros H b s' [= <- <-]. Qed.
Lemma ensures_gets {A} (f : S -> A) s (Q : A -> S -> Prop) : Q (f s) s -> ensures (gets f) s Q.
Proof. by intros H b s' [= <- <-]. Qed.
Lemma ensures_modify f s (Q : unit -> S -> Prop) : Q tt (f s) -> ensures (modify f) s Q.
Proof. by intros H b s' [= <- <-]. Qed.

(** Loops: what holds of the elements done so far. *)
Lemma ensures_for_each {A} (body : A -> M S unit) (P : list A -> S -> Prop) l s :
  P [] s -> (forall done x s, P done s -> x ∈ l -> ensures (body x) s (fun _ s' => P (done ++ [x]) s')) ->
  ensures (for_each body l) s (fun _ s' => P l s').
Proof.
  intros H0 Hb. assert (Hgo : forall l' done s, P done s -> (forall x, x ∈ l' -> x ∈ l) ->
    ensures (for_each body l') s (fun _ s' => P (done ++ l') s')).
  { induction l' as [|x l' IH]; intros done s1 Hd Hl; [apply ensures_return; by rewrite app_nil_r|].
    change (ensures (bind (body x) (fun _ => for_each body l')) s1 (fun _ s' => P (done ++ x :: l') s')).
    eapply ensures_bind; [apply Hb; [done|]; apply Hl; by left|]. cbn. intros [] s2 H2.
    change (x :: l') with ([x] ++ l'). rewrite app_assoc. apply IH; [done|]. intros y Hy. apply Hl. by right. }
  by apply (Hgo l [] s H0).
Qed.
Lemma ensures_fold_each {A B} (body : A -> B -> M S A) (P : list B -> A -> S -> Prop) l a s :
  P [] a s -> (forall done x a s, P done a s -> ensures (body a x) s (fun a' s' => P (done ++ [x]) a' s')) ->
  ensures (fold_each body l a) s (fun a' s' => P l a' s').
Proof.
  intros H0 Hb. assert (Hgo : forall l' done a s, P done a s ->
    ensures (fold_each body l' a) s (fun a' s' => P (done ++ l') a' s')).
  { induction l' as [|x l' IH]; intros done a1 s1 Hd; [apply ensures_return; by rewrite app_nil_r|].
    change (ensures (bind (body a1 x) (fold_each body l')) s1 (fun a' s' => P (done ++ x :: l') a' s')).
    eapply ensures_bind; [by apply Hb|]. cbn. intros a2 s2 H2.
    change (x :: l') with ([x] ++ l'). rewrite app_assoc. by apply IH. }
  by apply (Hgo l [] a s H0).
Qed.
End ensures_rules.

(** Run one monadic call whose result is known. *)
Ltac mrun H :=
  first [ rewrite (bind_Ok _ _ _ _ _ H)
        | rewrite (bind_Throw _ _ _ _ _ H)
        | rewrite (bind_Ub _ _ _ H) ].

(** Case on every boolean test of the goal, turning it into arithmetic. *)
Ltac case_bool :=
  repeat match goal with
  | |- context[if ?c then _ else _] =>
      lazymatch c with
      | context[if _ then _ else _] => fail
      | _ => let E := fresh "E" in destruct c eqn:E
      end
  end.

(** ** Machine integers *)

(** The value of [z] in an unsigned type of [w] bits. *)
Definition wrap (w z : Z) : Z := z mod 2 ^ w.
(** The value of [z] in a two's complement type of [w] bits. *)
Definition swrap (w z : Z) : Z := (z + 2 ^ (w - 1)) mod 2 ^ w - 2 ^ (w - 1).
Abbreviation u64 := (wrap 64).
Abbreviation u32 := (wrap 32).
Abbreviation u16 := (wrap 16).
Abbreviation u8 := (wrap 8).
Abbreviation i32 := (swrap 32).
Abbreviation i64 := (swrap 64).

Definition is_byte (z : Z) : Prop := 0 <= z < 256.

Lemma i32_le z : 0 <= z -> i32 z <= z.
Proof. intros Hz. unfold swrap. pose proof (Z.mod_le (z + 2 ^ (32 - 1)) (2 ^ 32)). lia. Qed.
Lemma wrap_range w z : 0 <= w -> 0 <= wrap w z < 2 ^ w.
Proof. intros. apply Z.mod_pos_bound. lia. Qed.

Lemma wrap_id w z : 0 <= z < 2 ^ w -> wrap w z = z.
Proof. apply Z.mod_small. Qed.

Lemma wrap_wrap w z : wrap w (wrap w z) = wrap w z.
Proof. unfold wrap. apply Zmod_mod. Qed.

Lemma pow_split w : 0 < w -> 2 ^ w = 2 * 2 ^ (w - 1).
Proof. intros. rewrite <- Z.pow_succ_r by lia. f_equal. lia. Qed.

Lemma swrap_range w z : 0 < w -> - 2 ^ (w - 1) <= swrap w z < 2 ^ (w - 1).
Proof.
  intros Hw. unfold swrap.
  pose proof (Z.mod_pos_bound (z + 2 ^ (w - 1)) (2 ^ w)).
  pose proof (pow_split w Hw). lia.
Qed.

Lemma swrap_id w z : 0 < w -> - 2 ^ (w - 1) <= z < 2 ^ (w - 1) -> swrap w z = z.
Proof.
  intros Hw ?. unfold swrap. pose proof (pow_split w Hw).
  rewrite Z.mod_small; lia.
Qed.

Lemma swrap_wrap w z : swrap w (wrap w z) = swrap w z.
Proof. unfold swrap, wrap. by rewrite Zplus_mod_idemp_l. Qed.

Lemma wrap_swrap w z : wrap w (swrap w z) = wrap w z.
Proof.
  unfold swrap, wrap. rewrite Zminus_mod_idemp_l. f_equal. lia.
Qed.

Lemma wrap_bound w z : 0 <= w -> 0 <= z -> wrap w z <= z.
Proof. intros. apply Z.mod_le; lia. Qed.

Create HintDb cpp.
Create Rewrite HintDb cpp_int.
#[export] Hint Resolve wrap_range swrap_range : cpp.
#[export] Hint Rewrite wrap_wrap swrap_wrap wrap_swrap : cpp_int.

(** ** Bytes of an integer, least significant first *)

Fixpoint le_split (n : nat) (z : Z) : list Z :=
  match n with
  | O => []
  | S n => z mod 256 :: le_split n (z / 256)
  end.

Fixpoint le_join (l : list Z) : Z :=
  match l with
  | [] => 0
  | b :: l => b + 256 * le_join l
  end.

Lemma length_le_split n z : length (le_split n z) = n.
Proof. revert z. induction n as [|n IH]; intros; simpl; [done|]. by rewrite IH. Qed.

Lemma le_split_bytes n z : Forall is_byte (le_split n z).
Proof.
  revert z. induction n as [|n IH]; intros; constructor; [|apply IH].
  apply Z.mod_pos_bound. lia.
Qed.

Lemma pow256_S (n : nat) : 2 ^ (8 * Z.of_nat (S n)) = 256 * 2 ^ (8 * Z.of_nat n).
Proof.
  replace (8 * Z.of_nat (S n)) with (8 + 8 * Z.of_nat n) by lia.
  rewrite Z.pow_add_r by lia. reflexivity.
Qed.

Lemma le_join_split n z : le_join (le_split n z) = wrap (8 * Z.of_nat n) z.
Proof.
  unfold wrap. revert z. induction n as [|n IH]; intros z.
  - by rewrite Z.mod_1_r.
  - cbn [le_split le_join]. rewrite IH, pow256_S.
    rewrite Z.rem_mul_r by lia. lia.
Qed.

Lemma le_split_join l : Forall is_byte l -> le_split (length l) (le_join l) = l.
Proof.
  induction 1 as [|b l Hb Hl IH]; [done|]. cbn [length le_split le_join].
  red in Hb. f_equal.
  - rewrite Z.mul_comm, Z_mod_plus_full. by apply Z.mod_small.
  - rewrite Z.mul_comm, Z.div_add by lia.
    rewrite Z.div_small by lia. by rewrite Z.add_0_l.
Qed.

Lemma le_join_range l :
  Forall is_byte l -> 0 <= le_join l < 2 ^ (8 * Z.of_nat (length l)).
Proof.
  induction 1 as [|b l Hb Hl IH]; [done|]. cbn [length le_join].
  rewrite pow256_S. red in Hb. lia.
Qed.

#[export] Hint Resolve le_split_bytes : cpp.

(** ** Lists updated in place *)

(** [splice l i r]: [l] with [r] copied over it from index [i] on, the effect
    of a [memcpy] of [r]; it may extend [l]. *)
Definition splice {A} (l : list A) (i : nat) (r : list A) : list A :=
  take i l ++ r ++ drop (i + length r) l.

(** [slice l i n]: the [n] elements of [l] from index [i] on. *)
Definition slice {A} (l : list A) (i n : nat) : list A := take n (drop i l).

Section list_update.
Context {A : Type}.
Implicit Types (l r : list A) (i j n : nat).

Lemma length_splice l i r :
  (i <= length l)%nat -> length (splice l i r) = (length l `max` (i + length r))%nat.
Proof.
  intros. unfold splice. rewrite !length_app, length_take, length_drop. lia.
Qed.

Lemma length_slice l i n : length (slice l i n) = (n `min` (length l - i))%nat.
Proof. unfold slice. by rewrite length_take, length_drop. Qed.

Lemma splice_nil l i : splice l i [] = l.
Proof. unfold splice. simpl. rewrite Nat.add_0_r. apply take_drop. Qed.

Lemma splice_app l i r1 r2 :
  (i <= length l)%nat ->
  splice (splice l i r1) (i + length r1) r2 = splice l i (r1 ++ r2).
Proof.
  intros Hi. unfold splice. rewrite length_app.
  rewrite (app_assoc (take i l) r1).
  set (h := take i l ++ r1).
  assert (length h = (i + length r1)%nat) as Hlen
    by (unfold h; rewrite length_app, length_take; lia).
  rewrite <- Hlen, take_app_length.
  rewrite drop_app_ge by lia. rewrite drop_drop, Hlen.
  unfold h. rewrite <- !app_assoc. do 4 f_equal. lia.
Qed.

Lemma slice_app l i n m : slice l i (n + m) = slice l i n ++ slice l (i + n) m.
Proof.
  unfold slice. rewrite <- (take_drop n (take (n + m) (drop i l))) at 1.
  rewrite take_take, Nat.min_l by lia. f_equal.
  by rewrite <- take_drop_commute, drop_drop.
Qed.

Lemma slice_splice l i r : (i <= length l)%nat -> slice (splice l i r) i (length r) = r.
Proof.
  intros. unfold slice, splice.
  rewrite drop_app_ge by (rewrite length_take; lia).
  rewrite length_take, Nat.min_l, Nat.sub_diag, drop_0 by lia.
  rewrite take_app_le, take_ge by lia. done.
Qed.

Lemma slice_take l i n k : (i + n <= k)%nat -> slice (take k l) i n = slice l i n.
Proof.
  intros. unfold slice. rewrite !take_drop_commute, take_take.
  do 2 f_equal. lia.
Qed.
End list_update.

(** ** Lists cut in pages of equal length *)

Section pages.
Context {A : Type}.
Implicit Types (l a c r : list A) (ls : list (list A)).

Lemma splice_middle a l c off r :
  (off + length r <= length l)%nat ->
  splice (a ++ l ++ c) (length a + off) r = a ++ splice l off r ++ c.
Proof.
  intros Hr. unfold splice.
  rewrite take_app_ge by lia. rewrite drop_app_ge by lia.
  replace (length a + off - length a)%nat with off by lia.
  replace (length a + off + length r - length a)%nat with (off + length r)%nat by lia.
  rewrite take_app_le by lia. rewrite drop_app_le by lia.
  by rewrite <- !app_assoc.
Qed.

Lemma slice_middle a l c off n :
  (off + n <= length l)%nat ->
  slice (a ++ l ++ c) (length a + off) n = slice l off n.
Proof.
  intros Hr. unfold slice. rewrite drop_app_ge by lia.
  replace (length a + off - length a)%nat with off by lia.
  rewrite drop_app_le by lia. apply take_app_le. rewrite length_drop. lia.
Qed.

Lemma length_concat_pages ls B :
  Forall (fun l => length l = B) ls -> length (concat ls) = (length ls * B)%nat.
Proof.
  induction 1 as [|l ls Hl Hls IH]; [done|].
  simpl. rewrite length_app. lia.
Qed.

Lemma concat_page ls B k l :
  Forall (fun l => length l = B) ls -> ls !! k = Some l ->
  concat ls = concat (take k ls) ++ l ++ concat (drop (S k) ls)
  /\ length (concat (take k ls)) = (k * B)%nat.
Proof.
  intros Hls Hk. split.
  - rewrite <- (take_drop_middle ls k l Hk) at 1.
    by rewrite concat_app.
  - pose proof (lookup_lt_Some _ _ _ Hk).
    rewrite (length_concat_pages _ B) by (by apply Forall_take).
    rewrite length_take. by rewrite Nat.min_l by lia.
Qed.

(** Writing inside page [k] writes at [k * B + off] of the flat memory. *)
Lemma concat_insert_splice ls B k l off r :
  Forall (fun l => length l = B) ls -> ls !! k = Some l ->
  (off + length r <= B)%nat ->
  concat (<[k := splice l off r]> ls) = splice (concat ls) (k * B + off) r.
Proof.
  intros Hls Hk Hoff. pose proof (lookup_lt_Some _ _ _ Hk).
  destruct (concat_page ls B k l Hls Hk) as [-> Hlen].
  rewrite <- Hlen, splice_middle.
  - rewrite insert_take_drop by done. by rewrite concat_app.
  - by rewrite (Forall_lookup_1 _ _ _ _ Hls Hk).
Qed.

Lemma concat_slice ls B k l off n :
  Forall (fun l => length l = B) ls -> ls !! k = Some l ->
  (off + n <= B)%nat ->
  slice (concat ls) (k * B + off) n = slice l off n.
Proof.
  intros Hls Hk Hoff.
  destruct (concat_page ls B k l Hls Hk) as [-> Hlen].
  rewrite <- Hlen, slice_middle; [done|].
  by rewrite (Forall_lookup_1 _ _ _ _ Hls Hk).
Qed.
End pages.

Lemma take_splice {A} (l r : list A) i k :
  (i <= k <= length l)%nat -> take (k `max` (i + length r)) (splice l i r) = splice (take k l) i r.
Proof.
  intros Hk. unfold splice. rewrite take_take, Nat.min_l by lia.
  rewrite take_app_ge by (rewrite length_take; lia).
  rewrite length_take, Nat.min_l by lia. f_equal.
  rewrite take_app_ge by lia. f_equal. rewrite take_drop_commute.
  destruct (decide (i + length r <= k)%nat); [do 2 f_equal; lia|].
  rewrite !drop_ge; [done|rewrite length_take; lia..].
Qed.

Lemma splice_app_l {A} (l1 l2 r : list A) i :
  (i + length r <= length l1)%nat -> splice (l1 ++ l2) i r = splice l1 i r ++ l2.
Proof.
  intros Hr. unfold splice. rewrite take_app_le, drop_app_le by lia.
  by rewrite <- !app_assoc.
Qed.

Lemma take_splice_before {A} (l r : list A) i n :
  (n <= i)%nat -> (n <= length l)%nat -> take n (splice l i r) = take n l.
Proof.
  intros Hi Hn. unfold splice. rewrite take_app_le by (rewrite length_take; lia).
  by rewrite take_take, Nat.min_l by lia.
Qed.
