(* ===== verification/Endian.v ===== *)
(** * Byte order (src/src/socket/endian.h)

    The fixed-width C++ integer types, their object representation on the
    target, and the [byteswap] family.  The byte order of the target is a
    parameter, the class [Target]: the two branches of the header's
    [#if SYLAR_BYTE_ORDER == SYLAR_BIG_ENDIAN] are the two instances. *)
From S2P Require Import Prelude.

Definition SYLAR_LITTLE_ENDIAN : Z := 1.
Definition SYLAR_BIG_ENDIAN : Z := 2.

(** Whether [BYTE_ORDER == BIG_ENDIAN] when the program is compiled. *)
Class Target := target_big_endian : bool.

Definition little_endian_target : Target := false.
Definition big_endian_target : Target := true.

Definition SYLAR_BYTE_ORDER `{Target} : Z :=
  if target_big_endian then SYLAR_BIG_ENDIAN else SYLAR_LITTLE_ENDIAN.

(** A fixed-width integer type: its [sizeof] and whether it is signed. *)
Record ctype := CType { ct_size : nat; ct_signed : bool }.
Definition int8_t := CType 1 true.
Definition uint8_t := CType 1 false.
Definition int16_t := CType 2 true.
Definition uint16_t := CType 2 false.
Definition int32_t := CType 4 true.
Definition uint32_t := CType 4 false.
Definition int64_t := CType 8 true.
Definition uint64_t := CType 8 false.

Definition ct_width (T : ctype) : Z := 8 * Z.of_nat (ct_size T).

(** Conversion of an integer to [T]. *)
Definition cast (T : ctype) (z : Z) : Z :=
  if ct_signed T then swrap (ct_width T) z else wrap (ct_width T) z.

(** The values of [T]. *)
Definition in_range (T : ctype) (z : Z) : Prop :=
  if ct_signed T then - 2 ^ (ct_width T - 1) <= z < 2 ^ (ct_width T - 1)
  else 0 <= z < 2 ^ ct_width T.

(** [bswap_16], [bswap_32], [bswap_64] of <byteswap.h>: the [n] bytes of an
    unsigned value in reverse order. *)
Definition bswap (n : nat) (z : Z) : Z := le_join (reverse (le_split n z)).

(** [template<class T> byteswap(T value)]: [(T)bswap_N((uintN_t)value)]. *)
Definition byteswap (T : ctype) (value : Z) : Z :=
  cast T (bswap (ct_size T) (wrap (ct_width T) value)).

Definition byteswapOnLittleEndian `{Target} (T : ctype) (t : Z) : Z :=
  if target_big_endian then t else byteswap T t.

Definition byteswapOnBigEndian `{Target} (T : ctype) (t : Z) : Z :=
  if target_big_endian then byteswap T t else t.

(** The bytes of the object representation of [v : T] in increasing addresses,
    and the value an object with given bytes has. *)
Definition obj_bytes `{Target} (T : ctype) (v : Z) : list Z :=
  if target_big_endian then reverse (le_split (ct_size T) v)
  else le_split (ct_size T) v.

Definition obj_value `{Target} (T : ctype) (l : list Z) : Z :=
  cast T (le_join (if target_big_endian then reverse l else l)).

(** ** Facts *)

Lemma cast_wrap T z : cast T (wrap (ct_width T) z) = cast T z.
Proof. unfold cast. destruct (ct_signed T); by autorewrite with cpp_int. Qed.

Lemma wrap_cast T z : wrap (ct_width T) (cast T z) = wrap (ct_width T) z.
Proof. unfold cast. destruct (ct_signed T); by autorewrite with cpp_int. Qed.

Lemma cast_id T z : (0 < ct_size T)%nat -> in_range T z -> cast T z = z.
Proof.
  unfold cast, in_range, ct_width. intros.
  destruct (ct_signed T); [apply swrap_id; lia | by apply wrap_id].
Qed.

Lemma le_split_wrap n z : le_split n (wrap (8 * Z.of_nat n) z) = le_split n z.
Proof.
  rewrite <- le_join_split.
  rewrite <- (length_le_split n z) at 1. apply le_split_join, le_split_bytes.
Qed.

Lemma le_split_cast T z : le_split (ct_size T) (cast T z) = le_split (ct_size T) z.
Proof.
  rewrite <- (le_split_wrap _ (cast T z)). fold (ct_width T).
  rewrite wrap_cast. apply le_split_wrap.
Qed.

Lemma Forall_reverse_bytes l : Forall is_byte l -> Forall is_byte (reverse l).
Proof. by rewrite Forall_reverse. Qed.
#[export] Hint Resolve Forall_reverse_bytes : cpp.

(** The bytes of a swapped value are the bytes of the value reversed. *)
Lemma le_split_byteswap T v :
  le_split (ct_size T) (byteswap T v) = reverse (le_split (ct_size T) v).
Proof.
  unfold byteswap, bswap. rewrite le_split_cast.
  unfold ct_width at 1. rewrite le_split_wrap.
  set (l := le_split (ct_size T) v).
  assert (length (reverse l) = ct_size T) as Hlen
    by (by rewrite length_reverse; apply length_le_split).
  rewrite <- Hlen at 1. apply le_split_join, Forall_reverse_bytes, le_split_bytes.
Qed.

Section object_representation.
Context `{Target}.

Lemma length_obj_bytes T v : length (obj_bytes T v) = ct_size T.
Proof.
  unfold obj_bytes. destruct target_big_endian; rewrite ?length_reverse;
    apply length_le_split.
Qed.

Lemma obj_bytes_bytes T v : Forall is_byte (obj_bytes T v).
Proof. unfold obj_bytes. destruct target_big_endian; auto with cpp. Qed.

(** Reading back the object representation of a value gives the value. *)
Lemma obj_value_bytes T v : obj_value T (obj_bytes T v) = cast T v.
Proof.
  unfold obj_value, obj_bytes.
  destruct target_big_endian; rewrite ?reverse_involutive, le_join_split;
    apply cast_wrap.
Qed.

Lemma obj_bytes_byteswap T v : obj_bytes T (byteswap T v) = reverse (obj_bytes T v).
Proof.
  unfold obj_bytes. destruct target_big_endian; by rewrite le_split_byteswap.
Qed.

Lemma obj_value_reverse T l :
  Forall is_byte l -> length l = ct_size T ->
  byteswap T (obj_value T (reverse l)) = obj_value T l.
Proof.
  intros Hl Hlen. unfold byteswap, obj_value.
  rewrite wrap_cast. unfold bswap. unfold ct_width. rewrite le_split_wrap.
  destruct target_big_endian.
  - rewrite reverse_involutive. rewrite <- Hlen, le_split_join by done. done.
  - rewrite <- Hlen, <- (length_reverse l).
    rewrite le_split_join by auto with cpp. by rewrite reverse_involutive.
Qed.

(** On either target [byteswapOnLittleEndian] produces network byte order:
    most significant byte at the lowest address. *)
Lemma obj_bytes_network T v :
  obj_bytes T (byteswapOnLittleEndian T v) = reverse (le_split (ct_size T) v).
Proof.
  unfold byteswapOnLittleEndian, obj_bytes.
  destruct target_big_endian; [done|]. apply le_split_byteswap.
Qed.

Lemma byteswap_involutive T v :
  (0 < ct_size T)%nat -> in_range T v -> byteswap T (byteswap T v) = v.
Proof.
  intros Hs Hr. unfold byteswap at 1, bswap.
  unfold ct_width. rewrite le_split_wrap, le_split_byteswap, reverse_involutive.
  rewrite le_join_split. fold (ct_width T). rewrite cast_wrap. by apply cast_id.
Qed.

Lemma byteswapOnLittleEndian_involutive T v :
  (0 < ct_size T)%nat -> in_range T v ->
  byteswapOnLittleEndian T (byteswapOnLittleEndian T v) = v.
Proof.
  unfold byteswapOnLittleEndian. destruct target_big_endian; [done|].
  apply byteswap_involutive.
Qed.
End object_representation.
