(* ===== verification/Double.v ===== *)
(** * The double arithmetic of the capacity computation

    [ByteArray::addCapacity] computes the number of nodes to append as
    [ceil(1.0 * size / m_baseSize)], in binary64 arithmetic.  This file gives
    the rounding of that expression as integer arithmetic (positive operands,
    round to nearest, ties to even, 53-bit mantissa) and shows that below 2^53
    the result is the integer ceiling. *)
From S2P Require Import Prelude.

(** The integer ceiling of a quotient. *)
Definition cdiv (n d : Z) : Z := - ((- n) / d).

(** The integer nearest to [n/d], ties to even. *)
Definition round_even (n d : Z) : Z :=
  let q := n / d in
  let r := n mod d in
  if 2 * r <? d then q
  else if d <? 2 * r then q + 1
  else if Z.even q then q else q + 1.

(** [n/d * 2^-e] as a fraction. *)
Definition scale (n d e : Z) : Z * Z :=
  if 0 <=? e then (n, d * 2 ^ e) else (n * 2 ^ (- e), d).

(** The binary64 number nearest to [n/d]: mantissa and exponent. *)
Definition binary64 (n d : Z) : Z * Z :=
  let e0 := Z.log2 n - Z.log2 d - 53 in
  let '(n0, d0) := scale n d e0 in
  let e := if 2 ^ 53 * d0 <=? n0 then e0 + 1 else e0 in
  let '(n1, d1) := scale n d e in
  (round_even n1 d1, e).

(** Conversion of a positive integer to double; the result is an integer. *)
Definition double_of_Z (n : Z) : Z :=
  let '(m, e) := binary64 n 1 in
  if 0 <=? e then m * 2 ^ e else m / 2 ^ (- e).

(** [ceil(1.0 * size / base)] for [0 < size], [0 < base], converted to
    [size_t]; [None] when the double is out of the range of [size_t]. *)
Definition ceil_quotient (size base : Z) : option Z :=
  let '(m, e) := binary64 (double_of_Z size) (double_of_Z base) in
  let c := if 0 <=? e then m * 2 ^ e else cdiv m (2 ^ (- e)) in
  if c <? 2 ^ 64 then Some c else None.

(** ** Facts *)

Lemma cdiv_unique n d c : 0 < d -> (c - 1) * d < n <= c * d -> cdiv n d = c.
Proof.
  intros Hd Hc. unfold cdiv.
  rewrite <- (Z.div_unique (- n) d (- c) (c * d - n)); lia.
Qed.

Lemma cdiv_spec n d : 0 < d -> (cdiv n d - 1) * d < n <= cdiv n d * d.
Proof.
  intros Hd. unfold cdiv.
  pose proof (Z.div_mod (- n) d ltac:(lia)).
  pose proof (Z.mod_pos_bound (- n) d Hd). nia.
Qed.

Lemma round_even_bound n d : 0 < d -> - d <= 2 * n - 2 * d * round_even n d <= d.
Proof.
  intros Hd. unfold round_even.
  pose proof (Z.div_mod n d ltac:(lia)).
  pose proof (Z.mod_pos_bound n d Hd).
  destruct (Z.ltb_spec (2 * (n mod d)) d); [nia|].
  destruct (Z.ltb_spec d (2 * (n mod d))); [nia|].
  destruct (Z.even _); nia.
Qed.

Lemma round_even_le n d c : 0 < d -> n <= c * d -> round_even n d <= c.
Proof. intros Hd ?. pose proof (round_even_bound n d Hd). nia. Qed.

Lemma round_even_exact c d : 0 < d -> round_even (c * d) d = c.
Proof.
  intros Hd. pose proof (round_even_bound (c * d) d Hd).
  assert (2 * (c - round_even (c * d) d) <= 1) by nia.
  assert (-1 <= 2 * (c - round_even (c * d) d)) by nia. lia.
Qed.

Lemma scale_pos n d e : 0 < n -> 0 < d -> 0 < (scale n d e).1 /\ 0 < (scale n d e).2.
Proof.
  intros. unfold scale.
  destruct (Z.leb_spec 0 e); simpl; split; try done; apply Z.mul_pos_pos; lia.
Qed.

Lemma scale_succ n d e :
  (scale n d (e + 1)).1 * (2 * (scale n d e).2)
  = (scale n d e).1 * (scale n d (e + 1)).2.
Proof.
  unfold scale.
  destruct (Z.leb_spec 0 e); destruct (Z.leb_spec 0 (e + 1)); simpl; try lia.
  - rewrite Z.pow_add_r by lia. lia.
  - replace e with (-1) by lia. simpl. lia.
  - replace (- e) with (Z.succ (- (e + 1))) by lia.
    rewrite Z.pow_succ_r by lia. lia.
Qed.

(** The normalisation: before rounding the fraction is at least 2^52. *)
Lemma scale_log n d :
  0 < n -> 0 < d ->
  let e0 := Z.log2 n - Z.log2 d - 53 in
  2 ^ 52 * (scale n d e0).2 <= (scale n d e0).1.
Proof.
  intros Hn Hd e0. pose proof (Z.log2_spec n Hn) as [Hn1 _].
  pose proof (Z.log2_spec d Hd) as [_ Hd2].
  pose proof (Z.log2_nonneg d). pose proof (Z.log2_nonneg n).
  unfold scale. destruct (Z.leb_spec 0 e0); simpl.
  - assert (2 ^ Z.log2 n = 2 ^ 52 * 2 ^ Z.succ (Z.log2 d) * 2 ^ e0) as E.
    { rewrite <- !Z.pow_add_r by lia. f_equal. lia. }
    assert (0 < 2 ^ e0) by lia. nia.
  - assert (2 ^ Z.log2 n * 2 ^ (- e0) = 2 ^ 52 * 2 ^ Z.succ (Z.log2 d)) as E.
    { rewrite <- !Z.pow_add_r by lia. f_equal. lia. }
    assert (0 < 2 ^ (- e0)) by lia. nia.
Qed.

Lemma binary64_spec n d :
  0 < n -> 0 < d ->
  exists e, binary64 n d = (round_even (scale n d e).1 (scale n d e).2, e)
    /\ 2 ^ 52 * (scale n d e).2 <= (scale n d e).1.
Proof.
  intros Hn Hd. unfold binary64. set (e0 := _ - 53).
  pose proof (scale_log n d Hn Hd) as H0. fold e0 in H0. cbn zeta in H0.
  pose proof (scale_succ n d e0) as Hs.
  pose proof (scale_pos n d e0 Hn Hd) as [? ?].
  pose proof (scale_pos n d (e0 + 1) Hn Hd) as [? ?].
  destruct (scale n d e0) as [n0 d0] eqn:E0. cbn [fst snd] in *.
  destruct (Z.leb_spec (2 ^ 53 * d0) n0) as [Hle|Hlt].
  - exists (e0 + 1). destruct (scale n d (e0 + 1)) as [n1 d1]. cbn [fst snd] in *.
    split; [done|]. nia.
  - exists e0. by rewrite E0.
Qed.

Lemma double_of_Z_exact n : 0 < n < 2 ^ 53 -> double_of_Z n = n.
Proof.
  intros Hn. unfold double_of_Z.
  destruct (binary64_spec n 1) as (e & -> & He); [lia..|].
  unfold scale in *. destruct (Z.leb_spec 0 e); cbn [fst snd] in *.
  - assert (2 ^ e < 2 ^ 1) as Hlt by nia.
    apply Z.pow_lt_mono_r_iff in Hlt; [|lia..].
    assert (e = 0) as -> by lia.
    rewrite <- (Z.mul_1_r n) at 1. rewrite round_even_exact by lia. lia.
  - rewrite <- (Z.mul_1_r (_ * _)) at 1. rewrite round_even_exact by lia.
    apply Z.div_mul. lia.
Qed.

(** Below 2^53 the double expression is the integer ceiling. *)
Lemma ceil_quotient_exact size base :
  0 < size < 2 ^ 53 -> 0 < base < 2 ^ 53 ->
  ceil_quotient size base = Some (cdiv size base).
Proof.
  intros Hs Hb. unfold ceil_quotient. rewrite !double_of_Z_exact by done.
  pose proof (cdiv_spec size base ltac:(lia)) as Hc.
  set (c := cdiv size base) in *.
  assert (c < 2 ^ 64) as Hc64 by nia.
  destruct (binary64_spec size base) as (e & -> & He); [lia..|].
  unfold scale in *. destruct (Z.leb_spec 0 e); cbn [fst snd] in *.
  - assert (base = 1 /\ 2 ^ e = 1) as [-> E] by nia.
    rewrite E. rewrite <- (Z.mul_1_r size). rewrite round_even_exact by lia.
    replace (size * 1) with c by lia.
    by destruct (Z.ltb_spec c (2 ^ 64)); [|lia].
  - set (s := 2 ^ (- e)) in *. assert (0 < s) by (unfold s; lia).
    assert (cdiv (round_even (size * s) base) s = c) as ->.
    { apply cdiv_unique; [done|].
      pose proof (round_even_bound (size * s) base ltac:(lia)).
      split; [|apply round_even_le; nia].
      assert (base < 2 * s) by nia.
      assert (2 * base * ((c - 1) * s) < 2 * base * round_even (size * s) base)
        by nia. nia. }
    by destruct (Z.ltb_spec c (2 ^ 64)); [|lia].
Qed.
