(* ===== verification/ByteArray.v ===== *)
(** * ByteArray: the paged byte buffer (src/src/socket/bytearray.h, bytearray.cpp)

    State and operations of class [ByteArray]: the linked list of nodes, the
    cursor, [write], [read], [setPosition], [clear], the capacity computation,
    the scatter/gather views and the file operations.  The typed codecs are in
    ByteArrayCodec.

    The list reachable from [m_root] is a Rocq list: nodes are only appended
    at its tail and removed by [clear], so the pointer [m_cur] is an index into
    it, [None] being [nullptr].  A byte of memory is [Some b], or [None] while
    it is indeterminate ([new char\[s\]] does not initialise).  Memory is never
    exhausted in the model: [new] succeeds. *)
From S2P Require Import Prelude Endian Double.

Abbreviation cell := (option Z).

(** [struct ByteArray::Node]; its [next] is its successor in [m_nodes]. *)
Record Node := mkNode { nsize : Z; ndata : list cell }.

(** [Node::Node(size_t s)] *)
Definition new_Node (s : Z) : Node := mkNode s (replicate (Z.to_nat s) None).

Record ByteArray := mkByteArray {
  m_baseSize : Z;
  m_position : Z;
  m_capacity : Z;
  m_size : Z;
  m_endian : Z;
  m_nodes : list Node;   (* the list that starts at m_root *)
  m_cur : option nat
}.

Definition set_position (v : Z) (b : ByteArray) : ByteArray :=
  mkByteArray (m_baseSize b) v (m_capacity b) (m_size b) (m_endian b) (m_nodes b) (m_cur b).
Definition set_capacity (v : Z) (b : ByteArray) : ByteArray :=
  mkByteArray (m_baseSize b) (m_position b) v (m_size b) (m_endian b) (m_nodes b) (m_cur b).
Definition set_size (v : Z) (b : ByteArray) : ByteArray :=
  mkByteArray (m_baseSize b) (m_position b) (m_capacity b) v (m_endian b) (m_nodes b) (m_cur b).
Definition set_endian (v : Z) (b : ByteArray) : ByteArray :=
  mkByteArray (m_baseSize b) (m_position b) (m_capacity b) (m_size b) v (m_nodes b) (m_cur b).
Definition set_nodes (v : list Node) (b : ByteArray) : ByteArray :=
  mkByteArray (m_baseSize b) (m_position b) (m_capacity b) (m_size b) (m_endian b) v (m_cur b).
Definition set_cur (v : option nat) (b : ByteArray) : ByteArray :=
  mkByteArray (m_baseSize b) (m_position b) (m_capacity b) (m_size b) (m_endian b) (m_nodes b) v.

(** [ByteArray::ByteArray(size_t base_size)] *)
Definition new_ByteArray (base_size : Z) : ByteArray :=
  mkByteArray base_size 0 base_size 0 SYLAR_BIG_ENDIAN [new_Node base_size] (Some 0%nat).

Definition getReadSize (b : ByteArray) : Z := u64 (m_size b - m_position b).
Definition getCapacity (b : ByteArray) : Z := u64 (m_capacity b - m_size b).

(** ** Pointers *)

(** [p->next]; the outer [None] is the dereference of a null [p]. *)
Definition next_of (b : ByteArray) (p : option nat) : option (option nat) :=
  match p with
  | Some k => if decide (k < length (m_nodes b))%nat
              then Some (if decide (S k < length (m_nodes b))%nat then Some (S k) else None)
              else None
  | None => None
  end.

(** [p->size] *)
Definition size_of (b : ByteArray) (p : option nat) : option Z :=
  match p with
  | Some k => nsize <$> m_nodes b !! k
  | None => None
  end.

(** The [n] bytes at [p->data + off]; [None] outside the allocation. *)
Definition load (b : ByteArray) (p : option nat) (off n : Z) : option (list cell) :=
  match p with
  | Some k =>
      match m_nodes b !! k with
      | Some nd => if (0 <=? off) && (0 <=? n) && (off + n <=? Z.of_nat (length (ndata nd)))
                   then Some (slice (ndata nd) (Z.to_nat off) (Z.to_nat n))
                   else None
      | None => None
      end
  | None => None
  end.

(** [memcpy(p->data + off, bs, size)]; [None] outside the allocation. *)
Definition store (b : ByteArray) (p : option nat) (off : Z) (bs : list Z) : option ByteArray :=
  match p with
  | Some k =>
      match m_nodes b !! k with
      | Some nd => if (0 <=? off) && (off + Z.of_nat (length bs) <=? Z.of_nat (length (ndata nd)))
                   then Some (set_nodes (<[k := mkNode (nsize nd)
                          (splice (ndata nd) (Z.to_nat off) (Some <$> bs))]> (m_nodes b)) b)
                   else None
      | None => None
      end
  | None => None
  end.

(** [m_cur->size] *)
Definition cur_size : M ByteArray Z := fun b => deref (size_of b (m_cur b)) b.
(** [m_cur = m_cur->next] *)
Definition advance_cur : M ByteArray unit := fun b =>
  match next_of b (m_cur b) with
  | Some p => Ok tt (set_cur p b)
  | None => Ub
  end.
Definition memcpy_in (off : Z) (bs : list Z) : M ByteArray unit := fun b =>
  match store b (m_cur b) off bs with
  | Some b' => Ok tt b'
  | None => Ub
  end.
Definition memcpy_out (p : option nat) (off n : Z) : M ByteArray (list cell) := fun b =>
  deref (load b p off n) b.

(** ** Capacity *)

(** The [for] loop of [addCapacity]: [num] nodes appended at the tail, [first]
    the first of them. *)
Fixpoint addCapacity_loop (num : nat) (first : option nat) (b : ByteArray)
  : option nat * ByteArray :=
  match num with
  | O => (first, b)
  | S num =>
      let new := length (m_nodes b) in
      let b1 := set_nodes (m_nodes b ++ [new_Node (m_baseSize b)]) b in
      let first := match first with None => Some new | Some _ => first end in
      addCapacity_loop num first (set_capacity (u64 (m_capacity b1 + m_baseSize b1)) b1)
  end.

Definition ByteArray_addCapacity (size : Z) : M ByteArray unit := fun b =>
  if size =? 0 then Ok tt b else
  let _cap := getCapacity b in
  if size <=? _cap then Ok tt b else
  let size := size - _cap in
  if m_baseSize b =? 0 then Ub else (* ceil of an infinity as size_t *)
  match ceil_quotient size (m_baseSize b) with
  | None => Ub
  | Some num =>
      let '(first, b1) := addCapacity_loop (Z.to_nat num) None b in
      Ok tt (if _cap =? 0 then set_cur first b1 else b1)
  end.

(** Loop bound of the loops that walk the list: each turn but the last two
    moves to the next node. *)
Definition walk_fuel (b : ByteArray) : nat := S (S (length (m_nodes b))).

(** [pos % m_baseSize]; a division by zero is undefined. *)
Definition page_offset (pos : Z) : M ByteArray Z := fun b =>
  if m_baseSize b =? 0 then Ub else Ok (pos mod m_baseSize b) b.

(** ** write *)

Fixpoint write_loop (fuel : nat) (buf : list Z) (npos ncap bpos size : Z) : M ByteArray unit :=
  match fuel with
  | O => nofuel
  | S fuel =>
      if 0 <? size then
        if size <=? ncap then
          memcpy_in npos (slice buf (Z.to_nat bpos) (Z.to_nat size)) ;;;
          (if ncap - size =? 0 then advance_cur else mreturn tt) ;;;
          modify (fun b => set_position (u64 (m_position b + size)) b) ;;;
          write_loop fuel buf npos (ncap - size) (bpos + size) 0
        else
          memcpy_in npos (slice buf (Z.to_nat bpos) (Z.to_nat ncap)) ;;;
          modify (fun b => set_position (u64 (m_position b + ncap)) b) ;;;
          advance_cur ;;;
          ncap' <-- cur_size ;;
          write_loop fuel buf 0 ncap' (bpos + ncap) (size - ncap)
      else mreturn tt
  end.

(** [ByteArray::write(const void* buf, size_t size)], [size] the length of [buf]. *)
Definition ByteArray_write (buf : list Z) : M ByteArray unit :=
  let size := Z.of_nat (length buf) in
  if size <=? 0 then mreturn tt else
  ByteArray_addCapacity size ;;;
  pos <-- gets m_position ;;
  npos <-- page_offset pos ;;
  csize <-- cur_size ;;
  fuel <-- gets walk_fuel ;;
  write_loop fuel buf npos (u64 (csize - npos)) 0 size ;;;
  modify (fun b => if m_size b <? m_position b then set_size (m_position b) b else b).

(** ** read *)

Fixpoint read_loop (fuel : nat) (npos ncap size : Z) (out : list cell) : M ByteArray (list cell) :=
  match fuel with
  | O => nofuel
  | S fuel =>
      if 0 <? size then
        if size <=? ncap then
          p <-- gets m_cur ;;
          l <-- memcpy_out p npos size ;;
          (if size =? ncap then advance_cur else mreturn tt) ;;;
          modify (fun b => set_position (u64 (m_position b + size)) b) ;;;
          read_loop fuel npos ncap 0 (out ++ l)
        else
          p <-- gets m_cur ;;
          l <-- memcpy_out p npos ncap ;;
          advance_cur ;;;
          modify (fun b => set_position (u64 (m_position b + ncap)) b) ;;;
          ncap' <-- cur_size ;;
          read_loop fuel 0 ncap' (size - ncap) (out ++ l)
      else mreturn out
  end.

(** [ByteArray::read(void* buf, size_t size)]; the result is what is copied to [buf]. *)
Definition ByteArray_read (size : Z) : M ByteArray (list cell) :=
  avail <-- gets getReadSize ;;
  if avail <? size then throw out_of_range else
  pos <-- gets m_position ;;
  npos <-- page_offset pos ;;
  csize <-- cur_size ;;
  fuel <-- gets walk_fuel ;;
  read_loop fuel npos (u64 (csize - npos)) size [].

(** The loop of the [const] overload, on the local pointer [cur]. *)
Fixpoint read_at_loop (fuel : nat) (cur : option nat) (npos ncap size : Z) (out : list cell)
  : M ByteArray (list cell) :=
  match fuel with
  | O => nofuel
  | S fuel =>
      if 0 <? size then
        if size <=? ncap then
          l <-- memcpy_out cur npos size ;;
          cur' <-- (if size =? ncap then (fun b => deref (next_of b cur) b) else mreturn cur) ;;
          read_at_loop fuel cur' npos ncap 0 (out ++ l)
        else
          l <-- memcpy_out cur npos ncap ;;
          cur' <-- (fun b => deref (next_of b cur) b) ;;
          ncap' <-- (fun b => deref (size_of b cur') b) ;;
          read_at_loop fuel cur' 0 ncap' (size - ncap) (out ++ l)
      else mreturn out
  end.

(** [ByteArray::read(void* buf, size_t size, size_t st) const] *)
Definition ByteArray_read_at (size st : Z) : M ByteArray (list cell) :=
  msize <-- gets m_size ;;
  if u64 (msize - st) <? size then throw out_of_range else
  npos <-- page_offset st ;;
  csize <-- cur_size ;;
  cur <-- gets m_cur ;;
  fuel <-- gets walk_fuel ;;
  read_at_loop fuel cur npos (u64 (csize - npos)) size [].

(** ** Positioning *)

Fixpoint setPosition_loop (fuel : nat) (v : Z) : M ByteArray unit :=
  match fuel with
  | O => nofuel
  | S fuel =>
      csize <-- cur_size ;;
      if csize <=? v then
        advance_cur ;;;
        setPosition_loop fuel (v - csize)
      else mreturn tt
  end.

(** [ByteArray::setPosition(size_t v)] *)
Definition ByteArray_setPosition (v : Z) : M ByteArray unit :=
  cap <-- gets m_capacity ;;
  if cap <? v then throw out_of_range else
  modify (set_position v) ;;;
  modify (fun b => if m_size b <? m_position b then set_size (m_position b) b else b) ;;;
  modify (set_cur (Some 0%nat)) ;;;
  fuel <-- gets walk_fuel ;;
  setPosition_loop fuel v.

(** [ByteArray::clear()] *)
Definition ByteArray_clear : M ByteArray unit := fun b =>
  match m_nodes b with
  | root :: _ => Ok tt (mkByteArray (m_baseSize b) 0 (m_baseSize b) 0 (m_endian b)
                          [root] (Some 0%nat))
  | [] => Ub
  end.

(** [ByteArray::~ByteArray()]: the loop that deletes the nodes from [m_root] on;
    the result is the nodes deleted, in order, each with its data
    ([ByteArray::Node::~Node()]). *)
Fixpoint destroy_loop (fuel : nat) (tmp : option nat) (deleted : list nat) : M ByteArray (list nat) :=
  match fuel with
  | O => nofuel
  | S fuel =>
      match tmp with
      | None => mreturn deleted
      | Some k =>
          modify (set_cur tmp) ;;;
          tmp' <-- (fun b => deref (next_of b tmp) b) ;;
          destroy_loop fuel tmp' (deleted ++ [k])
      end
  end.
Definition ByteArray_destroy : M ByteArray (list nat) :=
  fuel <-- gets walk_fuel ;;
  nodes <-- gets m_nodes ;;
  destroy_loop fuel (match nodes with [] => None | _ => Some 0%nat end) [].

Definition isLittleEndian (b : ByteArray) : bool := m_endian b =? SYLAR_LITTLE_ENDIAN.

(** [ByteArray::setEndian(bool flag)] *)
Definition ByteArray_setEndian (flag : bool) : M ByteArray unit :=
  modify (set_endian (if flag then SYLAR_LITTLE_ENDIAN else SYLAR_BIG_ENDIAN)).
