(* ===== verification/ByteArrayFacts.v ===== *)
(** * ByteArray: invariant, abstract stream and refinement

    The class is shown to implement an abstract byte stream (a list of bytes
    and a position) as long as its cursor invariant [wf] holds.  [wf] is
    preserved by every operation except a [write] into a full buffer at a
    position before its end, whose misbehaviour is stated as well. *)
From S2P Require Import Prelude Endian Double ByteArray.

(** ** The abstract byte stream *)
Module Spec.
Record stream := Stream { sdata : list cell; spos : nat }.

Definition write (r : list cell) (s : stream) : stream :=
  Stream (splice (sdata s) (spos s) r) (spos s + length r).

Definition read (n : nat) (s : stream) : option (list cell * stream) :=
  if decide (spos s + n <= length (sdata s))%nat
  then Some (slice (sdata s) (spos s) n, Stream (sdata s) (spos s + n))
  else None.
End Spec.

(** The flat memory of the node list, and its initialised part. *)
Definition pages (b : ByteArray) : list cell := concat (ndata <$> m_nodes b).
Definition content (b : ByteArray) : list cell := take (Z.to_nat (m_size b)) (pages b).
Definition abs (b : ByteArray) : Spec.stream :=
  Spec.Stream (content b) (Z.to_nat (m_position b)).

(** ** Invariants *)

Definition node_ok (base : Z) (nd : Node) : Prop :=
  nsize nd = base /\ length (ndata nd) = Z.to_nat base.

Record paged (b : ByteArray) : Prop := {
  pg_base : 0 < m_baseSize b < 2 ^ 53;
  pg_nodes : Forall (node_ok (m_baseSize b)) (m_nodes b);
  pg_cap : m_capacity b = m_baseSize b * Z.of_nat (length (m_nodes b));
  pg_limit : m_capacity b < 2 ^ 63
}.

(** [m_cur] is the node of [m_position], null when the position is at the end
    of the last node. *)
Definition cursor_ok (b : ByteArray) : Prop :=
  m_cur b = if m_position b <? m_capacity b
            then Some (Z.to_nat (m_position b / m_baseSize b)) else None.

Record wf (b : ByteArray) : Prop := {
  wf_paged : paged b;
  wf_root : (0 < length (m_nodes b))%nat;
  wf_pos : 0 <= m_position b <= m_size b;
  wf_size : m_size b <= m_capacity b;
  wf_cur : cursor_ok b
}.

(** What [write], [read] and [setPosition] leave alone. *)
Record same_shape (b b' : ByteArray) : Prop := {
  sh_base : m_baseSize b' = m_baseSize b;
  sh_cap : m_capacity b' = m_capacity b;
  sh_size : m_size b' = m_size b;
  sh_endian : m_endian b' = m_endian b;
  sh_len : length (m_nodes b') = length (m_nodes b)
}.

#[global] Instance same_shape_refl : Reflexive same_shape.
Proof. by split. Qed.
#[global] Instance same_shape_trans : Transitive same_shape.
Proof. intros x y z [] []. split; congruence. Qed.

(** ** Page arithmetic *)

Lemma page_next base p n :
  0 < base -> p mod base + n = base ->
  (p + n) / base = p / base + 1 /\ (p + n) mod base = 0.
Proof.
  intros Hb Hn. pose proof (Z.div_mod p base ltac:(lia)) as Hp.
  replace (p + n) with ((p / base + 1) * base) by lia.
  rewrite Z.div_mul, Z.mod_mul by lia. done.
Qed.

Lemma page_same base p n :
  0 < base -> 0 <= n -> p mod base + n < base -> (p + n) / base = p / base.
Proof.
  intros Hb ? Hn. pose proof (Z.div_mod p base ltac:(lia)) as Hp.
  pose proof (Z.mod_pos_bound p base Hb).
  symmetry. apply (Z.div_unique _ _ _ (p mod base + n)); lia.
Qed.

Lemma page_index b p :
  paged b -> 0 <= p < m_capacity b ->
  let k := Z.to_nat (p / m_baseSize b) in
  exists nd, m_nodes b !! k = Some nd /\ node_ok (m_baseSize b) nd
    /\ (k * Z.to_nat (m_baseSize b) + Z.to_nat (p mod m_baseSize b))%nat = Z.to_nat p.
Proof.
  intros [Hb Hn Hc _] Hp k.
  pose proof (Z.div_mod p (m_baseSize b) ltac:(lia)) as Hd.
  pose proof (Z.mod_pos_bound p (m_baseSize b) ltac:(lia)) as Hm.
  assert (0 <= p / m_baseSize b < Z.of_nat (length (m_nodes b))) as Hk.
  { split; [apply Z.div_pos; lia|]. apply Z.div_lt_upper_bound; lia. }
  destruct (lookup_lt_is_Some_2 (m_nodes b) k) as [nd Hnd]; [lia|].
  exists nd. split_and!; [done| |].
  - by eapply Forall_lookup_1.
  - unfold k. rewrite <- Z2Nat.inj_mul by lia. rewrite <- Z2Nat.inj_add by nia.
    f_equal. lia.
Qed.

Lemma pages_ok b :
  paged b -> Forall (fun l => length l = Z.to_nat (m_baseSize b)) (ndata <$> m_nodes b).
Proof.
  intros Hp. apply Forall_fmap. eapply Forall_impl; [apply (pg_nodes _ Hp)|].
  by intros nd [_ ?].
Qed.

Lemma length_pages b : paged b -> length (pages b) = Z.to_nat (m_capacity b).
Proof.
  intros Hp. unfold pages. rewrite (length_concat_pages _ _ (pages_ok b Hp)).
  rewrite length_fmap. rewrite (pg_cap _ Hp). pose proof (pg_base _ Hp). nia.
Qed.

(** ** Node-level operations *)

Section node_ops.
Context (b : ByteArray) (Hb : paged b).
Let base := m_baseSize b.

Lemma store_spec p bs :
  0 <= p < m_capacity b -> p mod base + Z.of_nat (length bs) <= base ->
  exists b', store b (Some (Z.to_nat (p / base))) (p mod base) bs = Some b'
    /\ paged b' /\ same_shape b b' /\ m_position b' = m_position b
    /\ m_cur b' = m_cur b
    /\ pages b' = splice (pages b) (Z.to_nat p) (Some <$> bs).
Proof.
  intros Hp Hlen. destruct (page_index b p Hb Hp) as (nd & Hnd & [Hsz Hdl] & Hidx).
  fold base in Hnd, Hsz, Hdl, Hidx.
  pose proof (Z.mod_pos_bound p base ltac:(destruct Hb; lia)) as Hm.
  unfold store. rewrite Hnd.
  rewrite (proj2 (Z.leb_le 0 _)) by lia.
  rewrite (proj2 (Z.leb_le _ _)) by lia. cbn [andb].
  eexists; split; [done|].
  set (nd' := mkNode _ _).
  assert (Hnd' : node_ok base nd').
  { split; [done|]. subst nd'. cbn [ndata]. rewrite length_splice by lia.
    rewrite length_fmap. lia. }
  assert (Hpg : pages (set_nodes (<[Z.to_nat (p / base):=nd']> (m_nodes b)) b)
    = splice (pages b) (Z.to_nat p) (Some <$> bs)).
  { unfold pages. simpl. rewrite list_fmap_insert. subst nd'. cbn [ndata].
    rewrite (concat_insert_splice _ (Z.to_nat base)).
    - by rewrite Hidx.
    - by apply pages_ok.
    - by rewrite list_lookup_fmap, Hnd.
    - rewrite length_fmap. lia. }
  split_and!; try done.
  - destruct Hb as [H1 H2 H3 H4]. split; cbn; try done.
    + by apply Forall_insert.
    + by rewrite length_insert.
  - split; cbn; try done. by rewrite length_insert.
Qed.

Lemma load_spec p n :
  0 <= p < m_capacity b -> 0 <= n -> p mod base + n <= base ->
  load b (Some (Z.to_nat (p / base))) (p mod base) n
  = Some (slice (pages b) (Z.to_nat p) (Z.to_nat n)).
Proof.
  intros Hp Hn Hlen. destruct (page_index b p Hb Hp) as (nd & Hnd & [Hsz Hdl] & Hidx).
  fold base in Hnd, Hsz, Hdl, Hidx.
  pose proof (Z.mod_pos_bound p base ltac:(destruct Hb; lia)) as Hm.
  unfold load. rewrite Hnd.
  rewrite !(proj2 (Z.leb_le _ _)) by lia. cbn [andb]. f_equal.
  unfold pages. rewrite <- Hidx.
  rewrite (concat_slice _ (Z.to_nat base) _ (ndata nd)); [done|by apply pages_ok| |lia].
  by rewrite list_lookup_fmap, Hnd.
Qed.

Lemma size_of_spec p :
  0 <= p < m_capacity b -> size_of b (Some (Z.to_nat (p / base))) = Some base.
Proof.
  intros Hp. destruct (page_index b p Hb Hp) as (nd & Hnd & [Hsz _] & _).
  fold base in Hnd, Hsz. simpl. by rewrite Hnd, <- Hsz.
Qed.

(** The successor of the node of [p] is the node of the next page. *)
Lemma next_of_spec p n :
  0 <= p < m_capacity b -> p mod base + n = base ->
  next_of b (Some (Z.to_nat (p / base)))
  = Some (if p + n <? m_capacity b then Some (Z.to_nat ((p + n) / base)) else None).
Proof.
  intros Hp Hn. destruct (page_index b p Hb Hp) as (nd & Hnd & _ & Hidx).
  fold base in Hnd, Hidx.
  pose proof (lookup_lt_Some _ _ _ Hnd) as Hk.
  destruct Hb as [Hb1 _ Hc _]. fold base in Hb1, Hc.
  destruct (page_next base p n ltac:(lia) Hn) as [Hd Hmod].
  pose proof (Z.div_mod (p + n) base ltac:(lia)) as Hdm.
  assert (0 <= p / base) by (apply Z.div_pos; lia).
  unfold next_of. rewrite decide_True by done.
  assert (p + n = base * Z.of_nat (S (Z.to_nat (p / base)))) as Hpn by lia.
  destruct (Z.ltb_spec (p + n) (m_capacity b)); case_decide; try nia.
  - do 2 f_equal. lia.
  - done.
Qed.
End node_ops.

(** ** The loops *)

Lemma cur_size_spec b p :
  paged b -> 0 <= p < m_capacity b -> m_cur b = Some (Z.to_nat (p / m_baseSize b)) ->
  cur_size b = Ok (m_baseSize b) b.
Proof. intros Hb Hp Hc. unfold cur_size. by rewrite Hc, size_of_spec. Qed.

Lemma advance_cur_spec b p n :
  paged b -> 0 <= p < m_capacity b -> m_cur b = Some (Z.to_nat (p / m_baseSize b)) ->
  p mod m_baseSize b + n = m_baseSize b ->
  advance_cur b = Ok tt (set_cur (if p + n <? m_capacity b
    then Some (Z.to_nat ((p + n) / m_baseSize b)) else None) b).
Proof. intros Hb Hp Hc Hn. unfold advance_cur. by rewrite Hc, (next_of_spec _ Hb p n). Qed.

Lemma paged_set_cur c b : paged b -> paged (set_cur c b).
Proof. by intros []. Qed.
Lemma paged_set_position c b : paged b -> paged (set_position c b).
Proof. by intros []. Qed.
Lemma paged_set_size c b : paged b -> paged (set_size c b).
Proof. by intros []. Qed.
Lemma paged_set_endian c b : paged b -> paged (set_endian c b).
Proof. by intros []. Qed.
#[export] Hint Resolve paged_set_cur paged_set_position paged_set_size paged_set_endian : cpp.

Lemma u64_small z : 0 <= z < 2 ^ 64 -> u64 z = z.
Proof. apply wrap_id. Qed.

(** Nodes from the one of [p] to the end of the list. *)
Definition nodes_left (b : ByteArray) (p : Z) : nat :=
  (length (m_nodes b) - Z.to_nat (p / m_baseSize b))%nat.

Lemma nodes_left_pos b p : paged b -> 0 <= p < m_capacity b -> (0 < nodes_left b p)%nat.
Proof.
  intros Hb Hp. destruct (page_index b p Hb Hp) as (nd & Hnd%lookup_lt_Some & _).
  unfold nodes_left. lia.
Qed.

Lemma nodes_left_next b p n :
  paged b -> 0 <= p -> p mod m_baseSize b + n = m_baseSize b ->
  nodes_left b (p + n) = (nodes_left b p - 1)%nat.
Proof.
  intros Hb Hp Hn. destruct (page_next (m_baseSize b) p n) as [Hd _]; [destruct Hb; lia|done|].
  assert (0 <= p / m_baseSize b) by (apply Z.div_pos; destruct Hb; lia).
  unfold nodes_left. rewrite Hd. lia.
Qed.

Lemma splice_fmap_app buf l p bpos n m :
  (p <= length l)%nat -> (bpos + n + m <= length buf)%nat ->
  splice (splice l p (Some <$> slice buf bpos n)) (p + n) (Some <$> slice buf (bpos + n) m)
  = splice l p (Some <$> slice (A:=Z) buf bpos (n + m)).
Proof.
  intros Hp Hb. rewrite slice_app, fmap_app.
  rewrite <- (splice_app l p) by done. rewrite length_fmap, length_slice.
  by rewrite Nat.min_l by lia.
Qed.

(** The invariant of the loops: [p] is the position, [m_cur] its node. *)
Record at_page (b : ByteArray) (p : Z) : Prop := {
  ap_paged : paged b;
  ap_range : 0 <= p < m_capacity b;
  ap_pos : m_position b = p;
  ap_cur : m_cur b = Some (Z.to_nat (p / m_baseSize b))
}.

(** The end of the position is a page boundary exactly when the node is full. *)
Lemma cursor_inside b p n :
  at_page b p -> 0 <= n -> p mod m_baseSize b + n < m_baseSize b -> p + n < m_capacity b
  /\ Z.to_nat ((p + n) / m_baseSize b) = Z.to_nat (p / m_baseSize b).
Proof.
  intros [Hb Hp _ _] Hn Hlt. pose proof (pg_base _ Hb).
  rewrite page_same by lia. split; [|done].
  pose proof (page_index b p Hb Hp) as (nd & Hk%lookup_lt_Some & _).
  pose proof (Z.div_mod p (m_baseSize b) ltac:(lia)).
  assert (0 <= p / m_baseSize b) by (apply Z.div_pos; lia).
  rewrite (pg_cap _ Hb). nia.
Qed.

(** [m_position += n] and, when the node is full, [m_cur = m_cur->next]. *)
Definition moved (b b' : ByteArray) (n : Z) : Prop :=
  paged b' /\ same_shape b b' /\ m_position b' = m_position b + n /\ cursor_ok b'.

Lemma moved_end b b1 p n :
  at_page b p -> paged b1 -> same_shape b b1 -> m_cur b1 = m_cur b ->
  m_position b1 = p -> 0 < n -> p mod m_baseSize b + n <= m_baseSize b ->
  exists b2,
    (if m_baseSize b - p mod m_baseSize b - n =? 0 then advance_cur else mreturn tt) b1 = Ok tt b2
    /\ moved b (set_position (u64 (m_position b2 + n)) b2) n /\ pages b2 = pages b1.
Proof.
  intros Hat Hb1 [Hsb Hsc Hss Hse Hsl] Hcur1 Hpos1 Hn Hle.
  pose proof Hat as [Hb Hp Hpos Hcur].
  pose proof (pg_base _ Hb). pose proof (pg_limit _ Hb).
  assert (p + n <= m_capacity b) as Hcap.
  { destruct (decide (n = 1)) as [->|]; [lia|].
    destruct (cursor_inside b p (n - 1) Hat); lia. }
  destruct (Z.eqb_spec (m_baseSize b - p mod m_baseSize b - n) 0) as [Hend|Hin].
  - eexists. split; [apply (advance_cur_spec b1 p n); try done; try congruence;
      rewrite ?Hsc, ?Hsb; lia || congruence|].
    split; [|done]. unfold moved, cursor_ok. cbn. rewrite Hpos1, Hpos, u64_small by lia.
    split_and!; auto with cpp. by split.
  - exists b1. split; [done|]. split; [|done].
    destruct (cursor_inside b p n Hat) as [Hlt Hk]; [lia..|].
    unfold moved, cursor_ok. cbn. rewrite Hpos1, Hpos, Hcur1, Hcur, u64_small by lia.
    split_and!; auto with cpp; [by split|].
    rewrite Hsc, Hsb, (proj2 (Z.ltb_lt _ _)) by done. by rewrite Hk.
Qed.

(** [m_position += n], [m_cur = m_cur->next], [ncap = m_cur->size] at the end
    of a node that is not the last one, in either order. *)
Lemma moved_next b b1 p n :
  at_page b p -> paged b1 -> same_shape b b1 -> m_cur b1 = m_cur b ->
  m_position b1 = p -> p mod m_baseSize b + n = m_baseSize b -> p + n < m_capacity b ->
  let b2 := set_position (p + n) (set_cur (Some (Z.to_nat ((p + n) / m_baseSize b))) b1) in
  advance_cur (set_position (u64 (m_position b1 + n)) b1) = Ok tt b2
  /\ advance_cur b1 = Ok tt (set_cur (Some (Z.to_nat ((p + n) / m_baseSize b))) b1)
  /\ u64 (m_position b1 + n) = p + n
  /\ cur_size b2 = Ok (m_baseSize b) b2
  /\ at_page b2 (p + n) /\ same_shape b b2 /\ pages b2 = pages b1.
Proof.
  intros Hat Hb1 [Hsb Hsc Hss Hse Hsl] Hcur1 Hpos1 Hn Hlt b2.
  pose proof Hat as [Hb Hp Hpos Hcur].
  pose proof (pg_base _ Hb). pose proof (pg_limit _ Hb).
  pose proof (Z.mod_pos_bound p (m_baseSize b) ltac:(lia)).
  assert (u64 (m_position b1 + n) = p + n) as Hu by (rewrite Hpos1; apply u64_small; lia).
  assert (Hat2 : at_page b2 (p + n)).
  { unfold b2. split; cbn; auto with cpp; [lia|by rewrite Hsb]. }
  split_and!; try done.
  - rewrite Hu, (advance_cur_spec _ p n); cbn; auto with cpp; rewrite ?Hsc, ?Hsb; try done.
    + by rewrite (proj2 (Z.ltb_lt _ _)).
    + congruence.
  - rewrite (advance_cur_spec _ p n); cbn; auto with cpp; rewrite ?Hsc, ?Hsb; try done.
    + by rewrite (proj2 (Z.ltb_lt _ _)).
    + congruence.
  - rewrite (cur_size_spec b2 (p + n)); [by unfold b2; cbn; rewrite Hsb|apply Hat2..].
Qed.

Lemma store_at b p bs :
  at_page b p -> p mod m_baseSize b + Z.of_nat (length bs) <= m_baseSize b ->
  exists b1, memcpy_in (p mod m_baseSize b) bs b = Ok tt b1
    /\ paged b1 /\ same_shape b b1 /\ m_position b1 = p /\ m_cur b1 = m_cur b
    /\ pages b1 = splice (pages b) (Z.to_nat p) (Some <$> bs).
Proof.
  intros [Hb Hp Hpos Hcur] Hlen.
  destruct (store_spec b Hb p bs Hp Hlen) as (b1 & Hst & ? & ? & ? & ? & ?).
  exists b1. unfold memcpy_in. rewrite Hcur, Hst. split_and!; congruence || done.
Qed.

Lemma load_at b p n :
  at_page b p -> 0 <= n -> p mod m_baseSize b + n <= m_baseSize b ->
  memcpy_out (m_cur b) (p mod m_baseSize b) n b
  = Ok (slice (pages b) (Z.to_nat p) (Z.to_nat n)) b.
Proof.
  intros [Hb Hp Hpos Hcur] Hn Hlen.
  unfold memcpy_out. by rewrite Hcur, (load_spec b Hb p n).
Qed.

Lemma write_loop_spec fuel buf bpos size b p :
  at_page b p -> 0 < size -> p + size <= m_capacity b ->
  0 <= bpos -> bpos + size <= Z.of_nat (length buf) -> (nodes_left b p < fuel)%nat ->
  exists b',
    write_loop fuel buf (p mod m_baseSize b) (m_baseSize b - p mod m_baseSize b) bpos size b
      = Ok tt b'
    /\ moved b b' size
    /\ pages b' = splice (pages b) (Z.to_nat p)
                    (Some <$> slice buf (Z.to_nat bpos) (Z.to_nat size)).
Proof.
  revert bpos size b p. induction fuel as [|fuel IH]; [lia|].
  intros bpos size b p Hat Hs Hcap Hbp Hlen Hfuel.
  pose proof Hat as [Hb Hp Hpos Hcur]. pose proof (pg_base _ Hb) as Hbase.
  pose proof (nodes_left_pos b _ Hb Hp) as Hleft.
  pose proof (Z.mod_pos_bound p (m_baseSize b) ltac:(lia)) as Hmod.
  cbn [write_loop]. rewrite (proj2 (Z.ltb_lt 0 size)) by lia.
  destruct (Z.leb_spec size (m_baseSize b - p mod m_baseSize b)) as [Hfit|Hspill].
  - destruct (store_at b p (slice buf (Z.to_nat bpos) (Z.to_nat size)) Hat)
      as (b1 & Hm & Hb1 & Hsh & Hpos1 & Hcur1 & Hpg); [rewrite length_slice; lia|].
    mrun Hm. destruct (moved_end b b1 p size) as (b2 & Hadv & Hmv & Hpg2); [done..|lia|].
    mrun Hadv. destruct fuel as [|fuel]; [lia|].
    eexists. split; [reflexivity|]. split; [done|]. etrans; [apply Hpg2|done].
  - set (n := m_baseSize b - p mod m_baseSize b) in *.
    destruct (store_at b p (slice buf (Z.to_nat bpos) (Z.to_nat n)) Hat)
      as (b1 & Hm & Hb1 & Hsh & Hpos1 & Hcur1 & Hpg); [rewrite length_slice; lia|].
    mrun Hm. cbn [bind modify].
    destruct (moved_next b b1 p n) as (Hadv & _ & _ & Hcs & Hat2 & Hsh2 & Hpg2); [done..|lia|lia|].
    set (b2 := set_position (p + n) _) in *. mrun Hadv. mrun Hcs.
    destruct (page_next (m_baseSize b) p n) as [_ Hmn]; [lia..|].
    destruct (IH (bpos + n) (size - n) b2 (p + n)) as (b' & Hrun & (Hb' & Hsh' & Hp' & Hc') & Hpg');
      [done|lia|rewrite (sh_cap _ _ Hsh2); lia|lia|lia| |].
    { unfold nodes_left. rewrite (sh_len _ _ Hsh2), (sh_base _ _ Hsh2).
      change (nodes_left b (p + n) < fuel)%nat. rewrite nodes_left_next by (lia || done). lia. }
    rewrite (sh_base _ _ Hsh2), Hmn, Z.sub_0_r in Hrun.
    exists b'. split; [done|]. split.
    + split_and!; try done; [by etrans|rewrite Hp', (ap_pos _ _ Hat2); lia].
    + rewrite Hpg', Hpg2, Hpg, !Z2Nat.inj_add, Z2Nat.inj_sub by lia.
      rewrite splice_fmap_app; [do 3 f_equal; lia|rewrite (length_pages b Hb); lia|lia].
Qed.

Lemma read_loop_spec fuel size out b p :
  at_page b p -> 0 <= size -> p + size <= m_capacity b -> (nodes_left b p < fuel)%nat ->
  exists b',
    read_loop fuel (p mod m_baseSize b) (m_baseSize b - p mod m_baseSize b) size out b
      = Ok (out ++ slice (pages b) (Z.to_nat p) (Z.to_nat size)) b'
    /\ moved b b' size /\ pages b' = pages b.
Proof.
  revert size out b p. induction fuel as [|fuel IH]; [lia|].
  intros size out b p Hat Hs Hcap Hfuel.
  pose proof Hat as [Hb Hp Hpos Hcur]. pose proof (pg_base _ Hb) as Hbase.
  pose proof (nodes_left_pos b _ Hb Hp) as Hleft.
  pose proof (Z.mod_pos_bound p (m_baseSize b) ltac:(lia)) as Hmod.
  cbn [read_loop]. destruct (Z.ltb_spec 0 size) as [Hpos0|Hzero].
  2:{ assert (size = 0) as -> by lia. exists b. unfold slice. rewrite app_nil_r.
      split; [done|]. split; [|done]. split_and!; [done..|lia|].
      unfold cursor_ok. rewrite Hpos. by rewrite (proj2 (Z.ltb_lt _ _)) by lia. }
  destruct (Z.leb_spec size (m_baseSize b - p mod m_baseSize b)) as [Hfit|Hspill].
  - cbn [bind gets]. pose proof (load_at b p size Hat) as Hl. mrun (Hl ltac:(lia) ltac:(lia)).
    destruct (moved_end b b p size) as (b2 & Hadv & Hmv & Hpg2); [done..|lia|].
    replace (size =? _) with (m_baseSize b - p mod m_baseSize b - size =? 0)
      by (destruct (Z.eqb_spec size (m_baseSize b - p mod m_baseSize b)); lia).
    mrun Hadv. destruct fuel as [|fuel]; [lia|].
    eexists. split; [reflexivity|]. split; [done|]. apply Hpg2.
  - set (n := m_baseSize b - p mod m_baseSize b) in *.
    cbn [bind gets]. pose proof (load_at b p n Hat) as Hl. mrun (Hl ltac:(lia) ltac:(lia)).
    destruct (moved_next b b p n) as (_ & Hadv & Hu & Hcs & Hat2 & Hsh2 & Hpg2); [done..|lia|lia|].
    mrun Hadv. cbn [bind modify m_position set_cur]. rewrite Hu.
    set (b2 := set_position (p + n) _) in *. mrun Hcs.
    destruct (page_next (m_baseSize b) p n) as [_ Hmn]; [lia..|].
    destruct (IH (size - n) (out ++ slice (pages b) (Z.to_nat p) (Z.to_nat n)) b2 (p + n))
      as (b' & Hrun & (Hb' & Hsh' & Hp' & Hc') & Hpg');
      [done|lia|rewrite (sh_cap _ _ Hsh2); lia| |].
    { unfold nodes_left. rewrite (sh_len _ _ Hsh2), (sh_base _ _ Hsh2).
      change (nodes_left b (p + n) < fuel)%nat. rewrite nodes_left_next by (lia || done). lia. }
    rewrite (sh_base _ _ Hsh2), Hmn, Z.sub_0_r, Hpg2, <- app_assoc in Hrun.
    rewrite !Z2Nat.inj_add, Z2Nat.inj_sub, <- slice_app in Hrun by lia.
    replace (Z.to_nat n + (Z.to_nat size - Z.to_nat n))%nat with (Z.to_nat size) in Hrun by lia.
    exists b'. split; [done|]. split; [|by rewrite Hpg'].
    split_and!; try done; [by etrans|rewrite Hp', (ap_pos _ _ Hat2); lia].
Qed.

Lemma read_at_loop_spec fuel size out b p :
  paged b -> 0 <= p < m_capacity b -> 0 <= size -> p + size <= m_capacity b ->
  (nodes_left b p < fuel)%nat ->
  read_at_loop fuel (Some (Z.to_nat (p / m_baseSize b)))
    (p mod m_baseSize b) (m_baseSize b - p mod m_baseSize b) size out b
  = Ok (out ++ slice (pages b) (Z.to_nat p) (Z.to_nat size)) b.
Proof.
  intros Hb. revert size out p. induction fuel as [|fuel IH]; [lia|].
  intros size out p Hp Hs Hcap Hfuel. pose proof (pg_base _ Hb) as Hbase.
  pose proof (nodes_left_pos b _ Hb Hp) as Hleft.
  pose proof (Z.mod_pos_bound p (m_baseSize b) ltac:(lia)) as Hmod.
  cbn [read_at_loop]. destruct (Z.ltb_spec 0 size) as [Hpos0|Hzero].
  2:{ assert (size = 0) as -> by lia. unfold slice. by rewrite app_nil_r. }
  destruct (Z.leb_spec size (m_baseSize b - p mod m_baseSize b)) as [Hfit|Hspill].
  - unfold bind at 1, memcpy_out. rewrite (load_spec b Hb p size) by lia. cbn [deref].
    destruct fuel as [|fuel]; [lia|].
    destruct (Z.eqb_spec size (m_baseSize b - p mod m_baseSize b)); [|done].
    unfold bind. rewrite (next_of_spec b Hb p size) by lia. done.
  - set (n := m_baseSize b - p mod m_baseSize b) in *.
    unfold bind at 1, memcpy_out. rewrite (load_spec b Hb p n) by lia. cbn [deref].
    unfold bind. rewrite (next_of_spec b Hb p n) by lia. cbn [deref].
    rewrite (proj2 (Z.ltb_lt _ _)) by lia. rewrite size_of_spec by (lia || done). cbn [deref].
    destruct (page_next (m_baseSize b) p n) as [_ Hmn]; [lia..|].
    pose proof (IH (size - n) (out ++ slice (pages b) (Z.to_nat p) (Z.to_nat n)) (p + n)) as Hrun.
    rewrite Hmn, Z.sub_0_r, <- app_assoc in Hrun.
    rewrite !Z2Nat.inj_add, Z2Nat.inj_sub, <- slice_app in Hrun by lia.
    replace (Z.to_nat n + (Z.to_nat size - Z.to_nat n))%nat with (Z.to_nat size) in Hrun by lia.
    apply Hrun; [lia..|]. rewrite nodes_left_next by (lia || done). lia.
Qed.

(** ** Capacity *)

Lemma addCapacity_loop_spec num first b :
  addCapacity_loop num first b =
  (match first with
   | Some _ => first
   | None => match num with O => None | S _ => Some (length (m_nodes b)) end
   end,
   match num with
   | O => b
   | S _ => set_nodes (m_nodes b ++ replicate num (new_Node (m_baseSize b)))
              (set_capacity (u64 (m_capacity b + Z.of_nat num * m_baseSize b)) b)
   end).
Proof.
  revert first b. induction num as [|num IH]; intros first b.
  - by destruct first.
  - cbn [addCapacity_loop]. rewrite IH. f_equal; [by destruct first|].
    destruct num as [|num].
    + cbn. unfold set_capacity, set_nodes. cbn. f_equal. f_equal. lia.
    + unfold set_capacity, set_nodes. cbn -[replicate Z.mul Z.add u64].
      f_equal.
      * unfold wrap. rewrite Zplus_mod_idemp_l. f_equal. lia.
      * by rewrite <- app_assoc.
Qed.

Lemma pages_app ns ns' b c :
  pages (set_nodes (ns ++ ns') (set_capacity c b)) = concat (ndata <$> ns) ++ concat (ndata <$> ns').
Proof. unfold pages. cbn. by rewrite fmap_app, concat_app. Qed.

Lemma concat_fresh n base :
  concat (ndata <$> replicate n (new_Node base)) = replicate (n * Z.to_nat base) None.
Proof.
  induction n as [|n IH]; [done|]. cbn [replicate Nat.mul]. rewrite fmap_cons.
  cbn [concat]. by rewrite IH, replicate_add.
Qed.

(** [addCapacity(n)] on any buffer that satisfies the invariant: afterwards the
    capacity covers [m_size + n], by the least number of new pages. *)
Lemma addCapacity_spec b n :
  paged b -> 0 <= m_size b <= m_capacity b -> 0 <= n -> m_size b + n < 2 ^ 53 ->
  exists b', ByteArray_addCapacity n b = Ok tt b'
    /\ paged b' /\ m_baseSize b' = m_baseSize b /\ m_position b' = m_position b
    /\ m_size b' = m_size b /\ m_endian b' = m_endian b
    /\ m_capacity b <= m_capacity b' < m_capacity b `max` (m_size b + n) + m_baseSize b
    /\ m_size b + n <= m_capacity b'
    /\ pages b' = pages b ++ replicate (Z.to_nat (m_capacity b' - m_capacity b)) None
    /\ m_cur b' = if (m_size b =? m_capacity b) && (0 <? n)
                  then Some (length (m_nodes b)) else m_cur b.
Proof.
  intros Hb Hsz Hn Hlim. pose proof Hb as [Hbase Hnodes Hcap Hmax].
  assert (Hsame : forall b', b' = b ->
    pages b' = pages b ++ replicate (Z.to_nat (m_capacity b' - m_capacity b)) None).
  { intros ? ->. by rewrite Z.sub_diag, app_nil_r. }
  unfold ByteArray_addCapacity. destruct (Z.eqb_spec n 0) as [->|Hn0].
  { exists b. rewrite andb_false_r. split_and!; auto; lia. }
  unfold getCapacity. rewrite u64_small by lia.
  destruct (Z.leb_spec n (m_capacity b - m_size b)) as [Hfit|Hgrow].
  { exists b. rewrite (proj2 (Z.eqb_neq (m_size b) _)) by lia. split_and!; auto; lia. }
  rewrite (proj2 (Z.eqb_neq (m_baseSize b) 0)) by lia.
  set (need := n - (m_capacity b - m_size b)) in *.
  rewrite ceil_quotient_exact by lia.
  pose proof (cdiv_spec need (m_baseSize b) ltac:(lia)) as Hc.
  set (num := cdiv need (m_baseSize b)) in *. assert (0 < num) by nia.
  rewrite addCapacity_loop_spec. destruct (Z.to_nat num) as [|k] eqn:Ek; [lia|].
  assert (Z.of_nat (S k) = num) as Hk by lia. rewrite Hk.
  rewrite (u64_small (m_capacity b + num * m_baseSize b)) by nia.
  set (b1 := set_nodes _ _).
  assert (Hb1 : paged b1).
  { split; cbn -[replicate].
    - done.
    - apply Forall_app. split; [done|]. apply Forall_replicate. split; [done|].
      cbn. apply length_replicate.
    - rewrite length_app, length_replicate. lia.
    - nia. }
  assert (Hpg : pages b1 = pages b ++ replicate (Z.to_nat (num * m_baseSize b)) None).
  { unfold b1. rewrite pages_app, concat_fresh. do 2 f_equal. lia. }
  rewrite (proj2 (Z.ltb_lt 0 n)) by lia. rewrite andb_true_r.
  destruct (Z.eqb_spec (m_capacity b - m_size b) 0) as [Hfull|Hfree].
  - exists (set_cur (Some (length (m_nodes b))) b1).
    rewrite (proj2 (Z.eqb_eq (m_size b) _)) by lia.
    split_and!; try done; cbn -[replicate pages]; auto with cpp; try nia.
    change (pages (set_cur _ b1)) with (pages b1). rewrite Hpg. do 3 f_equal. lia.
  - exists b1. rewrite (proj2 (Z.eqb_neq (m_size b) _)) by lia.
    split_and!; try done; cbn -[replicate pages]; auto with cpp; try nia.
    rewrite Hpg. do 3 f_equal. lia.
Qed.

(** ** Refinement of the abstract stream *)

Lemma length_content b :
  paged b -> m_size b <= m_capacity b -> length (content b) = Z.to_nat (m_size b).
Proof.
  intros Hb Hs. unfold content. rewrite length_take, (length_pages b Hb). lia.
Qed.

Lemma wf_at_page b : wf b -> m_position b < m_capacity b -> at_page b (m_position b).
Proof.
  intros [Hb Hr Hp Hs Hc] Hlt. split; [done|lia|done|].
  by rewrite Hc, (proj2 (Z.ltb_lt _ _)).
Qed.

(** The loops compute [ncap] and [npos] as the code does. *)
Lemma cursor_setup {A} b (k : Z -> Z -> nat -> M ByteArray A) :
  at_page b (m_position b) ->
  (pos <-- gets m_position ;; npos <-- page_offset pos ;; csize <-- cur_size ;;
   fuel <-- gets walk_fuel ;; k npos (u64 (csize - npos)) fuel) b
  = k (m_position b mod m_baseSize b) (m_baseSize b - m_position b mod m_baseSize b)
      (walk_fuel b) b.
Proof.
  intros [Hb Hp _ Hc]. pose proof (pg_base _ Hb).
  pose proof (Z.mod_pos_bound (m_position b) (m_baseSize b) ltac:(lia)).
  unfold bind at 1, gets at 1. unfold bind at 1, page_offset.
  rewrite (proj2 (Z.eqb_neq (m_baseSize b) 0)) by lia.
  mrun (cur_size_spec b (m_position b) Hb Hp Hc).
  unfold bind, gets. by rewrite u64_small by lia.
Qed.

Lemma nodes_left_fuel b p : (nodes_left b p < walk_fuel b)%nat.
Proof. unfold nodes_left, walk_fuel. lia. Qed.
#[export] Hint Resolve nodes_left_fuel : cpp.

(** The tail of [write]: the size follows the position. *)
Lemma wf_after_move b b' n :
  wf b -> 0 <= n -> moved b b' n -> m_position b + n <= m_capacity b ->
  wf (if m_size b' <? m_position b' then set_size (m_position b') b' else b').
Proof.
  intros [Hb Hr Hp Hs Hc] Hn (Hb' & [Hsb Hsc Hss Hse Hsl] & Hp' & Hc') Hle.
  destruct (Z.ltb_spec (m_size b') (m_position b')).
  - split; cbn; auto with cpp; lia.
  - split; auto; lia.
Qed.

(** What [write] needs of the buffer: room in the pages already allocated, or a
    position at the end of the data. *)
Definition writable (b : ByteArray) : Prop :=
  m_size b < m_capacity b \/ m_position b = m_size b.

Lemma addCapacity_wf b n b' :
  wf b -> 0 < n -> m_size b + n < 2 ^ 53 -> writable b ->
  ByteArray_addCapacity n b = Ok tt b' -> wf b' /\ m_position b' < m_capacity b'.
Proof.
  intros Hwf Hn Hlim Hw Hadd. pose proof Hwf as [Hb Hr Hp Hs Hc].
  pose proof (pg_base _ Hb).
  destruct (addCapacity_spec b n Hb) as (b1 & Hadd' & Hb1 & Hba & Hpo & Hsi & Hen & Hca & Hfit & Hpg & Hcu);
    [lia..|]. rewrite Hadd in Hadd'. injection Hadd' as <-.
  assert (m_position b' < m_capacity b') as Hlt by lia. split; [|done].
  assert (Hroot : (0 < length (m_nodes b'))%nat).
  { pose proof (pg_cap _ Hb1). destruct (length (m_nodes b')); lia. }
  split; auto; [lia|lia|].
  unfold cursor_ok. rewrite (proj2 (Z.ltb_lt _ _)) by done. rewrite Hcu, Hba, Hpo.
  rewrite (proj2 (Z.ltb_lt 0 n)) by done. rewrite andb_true_r.
  destruct (Z.eqb_spec (m_size b) (m_capacity b)) as [Hfull|Hroom].
  - destruct Hw as [?|Hend]; [lia|]. f_equal.
    rewrite Hend, Hfull, (pg_cap _ Hb), Z.mul_comm, Z.div_mul by lia. lia.
  - rewrite Hc. unfold cursor_ok. by rewrite (proj2 (Z.ltb_lt _ _)) by lia.
Qed.

(** The initialised part after [r] is written at [p] and the size updated. *)
Lemma content_splice b ps p r :
  paged b -> 0 <= p <= m_size b -> m_size b <= m_capacity b ->
  take (Z.to_nat (m_size b `max` (p + Z.of_nat (length r))))
    (splice (pages b ++ ps) (Z.to_nat p) r)
  = splice (content b) (Z.to_nat p) r.
Proof.
  intros Hb Hp Hs. pose proof (length_pages b Hb).
  unfold content. rewrite <- (take_app_le (pages b) ps) by lia.
  rewrite <- take_splice by (rewrite length_app; lia). f_equal. lia.
Qed.

Lemma write_abs b buf :
  wf b -> writable b -> m_size b + Z.of_nat (length buf) < 2 ^ 53 ->
  exists b', ByteArray_write buf b = Ok tt b' /\ wf b'
    /\ abs b' = Spec.write (Some <$> buf) (abs b)
    /\ m_baseSize b' = m_baseSize b /\ m_endian b' = m_endian b /\ writable b'.
Proof.
  intros Hwf Hw Hlim. unfold ByteArray_write.
  destruct (Z.leb_spec (Z.of_nat (length buf)) 0) as [Hz|Hpos].
  { assert (buf = []) as -> by (apply length_zero_iff_nil; lia).
    exists b. split_and!; try done.
    unfold Spec.write. change (Some <$> []) with (@nil cell).
    rewrite splice_nil. unfold abs. cbn [Spec.sdata Spec.spos length]. by rewrite Nat.add_0_r. }
  pose proof Hwf as [Hb Hr Hp Hs Hc].
  destruct (addCapacity_spec b (Z.of_nat (length buf)) Hb)
    as (b1 & Hadd & Hb1 & Hba & Hpo & Hsi & Hen & Hca & Hfit & Hpg & _); [lia..|].
  destruct (addCapacity_wf _ _ _ Hwf Hpos Hlim Hw Hadd) as [Hwf1 Hlt1].
  mrun Hadd. rewrite (cursor_setup b1 (fun npos ncap fuel =>
    write_loop fuel buf npos ncap 0 (Z.of_nat (length buf)) ;;; _)) by by apply wf_at_page.
  destruct (write_loop_spec (walk_fuel b1) buf 0 (Z.of_nat (length buf)) b1 (m_position b1))
    as (b2 & Hrun & Hmv & Hpg2); [by apply wf_at_page|lia..|auto with cpp|].
  mrun Hrun. eexists. split; [reflexivity|].
  split; [by apply (wf_after_move b1 b2 (Z.of_nat (length buf))); [|lia| |lia]|].
  destruct Hmv as (Hb2 & [Hsb Hsc Hss Hse Hsl] & Hp2 & Hc2).
  unfold slice in Hpg2. rewrite drop_0, Nat2Z.id, firstn_all, Hpg, Hpo in Hpg2.
  assert (writable (if m_size b2 <? m_position b2 then set_size (m_position b2) b2 else b2)).
  { unfold writable in *. destruct (Z.ltb_spec (m_size b2) (m_position b2)); cbn; lia. }
  split_and!; [|destruct (_ <? _); cbn; congruence..|done].
  unfold abs, Spec.write. cbn [Spec.sdata Spec.spos].
  rewrite <- (content_splice b (replicate (Z.to_nat (m_capacity b1 - m_capacity b)) None)
    (m_position b) (Some <$> buf) Hb Hp Hs).
  rewrite <- Hpg2, length_fmap. unfold content.
  f_equal; destruct (Z.ltb_spec (m_size b2) (m_position b2)); cbn;
    change (pages (set_size _ b2)) with (pages b2); try f_equal; lia.
Qed.

Lemma abs_size b : wf b -> Z.of_nat (length (Spec.sdata (abs b))) = m_size b.
Proof. intros [Hb ? ? Hs ?]. cbn. rewrite length_content by (done || lia). lia. Qed.

Lemma spec_write_write r1 r2 s :
  (Spec.spos s <= length (Spec.sdata s))%nat ->
  Spec.write r2 (Spec.write r1 s) = Spec.write (r1 ++ r2) s.
Proof.
  intros Hs. unfold Spec.write. cbn [Spec.sdata Spec.spos]. rewrite splice_app by done.
  f_equal. rewrite length_app. lia.
Qed.

Lemma getReadSize_wf b : wf b -> getReadSize b = m_size b - m_position b.
Proof.
  intros [Hb ? ? ?]. unfold getReadSize. pose proof (pg_limit _ Hb). apply u64_small. lia.
Qed.

Lemma slice_content b p n :
  paged b -> 0 <= p -> 0 <= n -> p + n <= m_size b ->
  slice (content b) (Z.to_nat p) (Z.to_nat n) = slice (pages b) (Z.to_nat p) (Z.to_nat n).
Proof. intros. unfold content. apply slice_take. lia. Qed.

Lemma read_loop_start b n :
  wf b -> m_position b < m_capacity b -> n <= getReadSize b ->
  ByteArray_read n b
  = read_loop (walk_fuel b) (m_position b mod m_baseSize b)
      (m_baseSize b - m_position b mod m_baseSize b) n [] b.
Proof.
  intros Hwf Hlt Hn. unfold ByteArray_read. cbn [bind gets].
  rewrite (proj2 (Z.ltb_ge _ _)) by done.
  exact (cursor_setup b (fun npos ncap fuel => read_loop fuel npos ncap n [])
    (wf_at_page _ Hwf Hlt)).
Qed.

Lemma read_abs b n :
  wf b -> m_position b < m_capacity b -> 0 <= n ->
  match Spec.read (Z.to_nat n) (abs b) with
  | Some (l, s) => exists b', ByteArray_read n b = Ok l b' /\ wf b' /\ abs b' = s
                     /\ m_baseSize b' = m_baseSize b /\ m_endian b' = m_endian b
  | None => ByteArray_read n b = Throw out_of_range b
  end.
Proof.
  intros Hwf Hlt Hn. pose proof Hwf as [Hb Hr Hp Hs Hc].
  pose proof (length_content b Hb Hs) as Hlen. pose proof (getReadSize_wf b Hwf) as Hrs.
  unfold Spec.read, abs. cbn [Spec.sdata Spec.spos]. rewrite Hlen.
  case_decide as Hfit.
  - rewrite (read_loop_start b n Hwf Hlt) by lia.
    destruct (read_loop_spec (walk_fuel b) n [] b (m_position b))
      as (b' & Hrun & (Hb' & [Hsb Hsc Hss Hse Hsl] & Hp' & Hc') & Hpg);
      [by apply wf_at_page|lia..|auto with cpp|].
    exists b'. rewrite slice_content by (done || lia).
    split_and!; [done|split; auto; lia| |done..].
    f_equal; [|lia]. unfold content. by rewrite Hpg, Hss.
  - unfold ByteArray_read. cbn [bind gets]. rewrite Hrs.
    by rewrite (proj2 (Z.ltb_lt _ _)) by lia.
Qed.

(** With the position at the end of the last node [m_cur] is null, and even a
    read of no bytes dereferences it. *)
Lemma read_at_end b n :
  wf b -> m_position b = m_capacity b -> 0 <= n ->
  ByteArray_read n b = if n =? 0 then Ub else Throw out_of_range b.
Proof.
  intros Hwf He Hn. pose proof Hwf as [Hb Hr Hp Hs Hc]. pose proof (pg_base _ Hb).
  unfold ByteArray_read. cbn [bind gets]. rewrite (getReadSize_wf b Hwf).
  destruct (Z.eqb_spec n 0) as [->|].
  - rewrite (proj2 (Z.ltb_ge _ _)) by lia. unfold bind, gets, page_offset, cur_size.
    rewrite (proj2 (Z.eqb_neq (m_baseSize b) 0)) by lia.
    rewrite Hc, (proj2 (Z.ltb_ge _ _)) by lia. done.
  - by rewrite (proj2 (Z.ltb_lt _ _)) by lia.
Qed.

(** The [const] overload reads through [m_cur], so it reads what it is asked
    for when [st] is in the node of the position. *)
Lemma read_at_spec b n st :
  wf b -> m_position b < m_capacity b -> 0 <= n -> 0 <= st -> st + n <= m_size b ->
  st < m_capacity b -> st / m_baseSize b = m_position b / m_baseSize b ->
  ByteArray_read_at n st b = Ok (slice (content b) (Z.to_nat st) (Z.to_nat n)) b.
Proof.
  intros Hwf Hlt Hn Hst Hfit Hsc Hnode. pose proof Hwf as [Hb Hr Hp Hs Hc].
  pose proof (pg_base _ Hb). pose proof (pg_limit _ Hb).
  pose proof (Z.mod_pos_bound st (m_baseSize b) ltac:(lia)).
  unfold ByteArray_read_at. cbn [bind gets]. rewrite u64_small by lia.
  rewrite (proj2 (Z.ltb_ge _ _)) by lia. unfold bind at 1, page_offset.
  rewrite (proj2 (Z.eqb_neq (m_baseSize b) 0)) by lia.
  destruct (wf_at_page b Hwf Hlt) as [_ Hpr _ Hcur].
  mrun (cur_size_spec b _ Hb Hpr Hcur). cbn [bind gets].
  rewrite Hcur, <- Hnode, u64_small by lia.
  rewrite (read_at_loop_spec (walk_fuel b) n [] b st) by (auto with cpp; lia).
  by rewrite slice_content by (done || lia).
Qed.

(** ** setPosition *)

Lemma setPosition_loop_spec fuel v b k :
  paged b -> m_cur b = Some k -> (k < length (m_nodes b))%nat -> 0 <= v ->
  (length (m_nodes b) - k < fuel)%nat ->
  setPosition_loop fuel v b =
  if Z.of_nat k + v / m_baseSize b <? Z.of_nat (length (m_nodes b))
  then Ok tt (set_cur (Some (k + Z.to_nat (v / m_baseSize b))%nat) b) else Ub.
Proof.
  intros Hb. pose proof (pg_base _ Hb).
  revert v b k Hb H. induction fuel as [|fuel IH]; [lia|].
  intros v b k Hb Hbase Hcur Hk Hv Hfuel. cbn [setPosition_loop].
  destruct (lookup_lt_is_Some_2 _ _ Hk) as [nd Hnd].
  destruct (Forall_lookup_1 _ _ _ _ (pg_nodes _ Hb) Hnd) as [Hsz _].
  assert (cur_size b = Ok (m_baseSize b) b) as Hcs.
  { unfold cur_size. rewrite Hcur. cbn. by rewrite Hnd, <- Hsz. }
  mrun Hcs. destruct (Z.leb_spec (m_baseSize b) v) as [Hge|Hin].
  - unfold bind at 1, advance_cur. rewrite Hcur. cbn [next_of]. rewrite decide_True by done.
    assert (v / m_baseSize b = 1 + (v - m_baseSize b) / m_baseSize b) as ->
      by (rewrite <- Z.div_add_l by lia; f_equal; lia).
    assert (0 <= (v - m_baseSize b) / m_baseSize b) by (apply Z.div_pos; lia).
    case_decide as Hnext.
    + rewrite (IH _ (set_cur (Some (S k)) b) (S k)); cbn; auto with cpp; try lia.
      set (q := (v - m_baseSize b) / m_baseSize b) in *.
      replace (Z.of_nat k + (1 + q)) with (Z.of_nat (S k) + q) by lia.
      destruct (_ <? _); [|done]. unfold set_cur. cbn. do 3 f_equal. lia.
    + destruct fuel as [|fuel]; [lia|]. cbn. by rewrite (proj2 (Z.ltb_ge _ _)) by lia.
  - rewrite Z.div_small by lia. rewrite (proj2 (Z.ltb_lt _ _)) by lia.
    cbn. rewrite Nat.add_0_r, <- Hcur. by destruct b.
Qed.

(** [setPosition(v)] within the capacity runs the loop from the root. *)
Lemma setPosition_run b v :
  wf b -> 0 <= v <= m_capacity b ->
  exists b2, ByteArray_setPosition v b =
      (if v =? m_capacity b then Ub
       else Ok tt (set_cur (Some (Z.to_nat (v / m_baseSize b))) b2))
    /\ paged b2 /\ m_nodes b2 = m_nodes b /\ m_position b2 = v
    /\ m_size b2 = m_size b `max` v /\ m_baseSize b2 = m_baseSize b
    /\ m_capacity b2 = m_capacity b /\ m_endian b2 = m_endian b.
Proof.
  intros Hwf Hv. pose proof Hwf as [Hb Hr Hp Hs Hc]. pose proof (pg_base _ Hb).
  unfold ByteArray_setPosition. cbn [bind gets].
  rewrite (proj2 (Z.ltb_ge (m_capacity b) v)) by lia.
  assert (Hrun : forall k, (modify (set_position v) ;;; modify (fun b =>
      if m_size b <? m_position b then set_size (m_position b) b else b) ;;;
      modify (set_cur (Some 0%nat)) ;;; k) b
    = (k : M ByteArray unit) (set_cur (Some 0%nat)
        (if m_size b <? v then set_size v (set_position v b) else set_position v b))) by done.
  rewrite Hrun. clear Hrun. set (b2 := if m_size b <? v then _ else _).
  assert (Hsh : paged b2 /\ m_nodes b2 = m_nodes b /\ m_position b2 = v
    /\ m_size b2 = m_size b `max` v /\ m_baseSize b2 = m_baseSize b
    /\ m_capacity b2 = m_capacity b /\ m_endian b2 = m_endian b).
  { unfold b2. destruct (Z.ltb_spec (m_size b) v); cbn; split_and!; auto with cpp; lia. }
  clearbody b2. exists b2. split; [|done]. destruct Hsh as (Hb2 & Hno & Hpo & Hsi & Hba & Hca & Hen).
  cbn [bind gets]. unfold walk_fuel.
  rewrite (setPosition_loop_spec _ v (set_cur (Some 0%nat) b2) 0); cbn; auto with cpp;
    rewrite ?Hno; try lia.
  rewrite Hba. pose proof (pg_cap _ Hb) as Hcap.
  destruct (Z.eqb_spec v (m_capacity b)) as [->|Hne].
  - rewrite Hcap, Z.mul_comm, Z.div_mul by lia. by rewrite Z.ltb_irrefl.
  - by rewrite (proj2 (Z.ltb_lt _ _)) by (apply Z.div_lt_upper_bound; lia).
Qed.

Lemma setPosition_inside b v :
  wf b -> 0 <= v < m_capacity b ->
  exists b', ByteArray_setPosition v b = Ok tt b' /\ wf b' /\ m_position b' = v
    /\ content b' = take (Z.to_nat (m_size b `max` v)) (pages b)
    /\ m_baseSize b' = m_baseSize b /\ m_endian b' = m_endian b
    /\ m_capacity b' = m_capacity b /\ m_size b' = m_size b `max` v.
Proof.
  intros Hwf Hv. pose proof Hwf as [Hb Hr Hp Hs Hc].
  destruct (setPosition_run b v Hwf) as (b2 & Hrun & Hb2 & Hno & Hpo & Hsi & Hba & Hca & Hen); [lia|].
  rewrite (proj2 (Z.eqb_neq _ _)) in Hrun by lia. eexists. split; [exact Hrun|].
  split; [|cbn; split_and!; try done; unfold content, pages; cbn; by rewrite Hsi, Hno].
  split; cbn; auto with cpp; rewrite ?Hno; try done; try lia.
  unfold cursor_ok. cbn. by rewrite Hpo, Hca, Hba, (proj2 (Z.ltb_lt _ _)) by lia.
Qed.

Lemma wf_new base : 0 < base < 2 ^ 53 -> wf (new_ByteArray base).
Proof.
  intros Hb. split; cbn; try lia.
  - split; cbn; try lia. constructor; [|constructor]. split; [done|]. apply length_replicate.
  - unfold cursor_ok. cbn. rewrite (proj2 (Z.ltb_lt _ _)) by lia. by rewrite Z.div_0_l by lia.
Qed.

Lemma clear_spec b :
  wf b -> exists b', ByteArray_clear b = Ok tt b' /\ wf b' /\ content b' = []
    /\ m_position b' = 0 /\ m_capacity b' = m_baseSize b /\ m_endian b' = m_endian b.
Proof.
  intros [Hb Hr Hp Hs Hc]. unfold ByteArray_clear. pose proof (pg_base _ Hb).
  destruct (m_nodes b) as [|root ns] eqn:E; [cbn in Hr; lia|].
  eexists. split; [done|]. split_and!; try done.
  split; cbn; try lia.
  - pose proof (pg_nodes _ Hb) as Hn. rewrite E in Hn. inversion Hn; subst.
    split; cbn; try lia. by apply Forall_singleton.
  - unfold cursor_ok. cbn. rewrite (proj2 (Z.ltb_lt _ _)) by lia. by rewrite Z.div_0_l by lia.
Qed.

(** ** Destruction *)

Lemma destroy_loop_spec n fuel k b deleted :
  (k + S n)%nat = length (m_nodes b) -> (S n < fuel)%nat ->
  exists b', destroy_loop fuel (Some k) deleted b = Ok (deleted ++ seq k (S n)) b'.
Proof.
  revert fuel k b deleted. induction n as [|n IH]; intros [|fuel] k b deleted Hk Hf; try lia; cbn [destroy_loop].
  - unfold bind at 1, modify. unfold bind at 1. cbn [next_of m_nodes set_cur]. rewrite decide_True by lia. cbn [deref].
    rewrite decide_False by lia. destruct fuel; [lia|]. eexists. reflexivity.
  - unfold bind at 1, modify. unfold bind at 1. cbn [next_of m_nodes set_cur]. rewrite decide_True by lia. cbn [deref].
    rewrite decide_True by lia. destruct (IH fuel (S k) (set_cur (Some k) b) (deleted ++ [k])) as (b' & ->); [cbn; lia|lia|].
    exists b'. by rewrite <- app_assoc.
Qed.

(** Note: the destructor deletes every node once, in order. *)
Lemma destroy_spec b :
  exists b', ByteArray_destroy b = Ok (seq 0 (length (m_nodes b))) b'.
Proof.
  unfold ByteArray_destroy. cbn [bind gets]. unfold walk_fuel. destruct (m_nodes b) as [|nd ns] eqn:E.
  - by exists b.
  - destruct (destroy_loop_spec (length ns) (S (S (length (nd :: ns)))) 0 b []) as (b' & Hrun); [by rewrite E|cbn; lia|].
    by exists b'.
Qed.

(** ** Termination of the loops, on every state *)

(** Nodes from [p] to the end of the list, for any pointer. *)
Definition reach (b : ByteArray) (p : option nat) : nat :=
  match p with Some k => length (m_nodes b) - k | None => 0 end.

Lemma next_of_reach b p q : next_of b p = Some q -> (reach b q < reach b p)%nat.
Proof.
  destruct p as [k|]; [|done]. cbn. case_decide; [|done].
  intros [= <-]. case_decide; cbn; lia.
Qed.

Lemma store_nodes b p off bs b' :
  store b p off bs = Some b' -> length (m_nodes b') = length (m_nodes b) /\ m_cur b' = m_cur b.
Proof.
  destruct p as [k|]; [|done]. cbn. destruct (m_nodes b !! k); [|done].
  destruct (_ && _); [|done]. intros [= <-]. cbn. by rewrite length_insert.
Qed.

Lemma load_reach b p off n l : load b p off n = Some l -> (0 < reach b p)%nat.
Proof.
  destruct p as [k|]; [|done]. cbn. destruct (m_nodes b !! k) eqn:E; [|done].
  apply lookup_lt_Some in E. lia.
Qed.

Lemma store_reach b p off bs b' : store b p off bs = Some b' -> (0 < reach b p)%nat.
Proof.
  destruct p as [k|]; [|done]. cbn. destruct (m_nodes b !! k) eqn:E; [|done].
  apply lookup_lt_Some in E. lia.
Qed.

Lemma write_loop_fuel fuel buf npos ncap bpos size b :
  (S (reach b (m_cur b)) < fuel)%nat -> write_loop fuel buf npos ncap bpos size b <> NoFuel.
Proof.
  revert npos ncap bpos size b. induction fuel as [|fuel IH]; [lia|].
  intros npos ncap bpos size b Hfuel. cbn [write_loop].
  destruct (0 <? size); [|done]. destruct (size <=? ncap).
  - unfold bind at 1, memcpy_in. destruct (store _ _ _ _) as [b1|] eqn:Est; [|done].
    destruct fuel as [|fuel]; [lia|]. unfold bind at 1.
    destruct (_ =? 0); unfold advance_cur; [destruct (next_of _ _)|]; done.
  - unfold bind at 1, memcpy_in. destruct (store _ _ _ _) as [b1|] eqn:Est; [|done].
    apply store_nodes in Est as [Hl Hc]. cbn [bind modify].
    unfold bind at 1, advance_cur. destruct (next_of _ _) as [q|] eqn:En; [|done].
    apply next_of_reach in En.
    change (reach b1 q < reach b1 (m_cur b1))%nat in En.
    assert (reach b1 (m_cur b1) = reach b (m_cur b)) as Hre.
    { unfold reach. by rewrite Hc, Hl. }
    unfold bind, cur_size. destruct (size_of _ _); [|done]. cbn [deref].
    apply IH. change (S (reach b1 q) < fuel)%nat. lia.
Qed.

Lemma read_loop_fuel fuel npos ncap size out b :
  (S (reach b (m_cur b)) < fuel)%nat -> read_loop fuel npos ncap size out b <> NoFuel.
Proof.
  revert npos ncap size out b. induction fuel as [|fuel IH]; [lia|].
  intros npos ncap size out b Hfuel. cbn [read_loop].
  destruct (0 <? size); [|done]. destruct (size <=? ncap).
  - cbn [bind gets]. unfold bind at 1, memcpy_out. destruct (load _ _ _ _) as [l|]; [|done].
    destruct fuel as [|fuel]; [lia|]. cbn [deref]. unfold bind at 1.
    destruct (_ =? _); unfold advance_cur; [destruct (next_of _ _)|]; done.
  - cbn [bind gets]. unfold bind at 1, memcpy_out. destruct (load _ _ _ _) as [l|]; [|done].
    cbn [deref]. unfold bind at 1, advance_cur. destruct (next_of _ _) as [q|] eqn:En; [|done].
    apply next_of_reach in En. cbn [bind modify].
    unfold bind, cur_size. destruct (size_of _ _); [|done]. cbn [deref].
    apply IH. change (S (reach b q) < fuel)%nat. lia.
Qed.

Lemma read_at_loop_fuel fuel cur npos ncap size out b :
  (S (reach b cur) < fuel)%nat -> read_at_loop fuel cur npos ncap size out b <> NoFuel.
Proof.
  revert cur npos ncap size out. induction fuel as [|fuel IH]; [lia|].
  intros cur npos ncap size out Hfuel. cbn [read_at_loop].
  destruct (0 <? size); [|done]. destruct (size <=? ncap);
    unfold bind at 1, memcpy_out; destruct (load _ _ _ _) as [l|]; try done; cbn [deref].
  - destruct fuel as [|fuel]; [lia|]. unfold bind at 1.
    destruct (_ =? _); [destruct (next_of _ _)|]; done.
  - unfold bind at 1. destruct (next_of _ _) as [q|] eqn:En; [|done].
    apply next_of_reach in En. cbn [deref]. unfold bind.
    destruct (size_of _ _); [|done]. cbn [deref]. apply IH. lia.
Qed.

Lemma setPosition_loop_fuel fuel v b :
  (reach b (m_cur b) < fuel)%nat -> setPosition_loop fuel v b <> NoFuel.
Proof.
  revert v b. induction fuel as [|fuel IH]; [lia|].
  intros v b Hfuel. cbn [setPosition_loop]. unfold bind at 1, cur_size.
  destruct (size_of _ _) as [z|]; [|done]. cbn [deref]. destruct (z <=? v); [|done].
  unfold bind, advance_cur. destruct (next_of _ _) as [q|] eqn:En; [|done].
  apply next_of_reach in En. apply IH. change (reach b q < fuel)%nat. lia.
Qed.

Lemma reach_fuel b p : (S (reach b p) < walk_fuel b)%nat.
Proof. unfold walk_fuel, reach. destruct p; lia. Qed.

Lemma page_offset_fuel {A} pos (k : Z -> Z -> nat -> M ByteArray A) b :
  (forall npos ncap, k npos ncap (walk_fuel b) b <> NoFuel) ->
  (npos <-- page_offset pos ;; csize <-- cur_size ;;
   fuel <-- gets walk_fuel ;; k npos (u64 (csize - npos)) fuel) b <> NoFuel.
Proof.
  intros Hk. unfold page_offset, cur_size, bind at 1. destruct (_ =? 0); [done|].
  unfold bind at 1. destruct (size_of _ _); [|done]. apply Hk.
Qed.

(** C28: every one of [write], both [read]s and [setPosition], on every state of
    the object, reachable or not, ends: the loops never exhaust their bound. *)
Theorem bytearray_terminates b :
  (forall buf, ByteArray_write buf b <> NoFuel)
  /\ (forall n, ByteArray_read n b <> NoFuel)
  /\ (forall n st, ByteArray_read_at n st b <> NoFuel)
  /\ (forall v, ByteArray_setPosition v b <> NoFuel).
Proof.
  split_and!.
  - intros buf. unfold ByteArray_write. destruct (_ <=? 0); [done|].
    apply bind_NoFuel; [unfold ByteArray_addCapacity; repeat case_match; done|].
    intros [] b1 _. cbn [bind gets].
    apply (page_offset_fuel _ (fun npos ncap fuel => write_loop fuel buf npos ncap 0 _ ;;; _)).
    intros. apply bind_NoFuel; [apply write_loop_fuel, reach_fuel|done].
  - intros n. unfold ByteArray_read. cbn [bind gets]. destruct (_ <? n); [done|].
    apply (page_offset_fuel _ (fun npos ncap fuel => read_loop fuel npos ncap n [])).
    intros. apply read_loop_fuel, reach_fuel.
  - intros n st. unfold ByteArray_read_at. cbn [bind gets]. destruct (_ <? n); [done|].
    apply (page_offset_fuel _ (fun npos ncap fuel =>
      cur <-- gets m_cur ;; read_at_loop fuel cur npos ncap n [])).
    intros. apply read_at_loop_fuel, reach_fuel.
  - intros v. unfold ByteArray_setPosition. cbn [bind gets]. destruct (_ <? v); [done|].
    cbn [bind modify gets]. apply setPosition_loop_fuel.
    pose proof (reach_fuel (set_cur (Some 0%nat)
      (if m_size (set_position v b) <? m_position (set_position v b)
       then set_size (m_position (set_position v b)) (set_position v b)
       else set_position v b)) (Some 0%nat)). cbn [m_cur set_cur]. lia.
Qed.

(** ** Runs of operations *)

Inductive op :=
| OWrite (buf : list Z)
| ORead (n : Z)
| OSeek (v : Z)
| OClear.

(** The call of the class; only [read] has a result. *)
Definition exec (o : op) : M ByteArray (list cell) :=
  match o with
  | OWrite buf => ByteArray_write buf ;;; mreturn []
  | ORead n => ByteArray_read n
  | OSeek v => ByteArray_setPosition v ;;; mreturn []
  | OClear => ByteArray_clear ;;; mreturn []
  end.

(** The caller catches the exceptions: [None] is the result of a call that
    threw; the run stops on undefined behaviour. *)
Fixpoint exec_all (os : list op) (b : ByteArray) : option (list (option (list cell)) * ByteArray) :=
  match os with
  | [] => Some ([], b)
  | o :: os =>
      let continue r b' := '(rs, b2) ← exec_all os b'; Some (r :: rs, b2) in
      match exec o b with
      | Ok r b' => continue (Some r) b'
      | Throw _ b' => continue None b'
      | _ => None
      end
  end.

Definition spec_exec (o : op) (s : Spec.stream) : option (list cell) * Spec.stream :=
  match o with
  | OWrite buf => (Some [], Spec.write (Some <$> buf) s)
  | ORead n => match Spec.read (Z.to_nat n) s with
               | Some (l, s') => (Some l, s')
               | None => (None, s)
               end
  | OSeek v => (Some [], Spec.Stream (Spec.sdata s) (Z.to_nat v))
  | OClear => (Some [], Spec.Stream [] 0)
  end.

Fixpoint spec_all (os : list op) (s : Spec.stream) : list (option (list cell)) * Spec.stream :=
  match os with
  | [] => ([], s)
  | o :: os => let '(r, s') := spec_exec o s in
               let '(rs, s2) := spec_all os s' in (r :: rs, s2)
  end.

(** When a call is within the contract of the class. *)
Definition safe (o : op) (b : ByteArray) : Prop :=
  match o with
  | OWrite buf => writable b /\ m_size b + Z.of_nat (length buf) < 2 ^ 53
  | ORead n => m_position b < m_capacity b /\ 0 <= n
  | OSeek v => 0 <= v <= m_size b /\ v < m_capacity b
  | OClear => True
  end.

Fixpoint safe_all (os : list op) (b : ByteArray) : Prop :=
  match os with
  | [] => True
  | o :: os => safe o b /\ match exec o b with
                           | Ok _ b' | Throw _ b' => safe_all os b'
                           | _ => False
                           end
  end.

Lemma exec_abs o b :
  wf b -> safe o b ->
  exists r b', (exec o b = Ok r b' /\ spec_exec o (abs b) = (Some r, abs b')
               \/ exec o b = Throw out_of_range b' /\ spec_exec o (abs b) = (None, abs b'))
    /\ wf b'.
Proof.
  intros Hwf Hs. destruct o as [buf|n|v|]; cbn [safe exec spec_exec] in *.
  - destruct Hs as [Hw Hl]. destruct (write_abs b buf Hwf Hw Hl) as (b' & Hrun & Hwf' & Habs & _).
    exists [], b'. split; [left|done]. mrun Hrun. by rewrite Habs.
  - destruct Hs as [Hlt Hn]. pose proof (read_abs b n Hwf Hlt Hn) as Hr.
    destruct (Spec.read _ _) as [[l s]|].
    + destruct Hr as (b' & Hrun & Hwf' & Habs & _). exists l, b'. split; [left|done].
      by rewrite Habs.
    + exists [], b. by auto.
  - destruct Hs as [Hv Hlt]. destruct (setPosition_inside b v Hwf)
      as (b' & Hrun & Hwf' & Hpo & Hco & _); [lia|].
    exists [], b'. split; [left|done]. mrun Hrun. split; [done|].
    unfold abs. rewrite Hpo, Hco, Z.max_l by lia. done.
  - destruct (clear_spec b Hwf) as (b' & Hrun & Hwf' & Hco & Hpo & _).
    exists [], b'. split; [left|done]. mrun Hrun. split; [done|].
    unfold abs. by rewrite Hpo, Hco.
Qed.

(** C1: refinement.  Any sequence of [write], [read], [setPosition] and [clear]
    calls within the contract gives, call by call, the results of the abstract
    byte stream, an exception exactly where the stream has too few bytes, and
    ends in a well-formed buffer that represents the stream's final state. *)
Theorem bytearray_refines_stream os b :
  wf b -> safe_all os b ->
  exists rs b', exec_all os b = Some (rs, b') /\ wf b'
    /\ spec_all os (abs b) = (rs, abs b').
Proof.
  revert b. induction os as [|o os IH]; intros b Hwf Hs; [by exists [], b|].
  destruct Hs as [Ho Hs]. cbn [exec_all spec_all].
  destruct (exec_abs o b Hwf Ho) as (r & b' & [[Hrun Hsp]|[Hrun Hsp]] & Hwf');
    rewrite Hrun in Hs |- *; destruct (IH b' Hwf' Hs) as (rs & b2 & Hall & Hwf2 & Hspec);
    rewrite Hsp, Hall, Hspec; cbn; eauto.
Qed.

Lemma bytearray_refines_stream_witness :
  let os := [OWrite [1; 2; 3; 4; 5]; OSeek 1; ORead 3; ORead 9; OWrite [7; 8]; OClear; ORead 1] in
  exists rs b', exec_all os (new_ByteArray 4) = Some (rs, b') /\ wf b'
    /\ spec_all os (abs (new_ByteArray 4)) = (rs, abs b').
Proof.
  intros os. apply (bytearray_refines_stream os (new_ByteArray 4)).
  - apply wf_new. lia.
  - vm_compute. intuition congruence.
Defined.

(** Note: [setPosition(v)] past the capacity throws and changes nothing; inside
    it, it moves the cursor to the node of [v] and extends the size to cover
    [v]; at [v = m_capacity], which the guard lets through, it dereferences the
    null pointer after the last node. *)
Theorem setPosition_spec b v :
  wf b -> 0 <= v ->
  if m_capacity b <? v then ByteArray_setPosition v b = Throw out_of_range b
  else if v =? m_capacity b then ByteArray_setPosition v b = Ub
  else exists b', ByteArray_setPosition v b = Ok tt b' /\ wf b' /\ m_position b' = v
         /\ m_size b' = m_size b `max` v
         /\ content b' = take (Z.to_nat (m_size b `max` v)) (pages b).
Proof.
  intros Hwf Hv. destruct (Z.ltb_spec (m_capacity b) v).
  { unfold ByteArray_setPosition. cbn [bind gets].
    by rewrite (proj2 (Z.ltb_lt (m_capacity b) v)). }
  destruct (Z.eqb_spec v (m_capacity b)) as [->|].
  - destruct (setPosition_run b (m_capacity b) Hwf) as (b2 & -> & _); [lia|].
    by rewrite Z.eqb_refl.
  - destruct (setPosition_inside b v Hwf) as (b' & ? & ? & ? & ? & _ & _ & _ & ?); [lia|].
    by exists b'.
Qed.

Lemma setPosition_spec_witness :
  ByteArray_setPosition 4 (new_ByteArray 4) = Ub
  /\ ByteArray_setPosition 5 (new_ByteArray 4) = Throw out_of_range (new_ByteArray 4).
Proof.
  split; [apply (setPosition_spec (new_ByteArray 4) 4)
         |apply (setPosition_spec (new_ByteArray 4) 5)]; (apply wf_new || idtac); lia.
Defined.

(** ** The write outside the contract

    When the buffer is full ([m_size = m_capacity]) [addCapacity] moves
    [m_cur] to the first new node, wherever the position is. *)

Lemma write_loop_one_page fuel buf b k npos :
  paged b -> m_cur b = Some k -> (k < length (m_nodes b))%nat -> 0 <= npos ->
  0 < Z.of_nat (length buf) -> npos + Z.of_nat (length buf) < m_baseSize b ->
  0 <= m_position b -> m_position b + Z.of_nat (length buf) < 2 ^ 64 ->
  exists b', write_loop (S (S fuel)) buf npos (m_baseSize b - npos) 0 (Z.of_nat (length buf)) b = Ok tt b'
    /\ m_position b' = m_position b + Z.of_nat (length buf) /\ m_size b' = m_size b
    /\ m_cur b' = Some k /\ m_baseSize b' = m_baseSize b
    /\ pages b' = splice (pages b) (k * Z.to_nat (m_baseSize b) + Z.to_nat npos) (Some <$> buf).
Proof.
  intros Hb Hcur Hk Hn Hlen Hfit Hpos Hlim. pose proof (pg_base _ Hb). pose proof (pg_cap _ Hb).
  cbn [write_loop]. rewrite (proj2 (Z.ltb_lt 0 _)), (proj2 (Z.leb_le _ _)) by lia.
  assert (slice buf (Z.to_nat 0) (Z.to_nat (Z.of_nat (length buf))) = buf) as ->.
  { unfold slice. rewrite drop_0. apply take_ge. lia. }
  set (p := Z.of_nat k * m_baseSize b + npos).
  assert (p / m_baseSize b = Z.of_nat k /\ p mod m_baseSize b = npos) as [Hd Hm].
  { unfold p. rewrite Z.add_comm, Z.div_add, Z.mod_add, Z.div_small, Z.mod_small by lia. lia. }
  destruct (store_spec b Hb p buf) as (b1 & Hst & Hb1 & Hsh & Hpo1 & Hcu1 & Hpg1); [nia|lia|].
  rewrite Hd, Hm, Nat2Z.id in Hst.
  assert (memcpy_in npos buf b = Ok tt b1) as Hmem by (unfold memcpy_in; by rewrite Hcur, Hst).
  mrun Hmem. rewrite (proj2 (Z.eqb_neq _ 0)) by lia.
  eexists. split; [reflexivity|]. cbn -[pages]. rewrite Hpo1, u64_small by lia.
  split_and!; [done|apply Hsh|congruence|apply Hsh|].
  change (pages (set_position _ b1)) with (pages b1). rewrite Hpg1. f_equal.
  unfold p. rewrite Z2Nat.inj_add, Z2Nat.inj_mul by lia. by rewrite Nat2Z.id.
Qed.

(** Note: a [write] into a full buffer whose position was moved back (by
    [setPosition]) overwrites nothing: the bytes land in a node appended after
    the data, at the same offset in the page, while the position advances as
    if they had been written. *)
Theorem write_full_misplaced b buf :
  wf b -> m_size b = m_capacity b -> m_position b < m_size b -> buf <> [] ->
  m_position b mod m_baseSize b + Z.of_nat (length buf) < m_baseSize b ->
  m_size b + Z.of_nat (length buf) < 2 ^ 53 ->
  exists b', ByteArray_write buf b = Ok tt b'
    /\ content b' = content b /\ m_position b' = m_position b + Z.of_nat (length buf)
    /\ slice (pages b') (Z.to_nat (m_size b + m_position b mod m_baseSize b)) (length buf)
       = Some <$> buf
    /\ ~ wf b'.
Proof.
  intros Hwf Hfull Hp Hne Hpage Hlim. pose proof Hwf as [Hb Hr Hpos Hs Hc].
  pose proof (pg_base _ Hb) as Hbase. pose proof (pg_cap _ Hb) as Hcap.
  assert (0 < Z.of_nat (length buf)) by (destruct buf; [done|cbn; lia]).
  pose proof (Z.mod_pos_bound (m_position b) (m_baseSize b) ltac:(lia)) as Hmod.
  pose proof (Z.div_mod (m_position b) (m_baseSize b) ltac:(lia)) as Hdm.
  assert (m_position b / m_baseSize b < Z.of_nat (length (m_nodes b))) as Hpk
    by (apply Z.div_lt_upper_bound; lia).
  assert (m_position b + Z.of_nat (length buf) <= m_size b) as Hend by nia.
  destruct (addCapacity_spec b (Z.of_nat (length buf)) Hb)
    as (b1 & Hadd & Hb1 & Hba & Hpo & Hsi & Hen & Hca & Hfit & Hpg & Hcu); [lia..|].
  rewrite (proj2 (Z.eqb_eq _ _) Hfull), (proj2 (Z.ltb_lt 0 _)) in Hcu by lia. cbn in Hcu.
  assert (length (m_nodes b) < length (m_nodes b1))%nat as Hk.
  { pose proof (pg_cap _ Hb1). rewrite Hba in *. nia. }
  assert (m_baseSize b <= m_capacity b1 - m_capacity b) as Hgrow.
  { rewrite (pg_cap _ Hb1), Hba, Hcap. nia. }
  destruct (write_loop_one_page (length (m_nodes b1)) buf b1 (length (m_nodes b))
    (m_position b mod m_baseSize b)) as (b2 & Hrun & Hp2 & Hs2 & Hc2 & Hb2 & Hpg2); try done; try lia.
  assert (Hw : ByteArray_write buf b = Ok tt b2).
  { unfold ByteArray_write. rewrite (proj2 (Z.leb_gt _ _)) by lia. mrun Hadd.
    cbn [bind gets]. unfold bind at 1, page_offset. rewrite Hba, Hpo.
    rewrite (proj2 (Z.eqb_neq (m_baseSize b) 0)) by lia.
    assert (cur_size b1 = Ok (m_baseSize b1) b1) as Hcs.
    { destruct (lookup_lt_is_Some_2 _ _ Hk) as [nd Hnd].
      destruct (Forall_lookup_1 _ _ _ _ (pg_nodes _ Hb1) Hnd) as [Hsz _].
      unfold cur_size. rewrite Hcu. cbn. by rewrite Hnd, <- Hsz. }
    mrun Hcs. cbn [bind gets]. rewrite u64_small by lia. unfold walk_fuel.
    mrun Hrun. unfold modify. rewrite Hp2, Hs2, Hsi, Hpo.
    by rewrite (proj2 (Z.ltb_ge _ _)) by lia. }
  rewrite Hba, Hpg in Hpg2.
  assert (length (m_nodes b) * Z.to_nat (m_baseSize b) = Z.to_nat (m_size b))%nat as Hnat by lia.
  rewrite Hnat in Hpg2. pose proof (length_pages b Hb) as Hlp. rewrite <- Hfull in Hlp.
  exists b2. split_and!; [done| |by rewrite Hp2, Hpo| |].
  - unfold content. rewrite Hpg2, Hs2, Hsi. rewrite take_splice_before by (rewrite ?length_app; lia).
    by rewrite take_app_le by lia.
  - rewrite Hpg2, <- Z2Nat.inj_add by lia.
    rewrite <- (length_fmap (Some : Z -> cell) buf). apply slice_splice.
    rewrite length_app, length_replicate. lia.
  - intros Hwf2. pose proof (wf_cur _ Hwf2) as Hbad. unfold cursor_ok in Hbad.
    rewrite Hc2, Hp2, Hpo in Hbad. destruct (_ <? _); [|done].
    injection Hbad as Hbad. rewrite Hb2, Hba in Hbad.
    rewrite page_same in Hbad by lia. lia.
Qed.

Lemma write_full_misplaced_witness :
  let b := mkByteArray 4 0 4 4 SYLAR_BIG_ENDIAN
             [mkNode 4 [Some 1; Some 2; Some 3; Some 4]] (Some 0%nat) in
  exists b', ByteArray_write [9] b = Ok tt b'
    /\ content b' = content b /\ m_position b' = 1
    /\ slice (pages b') 4 1 = [Some 9] /\ ~ wf b'.
Proof.
  intros b. apply (write_full_misplaced b [9]); try done.
  split; cbn; try lia; [|done]. split; cbn; try lia. by apply Forall_singleton.
Defined.
