(* ===== verification/ByteArrayCodec.v ===== *)
(** * ByteArray codecs (src/src/socket/bytearray.cpp, lines 48-306)

    The typed readers and writers of [ByteArray]: fixed-width integers in the
    byte order of the buffer, the variable-length integers with their zigzag
    mapping, floating-point values as bit patterns, and strings with a length
    prefix.  A signed overflow, a read of an indeterminate integer and an index
    outside a local array are undefined behaviour. *)
From S2P Require Import Prelude Endian Double ByteArray.

(** ** Zigzag *)

(** The result of signed arithmetic at [w] bits; [None] on overflow. *)
Definition checked (w z : Z) : option Z :=
  if (- 2 ^ (w - 1) <=? z) && (z <? 2 ^ (w - 1)) then Some z else None.

(** [EncodeZigzag32], [EncodeZigzag64]: [-v] and [v * 2] are signed. *)
Definition EncodeZigzag (w v : Z) : option Z :=
  if v <? 0 then
    nv ← checked w (- v);
    Some (wrap w (wrap w nv * 2 - 1))
  else
    dv ← checked w (v * 2);
    Some (wrap w dv).
Definition EncodeZigzag32 : Z -> option Z := EncodeZigzag 32.
Definition EncodeZigzag64 : Z -> option Z := EncodeZigzag 64.

(** [DecodeZigzag32], [DecodeZigzag64] on an unsigned [v]. *)
Definition DecodeZigzag (w v : Z) : Z :=
  swrap w (Z.lxor (Z.shiftr v 1) (wrap w (- Z.land v 1))).
Definition DecodeZigzag32 : Z -> Z := DecodeZigzag 32.
Definition DecodeZigzag64 : Z -> Z := DecodeZigzag 64.

(** The value of an object of type [T] with bytes [l]; using it is undefined
    when a byte is indeterminate. *)
Definition object {S} `{Target} (T : ctype) (l : list cell) : M S Z :=
  deref (obj_value T <$> mapM id l).

Section codec.
Context `{Target}.

(** ** Fixed-width integers *)

(** [write(&value, sizeof(value))] *)
Definition write_object (T : ctype) (value : Z) : M ByteArray unit :=
  ByteArray_write (obj_bytes T value).

(** The body shared by [writeFint16] ... [writeFuint64]. *)
Definition write_fixed (T : ctype) (value : Z) : M ByteArray unit :=
  endian <-- gets m_endian ;;
  let value := if negb (endian =? SYLAR_BYTE_ORDER) then byteswap T value else value in
  write_object T value.

Definition ByteArray_writeFint8 (value : Z) := write_object int8_t value.
Definition ByteArray_writeFuint8 (value : Z) := write_object uint8_t value.
Definition ByteArray_writeFint16 (value : Z) := write_fixed int16_t value.
Definition ByteArray_writeFuint16 (value : Z) := write_fixed uint16_t value.
Definition ByteArray_writeFint32 (value : Z) := write_fixed int32_t value.
Definition ByteArray_writeFuint32 (value : Z) := write_fixed uint32_t value.
Definition ByteArray_writeFint64 (value : Z) := write_fixed int64_t value.
Definition ByteArray_writeFuint64 (value : Z) := write_fixed uint64_t value.

(** [T v; read(&v, sizeof(v));] *)
Definition read_object (T : ctype) : M ByteArray Z :=
  l <-- ByteArray_read (Z.of_nat (ct_size T)) ;;
  object T l.

(** [readTemplate(type)] *)
Definition readTemplate (T : ctype) : M ByteArray Z :=
  v <-- read_object T ;;
  endian <-- gets m_endian ;;
  mreturn (if endian =? SYLAR_BYTE_ORDER then v else byteswap T v).

Definition ByteArray_readFint8 : M ByteArray Z := read_object int8_t.
Definition ByteArray_readFuint8 : M ByteArray Z := read_object uint8_t.
Definition ByteArray_readFint16 : M ByteArray Z := readTemplate int16_t.
Definition ByteArray_readFuint16 : M ByteArray Z := readTemplate uint16_t.
Definition ByteArray_readFint32 : M ByteArray Z := readTemplate int32_t.
Definition ByteArray_readFuint32 : M ByteArray Z := readTemplate uint32_t.
Definition ByteArray_readFint64 : M ByteArray Z := readTemplate int64_t.
Definition ByteArray_readFuint64 : M ByteArray Z := readTemplate uint64_t.

(** ** Variable-length integers *)

(** The [while] loop of [writeUint32] and [writeUint64] with [uint8_t data\[cap\]]:
    the bytes stored in [data], [None] when the index leaves the array.  Each
    turn shifts [value] right by 7 bits, so [cap] turns exhaust it. *)
Fixpoint varint_loop (fuel cap : nat) (data : list Z) (value : Z) : option (list Z) :=
  if 0x80 <=? value then
    match fuel with
    | O => None
    | S fuel =>
        if decide (length data < cap)%nat
        then varint_loop fuel cap (data ++ [Z.lor (Z.land value 0x7f) 0x80]) (Z.shiftr value 7)
        else None
    end
  else Some data.

(** [writeUint32(uint32_t value)] *)
Definition ByteArray_writeUint32 (value : Z) : M ByteArray unit :=
  data <-- deref (varint_loop 5 5 [] value) ;;
  ByteArray_write data.
(** [writeUint64(uint64_t value)] *)
Definition ByteArray_writeUint64 (value : Z) : M ByteArray unit :=
  data <-- deref (varint_loop 10 10 [] value) ;;
  ByteArray_write data.
Definition ByteArray_writeInt32 (value : Z) : M ByteArray unit :=
  v <-- deref (EncodeZigzag32 value) ;;
  ByteArray_writeUint32 v.
(** [writeInt64] calls [writeUint32]: the argument is converted to [uint32_t]. *)
Definition ByteArray_writeInt64 (value : Z) : M ByteArray unit :=
  v <-- deref (EncodeZigzag64 value) ;;
  ByteArray_writeUint32 (u32 v).

(** The [for(int i = 0; i < w; i += 7)] loop of the readers at [w] bits; [turns]
    is the number of turns left. *)
Fixpoint readUint_loop (w : Z) (turns : nat) (i res : Z) : M ByteArray Z :=
  match turns with
  | O => mreturn res
  | S turns =>
      t <-- ByteArray_readFuint8 ;;
      if t <? 0x80
      then mreturn (Z.lor res (wrap w (Z.shiftl t i)))
      else readUint_loop w turns (i + 7) (Z.lor res (wrap w (Z.shiftl (Z.land t 0x7f) i)))
  end.

(** [int32_t readUint32()]: i = 0, 7, ..., 28. *)
Definition ByteArray_readUint32 : M ByteArray Z :=
  res <-- readUint_loop 32 5 0 0 ;;
  mreturn (i32 res).
(** [int32_t readUint64()]: i = 0, 7, ..., 63; the result is an [int32_t]. *)
Definition ByteArray_readUint64 : M ByteArray Z :=
  res <-- readUint_loop 64 10 0 0 ;;
  mreturn (i32 res).
(** [int32_t readInt32()] *)
Definition ByteArray_readInt32 : M ByteArray Z :=
  v <-- ByteArray_readUint32 ;;
  mreturn (DecodeZigzag32 (u32 v)).
(** [int32_t readInt64()] *)
Definition ByteArray_readInt64 : M ByteArray Z :=
  v <-- ByteArray_readUint64 ;;
  mreturn (i32 (DecodeZigzag64 (u64 v))).

(** ** Floating point: a [float] or [double] is its bit pattern *)

Definition ByteArray_writeFloat (bits : Z) : M ByteArray unit := ByteArray_writeFuint32 bits.
Definition ByteArray_writeDouble (bits : Z) : M ByteArray unit := ByteArray_writeFuint64 bits.
Definition ByteArray_readFloat : M ByteArray Z := ByteArray_readFuint32.
(** [readDouble] copies the eight bytes of [v] over the four of a [float]. *)
Definition ByteArray_readDouble : M ByteArray Z :=
  v <-- ByteArray_readFuint64 ;;
  ub.

(** ** Strings *)

Definition ByteArray_writeString (value : list Z) : M ByteArray unit := ByteArray_write value.
Definition ByteArray_writeStringF16 (value : list Z) : M ByteArray unit :=
  ByteArray_writeFuint16 (u16 (Z.of_nat (length value))) ;;;
  ByteArray_write value.
Definition ByteArray_writeStringF32 (value : list Z) : M ByteArray unit :=
  ByteArray_writeFuint32 (u32 (Z.of_nat (length value))) ;;;
  ByteArray_write value.
Definition ByteArray_writeStringF64 (value : list Z) : M ByteArray unit :=
  ByteArray_writeFuint64 (Z.of_nat (length value)) ;;;
  ByteArray_write value.
Definition ByteArray_writeStringVint (value : list Z) : M ByteArray unit :=
  ByteArray_writeUint64 (Z.of_nat (length value)) ;;;
  ByteArray_write value.

(** [std::string::max_size()] of the C++ library the program is built with. *)
Context (string_max_size : Z).

(** [std::string buff; buff.resize(len); read(&buff\[0\], len); return buff;] *)
Definition read_chars (len : Z) : M ByteArray (list cell) :=
  if string_max_size <? len then throw length_error else ByteArray_read len.

Definition ByteArray_readStringF16 : M ByteArray (list cell) :=
  len <-- ByteArray_readFuint16 ;; read_chars len.
Definition ByteArray_readStringF32 : M ByteArray (list cell) :=
  len <-- ByteArray_readFuint32 ;; read_chars len.
Definition ByteArray_readStringF64 : M ByteArray (list cell) :=
  len <-- ByteArray_readFuint64 ;; read_chars len.
(** The [int32_t] that [readUint64] returns is converted to [uint64_t]. *)
Definition ByteArray_readStringVint : M ByteArray (list cell) :=
  len <-- ByteArray_readUint64 ;; read_chars (u64 len).
End codec.

(** ** Zigzag facts *)

Lemma lxor_ones a n : 0 <= n -> 0 <= a < 2 ^ n -> Z.lxor a (2 ^ n - 1) = 2 ^ n - 1 - a.
Proof.
  intros Hn Ha. replace (2 ^ n - 1) with (Z.ones n) by (rewrite Z.ones_equiv; lia).
  destruct (Z.eq_dec a 0) as [->|Hnz]; [by rewrite Z.lxor_0_l, Z.sub_0_r|].
  assert (Z.ldiff a (Z.ones n) = 0) as Hsub.
  { apply Z.ldiff_ones_r_low; [lia|]. apply Z.log2_lt_pow2; lia. }
  rewrite Z.sub_nocarry_ldiff by done. apply Z.bits_inj'. intros m Hm.
  apply (f_equal (fun z => Z.testbit z m)) in Hsub.
  rewrite Z.ldiff_spec, Z.bits_0 in Hsub. rewrite Z.lxor_spec, Z.ldiff_spec.
  by destruct (Z.testbit a m), (Z.testbit (Z.ones n) m).
Qed.

Lemma EncodeZigzag_value w v :
  0 < w ->
  EncodeZigzag w v =
  if (- 2 ^ (w - 1) <? v) && (v <? 2 ^ (w - 1)) && ((v <? 0) || (2 * v <? 2 ^ (w - 1)))
  then Some (if v <? 0 then - 2 * v - 1 else 2 * v) else None.
Proof.
  intros Hw. unfold EncodeZigzag, checked. pose proof (pow_split w Hw) as Hs.
  destruct (Z.ltb_spec v 0).
  - destruct (Z.leb_spec (- 2 ^ (w - 1)) (- v)), (Z.ltb_spec (- v) (2 ^ (w - 1))),
      (Z.ltb_spec (- 2 ^ (w - 1)) v), (Z.ltb_spec v (2 ^ (w - 1))); try lia; cbn; try done.
    f_equal. rewrite (wrap_id w (- v)) by lia. rewrite wrap_id by lia. lia.
  - destruct (Z.leb_spec (- 2 ^ (w - 1)) (v * 2)), (Z.ltb_spec (v * 2) (2 ^ (w - 1))),
      (Z.ltb_spec (- 2 ^ (w - 1)) v), (Z.ltb_spec v (2 ^ (w - 1))),
      (Z.ltb_spec (2 * v) (2 ^ (w - 1))); try lia; cbn; try done.
    f_equal. rewrite wrap_id by lia. lia.
Qed.

Lemma DecodeZigzag_value w v :
  1 < w -> 0 <= v < 2 ^ w ->
  DecodeZigzag w v = if Z.even v then v / 2 else - (v / 2) - 1.
Proof.
  intros Hw Hv. unfold DecodeZigzag. pose proof (pow_split w ltac:(lia)) as Hs.
  pose proof (Z.div_lt_upper_bound v 2 (2 ^ (w - 1)) ltac:(lia) ltac:(lia)).
  pose proof (Z.div_pos v 2 ltac:(lia) ltac:(lia)).
  change 1 with (Z.ones 1) at 2. rewrite Z.land_ones by lia.
  rewrite Z.shiftr_div_pow2 by lia. change (2 ^ 1) with 2.
  rewrite Zmod_even. destruct (Z.even v).
  - change (- 0) with 0. rewrite wrap_id, Z.lxor_0_r by lia. apply swrap_id; lia.
  - replace (wrap w (- (1))) with (2 ^ w - 1).
    2: { unfold wrap. rewrite Z_mod_nz_opp_full; rewrite Z.mod_small; lia. }
    rewrite lxor_ones by lia. rewrite <- swrap_wrap.
    unfold wrap. replace (2 ^ w - 1 - v / 2) with (- (v / 2) - 1 + 1 * 2 ^ w) by lia.
    rewrite Z_mod_plus_full. change ((- (v / 2) - 1) mod 2 ^ w) with (wrap w (- (v / 2) - 1)).
    rewrite swrap_wrap. apply swrap_id; lia.
Qed.
