(* ===== verification/ByteArrayCodecFacts.v ===== *)
(** * ByteArray codecs: byte order, round trips, variable-length integers

    A writer [emits] the bytes it leaves in the stream and a reader [reads]
    a value from bytes in front of the position; both compose, so that the
    round trip of a sequence of values follows from that of each kind. *)
From S2P Require Import Prelude Endian Double ByteArray ByteArrayFacts ByteArrayCodec.

(** ** Writers and readers in terms of the abstract stream *)

Definition emits (e : Z) (m : M ByteArray unit) (r : list Z) : Prop :=
  forall b, wf b -> writable b -> m_endian b = e ->
    m_size b + Z.of_nat (length r) < 2 ^ 53 ->
    exists b', m b = Ok tt b' /\ wf b' /\ writable b' /\ m_endian b' = e
      /\ abs b' = Spec.write (Some <$> r) (abs b).

(** The bytes at and after the position. *)
Definition ahead (b : ByteArray) : list cell :=
  drop (Z.to_nat (m_position b)) (content b).

Definition reads {A} (e : Z) (m : M ByteArray A) (r : list Z) (a : A) : Prop :=
  forall b rest, wf b -> m_endian b = e -> ahead b = (Some <$> r) ++ rest ->
    exists b', m b = Ok a b' /\ wf b' /\ m_endian b' = e /\ content b' = content b
      /\ ahead b' = rest /\ m_position b' = m_position b + Z.of_nat (length r).

Lemma write_emits e r : emits e (ByteArray_write r) r.
Proof.
  intros b Hwf Hw He Hlim.
  destruct (write_abs b r Hwf Hw Hlim) as (b' & ? & ? & ? & ? & Hen & ?).
  exists b'. split_and!; congruence.
Qed.

Lemma emits_seq e m1 m2 r1 r2 :
  emits e m1 r1 -> emits e m2 r2 -> emits e (m1 ;;; m2) (r1 ++ r2).
Proof.
  intros H1 H2 b Hwf Hw He Hlim. rewrite length_app in Hlim.
  destruct (H1 b Hwf Hw He) as (b1 & Hrun1 & Hwf1 & Hw1 & He1 & Ha1); [lia|].
  pose proof (abs_size b Hwf) as Hs. pose proof (abs_size b1 Hwf1) as Hs1.
  destruct (wf_pos _ Hwf). assert (Spec.spos (abs b) <= length (Spec.sdata (abs b)))%nat
    by (cbn in *; lia).
  rewrite Ha1 in Hs1. cbn [Spec.sdata Spec.write] in Hs1.
  rewrite length_splice, length_fmap in Hs1 by done.
  destruct (H2 b1 Hwf1 Hw1 He1) as (b2 & Hrun2 & ? & ? & ? & Ha2); [cbn in *; lia|].
  exists b2. mrun Hrun1. rewrite Ha2, Ha1, spec_write_write, fmap_app by done. auto.
Qed.

Lemma emits_ext e m m' r :
  (forall b, m_endian b = e -> m b = m' b) -> emits e m' r -> emits e m r.
Proof. intros Heq H b Hwf Hw He. rewrite (Heq b He). by apply H. Qed.

Lemma ahead_nonempty b r rest :
  wf b -> ahead b = (Some <$> r) ++ rest -> (0 < length r)%nat -> m_position b < m_capacity b.
Proof.
  intros [Hb ? Hp Hs ?] Ha Hr. pose proof (length_content b Hb ltac:(lia)) as Hl.
  apply (f_equal length) in Ha. unfold ahead in Ha.
  rewrite length_drop, length_app, length_fmap in Ha. lia.
Qed.

Lemma read_reads e r :
  (0 < length r)%nat -> reads e (ByteArray_read (Z.of_nat (length r))) r (Some <$> r).
Proof.
  intros Hr b rest Hwf He Ha. pose proof (ahead_nonempty b r rest Hwf Ha Hr) as Hlt.
  pose proof (read_abs b (Z.of_nat (length r)) Hwf Hlt ltac:(lia)) as Hread.
  unfold Spec.read in Hread. cbn [Spec.spos Spec.sdata abs] in Hread.
  rewrite Nat2Z.id in Hread. pose proof (f_equal length Ha) as Hlen. unfold ahead in Hlen.
  rewrite length_drop, length_app, length_fmap in Hlen.
  rewrite decide_True in Hread by lia.
  destruct Hread as (b' & Hrun & Hwf' & Habs & _ & Hen). unfold abs in Habs.
  injection Habs as Hco Hpo. destruct (wf_pos _ Hwf), (wf_pos _ Hwf').
  exists b'. unfold slice in Hrun. fold (ahead b) in Hrun. rewrite Ha in Hrun.
  rewrite take_app_length' in Hrun by (by rewrite length_fmap).
  split_and!; try done; [congruence| |lia].
  unfold ahead in *. rewrite Hco, Hpo, <- drop_drop, Ha.
  by rewrite drop_app_length' by (by rewrite length_fmap).
Qed.

Lemma reads_bind {A B} e (m : M ByteArray A) (k : A -> M ByteArray B) r1 r2 a c :
  reads e m r1 a -> reads e (k a) r2 c -> reads e (bind m k) (r1 ++ r2) c.
Proof.
  intros H1 H2 b rest Hwf He Ha. rewrite fmap_app, <- app_assoc in Ha.
  destruct (H1 b _ Hwf He Ha) as (b1 & Hrun1 & Hwf1 & He1 & Hc1 & Ha1 & Hp1).
  destruct (H2 b1 _ Hwf1 He1 Ha1) as (b2 & Hrun2 & ? & ? & ? & ? & ?).
  exists b2. mrun Hrun1. rewrite length_app. split_and!; try done; [congruence|lia].
Qed.

Lemma reads_then {A B} e (m : M ByteArray A) (k : A -> M ByteArray B) r a c :
  reads e m r a -> (forall b, m_endian b = e -> k a b = Ok c b) -> reads e (bind m k) r c.
Proof.
  intros H1 H2 b rest Hwf He Ha. destruct (H1 b _ Hwf He Ha) as (b1 & Hrun1 & ? & He1 & ?).
  exists b1. mrun Hrun1. rewrite H2 by done. auto.
Qed.

Lemma reads_ext {A} e (m m' : M ByteArray A) r a :
  (forall b, m b = m' b) -> reads e m' r a -> reads e m r a.
Proof. intros Heq H b rest Hwf He. rewrite (Heq b). by apply H. Qed.

(** ** Fixed-width integers *)

(** The bytes of [v : T] in a buffer of byte order [e]. *)
Definition encode_fixed (e : Z) (T : ctype) (v : Z) : list Z :=
  if e =? SYLAR_BIG_ENDIAN then reverse (le_split (ct_size T) v) else le_split (ct_size T) v.

(** The two values [setEndian] and the constructor give [m_endian]. *)
Definition endian_ok (e : Z) : Prop := e = SYLAR_LITTLE_ENDIAN \/ e = SYLAR_BIG_ENDIAN.

Lemma length_encode_fixed e T v : length (encode_fixed e T v) = ct_size T.
Proof.
  unfold encode_fixed. destruct (_ =? _); rewrite ?length_reverse; apply length_le_split.
Qed.

Lemma mapM_Some (l : list Z) : mapM id (Some <$> l) = Some l.
Proof. induction l as [|x l IH]; [done|]. cbn. by rewrite IH. Qed.

Section fixed.
Context `{Target} (e : Z).

Lemma write_fixed_emits T v :
  endian_ok e -> emits e (write_fixed T v) (encode_fixed e T v).
Proof.
  intros Hok. eapply emits_ext; [|apply write_emits]. intros b He.
  unfold write_fixed, write_object, bind, gets. rewrite He. f_equal.
  unfold SYLAR_BYTE_ORDER, encode_fixed, obj_bytes.
  destruct Hok as [-> | ->], target_big_endian; cbn [negb Z.eqb Pos.eqb SYLAR_LITTLE_ENDIAN
    SYLAR_BIG_ENDIAN]; rewrite ?le_split_byteswap, ?reverse_involutive; done.
Qed.

Lemma read_object_reads T l :
  (0 < ct_size T)%nat -> length l = ct_size T ->
  reads e (read_object T) l (obj_value T l).
Proof.
  intros Hs Hl. unfold read_object. rewrite <- Hl.
  eapply reads_then; [apply read_reads; lia|]. intros b _.
  unfold object. by rewrite mapM_Some.
Qed.

Lemma readTemplate_reads T v :
  (0 < ct_size T)%nat -> endian_ok e -> in_range T v ->
  reads e (readTemplate T) (encode_fixed e T v) v.
Proof.
  intros Hs Hok Hr.
  eapply reads_then; [apply read_object_reads; [done|apply length_encode_fixed]|].
  intros b He. unfold bind, gets, mreturn. f_equal. rewrite He.
  assert (Hv : cast T v = v) by (by apply cast_id).
  unfold SYLAR_BYTE_ORDER, encode_fixed.
  assert (Hswap : forall l, l = le_split (ct_size T) v ->
    cast T (le_join l) = v) by (intros ? ->; rewrite le_join_split; fold (ct_width T);
    by rewrite cast_wrap).
  pose proof (fun l Hl Hlen => obj_value_reverse T l Hl Hlen) as Hrev.
  unfold obj_value in *.
  destruct Hok as [-> | ->], target_big_endian; cbn [Z.eqb Pos.eqb SYLAR_LITTLE_ENDIAN
    SYLAR_BIG_ENDIAN]; rewrite ?reverse_involutive; auto.
  - rewrite <- (reverse_involutive (le_split (ct_size T) v)) at 1.
    rewrite Hrev by (rewrite ?length_reverse, ?length_le_split; auto with cpp).
    rewrite reverse_involutive. auto.
  - rewrite Hrev by (rewrite ?length_le_split; auto with cpp). auto.
Qed.

Lemma write_object_emits T v : emits e (write_object T v) (obj_bytes T v).
Proof. apply write_emits. Qed.

Lemma read_object_value T v :
  (0 < ct_size T)%nat -> in_range T v -> reads e (read_object T) (obj_bytes T v) v.
Proof.
  intros Hs Hr. rewrite <- (cast_id T v Hs Hr) at 2. rewrite <- obj_value_bytes.
  apply read_object_reads; [done|apply length_obj_bytes].
Qed.
End fixed.

(** ** Unsigned LEB128 *)

(** The reference encoding: groups of seven bits, least significant first, every
    group but the last marked with the high bit; at most [S n] groups. *)
Fixpoint uleb128 (n : nat) (v : Z) : list Z :=
  match n with
  | O => [v]
  | S n => if v <? 128 then [v] else (v mod 128 + 128) :: uleb128 n (v / 128)
  end.

Lemma lor_disjoint a b n : 0 <= n -> 0 <= a < 2 ^ n -> Z.lor a (b * 2 ^ n) = a + b * 2 ^ n.
Proof.
  intros Hn Ha. assert (Z.land a (b * 2 ^ n) = 0) as Hz.
  { apply Z.bits_inj'. intros m Hm. rewrite Z.land_spec, Z.bits_0.
    destruct (Z.ltb_spec m n) as [Hlt|Hge].
    - by rewrite Z.mul_pow2_bits_low, andb_false_r.
    - destruct (Z.eq_dec a 0) as [->|]; [by rewrite Z.bits_0|].
      rewrite Z.bits_above_log2; [done|lia|].
      pose proof (proj1 (Z.log2_lt_pow2 a n ltac:(lia)) ltac:(lia)). lia. }
  pose proof (Z.add_lor_land a (b * 2 ^ n)). lia.
Qed.

Lemma land_7f v : Z.land v 0x7f = v mod 128.
Proof. exact (Z.land_ones v 7 ltac:(lia)). Qed.

Lemma group_byte v : Z.lor (Z.land v 0x7f) 0x80 = v mod 128 + 128.
Proof.
  rewrite land_7f.
  exact (lor_disjoint (v mod 128) 1 7 ltac:(lia) (Z.mod_pos_bound v 128 ltac:(lia))).
Qed.

Lemma mod128_marked v : (v mod 128 + 128) mod 128 = v mod 128.
Proof.
  change (v mod 128 + 128) with (v mod 128 + 1 * 128).
  by rewrite Z_mod_plus_full, Zmod_mod.
Qed.

Lemma pow7_S (n : nat) : 2 ^ (7 * Z.of_nat (S n)) = 128 * 2 ^ (7 * Z.of_nat n).
Proof.
  replace (7 * Z.of_nat (S n)) with (7 + 7 * Z.of_nat n) by lia.
  by rewrite Z.pow_add_r by lia.
Qed.

Lemma uleb128_nonempty n v : (0 < length (uleb128 n v))%nat.
Proof. destruct n; cbn; [lia|]. destruct (_ <? _); cbn; lia. Qed.

Lemma div128_bound v n : 0 <= v < 2 ^ (7 * Z.of_nat (S n)) -> 0 <= v / 128 < 2 ^ (7 * Z.of_nat n).
Proof.
  rewrite pow7_S. intros. split; [apply Z.div_pos; lia|].
  apply Z.div_lt_upper_bound; lia.
Qed.

(** The writer's loop leaves out the last group. *)
Lemma varint_loop_uleb n fuel cap data v :
  0 <= v < 2 ^ (7 * Z.of_nat (S n)) -> (n <= fuel)%nat -> (length data + n <= cap)%nat ->
  varint_loop fuel cap data v = Some (data ++ removelast (uleb128 n v)).
Proof.
  revert fuel data v. induction n as [|n IH]; intros fuel data v Hv Hfuel Hcap.
  - change (2 ^ _) with 128 in Hv. cbn [uleb128 removelast].
    destruct fuel; cbn [varint_loop]; rewrite (proj2 (Z.leb_gt _ _)) by lia;
      by rewrite app_nil_r.
  - destruct fuel as [|fuel]; [lia|]. cbn [varint_loop uleb128].
    destruct (Z.leb_spec 0x80 v), (Z.ltb_spec v 128); try lia.
    + rewrite decide_True by lia. rewrite group_byte, Z.shiftr_div_pow2 by lia.
      change (2 ^ 7) with 128. rewrite IH; [| |lia|rewrite length_app; cbn; lia].
      * rewrite <- app_assoc. do 2 f_equal. pose proof (uleb128_nonempty n (v / 128)).
        by destruct (uleb128 n (v / 128)) eqn:E; [cbn in *; lia|].
      * by apply div128_bound.
    + by rewrite app_nil_r.
Qed.

Section varint.
Context `{Target} (e : Z).

Lemma readFuint8_reads t : is_byte t -> reads e ByteArray_readFuint8 [t] t.
Proof.
  intros Ht. unfold ByteArray_readFuint8.
  assert (obj_value uint8_t [t] = t) as <-.
  { unfold obj_value. destruct target_big_endian; cbn; unfold ct_width; cbn;
      rewrite Z.mul_0_r, Z.add_0_r; apply wrap_id; red in Ht; lia. }
  replace [obj_value uint8_t [t]] with [t]; [by apply read_object_reads; cbn; auto with cpp|].
  unfold obj_value. destruct target_big_endian; cbn; unfold ct_width; cbn;
    rewrite Z.mul_0_r, Z.add_0_r; f_equal; symmetry; apply wrap_id; red in Ht; lia.
Qed.

Lemma readUint_loop_uleb w n turns i res v :
  (n < turns)%nat -> 0 <= i -> 0 <= v < 2 ^ (7 * Z.of_nat (S n)) ->
  0 <= res < 2 ^ i -> 0 < w -> res + v * 2 ^ i < 2 ^ w ->
  reads e (readUint_loop w turns i res) (uleb128 n v) (res + v * 2 ^ i).
Proof.
  intros Hturns Hi Hv Hres Hw Hlim.
  revert turns i res v Hturns Hi Hv Hres Hlim.
  assert (Hlast : forall turns i res v, 0 <= i -> 0 <= v < 128 -> 0 <= res < 2 ^ i ->
    res + v * 2 ^ i < 2 ^ w ->
    reads e (readUint_loop w (S turns) i res) [v] (res + v * 2 ^ i)).
  { intros turns i res v Hi Hv Hres Hlim. cbn [readUint_loop].
    eapply reads_then; [apply readFuint8_reads; red; lia|]. intros b _.
    cbv beta. rewrite (proj2 (Z.ltb_lt v 0x80)) by lia. unfold mreturn. f_equal.
    rewrite Z.shiftl_mul_pow2 by lia. rewrite wrap_id by nia. by apply lor_disjoint. }
  induction n as [|n IH]; intros turns i res v Hturns Hi Hv Hres Hlim;
    (destruct turns as [|turns]; [lia|]).
  - change (2 ^ (7 * _)) with 128 in Hv. by apply Hlast.
  - cbn [uleb128]. destruct (Z.ltb_spec v 128); [apply Hlast; lia|].
    pose proof (Z.mod_pos_bound v 128 ltac:(lia)) as Hm.
    pose proof (Z_div_mod_eq_full v 128) as Hdm.
    change (?x :: ?l) with ([x] ++ l). cbn [readUint_loop].
    eapply reads_bind; [apply readFuint8_reads; red; lia|].
    cbv beta. rewrite (proj2 (Z.ltb_ge _ 0x80)) by lia.
    rewrite land_7f, Z.shiftl_mul_pow2 by lia.
    rewrite mod128_marked.
    assert (0 < 2 ^ i) by lia. assert (0 <= v / 128) by (apply Z.div_pos; lia).
    rewrite (wrap_id w) by nia. rewrite lor_disjoint by lia.
    assert (2 ^ (i + 7) = 128 * 2 ^ i) as Hp by (rewrite Z.pow_add_r by lia; lia).
    assert (res + v * 2 ^ i = res + v mod 128 * 2 ^ i + v / 128 * 2 ^ (i + 7)) as Hsum.
    { transitivity (res + (128 * (v / 128) + v mod 128) * 2 ^ i); [by rewrite <- Hdm|].
      rewrite Hp. ring. }
    rewrite Hsum in Hlim |- *.
    apply IH; [lia|lia|by apply div128_bound|rewrite Hp; nia|done].
Qed.

Lemma readUint32_uleb v :
  0 <= v < 2 ^ 32 -> reads e ByteArray_readUint32 (uleb128 4 v) (i32 v).
Proof.
  intros Hv. eapply reads_then; [apply (readUint_loop_uleb 32 4); try lia; cbn; lia|].
  intros b _. cbv beta. do 2 f_equal. lia.
Qed.

Lemma readUint64_uleb v :
  0 <= v < 2 ^ 64 -> reads e ByteArray_readUint64 (uleb128 9 v) (i32 v).
Proof.
  intros Hv. eapply reads_then; [apply (readUint_loop_uleb 64 9); try lia; cbn; lia|].
  intros b _. cbv beta. do 2 f_equal. lia.
Qed.

End varint.

Lemma writeUint32_emits e v :
  0 <= v < 2 ^ 32 -> emits e (ByteArray_writeUint32 v) (removelast (uleb128 4 v)).
Proof.
  intros Hv. eapply emits_ext; [|apply write_emits]. intros b _. unfold ByteArray_writeUint32.
  rewrite (varint_loop_uleb 4) by (cbn; lia). done.
Qed.

Lemma writeUint64_emits e v :
  0 <= v < 2 ^ 64 -> emits e (ByteArray_writeUint64 v) (removelast (uleb128 9 v)).
Proof.
  intros Hv. eapply emits_ext; [|apply write_emits]. intros b _. unfold ByteArray_writeUint64.
  rewrite (varint_loop_uleb 9) by (cbn; lia). done.
Qed.

(** ** Sequences of values *)

(** A value with the pair of methods that writes and reads it. *)
Inductive item :=
| IFint8 (v : Z) | IFuint8 (v : Z)
| IFint16 (v : Z) | IFuint16 (v : Z)
| IFint32 (v : Z) | IFuint32 (v : Z)
| IFint64 (v : Z) | IFuint64 (v : Z)
| IFloat (bits : Z)
| IStringF16 (s : list Z) | IStringF32 (s : list Z) | IStringF64 (s : list Z).

Section items.
Context `{Target} (string_max_size : Z).

Definition put (i : item) : M ByteArray unit :=
  match i with
  | IFint8 v => ByteArray_writeFint8 v
  | IFuint8 v => ByteArray_writeFuint8 v
  | IFint16 v => ByteArray_writeFint16 v
  | IFuint16 v => ByteArray_writeFuint16 v
  | IFint32 v => ByteArray_writeFint32 v
  | IFuint32 v => ByteArray_writeFuint32 v
  | IFint64 v => ByteArray_writeFint64 v
  | IFuint64 v => ByteArray_writeFuint64 v
  | IFloat v => ByteArray_writeFloat v
  | IStringF16 s => ByteArray_writeStringF16 s
  | IStringF32 s => ByteArray_writeStringF32 s
  | IStringF64 s => ByteArray_writeStringF64 s
  end.

(** A value of the kind of [i], read back; a string as its characters. *)
Definition take_back (i : item) : M ByteArray item :=
  let str (m : M ByteArray (list cell)) (c : list Z -> item) :=
    l <-- m ;; s <-- deref (mapM id l) ;; mreturn (c s) in
  let num (m : M ByteArray Z) (c : Z -> item) := v <-- m ;; mreturn (c v) in
  match i with
  | IFint8 _ => num ByteArray_readFint8 IFint8
  | IFuint8 _ => num ByteArray_readFuint8 IFuint8
  | IFint16 _ => num ByteArray_readFint16 IFint16
  | IFuint16 _ => num ByteArray_readFuint16 IFuint16
  | IFint32 _ => num ByteArray_readFint32 IFint32
  | IFuint32 _ => num ByteArray_readFuint32 IFuint32
  | IFint64 _ => num ByteArray_readFint64 IFint64
  | IFuint64 _ => num ByteArray_readFuint64 IFuint64
  | IFloat _ => num ByteArray_readFloat IFloat
  | IStringF16 _ => str (ByteArray_readStringF16 string_max_size) IStringF16
  | IStringF32 _ => str (ByteArray_readStringF32 string_max_size) IStringF32
  | IStringF64 _ => str (ByteArray_readStringF64 string_max_size) IStringF64
  end.

Fixpoint put_all (xs : list item) : M ByteArray unit :=
  match xs with
  | [] => mreturn tt
  | i :: xs => put i ;;; put_all xs
  end.

Fixpoint take_back_all (xs : list item) : M ByteArray (list item) :=
  match xs with
  | [] => mreturn []
  | i :: xs => x <-- take_back i ;; l <-- take_back_all xs ;; mreturn (x :: l)
  end.

(** The bytes of a value in a buffer of byte order [e]. *)
Definition encode (e : Z) (i : item) : list Z :=
  match i with
  | IFint8 v => obj_bytes int8_t v
  | IFuint8 v => obj_bytes uint8_t v
  | IFint16 v => encode_fixed e int16_t v
  | IFuint16 v => encode_fixed e uint16_t v
  | IFint32 v => encode_fixed e int32_t v
  | IFuint32 v | IFloat v => encode_fixed e uint32_t v
  | IFint64 v => encode_fixed e int64_t v
  | IFuint64 v => encode_fixed e uint64_t v
  | IStringF16 s => encode_fixed e uint16_t (Z.of_nat (length s)) ++ s
  | IStringF32 s => encode_fixed e uint32_t (Z.of_nat (length s)) ++ s
  | IStringF64 s => encode_fixed e uint64_t (Z.of_nat (length s)) ++ s
  end.
Definition encode_all (e : Z) (xs : list item) : list Z := mjoin (encode e <$> xs).

(** A non-empty string whose length fits its prefix. *)
Definition string_ok (w : Z) (s : list Z) : Prop :=
  0 < Z.of_nat (length s) < 2 ^ w /\ Z.of_nat (length s) <= string_max_size.

Definition item_ok (i : item) : Prop :=
  match i with
  | IFint8 v => in_range int8_t v
  | IFuint8 v => in_range uint8_t v
  | IFint16 v => in_range int16_t v
  | IFuint16 v => in_range uint16_t v
  | IFint32 v => in_range int32_t v
  | IFuint32 v | IFloat v => in_range uint32_t v
  | IFint64 v => in_range int64_t v
  | IFuint64 v => in_range uint64_t v
  | IStringF16 s => string_ok 16 s
  | IStringF32 s => string_ok 32 s
  | IStringF64 s => string_ok 64 s
  end.

Lemma put_emits e i : endian_ok e -> item_ok i -> emits e (put i) (encode e i).
Proof.
  intros He Hi. destruct i; cbn [put encode item_ok] in *;
    unfold ByteArray_writeFint8, ByteArray_writeFuint8, ByteArray_writeFint16,
      ByteArray_writeFint32, ByteArray_writeFint64, ByteArray_writeFloat,
      ByteArray_writeStringF16, ByteArray_writeStringF32, ByteArray_writeStringF64,
      ByteArray_writeFuint16, ByteArray_writeFuint32, ByteArray_writeFuint64;
    lazymatch goal with
    | |- emits _ (write_fixed _ _) _ => by apply write_fixed_emits
    | |- emits _ (write_object _ _) _ => apply write_object_emits
    | |- emits _ (_ ;;; _) _ =>
        destruct Hi as [Hlen _]; rewrite ?(wrap_id 16), ?(wrap_id 32) by lia;
        apply emits_seq; [by apply write_fixed_emits|apply write_emits]
    end.
Qed.

Lemma put_all_emits e xs :
  endian_ok e -> Forall item_ok xs -> emits e (put_all xs) (encode_all e xs).
Proof.
  intros He. induction 1 as [|i xs Hi Hxs IH].
  - intros b Hwf Hw Hen Hlim. exists b. split_and!; auto. unfold Spec.write.
    change (Some <$> _) with (@nil cell). rewrite splice_nil. cbn [length].
    by rewrite Nat.add_0_r.
  - apply emits_seq; [by apply put_emits|apply IH].
Qed.

Lemma reads_string e w T len (c : list Z -> item) s :
  (0 < ct_size T)%nat -> endian_ok e -> in_range T (Z.of_nat (length s)) ->
  string_ok w s -> len = readTemplate T ->
  reads e (l <-- (n <-- len ;; read_chars string_max_size n) ;;
           s <-- deref (mapM id l) ;; mreturn (c s))
    (encode_fixed e T (Z.of_nat (length s)) ++ s) (c s).
Proof.
  intros Hs He Hr [Hlen Hmax] ->. eapply reads_then.
  - eapply reads_bind; [by apply readTemplate_reads|].
    eapply reads_ext; [|apply read_reads; lia]. intros b. unfold read_chars.
    by rewrite (proj2 (Z.ltb_ge _ _)) by lia.
  - intros b _. cbv beta. by rewrite mapM_Some.
Qed.

Lemma take_back_reads e i :
  endian_ok e -> item_ok i -> reads e (take_back i) (encode e i) i.
Proof.
  intros He Hi. destruct i; cbn [take_back encode item_ok] in *;
    lazymatch goal with
    | |- reads _ (bind _ (fun _ => mreturn _)) (encode_fixed _ _ _) _ =>
        eapply reads_then; [apply readTemplate_reads; [cbn; lia|done|done]|done]
    | |- reads _ (bind _ (fun _ => mreturn _)) (obj_bytes _ _) _ =>
        eapply reads_then; [apply read_object_value; [cbn; lia|done]|done]
    | |- _ =>
        eapply reads_string; [..|done|reflexivity]; [cbn; lia|done|];
        destruct Hi as [Hl _]; unfold in_range, ct_width; cbn; lia
    end.
Qed.

Lemma take_back_all_reads e xs :
  endian_ok e -> Forall item_ok xs -> reads e (take_back_all xs) (encode_all e xs) xs.
Proof.
  intros He. induction 1 as [|i xs Hi Hxs IH].
  - intros b rest Hwf Hen Ha. exists b. cbn in Ha |- *. split_and!; auto; lia.
  - cbn [take_back_all]. unfold encode_all. cbn [fmap list_fmap mjoin list_join].
    eapply reads_bind; [by apply take_back_reads|].
    eapply reads_then; [exact IH|done].
Qed.

Lemma encode_nonempty e i : item_ok i -> (0 < length (encode e i))%nat.
Proof.
  destruct i; intros Hi; cbn [encode]; rewrite ?length_app, ?length_encode_fixed,
    ?length_obj_bytes; cbn; lia.
Qed.
End items.

(** ** Properties *)

(** C14: round trip.  On a target of either byte order and a buffer of either
    byte order, a non-empty sequence of fixed-width integers, floats and non-empty
    length-prefixed strings that fit their prefix, written at the position, is
    stored byte by byte in the buffer's
    byte order, and reading the same sequence from that position gives the
    values back and ends where the writes ended.  An empty string is left out
    because reading it is undefined where its prefix ends the last page. *)
Theorem codec_roundtrip `{Target} string_max_size xs b :
  wf b -> writable b -> endian_ok (m_endian b) ->
  xs <> [] -> Forall (item_ok string_max_size) xs ->
  m_size b + Z.of_nat (length (encode_all (m_endian b) xs)) < 2 ^ 53 ->
  exists b1 b2 b3,
    put_all xs b = Ok tt b1
    /\ abs b1 = Spec.write (Some <$> encode_all (m_endian b) xs) (abs b)
    /\ ByteArray_setPosition (m_position b) b1 = Ok tt b2
    /\ take_back_all string_max_size xs b2 = Ok xs b3
    /\ m_position b3 = m_position b1 /\ content b3 = content b1.
Proof.
  intros Hwf Hw He Hne Hok Hlim. set (r := encode_all _ _) in *.
  assert (0 < length r)%nat as Hr.
  { destruct Hok as [|x l Hx Hl]; [done|]. unfold r, encode_all.
    cbn [fmap list_fmap mjoin list_join]. rewrite length_app.
    pose proof (encode_nonempty string_max_size (m_endian b) x Hx). lia. }
  destruct (put_all_emits string_max_size _ xs He Hok b Hwf Hw eq_refl Hlim)
    as (b1 & Hrun1 & Hwf1 & Hw1 & He1 & Ha1).
  pose proof (abs_size b Hwf) as Hs. pose proof (abs_size b1 Hwf1) as Hs1.
  destruct (wf_pos _ Hwf) as [Hp0 Hps]. pose proof (wf_size _ Hwf1).
  assert (Spec.spos (abs b) <= length (Spec.sdata (abs b)))%nat as Hin by (cbn in *; lia).
  pose proof Ha1 as Hst. unfold abs at 1, Spec.write in Hst. injection Hst as Hc1 Hp1.
  rewrite Ha1 in Hs1. unfold Spec.write in Hs1. cbn [Spec.sdata Spec.spos] in Hs1.
  rewrite length_splice, length_fmap in Hs1 by done. fold r in Hs1, Hc1, Hp1.
  rewrite length_fmap in Hp1. cbn [Spec.spos Spec.sdata abs] in *.
  destruct (setPosition_inside b1 (m_position b) Hwf1)
    as (b2 & Hseek & Hwf2 & Hp2 & Hc2 & _ & He2 & _); [lia|].
  rewrite Z.max_l in Hc2 by lia. fold (content b1) in Hc2.
  destruct (take_back_all_reads string_max_size (m_endian b) xs He Hok b2
    (drop (Z.to_nat (m_position b) + length r) (content b)) Hwf2)
    as (b3 & Hread & Hwf3 & _ & Hc3 & _ & Hp3); [congruence| |].
  { unfold ahead. rewrite Hc2, Hp2, Hc1. unfold splice. rewrite length_fmap.
    apply drop_app_length'. rewrite length_take. lia. }
  exists b1, b2, b3. fold r in Hp3. destruct (wf_pos _ Hwf1), (wf_pos _ Hwf3).
  split_and!; try done; [lia|congruence].
Qed.

Lemma codec_roundtrip_witness :
  let xs := [IFint16 (-2); IStringF16 [104; 105]; IFuint64 7; IFint8 (-1)] in
  exists b1 b2 b3,
    @put_all little_endian_target xs (new_ByteArray 4) = Ok tt b1
    /\ abs b1 = Spec.write (Some <$> @encode_all little_endian_target 2 xs) (abs (new_ByteArray 4))
    /\ ByteArray_setPosition 0 b1 = Ok tt b2
    /\ @take_back_all little_endian_target 100 xs b2 = Ok xs b3
    /\ m_position b3 = m_position b1 /\ content b3 = content b1.
Proof.
  intros xs. apply (@codec_roundtrip little_endian_target 100 xs (new_ByteArray 4)).
  - apply wf_new. lia.
  - left. reflexivity.
  - right. reflexivity.
  - done.
  - repeat constructor; vm_compute; congruence.
  - reflexivity.
Defined.

(** Note: the zigzag mapping of [EncodeZigzag32] and [EncodeZigzag64] is defined
    exactly on the values whose negation or double fits the signed type; there
    it gives [2v] for [v >= 0] and [-2v-1] for [v < 0], and the decoder
    inverts it.  In the upper half of the positive values, and at the minimum,
    the signed arithmetic overflows. *)
Theorem zigzag_roundtrip w v :
  w = 32 \/ w = 64 -> - 2 ^ (w - 1) <= v < 2 ^ (w - 1) ->
  match EncodeZigzag w v with
  | Some u => 0 <= u < 2 ^ w /\ DecodeZigzag w u = v
              /\ u = (if v <? 0 then - 2 * v - 1 else 2 * v)
  | None => v = - 2 ^ (w - 1) \/ 2 ^ (w - 2) <= v
  end.
Proof.
  intros Hw Hv. assert (1 < w) as Hw1 by (destruct Hw; lia).
  rewrite EncodeZigzag_value by lia. pose proof (pow_split w ltac:(lia)) as Hs.
  pose proof (pow_split (w - 1) ltac:(lia)) as Hs1.
  replace (w - 1 - 1) with (w - 2) in Hs1 by lia.
  destruct (Z.ltb_spec (- 2 ^ (w - 1)) v), (Z.ltb_spec v (2 ^ (w - 1))), (Z.ltb_spec v 0),
    (Z.ltb_spec (2 * v) (2 ^ (w - 1))); cbn [andb orb]; try (lia || (right; lia) || (left; lia));
    (split_and!; [lia|lia| |lia]); rewrite DecodeZigzag_value by lia.
  - replace (- 2 * v - 1) with (1 + 2 * (- v - 1)) by lia.
    rewrite Z.even_add_mul_2. change (Z.even 1) with false. cbv iota.
    rewrite (Z.mul_comm 2), Z.div_add by lia. change (1 / 2) with 0. lia.
  - replace (2 * v) with (0 + 2 * v) by lia.
    rewrite Z.even_add_mul_2. change (Z.even 0) with true. cbv iota.
    rewrite (Z.mul_comm 2), Z.div_add by lia. change (0 / 2) with 0. lia.
Qed.

Lemma zigzag_roundtrip_witness :
  (0 <= 13 < 2 ^ 32 /\ DecodeZigzag 32 13 = -7 /\ 13 = 13) /\ (2 ^ 30 = - 2 ^ 31 \/ 2 ^ 30 <= 2 ^ 30).
Proof.
  split.
  - exact (zigzag_roundtrip 32 (-7) (or_introl eq_refl) ltac:(lia)).
  - exact (zigzag_roundtrip 32 (2 ^ 30) (or_introl eq_refl) ltac:(lia)).
Defined.

(** Note: the readers of variable-length integers decode unsigned LEB128: in
    front of the encoding of [v], [readUint32] and [readUint64] consume exactly
    the encoding.  Their result is [v] converted to [int32_t], also for the
    64-bit reader. *)
Theorem varint_readers_decode_leb128 `{Target} b rest32 rest64 v32 v64 :
  wf b -> 0 <= v32 < 2 ^ 32 -> 0 <= v64 < 2 ^ 64 ->
  (ahead b = (Some <$> uleb128 4 v32) ++ rest32 ->
   exists b', ByteArray_readUint32 b = Ok (i32 v32) b' /\ wf b' /\ ahead b' = rest32)
  /\ (ahead b = (Some <$> uleb128 9 v64) ++ rest64 ->
   exists b', ByteArray_readUint64 b = Ok (i32 v64) b' /\ wf b' /\ ahead b' = rest64).
Proof.
  intros Hwf H32 H64. split; intros Ha.
  - destruct (readUint32_uleb _ v32 H32 b rest32 Hwf eq_refl Ha) as (b' & ? & ? & _ & _ & ? & _).
    by exists b'.
  - destruct (readUint64_uleb _ v64 H64 b rest64 Hwf eq_refl Ha) as (b' & ? & ? & _ & _ & ? & _).
    by exists b'.
Qed.

(** A buffer that holds the encoding of 300 with the position in front of it. *)
Definition leb_example : ByteArray :=
  mkByteArray 4 0 4 3 SYLAR_BIG_ENDIAN [mkNode 4 [Some 172; Some 2; Some 9; None]] (Some 0%nat).

Lemma leb_example_wf : wf leb_example.
Proof.
  split; cbn; try lia; [|reflexivity].
  split; cbn; try lia. by repeat constructor.
Qed.

Lemma varint_readers_decode_leb128_witness :
  exists b', @ByteArray_readUint32 little_endian_target leb_example = Ok 300 b' /\ wf b'
    /\ ahead b' = [Some 9].
Proof.
  destruct (@varint_readers_decode_leb128 little_endian_target leb_example [Some 9] [Some 9] 300 300
    leb_example_wf ltac:(lia) ltac:(lia)) as [Hr _].
  exact (Hr eq_refl).
Defined.

(** Note: the writers of variable-length integers leave out the last group of the
    encoding, the one without the continuation bit: nothing at all is written
    for a value below 128, and what is written has no end mark, so it does not
    decode.  [writeInt64] moreover goes through the 32-bit writer. *)
Theorem varint_writers_drop_last_group b v32 v64 v :
  wf b -> writable b -> m_size b + 10 < 2 ^ 53 ->
  0 <= v32 < 2 ^ 32 -> 0 <= v64 < 2 ^ 64 ->
  (exists b', ByteArray_writeUint32 v32 b = Ok tt b' /\ wf b'
     /\ abs b' = Spec.write (Some <$> removelast (uleb128 4 v32)) (abs b))
  /\ (exists b', ByteArray_writeUint64 v64 b = Ok tt b' /\ wf b'
     /\ abs b' = Spec.write (Some <$> removelast (uleb128 9 v64)) (abs b))
  /\ (forall u, EncodeZigzag64 v = Some u -> ByteArray_writeInt64 v b = ByteArray_writeUint32 (u32 u) b).
Proof.
  intros Hwf Hw Hlim H32 H64.
  assert (Hlen : forall n x, (length (removelast (uleb128 n x)) <= n)%nat).
  { induction n as [|n IH]; intros x; cbn [uleb128]; [cbn; lia|].
    destruct (_ <? _); [cbn; lia|]. pose proof (uleb128_nonempty n (x / 128)).
    specialize (IH (x / 128)). destruct (uleb128 n (x / 128)) eqn:E; cbn in *; lia. }
  pose proof (Hlen 4%nat v32). pose proof (Hlen 9%nat v64).
  split_and!.
  - destruct (writeUint32_emits _ v32 H32 b Hwf Hw eq_refl) as (b' & ? & ? & _ & _ & ?); [lia|].
    by exists b'.
  - destruct (writeUint64_emits _ v64 H64 b Hwf Hw eq_refl) as (b' & ? & ? & _ & _ & ?); [lia|].
    by exists b'.
  - intros u Hu. unfold ByteArray_writeInt64. by rewrite Hu.
Qed.

Lemma varint_writers_drop_last_group_witness :
  exists b', ByteArray_writeUint32 5 (new_ByteArray 4) = Ok tt b' /\ wf b'
    /\ abs b' = Spec.write [] (abs (new_ByteArray 4)).
Proof.
  exact (proj1 (varint_writers_drop_last_group (new_ByteArray 4) 5 5 0
    (wf_new 4 ltac:(lia)) (or_introl eq_refl) eq_refl ltac:(lia) ltac:(lia))).
Defined.

(** An empty string whose prefix ends at the end of the last node does not read
    back: [m_cur] is null when [read(&buff\[0\], 0)] dereferences it. *)
Lemma readStringF16_empty_at_page_end :
  (ByteArray_writeStringF16 (H := little_endian_target) [] ;;;
   ByteArray_setPosition 0 ;;;
   ByteArray_readStringF16 (H := little_endian_target) 100) (new_ByteArray 2) = Ub.
Proof. reflexivity. Qed.
