(* ===== verification/ByteArrayView.v ===== *)
(** * ByteArray views and files (src/src/socket/bytearray.cpp, lines 437-473 and 507-627)

    The scatter/gather views handed to [readv] and [writev], the conversions to
    strings and the file operations, with what they see of the buffer. *)
From S2P Require Import Prelude Endian Double ByteArray ByteArrayFacts.

(** [struct iovec] with [iov_base] pointing into the data of a node. *)
Record iovec := mkIovec { iov_node : option nat; iov_off : Z; iov_len : Z }.

(** [while(len > 0) { ... buffers.push_back(iov); }] on the local pointer [cur]. *)
Fixpoint iov_loop (fuel : nat) (cur : option nat) (npos ncap len : Z) (buffers : list iovec)
  : M ByteArray (list iovec) :=
  match fuel with
  | O => nofuel
  | S fuel =>
      if 0 <? len then
        csize <-- (fun b => deref (size_of b cur) b) ;;   (* cur->data *)
        if len <=? ncap then
          iov_loop fuel cur npos ncap 0 (buffers ++ [mkIovec cur npos len])
        else
          cur' <-- (fun b => deref (next_of b cur) b) ;;
          ncap' <-- (fun b => deref (size_of b cur') b) ;;
          iov_loop fuel cur' 0 ncap' (len - ncap) (buffers ++ [mkIovec cur npos ncap])
      else mreturn buffers
  end.

(** [uint64_t getReadBuffers(std::vector<iovec>& buffers, uint64_t len) const] *)
Definition ByteArray_getReadBuffers (buffers : list iovec) (len : Z)
  : M ByteArray (Z * list iovec) :=
  rsize <-- gets getReadSize ;;
  let len := if rsize <? len then rsize else len in
  if len =? 0 then mreturn (0, buffers) else
  pos <-- gets m_position ;;
  npos <-- page_offset pos ;;
  csize <-- cur_size ;;
  cur <-- gets m_cur ;;
  fuel <-- gets walk_fuel ;;
  l <-- iov_loop fuel cur npos (u64 (csize - npos)) len buffers ;;
  mreturn (len, l).

(** [while(count > 0) { cur = cur->next; --count; }] *)
Fixpoint skip_nodes (count : nat) (cur : option nat) : M ByteArray (option nat) :=
  match count with
  | O => mreturn cur
  | S count =>
      cur' <-- (fun b => deref (next_of b cur) b) ;;
      skip_nodes count cur'
  end.

(** [getReadBuffers(buffers, len, position) const] *)
Definition ByteArray_getReadBuffers_at (buffers : list iovec) (len position : Z)
  : M ByteArray (Z * list iovec) :=
  rsize <-- gets getReadSize ;;
  let len := if rsize <? len then rsize else len in
  if len =? 0 then mreturn (0, buffers) else
  npos <-- page_offset position ;;
  base <-- gets m_baseSize ;;
  cur <-- skip_nodes (Z.to_nat (position / base)) (Some 0%nat) ;;
  csize <-- (fun b => deref (size_of b cur) b) ;;
  fuel <-- gets walk_fuel ;;
  l <-- iov_loop fuel cur npos (u64 (csize - npos)) len buffers ;;
  mreturn (len, l).

(** [uint64_t getWriteBuffers(std::vector<iovec>& buffers, uint64_t len)] *)
Definition ByteArray_getWriteBuffers (buffers : list iovec) (len : Z)
  : M ByteArray (Z * list iovec) :=
  if len =? 0 then mreturn (0, buffers) else
  ByteArray_addCapacity len ;;;
  pos <-- gets m_position ;;
  npos <-- page_offset pos ;;
  csize <-- cur_size ;;
  cur <-- gets m_cur ;;
  fuel <-- gets walk_fuel ;;
  l <-- iov_loop fuel cur npos (u64 (csize - npos)) len buffers ;;
  mreturn (len, l).

(** [std::string toString() const] *)
Definition ByteArray_toString : M ByteArray (list cell) :=
  n <-- gets getReadSize ;;
  if n =? 0 then mreturn [] else
  pos <-- gets m_position ;;
  ByteArray_read_at n pos.

(** One lower-case hexadecimal digit, as a character code. *)
Definition hex_digit (d : Z) : Z := if d <? 10 then 48 + d else 87 + d.

(** The loop of [toHexString] from index [i] on: two digits and a blank for
    each byte, a line feed before every 32nd. *)
Fixpoint hex_loop (i : nat) (str : list Z) : list Z :=
  match str with
  | [] => []
  | c :: str =>
      (if (0 <? Z.of_nat i) && (Z.of_nat i mod 32 =? 0) then [10] else [])
      ++ [hex_digit (c / 16); hex_digit (c mod 16); 32] ++ hex_loop (S i) str
  end.

(** [std::string toHexString() const] *)
Definition ByteArray_toHexString : M ByteArray (list Z) :=
  l <-- ByteArray_toString ;;
  str <-- deref (mapM id l) ;;
  mreturn (hex_loop 0 str).

(** The loop of [writeToFile]; [out] is what the file holds so far.  [len] is
    computed in [size_t] and stored in an [int64_t]; writing a negative number
    of characters is undefined. *)
Fixpoint writeToFile_loop (fuel : nat) (cur : option nat) (read_size pos : Z) (out : list cell)
  : M ByteArray (list cell) :=
  match fuel with
  | O => nofuel
  | S fuel =>
      if 0 <? read_size then
        base <-- gets m_baseSize ;;
        off <-- page_offset (u64 pos) ;;
        let diff := i32 off in
        let len := i64 (u64 ((if i64 base <? read_size then base else read_size) - diff)) in
        l <-- memcpy_out cur diff len ;;
        cur' <-- (fun b => deref (next_of b cur) b) ;;
        writeToFile_loop fuel cur' (read_size - len) (pos + len) (out ++ l)
      else mreturn out
  end.

(** [bool writeToFile(const std::string& name) const]; [opened] is whether the
    file opens, the second component of the result its contents. *)
Definition ByteArray_writeToFile (opened : bool) : M ByteArray (bool * list cell) :=
  if opened then
    rsize <-- gets getReadSize ;;
    pos <-- gets m_position ;;
    cur <-- gets m_cur ;;
    fuel <-- gets walk_fuel ;;
    out <-- writeToFile_loop fuel cur (i64 rsize) (i64 pos) [] ;;
    mreturn (true, out)
  else mreturn (false, []).

(** The loop of [readFromFile]: reads of [m_baseSize] bytes until one falls
    short, which sets the end-of-file flag. *)
Fixpoint readFromFile_loop (fuel : nat) (data : list Z) : M ByteArray unit :=
  match fuel with
  | O => nofuel
  | S fuel =>
      base <-- gets m_baseSize ;;
      let chunk := take (Z.to_nat base) data in
      ByteArray_write chunk ;;;
      if Z.of_nat (length chunk) <? base then mreturn tt
      else readFromFile_loop fuel (drop (Z.to_nat base) data)
  end.

(** [bool readFromFile(const std::string& name)]; [file] is the contents of the
    file, [None] when it does not open. *)
Definition ByteArray_readFromFile (file : option (list Z)) : M ByteArray bool :=
  match file with
  | None => mreturn false
  | Some data =>
      readFromFile_loop (S (length data)) data ;;;
      mreturn true
  end.

(** ** What a view designates *)

(** The bytes of the buffer a list of views covers, in order. *)
Fixpoint gather (b : ByteArray) (l : list iovec) : option (list cell) :=
  match l with
  | [] => Some []
  | v :: l =>
      x ← load b (iov_node v) (iov_off v) (iov_len v);
      y ← gather b l;
      Some (x ++ y)
  end.

(** What [readv] and [recvmsg] do with the bytes that arrive: they fill the
    views in order. *)
Fixpoint scatter (data : list Z) (l : list iovec) (b : ByteArray) : option ByteArray :=
  match data, l with
  | [], _ => Some b
  | _ :: _, [] => None
  | _, v :: l =>
      b' ← store b (iov_node v) (iov_off v) (take (Z.to_nat (iov_len v)) data);
      scatter (drop (Z.to_nat (iov_len v)) data) l b'
  end.

(** Views of the [len] bytes from [p] on, each within one node. *)
Inductive covers (base : Z) : Z -> Z -> list iovec -> Prop :=
| covers_nil p : covers base p 0 []
| covers_cons p n len l :
    0 < n <= len -> p mod base + n <= base -> covers base (p + n) (len - n) l ->
    covers base p len (mkIovec (Some (Z.to_nat (p / base))) (p mod base) n :: l).

Lemma iov_loop_covers fuel len bufs b p :
  paged b -> 0 <= p < m_capacity b -> 0 <= len -> p + len <= m_capacity b ->
  (nodes_left b p < fuel)%nat ->
  exists l, iov_loop fuel (Some (Z.to_nat (p / m_baseSize b)))
      (p mod m_baseSize b) (m_baseSize b - p mod m_baseSize b) len bufs b = Ok (bufs ++ l) b
    /\ covers (m_baseSize b) p len l.
Proof.
  intros Hb. revert len bufs p. induction fuel as [|fuel IH]; [lia|].
  intros len bufs p Hp Hs Hcap Hfuel. pose proof (pg_base _ Hb) as Hbase.
  pose proof (nodes_left_pos b _ Hb Hp) as Hleft.
  pose proof (Z.mod_pos_bound p (m_baseSize b) ltac:(lia)) as Hmod.
  cbn [iov_loop]. destruct (Z.ltb_spec 0 len) as [Hpos0|Hzero].
  2:{ assert (len = 0) as -> by lia. exists []. rewrite app_nil_r. split; [done|constructor]. }
  unfold bind at 1. rewrite (size_of_spec b Hb p) by lia. cbn [deref].
  destruct (Z.leb_spec len (m_baseSize b - p mod m_baseSize b)) as [Hfit|Hspill].
  - destruct fuel as [|fuel]; [lia|]. cbn [iov_loop Z.ltb Z.compare].
    eexists [_]. split; [done|]. constructor; [lia|lia|]. rewrite Z.sub_diag. constructor.
  - set (n := m_baseSize b - p mod m_baseSize b) in *.
    unfold bind at 1. rewrite (next_of_spec b Hb p n) by lia. cbn [deref].
    rewrite (proj2 (Z.ltb_lt _ _)) by lia. unfold bind at 1.
    rewrite size_of_spec by (lia || done). cbn [deref].
    destruct (page_next (m_baseSize b) p n) as [_ Hmn]; [lia..|].
    set (v := mkIovec _ _ n).
    destruct (IH (len - n) (bufs ++ [v]) (p + n) ltac:(lia) ltac:(lia) ltac:(lia)) as (l & Hrun & Hl).
    { rewrite nodes_left_next by (lia || done). lia. }
    rewrite Hmn, Z.sub_0_r, <- app_assoc in Hrun. exists (v :: l). split; [done|]. constructor; [lia|lia|done].
Qed.

Lemma covers_gather b p len l :
  paged b -> covers (m_baseSize b) p len l -> 0 <= p -> p + len <= m_capacity b ->
  gather b l = Some (slice (pages b) (Z.to_nat p) (Z.to_nat len)) /\ Forall (fun v => 0 < iov_len v) l.
Proof.
  intros Hb Hl. induction Hl as [p|p n len l Hn Hfit Hl IH]; intros Hp Hcap.
  { split; [done|constructor]. }
  destruct IH as [Hg Hf]; [lia..|]. split; [|constructor; [cbn; lia|done]].
  cbn [gather iov_node iov_off iov_len]. rewrite (load_spec b Hb p n) by lia. cbn. rewrite Hg. cbn. f_equal.
  rewrite Z2Nat.inj_add, Z2Nat.inj_sub, <- slice_app by lia. f_equal. lia.
Qed.

(** Filling such views writes at [p] of the flat memory. *)
Lemma covers_scatter base p len l data b :
  covers base p len l -> paged b -> m_baseSize b = base -> 0 <= p -> p + len <= m_capacity b ->
  Z.of_nat (length data) <= len ->
  exists b', scatter data l b = Some b' /\ paged b' /\ same_shape b b' /\ m_position b' = m_position b
    /\ m_cur b' = m_cur b /\ pages b' = splice (pages b) (Z.to_nat p) (Some <$> data).
Proof.
  intros Hl. revert data b. induction Hl as [p|p n len l Hn Hfit Hl IH]; intros data b Hb Hbase Hp Hcap Hlen.
  - destruct data; [|cbn in Hlen; lia]. exists b. split_and!; try done. by rewrite fmap_nil, splice_nil.
  - destruct data as [|x data]; [exists b; split_and!; try done; by rewrite fmap_nil, splice_nil|]. set (d := x :: data) in *.
    pose proof (length_take d (Z.to_nat n)) as Htk. pose proof (length_drop d (Z.to_nat n)) as Hdr.
    destruct (store_spec b Hb p (take (Z.to_nat n) d)) as (b1 & Hst & Hb1 & Hsh & Hpos & Hcur & Hpg); [lia|rewrite Hbase; lia|].
    destruct (IH (drop (Z.to_nat n) d) b1) as (b' & Hsc & Hb' & Hsh' & Hpos' & Hcur' & Hpg').
    { done. } { by rewrite (sh_base _ _ Hsh). } { lia. } { rewrite (sh_cap _ _ Hsh). lia. } { lia. }
    exists b'. split.
    { change (scatter d (mkIovec (Some (Z.to_nat (p / base))) (p mod base) n :: l) b)
        with (b' ← store b (Some (Z.to_nat (p / base))) (p mod base) (take (Z.to_nat n) d);
              scatter (drop (Z.to_nat n) d) l b').
      rewrite <- Hbase, Hst. exact Hsc. }
    split_and!; [done|by etrans|congruence|congruence|]. rewrite Hpg', Hpg, Z2Nat.inj_add by lia.
    rewrite <- (take_drop (Z.to_nat n) d) at 3. rewrite fmap_app.
    pose proof (length_pages b Hb). destruct (Nat.le_gt_cases (length d) (Z.to_nat n)) as [Hshort|Hlong].
    + rewrite (drop_ge d) by lia. by rewrite fmap_nil, splice_nil, app_nil_r.
    + rewrite <- splice_app by lia. rewrite length_fmap, Htk, Nat.min_l by lia. done.
Qed.

Lemma iov_loop_spec fuel len bufs b p :
  paged b -> 0 <= p < m_capacity b -> 0 <= len -> p + len <= m_capacity b ->
  (nodes_left b p < fuel)%nat ->
  exists l, iov_loop fuel (Some (Z.to_nat (p / m_baseSize b)))
      (p mod m_baseSize b) (m_baseSize b - p mod m_baseSize b) len bufs b = Ok (bufs ++ l) b
    /\ gather b l = Some (slice (pages b) (Z.to_nat p) (Z.to_nat len))
    /\ Forall (fun v => 0 < iov_len v) l.
Proof.
  intros Hb Hp Hl Hcap Hf. destruct (iov_loop_covers fuel len bufs b p Hb Hp Hl Hcap Hf) as (l & Hrun & Hc).
  exists l. split; [done|]. apply covers_gather; (done || lia).
Qed.

Lemma skip_nodes_spec b count k :
  (k + count < length (m_nodes b))%nat -> skip_nodes count (Some k) b = Ok (Some (k + count)%nat) b.
Proof.
  revert k. induction count as [|count IH]; intros k Hk; cbn [skip_nodes].
  { by rewrite Nat.add_0_r. }
  unfold bind at 1. cbn [next_of]. rewrite decide_True by lia. cbn [deref].
  rewrite decide_True by lia. rewrite IH by lia. do 2 f_equal. lia.
Qed.

Lemma node_index b p :
  paged b -> 0 <= p < m_capacity b -> (Z.to_nat (p / m_baseSize b) < length (m_nodes b))%nat.
Proof.
  intros Hb Hp. destruct (page_index b p Hb Hp) as (nd & Hnd & _).
  exact (lookup_lt_Some _ _ _ Hnd).
Qed.

(** With the cursor on the node of the position, the common tail of
    [getReadBuffers] and [getWriteBuffers] builds a view of [len] bytes. *)
Lemma views_at_cursor b bufs len :
  at_page b (m_position b) -> m_baseSize b < 2 ^ 64 -> 0 <= len ->
  m_position b + len <= m_capacity b ->
  exists l, (pos <-- gets m_position ;; npos <-- page_offset pos ;; csize <-- cur_size ;;
      cur <-- gets m_cur ;; fuel <-- gets walk_fuel ;;
      l <-- iov_loop fuel cur npos (u64 (csize - npos)) len bufs ;; mreturn (len, l)) b
      = Ok (len, bufs ++ l) b
    /\ covers (m_baseSize b) (m_position b) len l.
Proof.
  intros [Hb Hp _ Hcur] Hb64 Hl Hcap. pose proof (pg_base _ Hb).
  pose proof (Z.mod_pos_bound (m_position b) (m_baseSize b) ltac:(lia)).
  destruct (iov_loop_covers (walk_fuel b) len bufs b (m_position b)) as (l & Hrun & Hcov);
    auto with cpp.
  exists l. split; [|done]. cbn [bind gets]. unfold bind at 1, page_offset.
  rewrite (proj2 (Z.eqb_neq _ _)) by lia.
  mrun (cur_size_spec b _ Hb Hp Hcur). cbn [bind gets].
  rewrite Hcur, u64_small by lia. mrun Hrun. done.
Qed.

Lemma getReadBuffers_spec b bufs len :
  wf b -> 0 <= len ->
  let n := len `min` (m_size b - m_position b) in
  exists l, ByteArray_getReadBuffers bufs len b = Ok (n, bufs ++ l) b
    /\ gather b l = Some (slice (content b) (Z.to_nat (m_position b)) (Z.to_nat n))
    /\ Forall (fun v => 0 < iov_len v) l.
Proof.
  intros Hwf Hlen n. pose proof Hwf as [Hb Hr Hp Hs Hc].
  unfold ByteArray_getReadBuffers. unfold bind at 1. cbn [gets].
  rewrite (getReadSize_wf b Hwf).
  replace (if _ <? len then _ else len) with n
    by (subst n; destruct (Z.ltb_spec (m_size b - m_position b) len); lia).
  destruct (Z.eqb_spec n 0) as [->|Hn].
  { exists []. rewrite app_nil_r. by unfold slice. }
  destruct (views_at_cursor b bufs n (wf_at_page b Hwf ltac:(lia))) as (l & Hrun & Hcov);
    [pose proof (pg_base _ Hb); lia|lia|lia|].
  exists l. split; [exact Hrun|]. rewrite slice_content by (done || lia). apply covers_gather; (done || lia).
Qed.

Lemma getReadBuffers_at_spec b bufs len p :
  wf b -> 0 <= len ->
  let n := len `min` (m_size b - m_position b) in
  0 <= p -> p + n <= m_size b ->
  exists l, ByteArray_getReadBuffers_at bufs len p b = Ok (n, bufs ++ l) b
    /\ gather b l = Some (slice (content b) (Z.to_nat p) (Z.to_nat n))
    /\ Forall (fun v => 0 < iov_len v) l.
Proof.
  intros Hwf Hlen n Hp Hfit. pose proof Hwf as [Hb Hr Hpos Hs Hc]. pose proof (pg_base _ Hb).
  unfold ByteArray_getReadBuffers_at. unfold bind at 1. cbn [gets].
  rewrite (getReadSize_wf b Hwf).
  replace (if _ <? len then _ else len) with n
    by (subst n; destruct (Z.ltb_spec (m_size b - m_position b) len); lia).
  destruct (Z.eqb_spec n 0) as [->|Hn].
  { exists []. rewrite app_nil_r. by unfold slice. }
  pose proof (Z.mod_pos_bound p (m_baseSize b) ltac:(lia)).
  assert (0 <= p < m_capacity b) as Hin by lia.
  destruct (iov_loop_spec (walk_fuel b) n bufs b p) as (l & Hrun & Hg & Hf);
    [done|lia..|auto with cpp|].
  exists l. rewrite slice_content by (done || lia). split; [|done].
  unfold bind at 1, page_offset. rewrite (proj2 (Z.eqb_neq _ _)) by lia.
  cbn [bind gets]. mrun (skip_nodes_spec b (Z.to_nat (p / m_baseSize b)) 0 (node_index b p Hb Hin)).
  unfold bind at 1. cbn [Nat.add]. rewrite (size_of_spec b Hb p) by done.
  cbn [deref bind gets]. rewrite u64_small by lia. by mrun Hrun.
Qed.

(** [getWriteBuffers] makes room and keeps contents and position. *)
Lemma getWriteBuffers_covers b bufs len :
  wf b -> writable b -> 0 < len -> m_size b + len < 2 ^ 53 ->
  exists l b', ByteArray_getWriteBuffers bufs len b = Ok (len, bufs ++ l) b'
    /\ wf b' /\ abs b' = abs b /\ m_position b' = m_position b /\ m_size b' = m_size b
    /\ m_position b' + len <= m_capacity b' /\ m_baseSize b' = m_baseSize b
    /\ covers (m_baseSize b') (m_position b') len l.
Proof.
  intros Hwf Hw Hlen Hlim. pose proof Hwf as [Hb Hr Hp Hs Hc].
  unfold ByteArray_getWriteBuffers. rewrite (proj2 (Z.eqb_neq _ _)) by lia.
  destruct (addCapacity_spec b len Hb)
    as (b1 & Hadd & Hb1 & Hba & Hpo & Hsi & _ & Hca & Hfit & Hpg & _); [lia..|].
  destruct (addCapacity_wf _ _ _ Hwf Hlen Hlim Hw Hadd) as [Hwf1 Hlt1].
  mrun Hadd. destruct (views_at_cursor b1 bufs len (wf_at_page _ Hwf1 Hlt1))
    as (l & Hrun & Hcov); [pose proof (pg_base _ Hb1); lia|lia|lia|].
  exists l, b1. split_and!; try done; [|lia].
  unfold abs. rewrite Hpo. f_equal. unfold content. rewrite Hsi, Hpg.
  rewrite take_app_le; [done|]. rewrite (length_pages b Hb). lia.
Qed.

Lemma getWriteBuffers_spec b bufs len :
  wf b -> writable b -> 0 < len -> m_size b + len < 2 ^ 53 ->
  exists l b', ByteArray_getWriteBuffers bufs len b = Ok (len, bufs ++ l) b'
    /\ wf b' /\ abs b' = abs b
    /\ gather b' l = Some (slice (pages b') (Z.to_nat (m_position b')) (Z.to_nat len))
    /\ m_position b' + len <= m_capacity b'
    /\ Forall (fun v => 0 < iov_len v) l.
Proof.
  intros Hwf Hw Hlen Hlim.
  destruct (getWriteBuffers_covers b bufs len Hwf Hw Hlen Hlim) as (l & b' & Hrun & Hwf' & Ha & _ & _ & Hcap & _ & Hcov).
  destruct (covers_gather _ _ _ _ (wf_paged _ Hwf') Hcov) as [Hg Hf]; [apply (wf_pos _ Hwf')|done|].
  by exists l, b'.
Qed.

Lemma toString_spec b :
  wf b -> ByteArray_toString b = Ok (drop (Z.to_nat (m_position b)) (content b)) b.
Proof.
  intros Hwf. pose proof Hwf as [Hb Hr Hp Hs Hc].
  pose proof (length_content b Hb ltac:(lia)) as Hlen.
  unfold ByteArray_toString. unfold bind at 1. cbn [gets]. rewrite (getReadSize_wf b Hwf).
  destruct (Z.eqb_spec (m_size b - m_position b) 0).
  - rewrite drop_ge; [done|lia].
  - cbn [bind gets]. rewrite read_at_spec by (done || lia).
    unfold slice. rewrite take_ge; [done|]. rewrite length_drop. lia.
Qed.

(** ** Files *)

(** One turn of [writeToFile] that stays within its node. *)
Lemma writeToFile_step fuel b p rs out :
  paged b -> m_baseSize b <= 2 ^ 31 -> 0 <= p < m_capacity b -> 0 < rs ->
  p + rs <= m_capacity b -> p mod m_baseSize b < m_baseSize b `min` rs ->
  let len := m_baseSize b `min` rs - p mod m_baseSize b in
  exists cur', writeToFile_loop (S fuel) (Some (Z.to_nat (p / m_baseSize b))) rs p out b
    = writeToFile_loop fuel cur' (rs - len) (p + len)
        (out ++ slice (pages b) (Z.to_nat p) (Z.to_nat len)) b
    /\ (m_baseSize b <= rs -> (p + len) mod m_baseSize b = 0
        /\ (p + len < m_capacity b -> cur' = Some (Z.to_nat ((p + len) / m_baseSize b)))).
Proof.
  intros Hb H31 Hp Hrs Hcap Hoff len. pose proof (pg_base _ Hb). pose proof (pg_limit _ Hb).
  pose proof (Z.mod_pos_bound p (m_baseSize b) ltac:(lia)).
  set (n := m_baseSize b - p mod m_baseSize b).
  exists (if p + n <? m_capacity b then Some (Z.to_nat ((p + n) / m_baseSize b)) else None).
  split.
  - cbn [writeToFile_loop]. rewrite (proj2 (Z.ltb_lt 0 rs)) by lia. cbn [bind gets].
    unfold bind at 1, page_offset. rewrite (proj2 (Z.eqb_neq _ _)) by lia.
    rewrite u64_small, (swrap_id 64 (m_baseSize b)), (swrap_id 32) by lia.
    replace (if _ <? rs then m_baseSize b else rs) with (m_baseSize b `min` rs)
      by (destruct (Z.ltb_spec (m_baseSize b) rs); lia).
    fold len. rewrite (u64_small len), (swrap_id 64 len) by lia.
    unfold bind at 1, memcpy_out. rewrite (load_spec b Hb p len) by lia.
    cbn [deref]. unfold bind at 1. rewrite (next_of_spec b Hb p n) by lia. done.
  - intros Hge. assert (len = n) as -> by lia.
    destruct (page_next (m_baseSize b) p n) as [_ Hmn]; [lia..|].
    split; [done|]. intros Hlt. by rewrite (proj2 (Z.ltb_lt _ _)).
Qed.

Lemma writeToFile_loop_aligned fuel b p rs cur out :
  paged b -> m_baseSize b <= 2 ^ 31 -> 0 <= p -> 0 <= rs -> p + rs <= m_capacity b ->
  p mod m_baseSize b = 0 -> (p < m_capacity b -> cur = Some (Z.to_nat (p / m_baseSize b))) ->
  (nodes_left b p < fuel)%nat ->
  writeToFile_loop fuel cur rs p out b
  = Ok (out ++ slice (pages b) (Z.to_nat p) (Z.to_nat rs)) b.
Proof.
  intros Hb H31. pose proof (pg_base _ Hb). revert p rs cur out.
  induction fuel as [|fuel IH]; [lia|]. intros p rs cur out Hp Hrs Hcap Hal Hcur Hfuel.
  destruct (Z.eq_dec rs 0) as [->|Hn0].
  { cbn. unfold slice. by rewrite app_nil_r. }
  rewrite Hcur by lia. pose proof (nodes_left_pos b p Hb ltac:(lia)).
  destruct (writeToFile_step fuel b p rs out Hb H31) as (cur' & -> & Hnext); [lia..|].
  rewrite Hal, Z.sub_0_r in *. destruct (Z.le_gt_cases (m_baseSize b) rs) as [Hge|Hlt].
  - rewrite Z.min_l in * by lia. destruct (Hnext Hge) as [Hal' Hcur'].
    rewrite IH; [|lia|lia|lia|done|done|rewrite nodes_left_next by (lia || done); lia].
    rewrite <- app_assoc, Z2Nat.inj_add, Z2Nat.inj_sub, <- slice_app by lia.
    do 3 f_equal. lia.
  - rewrite Z.min_r, Z.sub_diag by lia. destruct fuel as [|fuel]; [lia|]. done.
Qed.

Lemma readFromFile_loop_spec fuel data b :
  wf b -> writable b -> (length data < fuel)%nat ->
  m_size b + Z.of_nat (length data) < 2 ^ 53 ->
  exists b', readFromFile_loop fuel data b = Ok tt b' /\ wf b' /\ writable b'
    /\ abs b' = Spec.write (Some <$> data) (abs b).
Proof.
  revert data b. induction fuel as [|fuel IH]; [lia|]. intros data b Hwf Hw Hfuel Hlim.
  cbn [readFromFile_loop bind gets]. pose proof (pg_base _ (wf_paged _ Hwf)).
  set (chunk := take (Z.to_nat (m_baseSize b)) data).
  assert (Hlc : (length chunk = Z.to_nat (m_baseSize b) `min` length data)%nat) by apply length_take.
  destruct (write_abs b chunk Hwf Hw) as (b1 & Hrun & Hwf1 & Ha1 & Hba & _ & Hw1); [lia|].
  mrun Hrun. destruct (Z.ltb_spec (Z.of_nat (length chunk)) (m_baseSize b)).
  { exists b1. assert (chunk = data) as Hall by (apply take_ge; lia).
    rewrite <- Hall. done. }
  pose proof (abs_size b Hwf) as Hs. pose proof (abs_size b1 Hwf1) as Hs1.
  destruct (wf_pos _ Hwf). assert (Spec.spos (abs b) <= length (Spec.sdata (abs b)))%nat
    as Hin by (cbn in *; lia).
  rewrite Ha1 in Hs1. cbn [Spec.sdata Spec.write] in Hs1.
  rewrite length_splice, length_fmap in Hs1 by done. cbn [Spec.spos Spec.sdata abs] in *.
  destruct (IH (drop (Z.to_nat (m_baseSize b)) data) b1 Hwf1 Hw1) as (b' & Hrun' & ? & ? & Ha');
    [rewrite length_drop; lia|rewrite length_drop; lia|].
  exists b'. split_and!; try done. rewrite Ha', Ha1, spec_write_write by (cbn; lia).
  rewrite <- fmap_app. unfold chunk. by rewrite take_drop.
Qed.

(** ** Properties *)

(** Note: views.  The buffers [getReadBuffers] appends designate, in order, the
    bytes from the position on (the overload with a position: from there on),
    at most [len] and at most as many as are left to read; [toString] is all of
    them.  The buffers of [getWriteBuffers] designate [len] bytes of allocated
    memory at the position, growing the buffer when needed and changing neither
    its contents nor its position.  No view is empty. *)
Theorem buffer_views b bufs len :
  wf b -> 0 < len ->
  let n := len `min` (m_size b - m_position b) in
  (exists l, ByteArray_getReadBuffers bufs len b = Ok (n, bufs ++ l) b
     /\ gather b l = Some (slice (content b) (Z.to_nat (m_position b)) (Z.to_nat n))
     /\ Forall (fun v => 0 < iov_len v) l)
  /\ (forall p, 0 <= p -> p + n <= m_size b ->
      exists l, ByteArray_getReadBuffers_at bufs len p b = Ok (n, bufs ++ l) b
       /\ gather b l = Some (slice (content b) (Z.to_nat p) (Z.to_nat n))
       /\ Forall (fun v => 0 < iov_len v) l)
  /\ ByteArray_toString b = Ok (drop (Z.to_nat (m_position b)) (content b)) b
  /\ (writable b -> m_size b + len < 2 ^ 53 ->
      exists l b', ByteArray_getWriteBuffers bufs len b = Ok (len, bufs ++ l) b'
       /\ wf b' /\ abs b' = abs b
       /\ gather b' l = Some (slice (pages b') (Z.to_nat (m_position b')) (Z.to_nat len))
       /\ m_position b' + len <= m_capacity b'
       /\ Forall (fun v => 0 < iov_len v) l).
Proof.
  intros Hwf Hlen n. split_and!.
  - apply getReadBuffers_spec; [done|lia].
  - intros p Hp Hfit. apply getReadBuffers_at_spec; (done || lia).
  - by apply toString_spec.
  - intros Hw Hlim. by apply getWriteBuffers_spec.
Qed.

(** Two nodes of four bytes, six bytes of data, the position at 2. *)
Definition view_example : ByteArray :=
  mkByteArray 4 2 8 6 SYLAR_BIG_ENDIAN
    [mkNode 4 [Some 1; Some 2; Some 3; Some 4]; mkNode 4 [Some 5; Some 6; None; None]] (Some 0%nat).

Lemma view_example_wf : wf view_example.
Proof.
  split; cbn; try lia; [|reflexivity]. split; cbn; try lia. by repeat constructor.
Qed.

Lemma buffer_views_witness :
  (exists l, ByteArray_getReadBuffers [] 10 view_example = Ok (4, l) view_example
     /\ gather view_example l = Some [Some 3; Some 4; Some 5; Some 6]
     /\ Forall (fun v => 0 < iov_len v) l)
  /\ ByteArray_toString view_example = Ok [Some 3; Some 4; Some 5; Some 6] view_example.
Proof.
  destruct (buffer_views view_example [] 10 view_example_wf ltac:(lia)) as (H1 & _ & H2 & _).
  exact (conj H1 H2).
Defined.

(** Note: files.  With the position at the start of a node, or at least a node
    full of bytes left, [writeToFile] writes exactly the bytes from the position
    on, and [readFromFile] on such a file writes the same bytes at the position
    of the reading buffer, whatever their number relative to its node size. *)
Theorem file_roundtrip b b2 data :
  wf b -> m_baseSize b <= 2 ^ 31 ->
  m_position b mod m_baseSize b = 0 \/ m_baseSize b <= m_size b - m_position b ->
  drop (Z.to_nat (m_position b)) (content b) = Some <$> data ->
  wf b2 -> writable b2 -> m_size b2 + Z.of_nat (length data) < 2 ^ 53 ->
  ByteArray_writeToFile true b = Ok (true, Some <$> data) b
  /\ exists b2', ByteArray_readFromFile (Some data) b2 = Ok true b2' /\ wf b2'
       /\ abs b2' = Spec.write (Some <$> data) (abs b2).
Proof.
  intros Hwf H31 Hal Hdata Hwf2 Hw2 Hlim. split.
  - pose proof Hwf as [Hb Hr Hp Hs Hc]. pose proof (pg_base _ Hb) as Hbase.
    pose proof (pg_limit _ Hb). pose proof (length_content b Hb ltac:(lia)) as Hlen.
    rewrite <- Hdata. unfold ByteArray_writeToFile. cbn [bind gets].
    rewrite (getReadSize_wf b Hwf), !(swrap_id 64) by lia.
    set (rs := m_size b - m_position b) in *.
    assert (Hall : slice (pages b) (Z.to_nat (m_position b)) (Z.to_nat rs)
      = drop (Z.to_nat (m_position b)) (content b)).
    { rewrite <- slice_content by (done || lia). unfold slice.
      rewrite take_ge; [done|]. rewrite length_drop. lia. }
    assert (Hcur : m_position b < m_capacity b ->
      m_cur b = Some (Z.to_nat (m_position b / m_baseSize b))).
    { intros ?. by rewrite Hc, (proj2 (Z.ltb_lt _ _)). }
    rewrite <- Hall.
    enough (writeToFile_loop (walk_fuel b) (m_cur b) rs (m_position b) [] b
      = Ok (slice (pages b) (Z.to_nat (m_position b)) (Z.to_nat rs)) b) as Hrun by (by mrun Hrun).
    destruct (decide (m_position b mod m_baseSize b = 0)) as [Hz|Hz].
    + rewrite writeToFile_loop_aligned; try done; try lia; auto with cpp.
    + assert (m_baseSize b <= rs) as Hge by lia.
      pose proof (Z.mod_pos_bound (m_position b) (m_baseSize b) ltac:(lia)).
      rewrite Hcur by lia. unfold walk_fuel.
      destruct (writeToFile_step (S (length (m_nodes b))) b (m_position b) rs [] Hb H31)
        as (cur' & Hstep & Hnext); [lia..|].
      rewrite Z.min_l in * by lia. destruct (Hnext Hge) as [Hal' Hcur'].
      set (n := m_baseSize b - m_position b mod m_baseSize b) in *.
      rewrite Hstep, writeToFile_loop_aligned; [|done|lia|lia|lia|lia|done|done|].
      * cbn [app]. rewrite Z2Nat.inj_add, Z2Nat.inj_sub, <- slice_app by lia.
        do 2 f_equal. lia.
      * unfold nodes_left. lia.
  - unfold ByteArray_readFromFile.
    destruct (readFromFile_loop_spec (S (length data)) data b2 Hwf2 Hw2)
      as (b' & Hrun & Hwf' & _ & Ha); [lia|lia|]. mrun Hrun. by exists b'.
Qed.

Lemma file_roundtrip_witness :
  ByteArray_writeToFile true view_example = Ok (true, Some <$> [3; 4; 5; 6]) view_example
  /\ exists b2', ByteArray_readFromFile (Some [3; 4; 5; 6]) (new_ByteArray 2) = Ok true b2' /\ wf b2'
       /\ abs b2' = Spec.write (Some <$> [3; 4; 5; 6]) (abs (new_ByteArray 2)).
Proof.
  apply (file_roundtrip view_example (new_ByteArray 2) [3; 4; 5; 6]).
  - exact view_example_wf.
  - cbn. lia.
  - right. cbn. lia.
  - reflexivity.
  - apply wf_new. lia.
  - left. reflexivity.
  - reflexivity.
Defined.

(** With less than a node left and the position further into its node than
    that, the length [writeToFile] passes to the stream is negative. *)
Lemma writeToFile_short_tail :
  ByteArray_writeToFile true
    (mkByteArray 4 3 4 4 SYLAR_BIG_ENDIAN [mkNode 4 [Some 1; Some 2; Some 3; Some 4]] (Some 0%nat))
  = Ub.
Proof. reflexivity. Qed.
