(* ===== verification/StdSet.v ===== *)
(** * Ordered sets

    [std::set] with a comparator, as the list of its elements in order: an
    iterator is an index, [end()] is the length.  The operations follow the
    comparator only, as the tree search does on an ordered set. *)
From S2P Require Import Prelude.

Section std_set.
Context {K : Type} (lt : K -> K -> bool).

(** [lower_bound(k)]: the first element not below [k]. *)
Fixpoint set_lower_bound (k : K) (l : list K) : nat :=
  match l with
  | [] => O
  | x :: l => if lt x k then S (set_lower_bound k l) else O
  end.

(** [find(k)]; [None] is [end()]. *)
Definition set_find (k : K) (l : list K) : option nat :=
  let i := set_lower_bound k l in
  match l !! i with
  | Some x => if lt k x then None else Some i
  | None => None
  end.

(** [insert(k)]: the position of the element equivalent to [k] and the set. *)
Definition set_insert (k : K) (l : list K) : nat * list K :=
  let i := set_lower_bound k l in
  match set_find k l with
  | Some i => (i, l)
  | None => (i, take i l ++ k :: drop i l)
  end.

(** [erase(it)] for an iterator to an element. *)
Definition set_erase (i : nat) (l : list K) : list K := delete i l.
End std_set.

(** A comparator that orders all values. *)
Class StrictTotal {K} (lt : K -> K -> bool) : Prop := {
  st_irrefl x : lt x x = false;
  st_trans x y z : lt x y = true -> lt y z = true -> lt x z = true;
  st_total x y : lt x y = false -> lt y x = false -> x = y
}.

(** The elements of a set are in strictly increasing order. *)
Abbreviation ordered lt := (StronglySorted (fun x y => lt x y = true)).

Section std_set_facts.
Context {K : Type} (lt : K -> K -> bool) `{!StrictTotal lt}.
Implicit Types (k x y : K) (l : list K).

Lemma lower_bound_le k l : (set_lower_bound lt k l <= length l)%nat.
Proof. induction l as [|x l IH]; cbn; [done|]. destruct (lt x k); lia. Qed.

Lemma lower_bound_below k l : Forall (fun x => lt x k = true) (take (set_lower_bound lt k l) l).
Proof.
  induction l as [|x l IH]; cbn; [done|]. destruct (lt x k) eqn:E; cbn; by constructor.
Qed.

Lemma lower_bound_above k l :
  ordered lt l -> Forall (fun x => lt x k = false) (drop (set_lower_bound lt k l) l).
Proof.
  induction 1 as [|x l Hl IH Hx]; cbn; [done|]. destruct (lt x k) eqn:E; cbn; [done|].
  constructor; [done|]. eapply Forall_impl; [exact Hx|]. cbn. intros y Hxy.
  destruct (lt y k) eqn:Ey; [|done]. by rewrite (st_trans _ _ _ Hxy Ey) in E.
Qed.

Lemma elem_of_take_drop i l x : x ∈ l <-> x ∈ take i l \/ x ∈ drop i l.
Proof. by rewrite <- elem_of_app, take_drop. Qed.

Lemma ordered_nodup l : ordered lt l -> NoDup l.
Proof.
  induction 1 as [|x l Hl IH Hx]; constructor; [|done]. intros Hin.
  rewrite Forall_forall in Hx. specialize (Hx x Hin). cbn in Hx. by rewrite st_irrefl in Hx.
Qed.

Lemma ordered_sublist l1 l2 : l1 `sublist_of` l2 -> ordered lt l2 -> ordered lt l1.
Proof.
  induction 1 as [|x l1 l2 Hs IH|x l1 l2 Hs IH]; intros Ho; [done| |];
    inversion Ho as [|? ? Ho' Hx]; subst; [|auto].
  constructor; [auto|]. rewrite Forall_forall in Hx |- *. intros y Hy.
  apply Hx. by eapply elem_of_submseteq, sublist_submseteq.
Qed.

Lemma ordered_app l1 l2 :
  ordered lt l1 -> ordered lt l2 -> (forall x y, x ∈ l1 -> y ∈ l2 -> lt x y = true) ->
  ordered lt (l1 ++ l2).
Proof.
  induction 1 as [|x l1 Hl IH Hx]; intros H2 Hb; [done|]. cbn. constructor.
  - apply IH; [done|]. intros; apply Hb; [by right|done].
  - apply Forall_app. split; [done|]. rewrite Forall_forall. intros y Hy.
    apply Hb; [left|done].
Qed.

Lemma set_find_spec k l :
  ordered lt l ->
  match set_find lt k l with
  | Some i => l !! i = Some k
  | None => (k ∉ l) /\ ordered lt (take (set_lower_bound lt k l) l ++ k :: drop (set_lower_bound lt k l) l)
  end.
Proof.
  intros Ho. unfold set_find. set (i := set_lower_bound lt k l).
  pose proof (lower_bound_below k l) as Hb. pose proof (lower_bound_above k l Ho) as Ha.
  fold i in Hb, Ha. rewrite Forall_forall in Hb.
  assert (Hnew : Forall (fun x => lt k x = true) (drop i l) -> (k ∉ l) /\
    ordered lt (take i l ++ k :: drop i l)).
  { intros Hk. split.
    - rewrite <- (take_drop i l), elem_of_app. rewrite Forall_forall in Hk.
      intros [Hin|Hin]; [specialize (Hb k Hin)|specialize (Hk k Hin)]; cbn in *;
        rewrite st_irrefl in *; done.
    - apply ordered_app.
      + eapply ordered_sublist; [apply sublist_take|done].
      + constructor; [|done]. eapply ordered_sublist; [apply sublist_drop|done].
      + intros x y Hx Hy. specialize (Hb x Hx). apply elem_of_cons in Hy as [->|Hy]; [done|].
        rewrite Forall_forall in Hk. exact (st_trans _ _ _ Hb (Hk y Hy)). }
  destruct (l !! i) as [x|] eqn:E.
  - pose proof (drop_S l x i E) as Hd. rewrite Hd in Ha.
    inversion Ha as [|? ? Hx Ha']; subst. destruct (lt k x) eqn:Ek.
    + apply Hnew. rewrite Hd. constructor; [done|].
      assert (ordered lt (drop i l)) as Hod
        by (eapply ordered_sublist; [apply sublist_drop|done]).
      rewrite Hd in Hod. inversion Hod as [|? ? _ Hxs]; subst.
      eapply Forall_impl; [exact Hxs|]. cbn. intros y. by apply st_trans.
    + by rewrite (st_total k x Ek Hx).
  - apply Hnew. rewrite drop_ge; [done|]. by apply lookup_ge_None.
Qed.

Lemma set_find_elem k l : ordered lt l -> k ∈ l -> exists i, set_find lt k l = Some i.
Proof.
  intros Ho Hk. pose proof (set_find_spec k l Ho) as Hf.
  destruct (set_find lt k l) as [i|]; [eauto|]. by destruct Hf.
Qed.

Lemma set_insert_spec k l i l' :
  ordered lt l -> set_insert lt k l = (i, l') ->
  ordered lt l' /\ (forall x, x ∈ l' <-> x = k \/ x ∈ l) /\ l' !! i = Some k.
Proof.
  intros Ho. unfold set_insert. pose proof (set_find_spec k l Ho) as Hf.
  destruct (set_find lt k l) as [j|]; intros [= <- <-].
  - split_and!; try done. intros x. split; [by right|]. intros [->|Hx]; [|done].
    by eapply list_elem_of_lookup_2.
  - destruct Hf as [Hn Hs]. split_and!; [done| |].
    + intros x. pose proof (elem_of_take_drop (set_lower_bound lt k l) l x).
      rewrite elem_of_app, elem_of_cons. tauto.
    + pose proof (lower_bound_le k l). rewrite lookup_app_r by (rewrite length_take; lia).
      rewrite length_take, Nat.min_l, Nat.sub_diag by lia. done.
Qed.

(** The inserted element is first exactly when it is below all others. *)
Lemma set_insert_front k l i l' :
  ordered lt l -> set_insert lt k l = (i, l') ->
  i = O <-> forall x, x ∈ l -> x = k \/ lt k x = true.
Proof.
  intros Ho Hins. destruct (set_insert_spec k l i l' Ho Hins) as (Ho' & Hel & Hi).
  split.
  - intros -> x Hx. destruct l' as [|y l']; [done|]. cbn in Hi. injection Hi as ->.
    assert (x ∈ k :: l') as Hx' by (apply Hel; auto).
    apply elem_of_cons in Hx' as [->|Hx']; [auto|]. right.
    inversion Ho' as [|? ? _ Hf]; subst. rewrite Forall_forall in Hf. by apply Hf.
  - intros Hall. destruct l' as [|y l']; [done|]. destruct i as [|i]; [done|]. cbn in Hi.
    inversion Ho' as [|? ? _ Hf]; subst. rewrite Forall_forall in Hf.
    pose proof (Hf k (list_elem_of_lookup_2 _ _ _ Hi)) as Hyk. cbn in Hyk.
    destruct (proj1 (Hel y) (list_elem_of_here _ _)) as [->|Hy].
    + by rewrite st_irrefl in Hyk.
    + destruct (Hall y Hy) as [->|Hky]; [by rewrite st_irrefl in Hyk|].
      pose proof (st_trans _ _ _ Hky Hyk) as Hkk. by rewrite st_irrefl in Hkk.
Qed.

Lemma set_erase_spec k l i :
  ordered lt l -> l !! i = Some k ->
  ordered lt (set_erase i l) /\ forall x, x ∈ set_erase i l <-> x <> k /\ x ∈ l.
Proof.
  intros Ho Hi. pose proof (ordered_nodup l Ho) as Hnd. split.
  - eapply ordered_sublist; [apply sublist_delete|done].
  - intros x. unfold set_erase. rewrite delete_take_drop.
    pose proof (take_drop_middle l i k Hi) as Hl. rewrite <- Hl in Hnd.
    apply NoDup_app in Hnd as (_ & Hd1 & Hd2). apply NoDup_cons in Hd2 as [Hd2 _].
    assert (x ∈ l <-> x ∈ take i l \/ x = k \/ x ∈ drop (S i) l) as ->
      by (rewrite <- Hl at 1; by rewrite elem_of_app, elem_of_cons).
    rewrite elem_of_app. split.
    + intros [Hx|Hx]; (split; [intros ->|tauto]); [|done].
      apply (Hd1 k Hx), list_elem_of_here.
    + tauto.
Qed.
End std_set_facts.

(** A set only depends on how the comparator orders its elements. *)
Lemma ordered_ext {K} (lt lt' : K -> K -> bool) l :
  (forall x y, x ∈ l -> y ∈ l -> lt x y = lt' x y) -> ordered lt l -> ordered lt' l.
Proof.
  intros Heq. induction 1 as [|x l Hl IH Hx]; constructor.
  - apply IH. intros. apply Heq; by right.
  - rewrite Forall_forall in Hx |- *. intros y Hy.
    rewrite <- Heq; [by apply Hx|left|by right].
Qed.
