(* ===== verification/Timer.v ===== *)
(** * Timers (src/src/timer/timer.h, timer.cpp)

    [Timer] objects live in a heap indexed by address; [TimerManager] keeps
    their pointers in a [std::set] ordered by deadline, then address.  Each call
    of [getCurrentMS()] is an argument.  The virtual [flushTimer] only has its
    calls counted here; EventPoller implements it by waking the poller.  The
    locks are taken and released within each operation, which is one step. *)
From S2P Require Import Prelude StdSet.

(** A [std::function<void()>]: empty, the user's, or the closure that
    [addConditionTimer] builds. *)
Inductive Func :=
| FNull
| FUser (id : Z)
| FCond (cond : Z) (cb : Func).

#[export] Instance Func_eq_dec : EqDecision Func.
Proof. solve_decision. Defined.

Definition has_target (f : Func) : bool := match f with FNull => false | _ => true end.

(** The user functions a call of [f] runs, [alive] telling which conditions
    still lock; [None] when an empty function is called.  The second case is
    [TimerCondCheck]. *)
Fixpoint run_func (alive : Z -> bool) (f : Func) : option (list Z) :=
  match f with
  | FNull => None
  | FUser id => Some [id]
  | FCond cond cb => if alive cond then run_func alive cb else Some []
  end.

Record Timer := mkTimer {
  m_recurring : bool;
  m_ms : Z;
  m_next : Z;
  m_cb : Func
}.

(** [Timer::Ptr]: null or an address. *)
Abbreviation Ptr := (option Z).

(** [Timer::Timer(uint64_t ms, std::function<void()> cb, bool recurring, ...)] *)
Definition new_Timer (now ms : Z) (cb : Func) (recurring : bool) : Timer :=
  mkTimer recurring ms (u64 (now + ms)) cb.

(** [Timer::Timer(uint64_t next)] *)
Definition probe_Timer (next : Z) : Timer := mkTimer false 0 next FNull.

Definition set_next (v : Z) (t : Timer) : Timer := mkTimer (m_recurring t) (m_ms t) v (m_cb t).
Definition set_ms (v : Z) (t : Timer) : Timer := mkTimer (m_recurring t) v (m_next t) (m_cb t).
Definition set_cb (v : Func) (t : Timer) : Timer := mkTimer (m_recurring t) (m_ms t) (m_next t) v.

Abbreviation heap := (gmap Z Timer).
Definition next_at (h : heap) (a : Z) : Z := default 0 (m_next <$> h !! a).

(** [Timer::Comparator::operator()] *)
Definition Comparator (h : heap) (lhs rhs : Ptr) : bool :=
  match lhs, rhs with
  | None, None => false
  | None, Some _ => false
  | Some _, None => true
  | Some a, Some b =>
      if negb (next_at h a =? next_at h b) then next_at h a <? next_at h b else a <? b
  end.

Record TimerManager := mkTimerManager {
  timer_heap : heap;      (* the Timer objects *)
  m_tickled : bool;
  m_prevTime : Z;
  m_timers : list Ptr;
  flush_count : nat       (* calls of flushTimer *)
}.

Definition set_heap v (m : TimerManager) :=
  mkTimerManager v (m_tickled m) (m_prevTime m) (m_timers m) (flush_count m).
Definition set_timers v (m : TimerManager) :=
  mkTimerManager (timer_heap m) (m_tickled m) (m_prevTime m) v (flush_count m).
Definition set_tickled v (m : TimerManager) :=
  mkTimerManager (timer_heap m) v (m_prevTime m) (m_timers m) (flush_count m).
Definition set_prevTime v (m : TimerManager) :=
  mkTimerManager (timer_heap m) (m_tickled m) v (m_timers m) (flush_count m).

Definition new_TimerManager : TimerManager := mkTimerManager ∅ false 0 [] 0.

(** The object a pointer refers to. *)
Definition timer_at (p : Ptr) : M TimerManager Timer := fun m =>
  match p with
  | Some a => deref (timer_heap m !! a) m
  | None => Ub
  end.
Definition store_timer (p : Ptr) (t : Timer) : M TimerManager unit := fun m =>
  match p with
  | Some a => Ok tt (set_heap (<[a := t]> (timer_heap m)) m)
  | None => Ub
  end.

Definition timers_find (p : Ptr) : M TimerManager (option nat) :=
  gets (fun m => set_find (Comparator (timer_heap m)) p (m_timers m)).
Definition timers_insert (p : Ptr) : M TimerManager nat := fun m =>
  let '(i, l) := set_insert (Comparator (timer_heap m)) p (m_timers m) in
  Ok i (set_timers l m).
Definition timers_erase (i : nat) : M TimerManager unit :=
  modify (fun m => set_timers (set_erase i (m_timers m)) m).

Definition flushTimer : M TimerManager unit :=
  modify (fun m => mkTimerManager (timer_heap m) (m_tickled m) (m_prevTime m) (m_timers m)
                     (S (flush_count m))).

(** [bool Timer::cancel()] on the timer at [p] *)
Definition Timer_cancel (p : Ptr) : M TimerManager bool :=
  t <-- timer_at p ;;
  if has_target (m_cb t) then
    store_timer p (set_cb FNull t) ;;;
    it <-- timers_find p ;;
    match it with
    | Some i => timers_erase i
    | None => mreturn tt
    end ;;;
    mreturn true
  else mreturn false.

(** [bool Timer::refresh()]: an iterator that is not [end()] returns false, and
    what is erased otherwise is [end()]. *)
Definition Timer_refresh (now : Z) (p : Ptr) : M TimerManager bool :=
  t <-- timer_at p ;;
  if negb (has_target (m_cb t)) then mreturn false else
  it <-- timers_find p ;;
  match it with
  | Some _ => mreturn false
  | None =>
      (ub : M TimerManager unit) ;;;   (* m_timers.erase(m_timers.end()) *)
      store_timer p (set_next (u64 (now + m_ms t)) t) ;;;
      timers_insert p ;;;
      mreturn true
  end.

(** [bool Timer::reset(uint64_t ms, bool from_now)] *)
Definition Timer_reset (now : Z) (p : Ptr) (ms : Z) (from_now : bool) : M TimerManager bool :=
  t <-- timer_at p ;;
  if (ms =? m_ms t) && negb from_now then mreturn true else
  if negb (has_target (m_cb t)) then mreturn false else
  it <-- timers_find p ;;
  match it with
  | None => mreturn false
  | Some i =>
      timers_erase i ;;;
      let start := if from_now then now else u64 (m_next t - m_ms t) in
      store_timer p (set_next (u64 (start + ms)) (set_ms ms t)) ;;;
      mreturn true
  end.

(** [void TimerManager::addTimer(Timer::Ptr val, Mutex& lock)], without the
    unlocking of [lock] *)
Definition TimerManager_addTimer_ptr (val : Ptr) : M TimerManager unit :=
  i <-- timers_insert val ;;
  if bool_decide (i = O) then flushTimer else mreturn tt.

(** [Timer::Ptr TimerManager::addTimer(uint64_t ms, Func cb, bool recurring)];
    [a] is the address [new] returns. *)
Definition TimerManager_addTimer (now a ms : Z) (cb : Func) (recurring : bool)
  : M TimerManager Ptr :=
  store_timer (Some a) (new_Timer now ms cb recurring) ;;;
  i <-- timers_insert (Some a) ;;
  (if bool_decide (i = O) then flushTimer else mreturn tt) ;;;
  mreturn (Some a).

(** [Timer::Ptr TimerManager::addConditionTimer(...)] *)
Definition TimerManager_addConditionTimer (now a ms : Z) (cb : Func) (cond : Z) (recurring : bool)
  : M TimerManager Ptr :=
  TimerManager_addTimer now a ms (FCond cond cb) recurring.

(** [uint64_t TimerManager::getNextTimer()] *)
Definition TimerManager_getNextTimer (now : Z) : M TimerManager Z :=
  modify (set_tickled false) ;;;
  l <-- gets m_timers ;;
  match l with
  | [] => mreturn 0
  | nxt :: _ =>
      t <-- timer_at nxt ;;
      mreturn (if now <=? m_next t then m_next t - now else 0)
  end.

(** The loop that moves [it] past the timers whose deadline is [cur_ms]. *)
Fixpoint skip_equal (cur_ms : Z) (l : list Ptr) (it : nat) : M TimerManager nat :=
  match l with
  | [] => mreturn it
  | p :: l =>
      t <-- timer_at p ;;
      if m_next t =? cur_ms then skip_equal cur_ms l (S it) else mreturn it
  end.

(** [for(auto & timer : expired) { ... }] *)
Fixpoint fire_loop (cur_ms : Z) (expired : list Ptr) (cbs : list Func)
  : M TimerManager (list Func) :=
  match expired with
  | [] => mreturn cbs
  | timer :: expired =>
      t <-- timer_at timer ;;
      (if m_recurring t then
         store_timer timer (set_next (u64 (cur_ms + m_ms t)) t) ;;;
         timers_insert timer ;;;
         mreturn tt
       else store_timer timer (set_cb FNull t)) ;;;
      fire_loop cur_ms expired (cbs ++ [m_cb t])
  end.

(** [void TimerManager::listExpiredCb(std::vector<std::function<void()> >& cbs)];
    [probe] is the address of the local [cur_timer], gone at the end. *)
Definition TimerManager_listExpiredCb (cur_ms probe : Z) (cbs : list Func)
  : M TimerManager (list Func) :=
  l <-- gets m_timers ;;
  match l with
  | [] => mreturn cbs
  | _ :: _ =>
      h <-- gets timer_heap ;;
      let it := set_lower_bound (Comparator (<[probe := probe_Timer cur_ms]> h)) (Some probe) l in
      it <-- skip_equal cur_ms (drop it l) it ;;
      modify (set_timers (drop it l)) ;;;
      fire_loop cur_ms (take it l) cbs
  end.

(** [bool TimerManager::detectClockRollover(uint64_t now_ms)] *)
Definition TimerManager_detectClockRollover (now_ms : Z) : M TimerManager bool :=
  prev <-- gets m_prevTime ;;
  let rollover := (now_ms <? prev) && (now_ms <? u64 (prev - 60 * 60 * 1000)) in
  modify (set_prevTime now_ms) ;;;
  mreturn rollover.

(** [bool TimerManager::hasTimer()] *)
Definition TimerManager_hasTimer : M TimerManager bool :=
  gets (fun m => match m_timers m with [] => false | _ => true end).
