(* ===== verification/TimerFacts.v ===== *)
(** * Timers: order invariant, expiry, re-arming

    The timer set is shown to stay ordered by deadline with every member live,
    over any sequence of operations; expiry and the poller's time-out are then
    characterised by the deadlines alone. *)
From S2P Require Import Prelude StdSet Timer.

#[export] Instance Comparator_total h : StrictTotal (Comparator h).
Proof.
  split.
  - intros [a|]; cbn; [|done]. rewrite Z.eqb_refl. cbn. lia.
  - intros [a|] [b|] [c|]; cbn; try done.
    destruct (Z.eqb_spec (next_at h a) (next_at h b)), (Z.eqb_spec (next_at h b) (next_at h c)),
      (Z.eqb_spec (next_at h a) (next_at h c)); cbn; lia.
  - intros [a|] [b|]; cbn; try done.
    destruct (Z.eqb_spec (next_at h a) (next_at h b)), (Z.eqb_spec (next_at h b) (next_at h a));
      cbn; intros; (f_equal; lia) || lia.
Qed.

(** ** The invariant *)

(** [p] points to a timer with a callback. *)
Definition live (h : heap) (p : Ptr) : Prop :=
  exists a t, p = Some a /\ h !! a = Some t /\ has_target (m_cb t) = true.

Record tm_wf (m : TimerManager) : Prop := {
  tm_ordered : ordered (Comparator (timer_heap m)) (m_timers m);
  tm_live : forall p, p ∈ m_timers m -> live (timer_heap m) p;
  tm_words : forall a t, timer_heap m !! a = Some t ->
    0 <= m_next t < 2 ^ 64 /\ 0 <= m_ms t < 2 ^ 64
}.

(** The deadline of the timer at [p] is not after [now]. *)
Definition due (h : heap) (now : Z) (p : Ptr) : bool :=
  match p with Some a => next_at h a <=? now | None => false end.

Definition cb_at (h : heap) (p : Ptr) : Func :=
  match p with Some a => default FNull (m_cb <$> h !! a) | None => FNull end.
Definition recurring_at (h : heap) (p : Ptr) : bool :=
  match p with Some a => default false (m_recurring <$> h !! a) | None => false end.

(** Writing to a timer outside a set of pointers leaves its order alone. *)
Lemma ordered_insert h a t l :
  Some a ∉ l -> ordered (Comparator h) l -> ordered (Comparator (<[a := t]> h)) l.
Proof.
  intros Ha. apply ordered_ext. intros [x|] [y|] Hx Hy; cbn; try done.
  unfold next_at. rewrite !lookup_insert_ne by (intros ->; done). done.
Qed.

Lemma live_insert h a t p : Some a <> p -> live h p -> live (<[a := t]> h) p.
Proof.
  intros Hne (b & u & -> & Hb & Hu). exists b, u. split_and!; try done.
  by rewrite lookup_insert_ne by congruence.
Qed.

Lemma wf_new_manager : tm_wf new_TimerManager.
Proof. split; [constructor|by intros p Hp%elem_of_nil|intros a t; cbn; set_solver]. Qed.

(** A store to a timer that is not in the set. *)
Lemma wf_store m a t :
  tm_wf m -> Some a ∉ m_timers m -> 0 <= m_next t < 2 ^ 64 -> 0 <= m_ms t < 2 ^ 64 ->
  tm_wf (set_heap (<[a := t]> (timer_heap m)) m).
Proof.
  intros [Ho Hl Hw] Ha Hn Hm. split; cbn.
  - by apply ordered_insert.
  - intros p Hp. apply live_insert; [by intros <-|auto].
  - intros b u. destruct (decide (a = b)) as [->|].
    + rewrite lookup_insert_eq. by intros [= <-].
    + rewrite lookup_insert_ne by done. apply Hw.
Qed.

Lemma timers_insert_spec m p :
  tm_wf m -> live (timer_heap m) p ->
  exists i l, timers_insert p m = Ok i (set_timers l m) /\ tm_wf (set_timers l m)
    /\ (forall x, x ∈ l <-> x = p \/ x ∈ m_timers m)
    /\ (i = O <-> forall x, x ∈ m_timers m -> x = p \/ Comparator (timer_heap m) p x = true).
Proof.
  intros [Ho Hl Hw] Hp. unfold timers_insert.
  destruct (set_insert _ p (m_timers m)) as [i l] eqn:E. exists i, l.
  destruct (set_insert_spec _ _ _ _ _ Ho E) as (Ho' & Hel & _).
  split_and!; try done.
  - split; cbn; auto. intros x [->|Hx]%Hel; auto.
  - by apply (set_insert_front _ _ _ _ l).
Qed.

Lemma timers_find_spec m p :
  tm_wf m ->
  exists it, timers_find p m = Ok it m
    /\ match it with Some i => m_timers m !! i = Some p | None => p ∉ m_timers m end.
Proof.
  intros [Ho _ _]. eexists. split; [done|]. pose proof (set_find_spec _ p _ Ho) as Hf.
  destruct (set_find _ _ _); [done|]. by destruct Hf.
Qed.

Lemma timers_erase_spec m p i :
  tm_wf m -> m_timers m !! i = Some p ->
  exists l, timers_erase i m = Ok tt (set_timers l m) /\ tm_wf (set_timers l m)
    /\ (forall x, x ∈ l <-> x <> p /\ x ∈ m_timers m).
Proof.
  intros [Ho Hl Hw] Hi. destruct (set_erase_spec _ p _ i Ho Hi) as [Ho' Hel].
  eexists. split; [done|]. split; [|done]. split; cbn; auto.
  intros x [_ Hx]%Hel; auto.
Qed.

(** Removing a member and writing to it keeps the invariant. *)
Lemma wf_erase_store m p a t i :
  tm_wf m -> p = Some a -> m_timers m !! i = Some p ->
  0 <= m_next t < 2 ^ 64 -> 0 <= m_ms t < 2 ^ 64 ->
  exists m', (timers_erase i ;;; store_timer p t) m = Ok tt m' /\ tm_wf m'
    /\ timer_heap m' = <[a := t]> (timer_heap m)
    /\ (forall x, x ∈ m_timers m' <-> x <> p /\ x ∈ m_timers m).
Proof.
  intros Hwf -> Hi Hn Hm. destruct (timers_erase_spec m _ i Hwf Hi) as (l & Hrun & Hwf' & Hel).
  eexists. split; [by mrun Hrun|]. split_and!; [|done|done].
  apply (wf_store (set_timers l m)); try done. cbn. rewrite Hel. tauto.
Qed.

(** ** Expiry *)

Section expiry.
Context (now : Z).

Lemma due_head h p l :
  ordered (Comparator h) (p :: l) -> (forall x, x ∈ p :: l -> exists a, x = Some a) ->
  due h now p = false -> forall x, x ∈ p :: l -> due h now x = false.
Proof.
  intros Ho Hs Hd x Hx. apply elem_of_cons in Hx as [->|Hx]; [done|].
  inversion Ho as [|? ? _ Hf]; subst. rewrite Forall_forall in Hf. specialize (Hf x Hx).
  destruct (Hs p (list_elem_of_here _ _)) as [a ->].
  destruct (Hs x (list_elem_of_further _ _ _ Hx)) as [b ->]. cbn in *.
  destruct (Z.eqb_spec (next_at h a) (next_at h b)); cbn in *; lia.
Qed.

(** The two parts a sorted set is cut in. *)
Definition cut_at (h : heap) (k : nat) (l : list Ptr) : Prop :=
  take k l = filter (fun p => due h now p = true) l
  /\ drop k l = filter (fun p => due h now p = false) l.

Lemma cut_at_0 h l : (forall x, x ∈ l -> due h now x = false) -> cut_at h 0 l.
Proof.
  intros Hl. unfold cut_at. rewrite take_0, drop_0. induction l as [|x l IH]; [done|].
  rewrite !filter_cons, (Hl x) by left.
  destruct IH as [IH1 IH2]; [intros; apply Hl; by right|]. cbn. by rewrite <- IH1, <- IH2.
Qed.

Lemma cut_at_S h k p l : due h now p = true -> cut_at h k l -> cut_at h (S k) (p :: l).
Proof.
  intros Hp [H1 H2]. unfold cut_at. rewrite !filter_cons, Hp. cbn. by rewrite H1, H2.
Qed.

Lemma skip_equal_spec m l i :
  ordered (Comparator (timer_heap m)) l -> (forall p, p ∈ l -> live (timer_heap m) p) ->
  (forall a, Some a ∈ l -> now <= next_at (timer_heap m) a) ->
  exists k, skip_equal now l i m = Ok (i + k)%nat m /\ cut_at (timer_heap m) k l.
Proof.
  revert i. induction l as [|p l IH]; intros i Ho Hl Hge.
  { exists O. by rewrite Nat.add_0_r. }
  destruct (Hl p (list_elem_of_here _ _)) as (a & t & -> & Ha & _).
  pose proof (Hge a (list_elem_of_here _ _)) as Hna.
  cbn [skip_equal]. unfold bind at 1, timer_at. rewrite Ha. cbn [deref].
  assert (next_at (timer_heap m) a = m_next t) as Hnx by (unfold next_at; by rewrite Ha).
  destruct (Z.eqb_spec (m_next t) now).
  - inversion Ho; subst. destruct (IH (S i)) as (k & -> & Hc); [done|..].
    { intros q Hq. apply Hl. by right. }
    { intros b Hb. apply Hge. by right. }
    exists (S k). split; [f_equal; lia|]. apply cut_at_S; [|done]. cbn. lia.
  - exists O. rewrite Nat.add_0_r. split; [done|]. apply cut_at_0. eapply due_head; [done| |].
    + intros x Hx. destruct (Hl x Hx) as (b & _ & -> & _). eauto.
    + cbn. lia.
Qed.

Lemma expired_cut m probe l :
  ordered (Comparator (timer_heap m)) l -> (forall p, p ∈ l -> live (timer_heap m) p) ->
  Some probe ∉ l ->
  exists k, (let it := set_lower_bound
      (Comparator (<[probe := probe_Timer now]> (timer_heap m))) (Some probe) l in
    skip_equal now (drop it l) it m) = Ok k m /\ cut_at (timer_heap m) k l.
Proof.
  intros Ho Hl Hp. cbv zeta.
  enough (forall i, exists k, skip_equal now (drop (set_lower_bound
      (Comparator (<[probe := probe_Timer now]> (timer_heap m))) (Some probe) l) l)
      (i + set_lower_bound (Comparator (<[probe := probe_Timer now]> (timer_heap m))) (Some probe) l) m
      = Ok (i + k)%nat m /\ cut_at (timer_heap m) k l) as Hall by exact (Hall O).
  induction l as [|p l IH]; intros i.
  { exists O. by cbn. }
  assert (Hl' : forall q, q ∈ l -> live (timer_heap m) q) by (intros; apply Hl; by right).
  assert (Hp' : Some probe ∉ l) by (intros ?; apply Hp; by right).
  destruct (Hl p (list_elem_of_here _ _)) as (a & t & -> & Ha & _).
  assert (a <> probe) as Hne by (intros ->; apply Hp; left).
  inversion Ho; subst. cbn [set_lower_bound].
  assert (next_at (<[probe := probe_Timer now]> (timer_heap m)) probe = now) as Hnp
    by (unfold next_at; by rewrite lookup_insert_eq).
  assert (next_at (<[probe := probe_Timer now]> (timer_heap m)) a = next_at (timer_heap m) a) as Hna
    by (unfold next_at; by rewrite lookup_insert_ne by done).
  destruct (Comparator _ (Some a) (Some probe)) eqn:E; cbn in E; rewrite Hnp, Hna in E.
  - destruct (IH ltac:(done) Hl' Hp' (S i)) as (k & Hrun & Hc). exists (S k). cbn [drop].
    rewrite <- Nat.add_succ_comm, Hrun. split; [f_equal; lia|]. apply cut_at_S; [|done].
    cbn. destruct (Z.eqb_spec (next_at (timer_heap m) a) now); cbn in E; lia.
  - cbn [drop]. rewrite Nat.add_0_r. apply skip_equal_spec; [done..|].
    assert (now <= next_at (timer_heap m) a) as Hge
      by (destruct (Z.eqb_spec (next_at (timer_heap m) a) now); cbn in E; lia).
    intros b [[= ->]|Hb]%elem_of_cons; [done|].
    match goal with H : Forall _ l |- _ => rewrite Forall_forall in H; specialize (H _ Hb) end.
    cbn in *. destruct (Z.eqb_spec (next_at (timer_heap m) a) (next_at (timer_heap m) b));
      cbn in *; lia.
Qed.

(** What expiry does to a timer. *)
Definition fired (t : Timer) : Timer :=
  if m_recurring t then set_next (u64 (now + m_ms t)) t else set_cb FNull t.
End expiry.

Lemma fired_words now t :
  0 <= m_next t < 2 ^ 64 /\ 0 <= m_ms t < 2 ^ 64 ->
  0 <= m_next (fired now t) < 2 ^ 64 /\ 0 <= m_ms (fired now t) < 2 ^ 64.
Proof.
  unfold fired. destruct (m_recurring t); cbn; [|done]. intros [_ ?]. split; [|done].
  apply wrap_range. lia.
Qed.

Lemma live_fired h now p :
  live h p -> recurring_at h p = true ->
  exists a t, p = Some a /\ h !! a = Some t /\ fired now t = set_next (u64 (now + m_ms t)) t
    /\ live (<[a := fired now t]> h) p.
Proof.
  intros (a & t & -> & Ha & Ht) Hr. exists a, t. cbn in Hr. rewrite Ha in Hr. cbn in Hr.
  assert (fired now t = set_next (u64 (now + m_ms t)) t) as Hf by (unfold fired; by rewrite Hr).
  split_and!; try done. rewrite Hf. exists a, (set_next (u64 (now + m_ms t)) t).
  by rewrite lookup_insert_eq.
Qed.

(** One turn of the loop over the expired timers. *)
Lemma fire_step now p m :
  tm_wf m -> p ∉ m_timers m -> live (timer_heap m) p ->
  exists a t m', p = Some a /\ timer_heap m !! a = Some t
    /\ (forall A (k : Timer -> M TimerManager A), (t <-- timer_at p ;; k t) m = k t m)
    /\ (if m_recurring t then
         store_timer p (set_next (u64 (now + m_ms t)) t) ;;;
         timers_insert p ;;;
         mreturn tt
       else store_timer p (set_cb FNull t)) m = Ok tt m'
    /\ tm_wf m' /\ timer_heap m' = <[a := fired now t]> (timer_heap m)
    /\ (forall x, x ∈ m_timers m' <->
          x ∈ m_timers m \/ x = p /\ recurring_at (timer_heap m) p = true)
    /\ m_prevTime m' = m_prevTime m /\ m_tickled m' = m_tickled m
    /\ flush_count m' = flush_count m.
Proof.
  intros Hwf Hout Hlive. pose proof Hlive as (a & t & -> & Ha & Ht).
  pose proof (fired_words now t (tm_words m Hwf a t Ha)) as [Hn Hm].
  pose proof (wf_store m a (fired now t) Hwf Hout Hn Hm) as Hwf1. cbn [recurring_at].
  rewrite Ha. exists a, t. unfold fired in *. cbn [fmap option_fmap option_map default].
  destruct (m_recurring t) eqn:Er.
  - set (m1 := set_heap _ m) in *.
    destruct (timers_insert_spec m1 (Some a) Hwf1) as (i & l & Hins & Hwf2 & Hel & _).
    { exists a, (set_next (u64 (now + m_ms t)) t). cbn. by rewrite lookup_insert_eq. }
    exists (set_timers l m1). split_and!; try done.
    + intros A k. unfold bind, timer_at. by rewrite Ha.
    + unfold bind at 1. cbn [store_timer]. fold m1. by mrun Hins.
    + intros x. cbn. rewrite Hel. cbn. tauto.
  - eexists. split_and!; try done.
    + intros A k. unfold bind, timer_at. by rewrite Ha.
    + intros x. cbn. intuition congruence.
Qed.

Lemma fire_loop_spec now expired m cbs :
  tm_wf m -> NoDup expired ->
  (forall p, p ∈ expired -> (p ∉ m_timers m) /\ live (timer_heap m) p) ->
  exists m', fire_loop now expired cbs m = Ok (cbs ++ (cb_at (timer_heap m) <$> expired)) m'
    /\ tm_wf m'
    /\ (forall a, timer_heap m' !! a = if decide (Some a ∈ expired)
          then fired now <$> timer_heap m !! a else timer_heap m !! a)
    /\ (forall p, p ∈ m_timers m' <->
          p ∈ m_timers m \/ p ∈ expired /\ recurring_at (timer_heap m) p = true)
    /\ m_prevTime m' = m_prevTime m /\ m_tickled m' = m_tickled m
    /\ flush_count m' = flush_count m.
Proof.
  revert m cbs. induction expired as [|p expired IH]; intros m cbs Hwf Hnd Hex.
  { exists m. cbn. rewrite app_nil_r. split_and!; try done; intros x.
    rewrite elem_of_nil. tauto. }
  apply NoDup_cons in Hnd as [Hp Hnd]. destruct (Hex p (list_elem_of_here _ _)) as [Hout Hlive].
  destruct (fire_step now p m Hwf Hout Hlive)
    as (a & t & m1 & -> & Ha & Hat & Hrun & Hwf1 & Hh & Hel & Hpt & Htk & Hfl).
  assert (Hsame : forall b, Some b ∈ expired -> timer_heap m1 !! b = timer_heap m !! b).
  { intros b Hb. rewrite Hh. apply lookup_insert_ne. by intros ->. }
  destruct (IH m1 (cbs ++ [m_cb t]) Hwf1 Hnd) as (m' & Hloop & Hwf' & Hh' & Hel' & ? & ? & ?).
  { intros q Hq. destruct (Hex q (list_elem_of_further _ _ _ Hq)) as [Hqo Hql]. split.
    - rewrite Hel. intros [?|[-> _]]; done.
    - rewrite Hh. apply live_insert; [by intros <-|done]. }
  exists m'. split_and!; try done; try congruence.
  - cbn [fire_loop]. rewrite Hat. mrun Hrun. rewrite Hloop, <- app_assoc. f_equal. f_equal.
    cbn. rewrite Ha. cbn. f_equal. apply list_fmap_ext. intros i q Hq.
    apply list_elem_of_lookup_2 in Hq. destruct q as [b|]; [|done]. cbn.
    by rewrite Hsame.
  - intros b. rewrite Hh'. destruct (decide (Some b ∈ expired)) as [Hb|Hb].
    + rewrite Hsame by done. by rewrite decide_True by by right.
    + rewrite Hh. destruct (decide (a = b)) as [->|Hne].
      * rewrite lookup_insert_eq, decide_True by left. by rewrite Ha.
      * rewrite lookup_insert_ne by done. rewrite decide_False; [done|].
        intros [[= ->]|?]%elem_of_cons; done.
  - intros q. rewrite Hel', Hel, elem_of_cons. split.
    + intros [[?|[-> Hr]]|[Hq Hr]]; [by left|by right; auto|right]. split; [by right|].
      destruct q as [b|]; [|done]. cbn in *. by rewrite <- Hsame.
    + intros [?|[[->|Hq] Hr]]; [by left; left|left; by right|right]. split; [done|].
      destruct q as [b|]; [|done]. cbn in *. by rewrite Hsame.
Qed.

(** [listExpiredCb]: exactly the due timers fire, in the order of the set. *)
Lemma listExpiredCb_run now probe cbs m :
  tm_wf m -> timer_heap m !! probe = None ->
  let h := timer_heap m in
  let expired := filter (fun p => due h now p = true) (m_timers m) in
  exists m', TimerManager_listExpiredCb now probe cbs m = Ok (cbs ++ (cb_at h <$> expired)) m'
    /\ tm_wf m'
    /\ (forall a, timer_heap m' !! a = if decide (Some a ∈ expired)
          then fired now <$> h !! a else h !! a)
    /\ (forall p, p ∈ m_timers m' <-> p ∈ m_timers m /\
          (due h now p = false \/ recurring_at h p = true))
    /\ m_prevTime m' = m_prevTime m /\ m_tickled m' = m_tickled m
    /\ flush_count m' = flush_count m.
Proof.
  intros Hwf Hprobe h expired. pose proof Hwf as [Ho Hl Hw].
  assert (expired = filter (fun p => due h now p = true) (m_timers m)) as Hexp by done.
  clearbody expired.
  unfold TimerManager_listExpiredCb. unfold bind at 1. cbn [gets].
  destruct (m_timers m) as [|p0 l0] eqn:El.
  { exists m. cbn in Hexp. subst expired. cbn. rewrite app_nil_r.
    split_and!; try done. intros x. rewrite El, elem_of_nil. tauto. }
  rewrite <- El in *. clear p0 l0 El. unfold bind at 1. cbn [gets]. fold h.
  assert (Some probe ∉ m_timers m) as Hout.
  { intros (a & t & [= <-] & Ha & _)%Hl. by rewrite Hprobe in Ha. }
  destruct (expired_cut now m probe (m_timers m) Ho Hl Hout) as (k & Hcut & Ht & Hd).
  fold h in Hcut, Ht, Hd. rewrite <- Hexp in Ht. cbv zeta in Hcut. mrun Hcut.
  cbn [bind modify]. rewrite Ht, Hd.
  set (m1 := set_timers _ m).
  assert (Hwf1 : tm_wf m1).
  { split; cbn; [|intros p [_ Hp]%list_elem_of_filter; auto|done].
    eapply ordered_sublist; [apply sublist_filter|done]. }
  pose proof (ordered_nodup _ _ Ho) as Hnd.
  destruct (fire_loop_spec now expired m1 cbs Hwf1) as (m' & Hrun & Hwf' & Hh & Hel & ? & ? & ?).
  { rewrite Hexp. by apply NoDup_filter. }
  { rewrite Hexp. intros p [Hdue Hp]%list_elem_of_filter. split; [|by apply Hl]. cbn.
    intros [Hnot _]%list_elem_of_filter. cbn in *. congruence. }
  exists m'. split_and!; try done. intros p. rewrite Hel, Hexp. cbn.
  rewrite !list_elem_of_filter. destruct (due h now p) eqn:Ed; intuition congruence.
Qed.

(** ** The other operations *)

Lemma Comparator_same_next h h' x y :
  (forall a, next_at h' a = next_at h a) -> Comparator h' x y = Comparator h x y.
Proof. intros Heq. destruct x, y; cbn; by rewrite ?Heq. Qed.

Lemma cancel_spec m a t :
  tm_wf m -> timer_heap m !! a = Some t ->
  exists m', Timer_cancel (Some a) m = Ok (has_target (m_cb t)) m' /\ tm_wf m'
    /\ timer_heap m' = (if has_target (m_cb t) then <[a := set_cb FNull t]> (timer_heap m)
                        else timer_heap m)
    /\ (forall x, x ∈ m_timers m' <-> x <> Some a /\ x ∈ m_timers m).
Proof.
  intros Hwf Ha. pose proof Hwf as [Ho Hl Hw]. unfold Timer_cancel, timer_at.
  unfold bind at 1. rewrite Ha. cbn [deref]. destruct (has_target (m_cb t)) eqn:Et.
  2: { exists m. split_and!; try done. intros x. split; [|tauto]. intros Hx. split; [|done].
       intros ->. destruct (Hl _ Hx) as (b & u & [= <-] & Hb & Hu). congruence. }
  cbn [bind store_timer]. set (h' := <[a := set_cb FNull t]> (timer_heap m)).
  assert (Hcmp : forall x y, Comparator h' x y = Comparator (timer_heap m) x y).
  { intros x y. apply Comparator_same_next. intros b. unfold next_at, h'.
    destruct (decide (a = b)) as [->|]; [by rewrite lookup_insert_eq, Ha|].
    by rewrite lookup_insert_ne. }
  assert (Ho' : ordered (Comparator h') (m_timers m))
    by (eapply ordered_ext; [|exact Ho]; intros; by rewrite Hcmp).
  assert (Hrest : forall l, (forall x, x ∈ l <-> x <> Some a /\ x ∈ m_timers m) ->
    ordered (Comparator h') l -> tm_wf (set_timers l (set_heap h' m))).
  { intros l Hel Hol. split; cbn; [done| |].
    - intros p [Hne Hp]%Hel. apply live_insert; [congruence|auto].
    - intros b u. unfold h'. destruct (decide (a = b)) as [->|].
      + rewrite lookup_insert_eq. intros [= <-]. by apply Hw in Ha.
      + rewrite lookup_insert_ne by done. apply Hw. }
  unfold bind at 1, timers_find, gets. cbn [timer_heap m_timers set_heap].
  pose proof (set_find_spec _ (Some a) _ Ho') as Hf.
  destruct (set_find _ _ _) as [i|].
  - destruct (set_erase_spec _ (Some a) _ i Ho' Hf) as [Ho2 Hel].
    exists (set_timers (set_erase i (m_timers m)) (set_heap h' m)). split_and!; try done. by apply Hrest.
  - destruct Hf as [Hn _]. assert (Hsame : forall x, x ∈ m_timers m <-> x <> Some a /\ x ∈ m_timers m)
      by (intros x; split; [|tauto]; intros Hx; split; [by intros ->|done]).
    exists (set_timers (m_timers m) (set_heap h' m)). split_and!; try done. by apply Hrest.
Qed.

Lemma addTimer_spec now a ms cb recurring m :
  tm_wf m -> timer_heap m !! a = None -> has_target cb = true -> 0 <= ms < 2 ^ 64 ->
  exists m', TimerManager_addTimer now a ms cb recurring m = Ok (Some a) m' /\ tm_wf m'
    /\ timer_heap m' = <[a := new_Timer now ms cb recurring]> (timer_heap m)
    /\ (forall x, x ∈ m_timers m' <-> x = Some a \/ x ∈ m_timers m)
    /\ (flush_count m' = S (flush_count m) /\
          (forall x, x ∈ m_timers m -> Comparator (timer_heap m') (Some a) x = true)
        \/ flush_count m' = flush_count m /\
          (exists x, x ∈ m_timers m /\ Comparator (timer_heap m') x (Some a) = true)).
Proof.
  intros Hwf Ha Hcb Hms.
  assert (Hout : Some a ∉ m_timers m).
  { intros (b & t & [= <-] & Hb & _)%(tm_live m Hwf). congruence. }
  pose proof (wf_store m a (new_Timer now ms cb recurring) Hwf Hout
    (wrap_range 64 (now + ms) ltac:(lia)) Hms) as Hwf1.
  unfold TimerManager_addTimer. cbn [bind store_timer]. set (m1 := set_heap _ m) in *.
  destruct (timers_insert_spec m1 (Some a) Hwf1) as (i & l & Hins & Hwf2 & Hel & Hfront).
  { exists a, (new_Timer now ms cb recurring). cbn. by rewrite lookup_insert_eq. }
  mrun Hins. case_bool_decide as Hi.
  - exists (mkTimerManager (timer_heap m1) (m_tickled m1) (m_prevTime m1) l (S (flush_count m1))).
    split_and!; try done; [by destruct Hwf2|]. left. split; [done|]. intros x Hx.
    destruct (proj1 Hfront Hi x Hx) as [->|]; done.
  - exists (set_timers l m1). split_and!; try done. right. split; [done|].
    destruct (decide (Exists (fun x => Comparator (timer_heap m1) x (Some a) = true) (m_timers m1)))
      as [Hx|Hx]; [by apply Exists_exists in Hx|].
    exfalso. apply Hi, Hfront. intros x Hin. rewrite <- Forall_Exists_neg, Forall_forall in Hx.
    destruct (Comparator (timer_heap m1) (Some a) x) eqn:E; [by right|left].
    apply (st_total (lt := Comparator (timer_heap m1))); [|done]. apply not_true_is_false, (Hx x Hin).
Qed.

Lemma reset_spec now a t ms from_now m :
  tm_wf m -> timer_heap m !! a = Some t -> 0 <= ms < 2 ^ 64 ->
  ms <> m_ms t \/ from_now = true ->
  exists m', Timer_reset now (Some a) ms from_now m = Ok (bool_decide (Some a ∈ m_timers m)) m'
    /\ tm_wf m' /\ (forall x, x ∈ m_timers m' <-> x <> Some a /\ x ∈ m_timers m)
    /\ timer_heap m' =
       (if bool_decide (Some a ∈ m_timers m)
        then <[a := mkTimer (m_recurring t) ms
                (u64 ((if from_now then now else u64 (m_next t - m_ms t)) + ms)) (m_cb t)]> (timer_heap m)
        else timer_heap m).
Proof.
  intros Hwf Ha Hms Hchg. unfold Timer_reset, timer_at. unfold bind at 1. rewrite Ha.
  cbn [deref]. replace ((ms =? m_ms t) && negb from_now) with false
    by (destruct (Z.eqb_spec ms (m_ms t)), from_now; cbn; intuition congruence).
  destruct (timers_find_spec m (Some a) Hwf) as (it & Hfind & Hit).
  destruct (has_target (m_cb t)) eqn:Et; cbn [negb].
  - mrun Hfind. destruct it as [i|].
    + rewrite bool_decide_true by (by eapply list_elem_of_lookup_2).
      destruct (wf_erase_store m (Some a) a (set_next (u64 ((if from_now then now
        else u64 (m_next t - m_ms t)) + ms)) (set_ms ms t)) i Hwf eq_refl Hit)
        as (m' & Hrun & ? & ? & ?); [apply wrap_range; lia|done|].
      exists m'. split; [|done]. unfold bind in Hrun |- *.
      destruct (timers_erase i m); try done. by rewrite Hrun.
    + rewrite bool_decide_false by done. exists m. split_and!; try done.
      intros x. split; [|tauto]. intros Hx. split; [by intros ->|done].
  - assert (Some a ∉ m_timers m) as Hn.
    { intros (b & u & [= <-] & Hb & Hu)%(tm_live m Hwf). congruence. }
    rewrite bool_decide_false by done. exists m. split_and!; try done.
    intros x. split; [|tauto]. intros Hx. split; [by intros ->|done].
Qed.

(** [refresh] moves no timer: it fails on one that is armed, and erases
    [end()] for one that is live but not armed. *)
Lemma refresh_spec now a t m :
  tm_wf m -> timer_heap m !! a = Some t ->
  Timer_refresh now (Some a) m =
  if has_target (m_cb t) && negb (bool_decide (Some a ∈ m_timers m)) then Ub else Ok false m.
Proof.
  intros Hwf Ha. unfold Timer_refresh, timer_at. unfold bind at 1. rewrite Ha. cbn [deref].
  destruct (has_target (m_cb t)); cbn [negb andb]; [|done].
  destruct (timers_find_spec m (Some a) Hwf) as (it & Hfind & Hit). mrun Hfind.
  destruct it as [i|].
  - by rewrite bool_decide_true by (by eapply list_elem_of_lookup_2).
  - by rewrite bool_decide_false by done.
Qed.

Lemma getNextTimer_spec now m :
  tm_wf m ->
  TimerManager_getNextTimer now m =
  Ok (match m_timers m with
      | Some a :: _ => Z.max 0 (next_at (timer_heap m) a - now)
      | _ => 0
      end) (set_tickled false m).
Proof.
  intros Hwf. unfold TimerManager_getNextTimer. cbn [bind modify gets].
  change (m_timers (set_tickled false m)) with (m_timers m).
  pose proof (tm_live m Hwf) as Hl. destruct (m_timers m) as [|p l]; [done|].
  destruct (Hl p (list_elem_of_here _ _)) as (a & t & -> & Ha & _).
  unfold bind, timer_at. cbn [timer_heap set_tickled]. rewrite Ha. cbn [deref mreturn].
  unfold mreturn, next_at. rewrite Ha. cbn. f_equal.
  destruct (Z.leb_spec now (m_next t)); lia.
Qed.

(** ** Sequences of operations *)

Inductive timer_op :=
| OAdd (now a ms : Z) (cb : Func) (recurring : bool)
| OAddCondition (now a ms : Z) (cb : Func) (cond : Z) (recurring : bool)
| OAddPtr (p : Ptr)
| OCancel (p : Ptr)
| ORefresh (now : Z) (p : Ptr)
| OReset (now : Z) (p : Ptr) (ms : Z) (from_now : bool)
| ONext (now : Z)
| OExpired (now probe : Z)
| ORollover (now : Z)
| OHas.

Definition exec_op (o : timer_op) : M TimerManager unit :=
  match o with
  | OAdd now a ms cb r => TimerManager_addTimer now a ms cb r ;;; mreturn tt
  | OAddCondition now a ms cb c r => TimerManager_addConditionTimer now a ms cb c r ;;; mreturn tt
  | OAddPtr p => TimerManager_addTimer_ptr p
  | OCancel p => Timer_cancel p ;;; mreturn tt
  | ORefresh now p => Timer_refresh now p ;;; mreturn tt
  | OReset now p ms f => Timer_reset now p ms f ;;; mreturn tt
  | ONext now => TimerManager_getNextTimer now ;;; mreturn tt
  | OExpired now probe => TimerManager_listExpiredCb now probe [] ;;; mreturn tt
  | ORollover now => TimerManager_detectClockRollover now ;;; mreturn tt
  | OHas => TimerManager_hasTimer ;;; mreturn tt
  end.

(** A fresh address for a new timer, an existing timer otherwise; a callback
    that can be called; no [refresh] of a live timer that [reset] disarmed. *)
Definition op_ok (m : TimerManager) (o : timer_op) : Prop :=
  match o with
  | OAdd now a ms cb _ => timer_heap m !! a = None /\ has_target cb = true /\ 0 <= ms < 2 ^ 64
  | OAddCondition now a ms _ _ _ => timer_heap m !! a = None /\ 0 <= ms < 2 ^ 64
  | OAddPtr p => live (timer_heap m) p
  | OCancel p => exists a t, p = Some a /\ timer_heap m !! a = Some t
  | ORefresh _ p => exists a t, p = Some a /\ timer_heap m !! a = Some t
      /\ (p ∈ m_timers m \/ has_target (m_cb t) = false)
  | OReset _ p ms _ => (exists a t, p = Some a /\ timer_heap m !! a = Some t) /\ 0 <= ms < 2 ^ 64
  | OExpired _ probe => timer_heap m !! probe = None
  | ONext _ | ORollover _ | OHas => True
  end.

Inductive tm_reachable : TimerManager -> Prop :=
| tm_start : tm_reachable new_TimerManager
| tm_next m o m' : tm_reachable m -> op_ok m o -> exec_op o m = Ok tt m' -> tm_reachable m'.

Lemma reset_same_run now a t ms from_now m :
  timer_heap m !! a = Some t -> ~ (ms <> m_ms t \/ from_now = true) ->
  (Timer_reset now (Some a) ms from_now ;;; mreturn tt) m = Ok tt m.
Proof.
  intros Ha Hsame. assert (Hstop : (ms =? m_ms t) && negb from_now = true).
  { destruct (Z.eqb_spec ms (m_ms t)), from_now; cbn; done || intuition. }
  unfold Timer_reset, timer_at, bind. rewrite Ha. cbn [deref]. by rewrite Hstop.
Qed.

Lemma exec_op_wf m o : tm_wf m -> op_ok m o -> exists m', exec_op o m = Ok tt m' /\ tm_wf m'.
Proof.
  intros Hwf Hok. destruct o; cbn [exec_op op_ok] in *.
  - destruct Hok as (Ha & Hcb & Hms).
    destruct (addTimer_spec now a ms cb recurring m Hwf Ha Hcb Hms) as (m' & Hrun & ? & _).
    exists m'. by mrun Hrun.
  - destruct Hok as (Ha & Hms).
    destruct (addTimer_spec now a ms (FCond cond cb) recurring m Hwf Ha eq_refl Hms)
      as (m' & Hrun & ? & _).
    exists m'. unfold TimerManager_addConditionTimer. by mrun Hrun.
  - destruct (timers_insert_spec m p Hwf Hok) as (i & l & Hins & Hwf' & _).
    unfold TimerManager_addTimer_ptr. mrun Hins. case_bool_decide; eexists; (split; [done|]).
    + by destruct Hwf'.
    + done.
  - destruct Hok as (a & t & -> & Ha).
    destruct (cancel_spec m a t Hwf Ha) as (m' & Hrun & ? & _). exists m'. by mrun Hrun.
  - destruct Hok as (a & t & -> & Ha & Hor). exists m. split; [|done].
    erewrite bind_Ok; [done|]. rewrite (refresh_spec now a t m Hwf Ha).
    destruct Hor as [Hin| ->]; [|done]. by rewrite bool_decide_true, andb_false_r.
  - destruct Hok as ((a & t & -> & Ha) & Hms).
    destruct (decide (ms <> m_ms t \/ from_now = true)) as [Hchg|Hsame].
    + destruct (reset_spec now a t ms from_now m Hwf Ha Hms Hchg) as (m' & Hrun & ? & _).
      exists m'. by mrun Hrun.
    + exists m. split; [|done]. by apply (reset_same_run now a t).
  - eexists. erewrite bind_Ok; [|by apply getNextTimer_spec]. split; [done|].
    by destruct Hwf.
  - destruct (listExpiredCb_run now probe [] m Hwf Hok) as (m' & Hrun & ? & _).
    exists m'. by mrun Hrun.
  - eexists. split; [done|]. by destruct Hwf.
  - by exists m.
Qed.

(** The timer an operation is about; [listExpiredCb] is about all that are due. *)
Definition touched (o : timer_op) : Ptr :=
  match o with
  | OAdd _ a _ _ _ | OAddCondition _ a _ _ _ _ => Some a
  | OAddPtr p | OCancel p | ORefresh _ p | OReset _ p _ _ => p
  | ONext _ | OExpired _ _ | ORollover _ | OHas => None
  end.

(** [m'] has the timer [b] of [m], armed or not. *)
Definition same_timer (b : Z) (m m' : TimerManager) : Prop :=
  timer_heap m' !! b = timer_heap m !! b /\ (Some b ∈ m_timers m' <-> Some b ∈ m_timers m).

Lemma addTimer_same now a ms g r m m' b :
  tm_wf m -> timer_heap m !! a = None -> has_target g = true -> 0 <= ms < 2 ^ 64 -> a <> b ->
  (TimerManager_addTimer now a ms g r ;;; mreturn tt) m = Ok tt m' -> same_timer b m m'.
Proof.
  intros Hwf Ha Hg Hms Hb Hr.
  destruct (addTimer_spec now a ms g r m Hwf Ha Hg Hms) as (m2 & Hr2 & _ & Hh & Hs & _).
  rewrite (bind_Ok _ _ _ _ _ Hr2) in Hr. injection Hr as <-. split.
  - by rewrite Hh, lookup_insert_ne.
  - rewrite Hs. split; [intros [|]; congruence|auto].
Qed.
Lemma reset_same now a t ms from_now m m' b :
  tm_wf m -> timer_heap m !! a = Some t -> 0 <= ms < 2 ^ 64 -> a <> b ->
  (Timer_reset now (Some a) ms from_now ;;; mreturn tt) m = Ok tt m' -> same_timer b m m'.
Proof.
  intros Hwf Ha Hms Hb Hr. destruct (decide (ms <> m_ms t \/ from_now = true)) as [Hchg|Hsame].
  - destruct (reset_spec now a t ms from_now m Hwf Ha Hms Hchg) as (m2 & Hr2 & _ & Hs & Hh).
    rewrite (bind_Ok _ _ _ _ _ Hr2) in Hr. injection Hr as <-. split.
    + rewrite Hh. case_bool_decide; [by rewrite lookup_insert_ne|done].
    + rewrite Hs. split; [by intros [_ ?]|split; congruence].
  - rewrite (reset_same_run now a t ms from_now m Ha Hsame) in Hr. by injection Hr as <-.
Qed.

(** The other operations leave every other timer alone. *)
Lemma exec_op_frame m o m' b :
  tm_wf m -> op_ok m o -> exec_op o m = Ok tt m' ->
  match o with OExpired _ _ => False | _ => True end -> touched o <> Some b -> same_timer b m m'.
Proof.
  intros Hwf Hok Hrun Hx Hb. destruct o; cbn [exec_op op_ok touched] in *; try done.
  - destruct Hok as (Ha & Hcb & Hms). eapply addTimer_same; [done..| |done]. congruence.
  - destruct Hok as (Ha & Hms). eapply (addTimer_same _ _ _ (FCond cond cb)); [done..| |done]. congruence.
  - destruct (timers_insert_spec m p Hwf Hok) as (i & l & Hins & _ & Hel & _).
    unfold TimerManager_addTimer_ptr in Hrun. rewrite (bind_Ok _ _ _ _ _ Hins) in Hrun.
    assert (Hset : Some b ∈ l <-> Some b ∈ m_timers m) by (rewrite Hel; split; [intros [|]; congruence|auto]).
    case_bool_decide; injection Hrun as <-; by split.
  - destruct Hok as (a & t & -> & Ha). destruct (cancel_spec m a t Hwf Ha) as (m2 & Hr2 & _ & Hh & Hs).
    rewrite (bind_Ok _ _ _ _ _ Hr2) in Hrun. injection Hrun as <-. split.
    + rewrite Hh. destruct (has_target _); [|done]. apply lookup_insert_ne. congruence.
    + rewrite Hs. split; [by intros [_ ?]|split; congruence].
  - destruct Hok as (a & t & -> & Ha & Hor). apply bind_Ok_inv in Hrun as (r & m1 & Hr & [= <-]).
    rewrite (refresh_spec now a t m Hwf Ha) in Hr. destruct (_ && _); [done|]. by injection Hr as _ <-.
  - destruct Hok as ((a & t & -> & Ha) & Hms). eapply reset_same; [done..| |done]. congruence.
  - rewrite (bind_Ok _ _ _ _ _ (getNextTimer_spec now m Hwf)) in Hrun. by injection Hrun as <-.
  - by injection Hrun as <-.
  - by injection Hrun as <-.
Qed.

(** No operation but the additions brings in a callback. *)
Definition added_cb (o : timer_op) : option Func :=
  match o with
  | OAdd _ _ _ g _ => Some g
  | OAddCondition _ _ _ g c _ => Some (FCond c g)
  | _ => None
  end.
Definition from_before (g : Func) (m m' : TimerManager) : Prop :=
  forall b t', timer_heap m' !! b = Some t' -> m_cb t' = g -> exists t, timer_heap m !! b = Some t /\ m_cb t = g.

Lemma from_before_same g m m' : timer_heap m' = timer_heap m -> from_before g m m'.
Proof. intros He b t' Ht Hg. rewrite He in Ht. eauto. Qed.
Lemma from_before_insert g m m' a t :
  timer_heap m' = <[a := t]> (timer_heap m) ->
  m_cb t <> g \/ (exists t0, timer_heap m !! a = Some t0 /\ m_cb t0 = m_cb t) -> from_before g m m'.
Proof.
  intros He Ht b t' Hb Hg. rewrite He in Hb. destruct (decide (b = a)) as [->|Hne].
  - rewrite lookup_insert_eq in Hb. injection Hb as <-. destruct Ht as [|(t0 & ? & ?)]; [done|].
    exists t0. split; [done|congruence].
  - rewrite lookup_insert_ne in Hb by congruence. eauto.
Qed.

Lemma exec_op_callbacks m o m' g :
  tm_wf m -> op_ok m o -> exec_op o m = Ok tt m' ->
  match o with OExpired _ _ => False | _ => True end -> has_target g = true -> added_cb o <> Some g ->
  from_before g m m'.
Proof.
  intros Hwf Hok Hrun Hx Hg Hadd. destruct o; cbn [exec_op op_ok added_cb] in *; try done.
  - destruct Hok as (Ha & Hcb & Hms). destruct (addTimer_spec now a ms cb recurring m Hwf Ha Hcb Hms) as (m2 & Hr2 & _ & Hh & _).
    rewrite (bind_Ok _ _ _ _ _ Hr2) in Hrun. injection Hrun as <-. eapply from_before_insert; [exact Hh|left; cbn; congruence].
  - destruct Hok as (Ha & Hms). unfold TimerManager_addConditionTimer in Hrun.
    destruct (addTimer_spec now a ms (FCond cond cb) recurring m Hwf Ha eq_refl Hms) as (m2 & Hr2 & _ & Hh & _).
    rewrite (bind_Ok _ _ _ _ _ Hr2) in Hrun. injection Hrun as <-. eapply from_before_insert; [exact Hh|left; cbn; congruence].
  - destruct (timers_insert_spec m p Hwf Hok) as (i & l & Hins & _). unfold TimerManager_addTimer_ptr in Hrun.
    rewrite (bind_Ok _ _ _ _ _ Hins) in Hrun. apply from_before_same. case_bool_decide; by injection Hrun as <-.
  - destruct Hok as (a & t & -> & Ha). destruct (cancel_spec m a t Hwf Ha) as (m2 & Hr2 & _ & Hh & _).
    rewrite (bind_Ok _ _ _ _ _ Hr2) in Hrun. injection Hrun as <-.
    destruct (has_target (m_cb t)); [|by apply from_before_same].
    eapply from_before_insert; [exact Hh|left; cbn; by intros <-].
  - destruct Hok as (a & t & -> & Ha & Hor). apply bind_Ok_inv in Hrun as (r & m1 & Hr & [= <-]).
    rewrite (refresh_spec now a t m Hwf Ha) in Hr. destruct (_ && _); [done|]. apply from_before_same. by injection Hr as _ <-.
  - destruct Hok as ((a & t & -> & Ha) & Hms).
    destruct (decide (ms <> m_ms t \/ from_now = true)) as [Hchg|Hsame].
    + destruct (reset_spec now a t ms from_now m Hwf Ha Hms Hchg) as (m2 & Hr2 & _ & _ & Hh).
      rewrite (bind_Ok _ _ _ _ _ Hr2) in Hrun. injection Hrun as <-.
      case_bool_decide; [|by apply from_before_same]. eapply from_before_insert; [exact Hh|right; by exists t].
    + rewrite (reset_same_run now a t ms from_now m Ha) in Hrun by auto. apply from_before_same. by injection Hrun as <-.
  - rewrite (bind_Ok _ _ _ _ _ (getNextTimer_spec now m Hwf)) in Hrun. apply from_before_same. by injection Hrun as <-.
  - apply from_before_same. by injection Hrun as <-.
  - apply from_before_same. by injection Hrun as <-.
Qed.

(** C8: invariant.  From an empty manager, any sequence of timer operations
    within the contract runs without error, and the set stays strictly ordered
    by deadline and address, every member being a timer with a callback. *)
Theorem timers_invariant m :
  tm_reachable m ->
  tm_wf m /\ forall o, op_ok m o -> exists m', exec_op o m = Ok tt m' /\ tm_reachable m'.
Proof.
  intros Hr. assert (Hwf : tm_wf m).
  { induction Hr as [|m o m' Hr IH Hok Hrun]; [exact wf_new_manager|].
    destruct (exec_op_wf m o IH Hok) as (m2 & Hrun2 & ?). congruence. }
  split; [done|]. intros o Hok. destruct (exec_op_wf m o Hwf Hok) as (m' & Hrun & _).
  exists m'. split; [done|]. by eapply tm_next.
Qed.

Definition timers_example : TimerManager :=
  match exec_op (OAdd 100 1 30 (FUser 7) true) new_TimerManager with
  | Ok _ m => match exec_op (OAdd 100 2 10 (FUser 8) false) m with Ok _ m => m | _ => m end
  | _ => new_TimerManager
  end.

Lemma timers_example_reachable : tm_reachable timers_example.
Proof.
  eapply (tm_next _ (OAdd 100 2 10 (FUser 8) false)).
  - eapply (tm_next _ (OAdd 100 1 30 (FUser 7) true)); [apply tm_start| |reflexivity].
    vm_compute. intuition congruence.
  - vm_compute. intuition congruence.
  - reflexivity.
Qed.

Lemma timers_example_wf : tm_wf timers_example.
Proof.
  destruct (exec_op_wf new_TimerManager (OAdd 100 1 30 (FUser 7) true) wf_new_manager)
    as (m1 & H1 & Hwf1); [vm_compute; intuition congruence|].
  vm_compute in H1. injection H1 as <-.
  edestruct exec_op_wf with (o := OAdd 100 2 10 (FUser 8) false) as (m2 & H2 & Hwf2);
    [exact Hwf1|vm_compute; intuition congruence|].
  vm_compute in H2. injection H2 as <-. exact Hwf2.
Qed.

Lemma timers_invariant_witness :
  tm_wf timers_example /\ forall o, op_ok timers_example o ->
    exists m', exec_op o timers_example = Ok tt m' /\ tm_reachable m'.
Proof. exact (timers_invariant timers_example timers_example_reachable). Defined.

(** C21: expiry.  [listExpiredCb] appends the callbacks of exactly the armed
    timers whose deadline is not after the current time, in deadline order; the
    recurring ones stay armed with their period added to the current time, the
    others are disarmed for good, and no other timer changes. *)
Theorem listExpiredCb_spec now probe cbs m :
  tm_wf m -> timer_heap m !! probe = None ->
  let h := timer_heap m in
  let expired := filter (fun p => due h now p = true) (m_timers m) in
  exists m', TimerManager_listExpiredCb now probe cbs m = Ok (cbs ++ (cb_at h <$> expired)) m'
    /\ tm_wf m'
    /\ (forall a, timer_heap m' !! a = if decide (Some a ∈ expired)
          then fired now <$> h !! a else h !! a)
    /\ (forall p, p ∈ m_timers m' <-> p ∈ m_timers m /\
          (due h now p = false \/ recurring_at h p = true)).
Proof.
  intros Hwf Hp h expired.
  destruct (listExpiredCb_run now probe cbs m Hwf Hp) as (m' & ? & ? & ? & ? & _).
  by exists m'.
Qed.

Lemma listExpiredCb_spec_witness :
  exists m', TimerManager_listExpiredCb 130 99 [] timers_example = Ok [FUser 8; FUser 7] m'
    /\ tm_wf m' /\ (Some 2 ∉ m_timers m') /\ next_at (timer_heap m') 1 = 160.
Proof.
  destruct (listExpiredCb_spec 130 99 [] timers_example timers_example_wf eq_refl)
    as (m' & Hrun & Hwf & Hh & Hel).
  exists m'. split; [exact Hrun|]. split; [done|]. split.
  - rewrite Hel. vm_compute. intuition congruence.
  - unfold next_at. rewrite Hh. vm_compute. reflexivity.
Defined.

(** Note: the poller's time-out is exact.  With armed timers, [getNextTimer]
    returns a delay after which the first deadline has been reached, so that
    [listExpiredCb] fires at least one timer, and before which nothing is due;
    the only other effect is to clear the tickle flag.  Without timers it
    returns 0, as when a timer is due at once. *)
Theorem getNextTimer_exact now probe m :
  tm_wf m -> timer_heap m !! probe = None ->
  exists d, TimerManager_getNextTimer now m = Ok d (set_tickled false m) /\ 0 <= d
    /\ (m_timers m = [] -> d = 0)
    /\ (m_timers m <> [] -> exists f cbs m',
          TimerManager_listExpiredCb (now + d) probe [] m = Ok (f :: cbs) m')
    /\ (forall t, now <= t < now + d -> exists m',
          TimerManager_listExpiredCb t probe [] m = Ok [] m').
Proof.
  intros Hwf Hp. pose proof Hwf as [Ho Hl _]. eexists. split; [by apply getNextTimer_spec|].
  assert (Hexp : forall t, exists m', TimerManager_listExpiredCb t probe [] m = Ok
    (cb_at (timer_heap m) <$> filter (fun p => due (timer_heap m) t p = true) (m_timers m)) m').
  { intros t. destruct (listExpiredCb_run t probe [] m Hwf Hp) as (m' & Hrun & _). eauto. }
  destruct (m_timers m) as [|p l] eqn:El.
  { split_and!; try done. }
  destruct (Hl p (list_elem_of_here _ _)) as (a & t & -> & Ha & _).
  split_and!; [lia|done| |].
  - intros _. destruct (Hexp (now + Z.max 0 (next_at (timer_heap m) a - now))) as (m' & Hrun).
    rewrite filter_cons_True in Hrun by (cbn; lia). cbn [fmap list_fmap] in Hrun. eauto.
  - intros u Hu. destruct (Hexp u) as (m' & Hrun). exists m'. rewrite Hrun. f_equal.
    assert (Hno : forall x, x ∈ Some a :: l -> due (timer_heap m) u x = false).
    { apply due_head; [done| |cbn; lia]. intros x Hx.
      destruct (Hl x Hx) as (b & _ & -> & _). eauto. }
    destruct (cut_at_0 u (timer_heap m) _ Hno) as [Hnil _]. rewrite take_0 in Hnil.
    by rewrite <- Hnil.
Qed.

Lemma getNextTimer_exact_witness :
  exists d, TimerManager_getNextTimer 105 timers_example = Ok d (set_tickled false timers_example)
    /\ d = 5 /\ exists f cbs m',
      TimerManager_listExpiredCb (105 + d) 99 [] timers_example = Ok (f :: cbs) m'.
Proof.
  destruct (getNextTimer_exact 105 99 timers_example timers_example_wf eq_refl)
    as (d & Hrun & _ & _ & Hfire & _).
  exists d. split; [exact Hrun|]. split; [|apply Hfire; discriminate].
  vm_compute in Hrun. by injection Hrun.
Defined.

(** Note: [cancel] disarms a live timer and reports it, and only then; the timer
    loses its callback and leaves the set, no other timer changes, and a second
    [cancel] returns false without effect. *)
Theorem cancel_disarms m a t :
  tm_wf m -> timer_heap m !! a = Some t ->
  exists m', Timer_cancel (Some a) m = Ok (has_target (m_cb t)) m' /\ tm_wf m'
    /\ (forall x, x ∈ m_timers m' <-> x <> Some a /\ x ∈ m_timers m)
    /\ (forall b, b <> a -> timer_heap m' !! b = timer_heap m !! b)
    /\ Timer_cancel (Some a) m' = Ok false m'.
Proof.
  intros Hwf Ha. destruct (cancel_spec m a t Hwf Ha) as (m' & Hrun & Hwf' & Hh & Hel).
  exists m'. split_and!; try done.
  - intros b Hb. rewrite Hh. destruct (has_target _); [|done]. by apply lookup_insert_ne.
  - assert (exists u, timer_heap m' !! a = Some u /\ has_target (m_cb u) = false) as (u & Hu & Hn).
    { rewrite Hh. destruct (has_target (m_cb t)) eqn:Et; [|by exists t].
      exists (set_cb FNull t). by rewrite lookup_insert_eq. }
    unfold Timer_cancel, bind, timer_at. rewrite Hu. cbn [deref]. by rewrite Hn.
Qed.

Lemma cancel_disarms_witness :
  exists m', Timer_cancel (Some 2) timers_example = Ok true m' /\ tm_wf m'
    /\ Timer_cancel (Some 2) m' = Ok false m'.
Proof.
  destruct (cancel_disarms timers_example 2 (mkTimer false 10 110 (FUser 8)) timers_example_wf eq_refl)
    as (m' & Hrun & Hwf & _ & _ & Hagain).
  by exists m'.
Defined.

(** Note: neither [reset] nor [refresh] re-arms a timer.  A [reset] that changes
    an armed timer takes it out of the set with its new deadline and returns
    true, so it never fires; [refresh] then erases [end()].  On an armed timer
    [refresh] returns false and changes nothing. *)
Theorem reset_refresh_never_rearm now now' m a ms from_now :
  tm_wf m -> Some a ∈ m_timers m -> 0 <= ms < 2 ^ 64 ->
  (exists t, timer_heap m !! a = Some t /\ (ms <> m_ms t \/ from_now = true)) ->
  Timer_refresh now (Some a) m = Ok false m
  /\ exists m', Timer_reset now (Some a) ms from_now m = Ok true m' /\ tm_wf m'
       /\ (Some a ∉ m_timers m')
       /\ Timer_refresh now' (Some a) m' = Ub.
Proof.
  intros Hwf Hin Hms (t & Ha & Hchg).
  destruct (tm_live m Hwf _ Hin) as (b & u & [= <-] & Hb & Hu).
  assert (u = t) as -> by congruence. split.
  { rewrite (refresh_spec now a t m Hwf Ha). by rewrite bool_decide_true, andb_false_r. }
  destruct (reset_spec now a t ms from_now m Hwf Ha Hms Hchg) as (m' & Hrun & Hwf' & Hel & Hh).
  rewrite bool_decide_true in Hrun, Hh by done. exists m'.
  assert (Some a ∉ m_timers m') as Hout by (rewrite Hel; tauto).
  split_and!; try done.
  erewrite refresh_spec; [|done|by rewrite Hh, lookup_insert_eq]. cbn [m_cb].
  by rewrite Hu, bool_decide_false.
Qed.

Lemma reset_refresh_never_rearm_witness :
  Timer_refresh 120 (Some 1) timers_example = Ok false timers_example
  /\ exists m', Timer_reset 120 (Some 1) 50 true timers_example = Ok true m' /\ tm_wf m'
       /\ (Some 1 ∉ m_timers m') /\ Timer_refresh 130 (Some 1) m' = Ub.
Proof.
  apply (reset_refresh_never_rearm 120 130 timers_example 1 50 true timers_example_wf).
  - vm_compute. apply list_elem_of_further, list_elem_of_here.
  - lia.
  - eexists. split; [reflexivity|]. by right.
Defined.

(** Note: [detectClockRollover] reports a jump back of more than an hour when
    the previous time is at least an hour; below that the unsigned
    subtraction wraps and every step back is reported. *)
Theorem detectClockRollover_spec now m :
  0 <= m_prevTime m < 2 ^ 64 -> 0 <= now ->
  TimerManager_detectClockRollover now m =
  Ok (if 3600000 <=? m_prevTime m then now + 3600000 <? m_prevTime m
      else now <? m_prevTime m) (set_prevTime now m).
Proof.
  intros Hp Hn. unfold TimerManager_detectClockRollover. cbn [bind gets modify mreturn].
  unfold mreturn. f_equal. change (60 * 60 * 1000) with 3600000. unfold wrap.
  destruct (Z.leb_spec 3600000 (m_prevTime m)) as [Hge|Hlt].
  - rewrite Z.mod_small by lia.
    destruct (Z.ltb_spec now (m_prevTime m)), (Z.ltb_spec now (m_prevTime m - 3600000)),
      (Z.ltb_spec (now + 3600000) (m_prevTime m)); cbn; lia.
  - rewrite <- (Z_mod_plus_full _ 1), Z.mod_small by lia.
    destruct (Z.ltb_spec now (m_prevTime m)); cbn; lia.
Qed.

Lemma detectClockRollover_spec_witness :
  TimerManager_detectClockRollover 99 (set_prevTime 100 new_TimerManager)
  = Ok true (set_prevTime 99 (set_prevTime 100 new_TimerManager)).
Proof. apply (detectClockRollover_spec 99 (set_prevTime 100 new_TimerManager)); cbn; lia. Defined.
