(* ===== verification/Fiber.v ===== *)
(** * Fibers (src/src/fiber/fiber.h, fiber.cpp)

    The fibers of one thread, named by their id, with the thread-local
    pointers.  A saved [ucontext_t] is the point of the program it resumes: an
    operation that ends in [swapcontext] takes the point [k] that follows its
    call and returns the point that runs next.  [getcontext], [makecontext] and
    [swapcontext] are taken to succeed. *)
From S2P Require Import Prelude.

(** [Fiber::State] *)
Inductive State := INIT | HOLD | EXEC | TERM | READY | EXCEPT.

#[export] Instance State_eq_dec : EqDecision State.
Proof. solve_decision. Defined.

(** A point of the program: the start of [MainFunc] or [CallerMainFunc], a point
    inside running code, or the failing assertion behind a finished fiber. *)
Inductive point :=
| KMainFunc
| KCallerMainFunc
| KAt (k : Z)
| KNeverReached.

Record Fiber := mkFiber {
  m_id : Z;
  m_state : State;
  m_cb : option Z;        (* the function to run, null or not *)
  m_stack : bool;         (* whether a stack is allocated *)
  m_stackSize : Z;
  m_ctx : point
}.

Definition set_state (v : State) (f : Fiber) : Fiber :=
  mkFiber (m_id f) v (m_cb f) (m_stack f) (m_stackSize f) (m_ctx f).
Definition set_cb (v : option Z) (f : Fiber) : Fiber :=
  mkFiber (m_id f) (m_state f) v (m_stack f) (m_stackSize f) (m_ctx f).
Definition set_ctx (v : point) (f : Fiber) : Fiber :=
  mkFiber (m_id f) (m_state f) (m_cb f) (m_stack f) (m_stackSize f) v.

(** The thread: its fibers, the two counters, and the pointers [t_fiber],
    [t_threadFiber] and [Scheduler::getMainFiber()]. *)
Record Thread := mkThread {
  fibers : gmap Z Fiber;
  s_fiber_id : Z;
  s_fiber_count : Z;
  t_fiber : option Z;
  t_threadFiber : option Z;
  t_scheduler_fiber : option Z
}.

Definition set_fibers v (t : Thread) :=
  mkThread v (s_fiber_id t) (s_fiber_count t) (t_fiber t) (t_threadFiber t) (t_scheduler_fiber t).
Definition set_count v (t : Thread) :=
  mkThread (fibers t) (s_fiber_id t) v (t_fiber t) (t_threadFiber t) (t_scheduler_fiber t).
Definition set_t_fiber v (t : Thread) :=
  mkThread (fibers t) (s_fiber_id t) (s_fiber_count t) v (t_threadFiber t) (t_scheduler_fiber t).
Definition set_threadFiber v (t : Thread) :=
  mkThread (fibers t) (s_fiber_id t) (s_fiber_count t) (t_fiber t) v (t_scheduler_fiber t).
Definition set_scheduler_fiber v (t : Thread) :=
  mkThread (fibers t) (s_fiber_id t) (s_fiber_count t) (t_fiber t) (t_threadFiber t) v.

(** The object behind a pointer, and an update of it. *)
Definition fiber_at (p : option Z) : M Thread Fiber := fun t =>
  match p with Some f => deref (fibers t !! f) t | None => Ub end.
Definition fiber_update (p : option Z) (g : Fiber -> Fiber) : M Thread unit :=
  f <-- fiber_at p ;;
  match p with
  | Some i => modify (fun t => set_fibers (<[i := g f]> (fibers t)) t)
  | None => ub
  end.

(** [swapcontext(&from->m_ctx, &to->m_ctx)] called in front of [k] *)
Definition swapcontext (from to : option Z) (k : point) : M Thread point :=
  fiber_update from (set_ctx k) ;;;
  f <-- fiber_at to ;;
  mreturn (m_ctx f).

(** [Fiber::setThis(Fiber* _f)] *)
Definition Fiber_setThis (f : option Z) : M Thread unit := modify (set_t_fiber f).

(** The id of a new fiber, with the object added. *)
Definition new_fiber (mk : Z -> Fiber) : M Thread Z := fun t =>
  let i := u64 (s_fiber_id t + 1) in
  Ok i (mkThread (<[i := mk i]> (fibers t)) i (u64 (s_fiber_count t + 1))
          (t_fiber t) (t_threadFiber t) (t_scheduler_fiber t)).

(** [Fiber::Fiber()]: the fiber of the thread itself, its context saved at [k]. *)
Definition Fiber_main (k : point) : M Thread Z :=
  i <-- new_fiber (fun i => mkFiber i EXEC None false 0 k) ;;
  Fiber_setThis (Some i) ;;;
  mreturn i.

(** [Fiber::Fiber(FuncType cb, size_t stacksize, bool use_caller)];
    [default_size] is the configured stack size. *)
Definition Fiber_new (default_size : Z) (cb : option Z) (stacksize : Z) (use_caller : bool)
  : M Thread Z :=
  new_fiber (fun i => mkFiber i INIT cb true (u32 (if stacksize =? 0 then default_size else stacksize))
               (if use_caller then KCallerMainFunc else KMainFunc)).

(** [Fiber::~Fiber()] *)
Definition Fiber_destroy (i : Z) : M Thread unit :=
  f <-- fiber_at (Some i) ;;
  modify (fun t => set_count (u64 (s_fiber_count t - 1)) t) ;;;
  (if m_stack f then
     Assert (bool_decide (m_state f = INIT \/ m_state f = TERM))
   else
     Assert (bool_decide (m_cb f = None)) ;;;
     Assert (bool_decide (m_state f = EXEC)) ;;;
     cur <-- gets t_fiber ;;
     if bool_decide (cur = Some i) then Fiber_setThis None else mreturn tt) ;;;
  modify (fun t => set_fibers (base.delete i (fibers t)) t).

(** [void Fiber::reset(FuncType cb)] *)
Definition Fiber_reset (i : Z) (cb : option Z) : M Thread unit :=
  f <-- fiber_at (Some i) ;;
  Assert (m_stack f) ;;;
  Assert (bool_decide (m_state f = INIT \/ m_state f = TERM \/ m_state f = EXCEPT)) ;;;
  fiber_update (Some i) (fun f => set_ctx KMainFunc (set_state INIT (set_cb cb f))).

(** [Fiber::Ptr Fiber::getThis()]; [k] is where a new main fiber saves its context. *)
Definition Fiber_getThis (k : point) : M Thread Z :=
  cur <-- gets t_fiber ;;
  match cur with
  | Some i => f <-- fiber_at (Some i) ;; mreturn i
  | None =>
      tmp <-- Fiber_main k ;;
      cur <-- gets t_fiber ;;
      Assert (bool_decide (cur = Some tmp)) ;;;
      modify (set_threadFiber (Some tmp)) ;;;
      mreturn tmp
  end.

(** [void Fiber::call()] *)
Definition Fiber_call (i : Z) (k : point) : M Thread point :=
  Fiber_setThis (Some i) ;;;
  fiber_update (Some i) (set_state EXEC) ;;;
  th <-- gets t_threadFiber ;;
  swapcontext th (Some i) k.

(** [void Fiber::back()] *)
Definition Fiber_back (i : Z) (k : point) : M Thread point :=
  th <-- gets t_threadFiber ;;
  Fiber_setThis th ;;;
  swapcontext (Some i) th k.

(** [void Fiber::swapIn()] *)
Definition Fiber_swapIn (i : Z) (k : point) : M Thread point :=
  Fiber_setThis (Some i) ;;;
  f <-- fiber_at (Some i) ;;
  Assert (bool_decide (m_state f <> EXEC)) ;;;
  fiber_update (Some i) (set_state EXEC) ;;;
  main <-- gets t_scheduler_fiber ;;
  swapcontext main (Some i) k.

(** [void Fiber::swapOut()] *)
Definition Fiber_swapOut (i : Z) (k : point) : M Thread point :=
  main <-- gets t_scheduler_fiber ;;
  Fiber_setThis main ;;;
  swapcontext (Some i) main k.

(** [void Fiber::yieldToHold()] *)
Definition Fiber_yieldToHold (k : point) : M Thread point :=
  cur <-- Fiber_getThis k ;;
  f <-- fiber_at (Some cur) ;;
  Assert (bool_decide (m_state f = EXEC)) ;;;
  fiber_update (Some cur) (set_state HOLD) ;;;
  Fiber_swapOut cur k.

(** [void Fiber::yieldToReady()] *)
Definition Fiber_yieldToReady (k : point) : M Thread point :=
  cur <-- Fiber_getThis k ;;
  f <-- fiber_at (Some cur) ;;
  Assert (bool_decide (m_state f = EXEC)) ;;;
  fiber_update (Some cur) (set_state READY) ;;;
  Fiber_swapIn cur k.

Definition Fiber_getTot : M Thread Z := gets s_fiber_count.

(** [uint64_t Fiber::GetFiberId()] *)
Definition Fiber_GetFiberId : M Thread Z :=
  cur <-- gets t_fiber ;;
  match cur with
  | Some i => f <-- fiber_at (Some i) ;; mreturn (m_id f)
  | None => mreturn 0
  end.

(** What [MainFunc] and [CallerMainFunc] do around [cur->m_cb()], which returns
    or throws ([threw]); calling a null function throws. *)
Definition finish (cur : Z) (threw : bool) : M Thread unit :=
  f <-- fiber_at (Some cur) ;;
  if threw || bool_decide (m_cb f = None)
  then fiber_update (Some cur) (set_state EXCEPT)
  else fiber_update (Some cur) (fun f => set_state TERM (set_cb None f)).

(** [void Fiber::MainFunc()], from its start to its last [swapcontext] *)
Definition Fiber_MainFunc (threw : bool) : M Thread point :=
  cur <-- Fiber_getThis KNeverReached ;;
  finish cur threw ;;;
  Fiber_swapOut cur KNeverReached.

(** [void Fiber::CallerMainFunc()] *)
Definition Fiber_CallerMainFunc (threw : bool) : M Thread point :=
  cur <-- Fiber_getThis KNeverReached ;;
  finish cur threw ;;;
  Fiber_back cur KNeverReached.
