(* ===== verification/FiberFacts.v ===== *)
(** * Fibers: the switching protocol

    Swapping a fiber in and yielding are shown to be a coroutine hand-over: the
    scheduler resumes where it stopped and so does the fiber. *)
From S2P Require Import Prelude Fiber.

(** The scheduler's fiber [mn] and another fiber [f] of the thread. *)
Record switchable (t : Thread) (mn f : Z) (fm ff : Fiber) : Prop := {
  sw_main : t_scheduler_fiber t = Some mn;
  sw_mn : fibers t !! mn = Some fm;
  sw_f : fibers t !! f = Some ff;
  sw_ne : f <> mn
}.

Lemma fiber_update_at t i f g :
  fibers t !! i = Some f -> fiber_update (Some i) g t = Ok tt (set_fibers (<[i := g f]> (fibers t)) t).
Proof. intros H. unfold fiber_update, bind, fiber_at. by rewrite H. Qed.

Lemma swapcontext_at t a b fa fb k :
  fibers t !! a = Some fa -> fibers t !! b = Some fb -> a <> b ->
  swapcontext (Some a) (Some b) k t = Ok (m_ctx fb) (set_fibers (<[a := set_ctx k fa]> (fibers t)) t).
Proof.
  intros Ha Hb Hne. unfold swapcontext. mrun (fiber_update_at t a fa (set_ctx k) Ha).
  unfold bind, fiber_at. cbn. by rewrite lookup_insert_ne, Hb by done.
Qed.

(** The thread after a switch that leaves [f] as [ff] and [mn] as [fm]. *)
Definition switched (t : Thread) (mn f : Z) (fm ff : Fiber) (cur : Z) : Thread :=
  set_fibers (<[mn := fm]> (<[f := ff]> (fibers t))) (set_t_fiber (Some cur) t).

Lemma switched_switchable t mn f fm ff fm' ff' cur :
  switchable t mn f fm ff -> switchable (switched t mn f fm' ff' cur) mn f fm' ff'.
Proof.
  intros [H1 H2 H3 H4]. split; [done| | |done]; cbn.
  - by rewrite lookup_insert_eq.
  - by rewrite lookup_insert_ne, lookup_insert_eq by done.
Qed.

Lemma switched_switched t mn f fm ff fm' ff' cur cur' :
  f <> mn -> switched (switched t mn f fm ff cur) mn f fm' ff' cur' = switched t mn f fm' ff' cur'.
Proof.
  intros Hne. unfold switched. cbn. unfold set_fibers, set_t_fiber. cbn. f_equal.
  apply map_eq. intros i. destruct (decide (i = mn)) as [->|]; [by rewrite !lookup_insert_eq|].
  rewrite !(lookup_insert_ne _ mn) by done.
  destruct (decide (i = f)) as [->|]; [by rewrite !lookup_insert_eq|].
  by rewrite !lookup_insert_ne by done.
Qed.

Lemma insert_swap_main (m : gmap Z Fiber) mn f (fm ff : Fiber) :
  f <> mn -> <[f := ff]> (<[mn := fm]> m) = <[mn := fm]> (<[f := ff]> m).
Proof. intros. by apply insert_insert_ne. Qed.

Lemma swapIn_at t mn f fm ff k :
  switchable t mn f fm ff -> m_state ff <> EXEC ->
  Fiber_swapIn f k t = Ok (m_ctx ff) (switched t mn f (set_ctx k fm) (set_state EXEC ff) f).
Proof.
  intros [H1 H2 H3 H4] Hst. unfold Fiber_swapIn. cbn [bind Fiber_setThis modify].
  unfold bind at 1, fiber_at. cbn [fibers set_t_fiber]. rewrite H3. cbn [deref].
  unfold bind at 1, Assert. rewrite bool_decide_true by done.
  erewrite bind_Ok; [|by apply fiber_update_at].
  cbn [bind gets]. cbn. rewrite H1.
  rewrite (swapcontext_at _ mn f fm (set_state EXEC ff)).
  - cbn. unfold switched. by rewrite insert_swap_main.
  - cbn. by rewrite lookup_insert_ne.
  - cbn. by rewrite lookup_insert_eq.
  - done.
Qed.

Lemma swapOut_at t mn f fm ff k :
  switchable t mn f fm ff ->
  Fiber_swapOut f k t = Ok (m_ctx fm) (switched t mn f fm (set_ctx k ff) mn).
Proof.
  intros [H1 H2 H3 H4]. unfold Fiber_swapOut, bind at 1, gets at 1. cbn [Fiber_setThis bind modify].
  rewrite H1. rewrite (swapcontext_at _ f mn ff fm) by done. cbn. unfold switched. do 2 f_equal.
  symmetry. apply insert_id. by rewrite lookup_insert_ne.
Qed.

(** The running fiber: what [getThis] and the assertions on it come to. *)
Lemma current_fiber {A} t f ff k (K : Z -> M Thread A) :
  t_fiber t = Some f -> fibers t !! f = Some ff ->
  bind (Fiber_getThis k) K t = K f t.
Proof.
  intros Ht Hf. unfold Fiber_getThis, bind, gets, fiber_at. rewrite Ht, Hf. done.
Qed.

Section running.
Context (t : Thread) (mn f : Z) (fm ff : Fiber) (k : point).
Context (Hsw : switchable t mn f fm ff) (Hcur : t_fiber t = Some f) (Hst : m_state ff = EXEC).

Lemma yield_prefix {A} st (K : M Thread A) :
  (g <-- fiber_at (Some f) ;;
   Assert (bool_decide (m_state g = EXEC)) ;;;
   fiber_update (Some f) (set_state st) ;;; K) t
  = K (set_fibers (<[f := set_state st ff]> (fibers t)) t).
Proof.
  destruct Hsw as [H1 H2 H3 H4]. unfold bind at 1, fiber_at. rewrite H3. cbn [deref].
  unfold bind at 1, Assert. rewrite bool_decide_true by done.
  erewrite bind_Ok; [done|]. by apply fiber_update_at.
Qed.

Lemma updated_switchable ff' :
  switchable (set_fibers (<[f := ff']> (fibers t)) t) mn f fm ff'.
Proof.
  destruct Hsw as [H1 H2 H3 H4]. split; [done| | |done]; cbn.
  - by rewrite lookup_insert_ne.
  - by rewrite lookup_insert_eq.
Qed.

Lemma switched_updated ff1 fm' ff' cur :
  switched (set_fibers (<[f := ff1]> (fibers t)) t) mn f fm' ff' cur = switched t mn f fm' ff' cur.
Proof. unfold switched. cbn. by rewrite insert_insert_eq. Qed.

Lemma yieldToHold_at :
  Fiber_yieldToHold k t = Ok (m_ctx fm) (switched t mn f fm (set_ctx k (set_state HOLD ff)) mn).
Proof.
  unfold Fiber_yieldToHold. rewrite (current_fiber t f ff) by (done || apply Hsw).
  rewrite yield_prefix. erewrite swapOut_at by apply updated_switchable.
  by rewrite switched_updated.
Qed.

Lemma yieldToReady_at :
  Fiber_yieldToReady k t = Ok (m_ctx ff) (switched t mn f (set_ctx k fm) (set_state EXEC ff) f).
Proof.
  unfold Fiber_yieldToReady. rewrite (current_fiber t f ff) by (done || apply Hsw).
  rewrite yield_prefix. erewrite swapIn_at; [|apply updated_switchable|done].
  rewrite switched_updated. by destruct ff.
Qed.

Lemma MainFunc_at threw :
  m_cb ff <> None ->
  Fiber_MainFunc threw t = Ok (m_ctx fm) (switched t mn f fm
    (set_ctx KNeverReached (if threw then set_state EXCEPT ff
                            else set_state TERM (set_cb None ff))) mn).
Proof.
  intros Hcb. unfold Fiber_MainFunc. rewrite (current_fiber t f ff) by (done || apply Hsw).
  set (ff' := if threw then set_state EXCEPT ff else set_state TERM (set_cb None ff)).
  assert (finish f threw t = Ok tt (set_fibers (<[f := ff']> (fibers t)) t)) as Hfin.
  { unfold finish, bind, fiber_at. rewrite (sw_f _ _ _ _ _ Hsw). cbn [deref].
    rewrite bool_decide_false, orb_false_r by done.
    subst ff'. destruct threw; exact (fiber_update_at t f ff _ (sw_f _ _ _ _ _ Hsw)). }
  mrun Hfin. erewrite swapOut_at by apply updated_switchable. by rewrite switched_updated.
Qed.
End running.

(** C27: hand-over.  Swapping a fiber in saves the scheduler at the call and
    runs the fiber from where it last stopped; when it yields with
    [yieldToHold] the scheduler resumes exactly there, the fiber is on hold,
    and swapping it in again resumes it right after its yield.  No other fiber
    of the thread changes. *)
Theorem fiber_handover t mn f fm ff ks kf ks' :
  switchable t mn f fm ff -> m_state ff <> EXEC ->
  exists t1 t2 t3,
    Fiber_swapIn f ks t = Ok (m_ctx ff) t1
    /\ t_fiber t1 = Some f /\ m_state <$> fibers t1 !! f = Some EXEC
    /\ Fiber_yieldToHold kf t1 = Ok ks t2
    /\ t_fiber t2 = Some mn /\ m_state <$> fibers t2 !! f = Some HOLD
    /\ Fiber_swapIn f ks' t2 = Ok kf t3
    /\ forall i, i <> f -> i <> mn -> fibers t3 !! i = fibers t !! i.
Proof.
  intros Hsw Hst. do 3 eexists. split; [by apply swapIn_at|].
  pose proof (switched_switchable _ _ _ _ _ (set_ctx ks fm) (set_state EXEC ff) f Hsw) as Hsw1.
  split; [done|]. split; [by rewrite (sw_f _ _ _ _ _ Hsw1)|].
  split; [by apply (yieldToHold_at _ _ _ _ _ _ Hsw1)|].
  set (ff2 := set_ctx kf _).
  pose proof (switched_switchable _ _ _ _ _ (set_ctx ks fm) ff2 mn Hsw1) as Hsw2.
  split; [done|]. split; [by rewrite (sw_f _ _ _ _ _ Hsw2)|].
  split; [by apply (swapIn_at _ _ _ _ _ _ Hsw2)|].
  intros i Hi Hm. cbn. by rewrite !lookup_insert_ne by done.
Qed.

(** A thread whose scheduler runs on fiber 1, with a new fiber 2. *)
Definition thread_example : Thread :=
  mkThread {[ 1 := mkFiber 1 EXEC None false 0 (KAt 0);
              2 := mkFiber 2 INIT (Some 9) true 131072 KMainFunc ]} 2 2 (Some 1) (Some 1) (Some 1).

Lemma thread_example_switchable :
  switchable thread_example 1 2 (mkFiber 1 EXEC None false 0 (KAt 0))
    (mkFiber 2 INIT (Some 9) true 131072 KMainFunc).
Proof. by split. Qed.

Lemma fiber_handover_witness :
  exists t1 t2 t3,
    Fiber_swapIn 2 (KAt 10) thread_example = Ok KMainFunc t1
    /\ Fiber_yieldToHold (KAt 20) t1 = Ok (KAt 10) t2
    /\ Fiber_swapIn 2 (KAt 11) t2 = Ok (KAt 20) t3.
Proof.
  destruct (fiber_handover thread_example 1 2 _ _ (KAt 10) (KAt 20) (KAt 11)
    thread_example_switchable ltac:(discriminate))
    as (t1 & t2 & t3 & H1 & _ & _ & H2 & _ & _ & H3 & _).
  exists t1, t2, t3. exact (conj H1 (conj H2 H3)).
Defined.

(** Note: end of a fiber.  When its function returns the fiber is [TERM] without
    a function, when it throws the fiber is [EXCEPT]; either way the scheduler
    resumes.  The fiber can be given a new function and starts afresh, running
    it again without that fails the assertion behind the switch, and it can be
    destroyed exactly when it did not throw. *)
Theorem fiber_end t mn f fm ff threw ks cb :
  switchable t mn f fm ff -> t_fiber t = Some f -> m_state ff = EXEC ->
  m_cb ff <> None -> m_stack ff = true ->
  exists t2,
    Fiber_MainFunc threw t = Ok (m_ctx fm) t2
    /\ m_state <$> fibers t2 !! f = Some (if threw then EXCEPT else TERM)
    /\ (exists t3, Fiber_swapIn f ks t2 = Ok KNeverReached t3)
    /\ (exists t3 t4, Fiber_reset f cb t2 = Ok tt t3
          /\ m_state <$> fibers t3 !! f = Some INIT /\ m_cb <$> fibers t3 !! f = Some cb
          /\ Fiber_swapIn f ks t3 = Ok KMainFunc t4)
    /\ (if threw then Fiber_destroy f t2 = Abort
        else exists t3, Fiber_destroy f t2 = Ok tt t3 /\ fibers t3 !! f = None).
Proof.
  intros Hsw Hcur Hst Hcb Hstack. eexists.
  split; [by apply (MainFunc_at _ _ _ _ _ Hsw)|]. set (ff2 := set_ctx _ _).
  pose proof (switched_switchable _ _ _ _ _ fm ff2 mn Hsw) as Hsw2.
  set (t2 := switched _ _ _ _ _ _) in *. pose proof (sw_f _ _ _ _ _ Hsw2) as Hf2.
  assert (m_state ff2 = if threw then EXCEPT else TERM) as Hst2 by (by destruct threw).
  assert (m_ctx ff2 = KNeverReached) as Hctx2 by done.
  assert (m_stack ff2 = true) as Hstack2 by (by destruct threw).
  clearbody t2 ff2. split; [rewrite Hf2; cbn; by rewrite Hst2|].
  assert (Hat : fiber_at (Some f) t2 = Ok ff2 t2) by (cbn; by rewrite Hf2).
  split; [|split].
  - eexists. rewrite (swapIn_at _ _ _ _ _ _ Hsw2) by (rewrite Hst2; by destruct threw).
    by rewrite Hctx2.
  - pose proof (updated_switchable _ _ _ _ _ Hsw2 (set_ctx KMainFunc (set_state INIT (set_cb cb ff2))))
      as Hsw3.
    eexists (set_fibers (<[f := set_ctx KMainFunc (set_state INIT (set_cb cb ff2))]> (fibers t2)) t2), _.
    split.
    + unfold Fiber_reset. mrun Hat. unfold bind at 1, Assert. rewrite Hstack2.
      unfold bind at 1. rewrite bool_decide_true by (rewrite Hst2; destruct threw; auto).
      exact (fiber_update_at t2 f ff2 _ Hf2).
    + rewrite (sw_f _ _ _ _ _ Hsw3). split; [done|]. split; [done|].
      by apply (swapIn_at _ _ _ _ _ _ Hsw3).
  - unfold Fiber_destroy. rewrite (bind_Ok _ _ _ _ _ Hat). cbn [bind modify].
    rewrite Hstack2, Hst2. destruct threw; [done|]. eexists. split; [done|].
    cbn. apply lookup_delete_eq.
Qed.

Definition running_example : Thread :=
  switched thread_example 1 2 (mkFiber 1 EXEC None false 0 (KAt 10))
    (mkFiber 2 EXEC (Some 9) true 131072 KMainFunc) 2.

Lemma fiber_end_witness :
  exists t2, Fiber_MainFunc true running_example = Ok (KAt 10) t2
    /\ m_state <$> fibers t2 !! 2 = Some EXCEPT /\ Fiber_destroy 2 t2 = Abort.
Proof.
  destruct (fiber_end running_example 1 2 _ _ true (KAt 11) None
    (switched_switchable _ _ _ _ _ (mkFiber 1 EXEC None false 0 (KAt 10))
      (mkFiber 2 EXEC (Some 9) true 131072 KMainFunc) 2 thread_example_switchable)
    eq_refl eq_refl ltac:(discriminate) eq_refl) as (t2 & H1 & H2 & _ & _ & H3).
  exists t2. exact (conj H1 (conj H2 H3)).
Defined.

(** Note: [yieldToReady] calls [swapIn] on the running fiber: instead of the
    scheduler, the fiber runs again from the point it was last resumed at, still
    [EXEC], and the scheduler's saved point is overwritten with the yield, so
    that no fiber of the thread can resume the scheduler where it stopped. *)
Theorem yieldToReady_loses_scheduler t mn f fm ff ks kf :
  switchable t mn f fm ff -> m_state ff <> EXEC ->
  (forall i g, fibers t !! i = Some g -> m_ctx g <> ks) -> kf <> ks ->
  exists t1 t2,
    Fiber_swapIn f ks t = Ok (m_ctx ff) t1
    /\ Fiber_yieldToReady kf t1 = Ok (m_ctx ff) t2
    /\ t_fiber t2 = Some f /\ m_state <$> fibers t2 !! f = Some EXEC
    /\ m_ctx <$> fibers t2 !! mn = Some kf
    /\ forall i g, fibers t2 !! i = Some g -> m_ctx g <> ks.
Proof.
  intros Hsw Hst Hfresh Hk. do 2 eexists. split; [by apply swapIn_at|].
  pose proof (switched_switchable _ _ _ _ _ (set_ctx ks fm) (set_state EXEC ff) f Hsw) as Hsw1.
  split; [by apply (yieldToReady_at _ _ _ _ _ _ Hsw1)|].
  pose proof (switched_switchable _ _ _ _ _ (set_ctx kf (set_ctx ks fm))
    (set_state EXEC (set_state EXEC ff)) f Hsw1) as Hsw2.
  split; [done|]. split; [by rewrite (sw_f _ _ _ _ _ Hsw2)|].
  split; [by rewrite (sw_mn _ _ _ _ _ Hsw2)|].
  intros i g. destruct (decide (i = mn)) as [->|].
  { rewrite (sw_mn _ _ _ _ _ Hsw2). by intros [= <-]. }
  destruct (decide (i = f)) as [->|].
  - rewrite (sw_f _ _ _ _ _ Hsw2). intros [= <-]. cbn. by apply (Hfresh f), Hsw.
  - cbn. rewrite !lookup_insert_ne by done. apply Hfresh.
Qed.

Lemma yieldToReady_loses_scheduler_witness :
  exists t1 t2, Fiber_swapIn 2 (KAt 10) thread_example = Ok KMainFunc t1
    /\ Fiber_yieldToReady (KAt 20) t1 = Ok KMainFunc t2
    /\ forall i g, fibers t2 !! i = Some g -> m_ctx g <> KAt 10.
Proof.
  destruct (yieldToReady_loses_scheduler thread_example 1 2 _ _ (KAt 10) (KAt 20)
    thread_example_switchable ltac:(discriminate)) as (t1 & t2 & H1 & H2 & _ & _ & _ & H3).
  - intros i g. cbn. rewrite lookup_insert_Some, lookup_singleton_Some.
    by intros [[<- <-]|[_ [<- <-]]].
  - discriminate.
  - exists t1, t2. exact (conj H1 (conj H2 H3)).
Defined.
