(* ===== verification/LoadCounter.v ===== *)
(** * The load counter (src/src/fiber/scheduler.h, scheduler.cpp, class [LoadCounter])

    The window of sleep and work periods a scheduler keeps, and the load in
    percent computed from it.  Each [getTimeUsec()] is an argument. *)
From S2P Require Import Prelude.

(** [struct TimeRecord] *)
Record TimeRecord := mkTimeRecord { sleep : bool; duration : Z }.

Record LoadCounter := mkLoadCounter {
  m_sleeping : bool;
  m_max_size : Z;
  m_last_wake : Z;
  m_last_sleep : Z;
  m_records : list TimeRecord
}.

(** [LoadCounter::LoadCounter(size_t max_size)] *)
Definition new_LoadCounter (now max_size : Z) : LoadCounter :=
  mkLoadCounter true max_size now now [].

(** [if (m_records.size() > m_max_size) m_records.pop_front();] *)
Definition trim (max_size : Z) (l : list TimeRecord) : list TimeRecord :=
  if max_size <? Z.of_nat (length l) then tail l else l.

(** [void LoadCounter::startSleep()] *)
Definition LoadCounter_startSleep (current_time : Z) (c : LoadCounter) : LoadCounter :=
  let run_time := u64 (current_time - m_last_wake c) in
  mkLoadCounter true (m_max_size c) (m_last_wake c) current_time
    (trim (m_max_size c) (m_records c ++ [mkTimeRecord false run_time])).

(** [void LoadCounter::startWork()] *)
Definition LoadCounter_startWork (current_time : Z) (c : LoadCounter) : LoadCounter :=
  let sleep_time := u64 (current_time - m_last_sleep c) in
  mkLoadCounter false (m_max_size c) current_time (m_last_sleep c)
    (trim (m_max_size c) (m_records c ++ [mkTimeRecord true sleep_time])).

(** The loop of [getLoad]: [totalSleepTime] and [totalRunTime]. *)
Definition load_totals (l : list TimeRecord) : Z * Z :=
  foldl (fun acc i => let '(s, r) := acc in
    if sleep i then (u64 (s + duration i), r) else (s, u64 (r + duration i))) (0, 0) l.

(** [int LoadCounter::getLoad()] *)
Definition LoadCounter_getLoad (now : Z) (c : LoadCounter) : Z :=
  match m_records c with
  | [] => 0
  | _ =>
      let '(s, r) := load_totals (m_records c) in
      let '(s, r) := if m_sleeping c then (u64 (s + u64 (now - m_last_sleep c)), r)
                     else (s, u64 (r + u64 (now - m_last_wake c))) in
      let totalTime := u64 (s + r) in
      if totalTime =? 0 then 0 else i32 (u64 (100 * r) / totalTime)
  end.

(** ** Facts *)

Definition durations (b : bool) (l : list TimeRecord) : Z :=
  foldr (fun i acc => (if Bool.eqb (sleep i) b then duration i else 0) + acc) 0 l.

Definition nonneg (l : list TimeRecord) : Prop := Forall (fun i => 0 <= duration i) l.

Lemma durations_nonneg b l : nonneg l -> 0 <= durations b l.
Proof.
  unfold durations. induction 1 as [|i l Hi Hl IH]; cbn; [lia|]. destruct (Bool.eqb _ _); lia.
Qed.

Lemma load_totals_exact l s r :
  nonneg l -> 0 <= s -> 0 <= r -> s + durations true l < 2 ^ 64 -> r + durations false l < 2 ^ 64 ->
  foldl (fun acc i => let '(s, r) := acc in
    if sleep i then (u64 (s + duration i), r) else (s, u64 (r + duration i))) (s, r) l
  = (s + durations true l, r + durations false l).
Proof.
  intros Hl. revert s r. induction Hl as [|i l Hi Hl IH]; intros s r Hs Hr Hs2 Hr2.
  { cbn. f_equal; lia. }
  pose proof (durations_nonneg true l Hl). pose proof (durations_nonneg false l Hl).
  cbn [foldl durations foldr] in *. fold (durations true l) in *. fold (durations false l) in *.
  destruct (sleep i); cbn [Bool.eqb] in *.
  - rewrite (wrap_id 64) by lia. rewrite IH by lia. f_equal; lia.
  - rewrite (wrap_id 64) by lia. rewrite IH by lia. f_equal; lia.
Qed.

Lemma trim_length max l x :
  0 <= max -> Z.of_nat (length l) <= max -> Z.of_nat (length (trim max (l ++ [x]))) <= max.
Proof.
  intros Hm Hl. unfold trim. rewrite length_app. cbn [length].
  destruct (Z.ltb_spec max (Z.of_nat (length l + 1))) as [Hgt|Hle]; [|rewrite length_app; cbn; lia].
  destruct l as [|y l]; cbn in *; [lia|]. rewrite length_app. cbn. lia.
Qed.

Inductive lc_op := LSleep (now : Z) | LWork (now : Z).
Definition lc_exec (o : lc_op) (c : LoadCounter) : LoadCounter :=
  match o with
  | LSleep now => LoadCounter_startSleep now c
  | LWork now => LoadCounter_startWork now c
  end.

Lemma lc_exec_window o c :
  0 <= m_max_size c -> Z.of_nat (length (m_records c)) <= m_max_size c -> nonneg (m_records c) ->
  m_max_size (lc_exec o c) = m_max_size c
  /\ Z.of_nat (length (m_records (lc_exec o c))) <= m_max_size c /\ nonneg (m_records (lc_exec o c)).
Proof.
  intros Hm Hl Hn. destruct o; cbn; (split_and!; [done|by apply trim_length|]);
    unfold trim; (assert (nonneg (m_records c ++ [mkTimeRecord false 0])) as _
      by (apply Forall_app; split; [done|by repeat constructor]));
    match goal with |- nonneg (if _ then tail ?l else _) =>
      assert (nonneg l) as Hnl by (apply Forall_app; split; [done|];
        constructor; [|done]; cbn; apply wrap_range; lia) end;
    destruct (_ <? _); try done; destruct Hnl; (constructor || done).
Qed.

(** The time [getLoad] adds for the current period. *)
Definition since (now : Z) (b : bool) (c : LoadCounter) : Z :=
  if Bool.eqb (m_sleeping c) b then u64 (now - (if b then m_last_sleep c else m_last_wake c)) else 0.

(** Note: over any run of [startSleep] and [startWork] the window never holds
    more than its maximum of records, and the load is the integer percentage of
    work time in the window and the current period, between 0 and 100, as long
    as the total time in microseconds stays below 2^64 / 100. *)
Theorem load_percentage os now c0 max :
  0 <= max ->
  let c := foldl (fun c o => lc_exec o c) (new_LoadCounter c0 max) os in
  Z.of_nat (length (m_records c)) <= max
  /\ (let s := durations true (m_records c) + since now true c in
      let r := durations false (m_records c) + since now false c in
      100 * (s + r) < 2 ^ 64 ->
      LoadCounter_getLoad now c
        = (if bool_decide (m_records c = []) || (s + r =? 0) then 0 else 100 * r / (s + r))
      /\ 0 <= LoadCounter_getLoad now c <= 100).
Proof.
  intros Hmax c.
  assert (m_max_size c = max /\ Z.of_nat (length (m_records c)) <= max /\ nonneg (m_records c))
    as (_ & Hlen & Hn).
  { subst c. induction os as [|o os IH] using rev_ind; [cbn; split_and!; [done|lia|constructor]|].
    rewrite foldl_app. cbn. destruct IH as (Hm & Hl & Hn).
    set (c := foldl _ _ os) in *. clearbody c. subst max. by apply lc_exec_window. }
  clearbody c. split; [done|]. intros s r Hlim.
  pose proof (durations_nonneg true _ Hn). pose proof (durations_nonneg false _ Hn).
  assert (0 <= since now true c) by (unfold since; destruct (Bool.eqb _ _); [apply wrap_range|]; lia).
  assert (0 <= since now false c) by (unfold since; destruct (Bool.eqb _ _); [apply wrap_range|]; lia).
  assert (0 <= s /\ 0 <= r) as [Hs Hr] by (subst s r; lia).
  assert (LoadCounter_getLoad now c
    = if bool_decide (m_records c = []) || (s + r =? 0) then 0 else 100 * r / (s + r)) as ->.
  - unfold LoadCounter_getLoad, load_totals.
    rewrite load_totals_exact by (done || lia). rewrite !Z.add_0_l.
    destruct (m_records c) as [|x l] eqn:El; [done|]. rewrite <- El in *.
    rewrite bool_decide_false by (rewrite El; done). cbn [orb].
    replace (if m_sleeping c then _ else _) with (s, r).
    + rewrite (wrap_id 64 (s + r)) by lia. destruct (Z.eqb_spec (s + r) 0); [done|].
      rewrite (wrap_id 64 (100 * r)) by lia.
      assert (0 <= 100 * r / (s + r) <= 100).
      { split; [apply Z.div_pos; lia|]. apply Z.div_le_upper_bound; lia. }
      apply swrap_id; lia.
    + subst s r. rewrite El in *. unfold since in *. destruct (m_sleeping c); cbn [Bool.eqb] in *;
        rewrite (wrap_id 64 (durations _ _ + _)) by lia; f_equal; lia.
  - split; [done|]. destruct (_ || _) eqn:E; [lia|].
    apply orb_false_iff in E as [_ E%Z.eqb_neq].
    split; [apply Z.div_pos; lia|]. apply Z.div_le_upper_bound; lia.
Qed.

Lemma load_percentage_witness :
  let c := foldl (fun c o => lc_exec o c) (new_LoadCounter 0 2) [LWork 10; LSleep 40; LWork 50] in
  Z.of_nat (length (m_records c)) <= 2 /\ LoadCounter_getLoad 60 c = 80.
Proof.
  destruct (load_percentage [LWork 10; LSleep 40; LWork 50] 60 0 2 ltac:(lia)) as [H1 H2].
  split; [exact H1|]. destruct (H2 eq_refl) as [H3 _]. exact H3.
Defined.
