(* ===== verification/Scheduler.v ===== *)
(** * The scheduler (src/src/fiber/scheduler.h, scheduler.cpp; [FiberTask] of fiber.h)

    The shared state of a [Scheduler], the states of the fibers it handles, and
    for each thread that executes [Scheduler::run] the point it is at.  The loop
    body of [run] is cut where other threads can come in between: the scan under
    [m_fibers_mtx], the dispatch up to the switch into a fiber, the switch back
    with the counter update, and the re-scheduling.  What a fiber does while it
    runs is the environment's: it comes back with a state.  A counter update is
    one step.  [schedule] holds [m_threads_mtx], the scan [m_fibers_mtx]: a call
    of [schedule] has a beginning and an end, and a scan in between is a data
    race on [m_fibers].  [run] drops the pointer to the fiber of the last turn
    before it scans; a fiber nobody points to any more is destroyed ([~Fiber]). *)
From S2P Require Import Prelude.
From S2P Require Fiber.
Import Fiber (State, INIT, HOLD, EXEC, TERM, READY, EXCEPT).
#[export] Existing Instance Fiber.State_eq_dec.

(** [struct FiberTask]; a fiber or a callback is named by a number, null is
    [None]. *)
Record FiberTask := mkFiberTask {
  fiber : option Z;
  cb : option Z;
  thread_id : Z
}.

#[export] Instance FiberTask_eq_dec : EqDecision FiberTask.
Proof. solve_decision. Defined.

(** [FiberTask::FiberTask()], also the effect of [reset()] *)
Definition FiberTask_empty : FiberTask := mkFiberTask None None (-1).
(** What [schedule] is given: a fiber or a callback. *)
Inductive work := WFiber (p : option Z) | WCb (p : option Z).
(** [FiberTask(Fiber::Ptr, int)], [FiberTask(std::function<void()>, int)] *)
Definition FiberTask_of (w : work) (thread : Z) : FiberTask :=
  match w with
  | WFiber p => mkFiberTask p None thread
  | WCb p => mkFiberTask None p thread
  end.
(** [FiberTask(Fiber::Ptr*, int)], [FiberTask(std::function<void()>*, int)]: the
    task and what the swap leaves behind the pointer. *)
Definition FiberTask_swap (w : work) (thread : Z) : FiberTask * work :=
  (FiberTask_of w thread, match w with WFiber _ => WFiber None | WCb _ => WCb None end).

Definition is_some {A} (o : option A) : bool := match o with Some _ => true | None => false end.
(** [item.cb || item.fiber] *)
Definition valid_task (t : FiberTask) : bool := is_some (cb t) || is_some (fiber t).

Record Scheduler := mkScheduler {
  m_running : bool;
  m_autoStop : bool;
  m_threadNum : Z;
  m_idelThreadNum : Z;
  m_activeThreadNum : Z;
  m_rootThread : Z;
  m_mainFiber : option Z;
  m_threadIds : list Z;
  m_threads : list Z;       (* the ids of the threads *)
  m_fibers : list FiberTask;
  tickles : nat             (* calls of tickle() *)
}.

Definition set_running v s := mkScheduler v (m_autoStop s) (m_threadNum s) (m_idelThreadNum s) (m_activeThreadNum s) (m_rootThread s) (m_mainFiber s) (m_threadIds s) (m_threads s) (m_fibers s) (tickles s).
Definition set_autoStop v s := mkScheduler (m_running s) v (m_threadNum s) (m_idelThreadNum s) (m_activeThreadNum s) (m_rootThread s) (m_mainFiber s) (m_threadIds s) (m_threads s) (m_fibers s) (tickles s).
Definition set_idle v s := mkScheduler (m_running s) (m_autoStop s) (m_threadNum s) v (m_activeThreadNum s) (m_rootThread s) (m_mainFiber s) (m_threadIds s) (m_threads s) (m_fibers s) (tickles s).
Definition set_active v s := mkScheduler (m_running s) (m_autoStop s) (m_threadNum s) (m_idelThreadNum s) v (m_rootThread s) (m_mainFiber s) (m_threadIds s) (m_threads s) (m_fibers s) (tickles s).
Definition set_threads ids v s := mkScheduler (m_running s) (m_autoStop s) (m_threadNum s) (m_idelThreadNum s) (m_activeThreadNum s) (m_rootThread s) (m_mainFiber s) ids v (m_fibers s) (tickles s).
Definition set_queue v s := mkScheduler (m_running s) (m_autoStop s) (m_threadNum s) (m_idelThreadNum s) (m_activeThreadNum s) (m_rootThread s) (m_mainFiber s) (m_threadIds s) (m_threads s) v (tickles s).
(** [virtual void tickle()]: the base class only logs. *)
Definition Scheduler_tickle s := mkScheduler (m_running s) (m_autoStop s) (m_threadNum s) (m_idelThreadNum s) (m_activeThreadNum s) (m_rootThread s) (m_mainFiber s) (m_threadIds s) (m_threads s) (m_fibers s) (S (tickles s)).

(** [Scheduler::Scheduler(size_t threads, bool use_caller, ...)] on thread
    [self]; [main] is the id of the new scheduling fiber. *)
Definition new_Scheduler (threads : Z) (use_caller : bool) (self main : Z) : M unit Scheduler :=
  Assert (0 <? threads) ;;;
  if use_caller
  then mreturn (mkScheduler false false (u64 (threads - 1)) 0 0 self (Some main) [self] [] [] 0)
  else mreturn (mkScheduler false false threads 0 0 (-1) None [] [] [] 0).

(** [bool scheduleNonLock(T cb, int thread)] *)
Definition Scheduler_scheduleNonLock (item : FiberTask) (s : Scheduler) : bool * Scheduler :=
  let need_tickle := match m_fibers s with [] => true | _ => false end in
  (need_tickle, if valid_task item then set_queue (m_fibers s ++ [item]) s else s).

(** [template<class T> void schedule(T cb, int thread)] *)
Definition Scheduler_schedule (w : work) (thread : Z) (s : Scheduler) : Scheduler :=
  let '(need_tickle, s) := Scheduler_scheduleNonLock (FiberTask_of w thread) s in
  if need_tickle then Scheduler_tickle s else s.

(** The same template on a pointer, [schedule(&x)]: also what is left in [x]. *)
Definition Scheduler_schedule_ptr (w : work) (thread : Z) (s : Scheduler) : work * Scheduler :=
  let '(item, w') := FiberTask_swap w thread in
  let '(need_tickle, s) := Scheduler_scheduleNonLock item s in
  (w', if need_tickle then Scheduler_tickle s else s).

(** [while(begin != end) { need_tickle = need_tickle | scheduleNonLock(&( *begin), -1); ++begin; }] *)
Fixpoint schedule_loop (ws : list work) (need_tickle : bool) (s : Scheduler)
  : bool * list work * Scheduler :=
  match ws with
  | [] => (need_tickle, [], s)
  | w :: ws =>
      let '(item, w') := FiberTask_swap w (-1) in
      let '(b, s) := Scheduler_scheduleNonLock item s in
      let '(need_tickle, ws', s) := schedule_loop ws (need_tickle || b) s in
      (need_tickle, w' :: ws', s)
  end.

(** [template<class Iterator> void schedule(Iterator begin, Iterator end)]: the
    emptied range and the scheduler. *)
Definition Scheduler_schedule_range (ws : list work) (s : Scheduler) : list work * Scheduler :=
  let '(need_tickle, ws', s) := schedule_loop ws false s in
  (ws', if need_tickle then Scheduler_tickle s else s).

(** [virtual bool stopping()] *)
Definition Scheduler_stopping (s : Scheduler) : bool :=
  m_autoStop s && negb (m_running s)
  && match m_fibers s with [] => true | _ => false end && (m_activeThreadNum s =? 0).

(** [void start()]; [ids] are the ids of the threads it creates. *)
Definition Scheduler_start (ids : list Z) (s : Scheduler) : Scheduler :=
  if m_running s then s else
  let ids := take (Z.to_nat (m_threadNum s)) ids in
  set_threads (m_threadIds s ++ ids) ids (set_running true s).

(** [void stop()] on a thread whose [t_scheduler] is this scheduler or not
    ([mine]); [main_state] is the state of [m_mainFiber], [join] what the worker
    threads do until they have ended.  The result is whether the scheduling
    fiber is called in the end. *)
Definition Scheduler_stop (mine : bool) (main_state : State) (join : Scheduler -> Scheduler)
  : M Scheduler bool :=
  modify (set_autoStop true) ;;;
  s <-- get ;;
  early <-- (if is_some (m_mainFiber s)
                && bool_decide (main_state = TERM \/ main_state = INIT)
                && (m_threadNum s =? 0)
             then modify (set_running false) ;;; gets Scheduler_stopping
             else mreturn false) ;;
  if (early : bool) then mreturn false else
  s <-- get ;;
  (if negb (m_rootThread s =? -1) then Assert mine else Assert (negb mine)) ;;;
  modify (set_running false) ;;;
  modify (fun s => join (set_threads (m_threadIds s) [] s)) ;;;
  s <-- get ;;
  (if is_some (m_mainFiber s) then modify Scheduler_tickle else mreturn tt) ;;;
  done <-- gets Scheduler_stopping ;;
  if (done : bool) then mreturn false else
  match m_mainFiber s with
  | Some _ => mreturn true
  | None => ub
  end.

(** [~Scheduler()] *)
Definition Scheduler_destroy (mine : bool) (main_state : State) (join : Scheduler -> Scheduler)
  : M Scheduler bool :=
  s <-- get ;;
  Assert (negb (m_running s)) ;;;
  if negb (m_autoStop s) then Scheduler_stop mine main_state join else mreturn false.

(** ** The loop of [run] *)

Inductive phase :=
| PTop                                        (* before the scan *)
| PDispatch (ft : FiberTask) (isActive : bool)
| PFiber (f : Z) (ft : FiberTask)             (* inside ft.fiber->swapIn() *)
| PFiberAgain (f : Z) (ft : FiberTask)        (* before schedule(ft.fiber, ft.thread_id) *)
| PCb (thread : Z)                            (* inside cb_fiber->swapIn() *)
| PCbAgain (thread : Z)                       (* before schedule(cb_fiber, _thread) *)
| PIdle                                       (* inside idle_fiber->swapIn() *)
| PDone.                                      (* the loop has ended *)

(** [w_held]: the pointer of the last turn, dropped before the next scan. *)
Record worker := mkWorker {
  w_phase : phase;
  w_cb_fiber : option Z;
  w_idle : Z;
  w_held : option Z
}.

(** Who is inside [schedule], holding [m_threads_mtx]: a thread of [run] that
    puts its fiber back, or a caller with its arguments. *)
Inductive appender := AWorker (tid : Z) | ACaller (w : work) (thread : Z).

Record Sys := mkSys {
  sched : Scheduler;
  states : gmap Z State;     (* the fibers that exist *)
  workers : gmap Z worker;   (* by thread id *)
  next_fiber : Z;
  others : gset Z;           (* the fibers pointed to from outside the scheduler *)
  in_schedule : option appender
}.

Definition set_sched v s := mkSys v (states s) (workers s) (next_fiber s) (others s) (in_schedule s).
Definition set_states v s := mkSys (sched s) v (workers s) (next_fiber s) (others s) (in_schedule s).
Definition set_fstate f v s := set_states (<[f := v]> (states s)) s.
Definition set_worker t v s := mkSys (sched s) (states s) (<[t := v]> (workers s)) (next_fiber s) (others s) (in_schedule s).
Definition set_others v s := mkSys (sched s) (states s) (workers s) (next_fiber s) v (in_schedule s).
Definition set_in_schedule v s := mkSys (sched s) (states s) (workers s) (next_fiber s) (others s) v.

Definition on_sched (g : Scheduler -> Scheduler) : M Sys unit :=
  modify (fun s => set_sched (g (sched s)) s).
Definition fiber_state (f : Z) : M Sys State := fun s => deref (states s !! f) s.
Definition goto (t : Z) (w : worker) (p : phase) : M Sys unit :=
  modify (set_worker t (mkWorker p (w_cb_fiber w) (w_idle w) (w_held w))).
(** Back to the top of the loop, with the pointer to [f] still to be dropped. *)
Definition goto_top (t : Z) (w : worker) (f : Z) : M Sys unit :=
  modify (set_worker t (mkWorker PTop (w_cb_fiber w) (w_idle w) (Some f))).

(** [new Fiber(...)] *)
Definition alloc_fiber : M Sys Z := fun s =>
  Ok (next_fiber s) (mkSys (sched s) (<[next_fiber s := INIT]> (states s)) (workers s)
                       (next_fiber s + 1) (others s) (in_schedule s)).

Definition opt_list {A} (o : option A) : list A := match o with Some a => [a] | None => [] end.

(** The fibers a thread works with: its idle fiber, its callback fiber, and the
    fiber of the task it holds. *)
Definition w_owned (_ : Z) (w : worker) : list Z :=
  w_idle w :: opt_list (w_cb_fiber w) ++
  match w_phase w with
  | PDispatch ft _ => opt_list (fiber ft)
  | PFiber f _ | PFiberAgain f _ => [f]
  | _ => []
  end.

Definition q_owned (q : list FiberTask) : list Z := mjoin ((fun t => opt_list (fiber t)) <$> q).
Arguments q_owned : simpl never.

(** The task in the hands of a caller inside [schedule] *)
Definition in_flight (o : option appender) : list FiberTask :=
  match o with
  | Some (ACaller w thread) =>
      if valid_task (FiberTask_of w thread) then [FiberTask_of w thread] else []
  | _ => []
  end.
Definition queued (s : Sys) : list FiberTask := m_fibers (sched s) ++ in_flight (in_schedule s).

(** [MainFunc] keeps a pointer to its own fiber on the fiber's stack, from its
    first line until the function has returned or thrown. *)
Definition on_own_stack (o : option State) : Prop :=
  match o with Some (EXEC | HOLD | READY) => True | _ => False end.
#[export] Instance on_own_stack_dec o : Decision (on_own_stack o).
Proof. unfold on_own_stack. destruct o as [[]|]; apply _. Defined.

(** Some [Fiber::Ptr] points to [f]. *)
Definition pointed (f : Z) (s : Sys) : Prop :=
  f ∈ others s \/ f ∈ q_owned (queued s)
  \/ map_Exists (fun t w => f ∈ w_owned t w \/ w_held w = Some f) (workers s)
  \/ on_own_stack (states s !! f).
#[export] Instance pointed_dec f s : Decision (pointed f s) := _.

(** A [Fiber::Ptr] to [f] has been dropped: the last one destroys the fiber,
    [Fiber::~Fiber]. *)
Definition drop_pointer (f : Z) : M Sys unit :=
  s <-- get ;;
  if decide (pointed f s) then mreturn tt else
  st <-- fiber_state f ;;
  Assert (bool_decide (st = INIT \/ st = TERM)) ;;;
  modify (fun s => set_states (delete f (states s)) s).

(** [swapIn()] up to the switch; a finished fiber would run into the failing
    assertion at its end. *)
Definition fiber_enter (f : Z) : M Sys unit :=
  st <-- fiber_state f ;;
  Assert (bool_decide (st <> EXEC)) ;;;
  Assert (bool_decide (st <> TERM /\ st <> EXCEPT)) ;;;
  modify (set_fstate f EXEC).

(** The scan of [m_fibers] by thread [tid]: whether a task of another thread was
    passed, the task taken, and the list after [erase].  The outer [None] is the
    failing [Assert((it->fiber || it->cb))]. *)
Fixpoint scan (tid : Z) (st : gmap Z State) (q : list FiberTask)
  : option (bool * option FiberTask * list FiberTask) :=
  match q with
  | [] => Some (false, None, [])
  | it :: q =>
      if negb (thread_id it =? -1) && negb (thread_id it =? tid) then
        '(_, ft, q') ← scan tid st q; Some (true, ft, it :: q')
      else if negb (valid_task it) then None
      else if (match fiber it with Some f => bool_decide (st !! f = Some EXEC) | None => false end) then
        '(n, ft, q') ← scan tid st q; Some (n, ft, it :: q')
      else Some (false, Some it, q)
  end.

(** [ft.reset()], line 203, or [cb_fiber.reset()] before it. *)
Definition release_held (tid : Z) (w : worker) : M Sys unit :=
  match w_held w with
  | Some f =>
      modify (set_worker tid (mkWorker (w_phase w) (w_cb_fiber w) (w_idle w) None)) ;;;
      drop_pointer f
  | None => mreturn tt
  end.

(** Lines 204-234; [stale] is the outcome of comparing the erased iterator with
    [end()] after a task was taken.  While somebody is inside [schedule] the
    scan reads and erases under another mutex than the one held there. *)
Definition run_select (tid : Z) (stale : bool) (w : worker) : M Sys unit :=
  s <-- get ;;
  if is_some (in_schedule s) then ub else
  match scan tid (states s) (m_fibers (sched s)) with
  | None => fun _ => Abort
  | Some (passed, ft, q) =>
      on_sched (set_queue q) ;;;
      (if is_some ft then on_sched (fun s => set_active (u64 (m_activeThreadNum s + 1)) s)
       else mreturn tt) ;;;
      (if passed || (if is_some ft then stale else true)
       then on_sched Scheduler_tickle else mreturn tt) ;;;
      modify (set_worker tid (mkWorker (PDispatch (default FiberTask_empty ft) (is_some ft))
                                (w_cb_fiber w) (w_idle w) None))
  end.

(** Lines 203-234 *)
Definition run_scan (tid : Z) (stale : bool) (w : worker) : M Sys unit :=
  release_held tid w ;;;
  run_select tid stale w.

Definition decr_active : M Sys unit :=
  on_sched (fun s => set_active (u64 (m_activeThreadNum s - 1)) s).

Definition finished (st : State) : bool := bool_decide (st = TERM \/ st = EXCEPT).

(** Lines 236-238, 250-258 and 276-288: up to the switch into a fiber. *)
Definition run_dispatch (tid : Z) (w : worker) (ft : FiberTask) (isActive : bool) : M Sys unit :=
  ready <-- (match fiber ft with
             | Some f => st <-- fiber_state f ;; mreturn (if finished st then None else Some f)
             | None => mreturn None
             end) ;;
  match ready, cb ft with
  | Some f, _ =>
      fiber_enter f ;;;
      goto tid w (PFiber f ft)
  | None, Some _ =>
      g <-- (match w_cb_fiber w with
             | Some g =>   (* cb_fiber->reset(ft.cb) *)
                 st <-- fiber_state g ;;
                 Assert (bool_decide (st = INIT \/ st = TERM \/ st = EXCEPT)) ;;;
                 modify (set_fstate g INIT) ;;;
                 mreturn g
             | None => alloc_fiber
             end) ;;
      fiber_enter g ;;;
      modify (set_worker tid (mkWorker (PCb (thread_id ft)) (Some g) (w_idle w) (w_held w)))
  | None, None =>
      if isActive then
        decr_active ;;;
        match fiber ft with Some f => goto_top tid w f | None => goto tid w PTop end
      else
      st <-- fiber_state (w_idle w) ;;
      if bool_decide (st = TERM) then goto tid w PDone else
      on_sched (fun s => set_idle (u64 (m_idelThreadNum s + 1)) s) ;;;
      fiber_enter (w_idle w) ;;;
      goto tid w PIdle
  end.

(** Lines 239-248: the fiber comes back in state [st]. *)
Definition run_fiber_back (tid : Z) (w : worker) (f : Z) (ft : FiberTask) (st : State) : M Sys unit :=
  decr_active ;;;
  if bool_decide (st = READY) then modify (set_fstate f st) ;;; goto tid w (PFiberAgain f ft)
  else modify (set_fstate f (if finished st then st else HOLD)) ;;; goto_top tid w f.

(** A thread of [run] calls [schedule(w, thread)]: it waits for [m_threads_mtx],
    takes it, and at its next step has appended the task and goes on with
    [next]. *)
Definition call_schedule (tid : Z) (x : work) (thread : Z) (next : M Sys unit) : M Sys unit :=
  s <-- get ;;
  match in_schedule s with
  | None => modify (set_in_schedule (Some (AWorker tid)))
  | Some (AWorker t) =>
      if t =? tid then
        on_sched (Scheduler_schedule x thread) ;;;
        modify (set_in_schedule None) ;;;
        next
      else mreturn tt
  | Some (ACaller _ _) => mreturn tt
  end.

(** Line 241 *)
Definition run_fiber_again (tid : Z) (w : worker) (f : Z) (ft : FiberTask) : M Sys unit :=
  call_schedule tid (WFiber (Some f)) (thread_id ft) (goto_top tid w f).

(** Lines 259-274: [cb_fiber] comes back in state [st]; a finished one is reset
    and kept for the next callback. *)
Definition run_cb_back (tid : Z) (w : worker) (thread : Z) (st : State) : M Sys unit :=
  g <-- deref (w_cb_fiber w) ;;
  decr_active ;;;
  if bool_decide (st = READY) then modify (set_fstate g st) ;;; goto tid w (PCbAgain thread)
  else if finished st then
    modify (set_fstate g INIT) ;;; goto tid w PTop
  else
    modify (set_fstate g HOLD) ;;;
    modify (set_worker tid (mkWorker PTop None (w_idle w) (Some g))).

(** Lines 261-262 *)
Definition run_cb_again (tid : Z) (w : worker) (thread : Z) : M Sys unit :=
  g <-- deref (w_cb_fiber w) ;;
  call_schedule tid (WFiber (Some g)) thread
    (modify (set_worker tid (mkWorker PTop None (w_idle w) (Some g)))).

(** Lines 290-294: [idle] comes back in state [st]. *)
Definition run_idle_back (tid : Z) (w : worker) (st : State) : M Sys unit :=
  on_sched (fun s => set_idle (u64 (m_idelThreadNum s - 1)) s) ;;;
  modify (set_fstate (w_idle w) (if finished st then st else HOLD)) ;;;
  goto tid w PTop.

(** Lines 190-201: thread [tid] enters [run]. *)
Definition run_enter (tid : Z) : M Sys unit :=
  i <-- alloc_fiber ;;
  modify (set_worker tid (mkWorker PTop None i None)).

(** One step of thread [tid]; [stale] and [st] answer what the code leaves to
    the environment. *)
Definition run_step (tid : Z) (stale : bool) (st : State) : M Sys unit :=
  s <-- get ;;
  match workers s !! tid with
  | None => run_enter tid
  | Some w =>
      match w_phase w with
      | PTop => run_scan tid stale w
      | PDispatch ft a => run_dispatch tid w ft a
      | PFiber f ft => run_fiber_back tid w f ft st
      | PFiberAgain f ft => run_fiber_again tid w f ft
      | PCb thread => run_cb_back tid w thread st
      | PCbAgain thread => run_cb_again tid w thread
      | PIdle => run_idle_back tid w st
      | PDone => mreturn tt
      end
  end.
