(* ===== verification/SchedulerFacts.v ===== *)
(** * The scheduler: safety of the run loop, conservation of tasks

    A fiber has one owner at a time: the queue, or one thread.  Under that
    discipline of the callers it is shown, for any interleaving of the threads and
    of the calls of [schedule], in which two ways alone a step fails; that the
    counters are exact; and that every task is queued, held or completed exactly
    once. *)
From S2P Require Import Prelude.
From S2P Require Import Scheduler.
From S2P Require Fiber.
Import Fiber (State, INIT, HOLD, EXEC, TERM, READY, EXCEPT).

(** ** What the threads hold *)

Section gather.
Context {A : Type} (F : Z -> worker -> list A).

(** Everything the threads contribute, in some order. *)
Definition gather (m : gmap Z worker) : list A :=
  mjoin ((fun x => F x.1 x.2) <$> map_to_list m).

Lemma gather_perm l1 l2 :
  l1 ≡ₚ l2 ->
  mjoin ((fun x : Z * worker => F x.1 x.2) <$> l1) ≡ₚ mjoin ((fun x => F x.1 x.2) <$> l2).
Proof. intros H. by rewrite H. Qed.

Lemma gather_insert m t w : gather (<[t := w]> m) ≡ₚ F t w ++ gather (delete t m).
Proof.
  unfold gather. rewrite <- insert_delete_eq. etrans; [apply gather_perm, map_to_list_insert|done].
  apply lookup_delete_eq.
Qed.

Lemma gather_lookup m t w : m !! t = Some w -> gather m ≡ₚ F t w ++ gather (delete t m).
Proof. intros H. rewrite <- (insert_id m t w H) at 1. apply gather_insert. Qed.

Lemma gather_elem m x : x ∈ gather m <-> exists t w, m !! t = Some w /\ x ∈ F t w.
Proof.
  unfold gather. rewrite list_elem_of_join. split.
  - intros (l & Hx & Hl). apply list_elem_of_fmap in Hl as ([t w] & -> & Hm).
    apply elem_of_map_to_list in Hm. eauto.
  - intros (t & w & Hm & Hx). exists (F t w). split; [done|].
    apply list_elem_of_fmap. exists (t, w). split; [done|]. by apply elem_of_map_to_list.
Qed.

Lemma gather_length m :
  (forall t w, (length (F t w) <= 1)%nat) -> (length (gather m) <= size m)%nat.
Proof.
  intros HF. unfold gather. rewrite <- length_map_to_list.
  induction (map_to_list m) as [|[t w] l IH]; [done|].
  rewrite fmap_cons. cbn [mjoin list_join]. rewrite length_app. cbn [length fst snd].
  apply (Nat.add_le_mono _ 1 _ _ (HF t w) IH).
Qed.
End gather.

Definition owned (s : Sys) : list Z :=
  q_owned (queued s) ++ gather w_owned (workers s).

(** Whether a thread counts in [m_activeThreadNum], in [m_idelThreadNum]. *)
Definition w_active (_ : Z) (w : worker) : list unit :=
  match w_phase w with PDispatch _ true | PFiber _ _ | PCb _ => [tt] | _ => [] end.
Definition w_idling (_ : Z) (w : worker) : list unit :=
  match w_phase w with PIdle => [tt] | _ => [] end.

Definition for_thread (tid : Z) (t : Z) : Prop := t = -1 \/ t = tid.

(** A task has a fiber or a callback, not both. *)
Definition one_kind (t : FiberTask) : bool := xorb (is_some (cb t)) (is_some (fiber t)).

Definition task_ok (st : gmap Z State) (t : FiberTask) : Prop :=
  one_kind t = true /\ forall f, fiber t = Some f -> exists x, st !! f = Some x /\ x <> EXEC.

Definition idle_ok (p : phase) (x : State) : Prop :=
  match p with PIdle => x = EXEC | _ => x <> EXEC /\ x <> EXCEPT end.
Definition cb_state (p : phase) : State :=
  match p with PCb _ => EXEC | PCbAgain _ => READY | _ => INIT end.
Definition cb_ok (st : gmap Z State) (w : worker) : Prop :=
  match w_cb_fiber w, w_phase w with
  | Some g, p => st !! g = Some (cb_state p)
  | None, (PCb _ | PCbAgain _) => False
  | None, _ => True
  end.
Definition phase_ok (st : gmap Z State) (tid : Z) (p : phase) : Prop :=
  match p with
  | PDispatch ft true => task_ok st ft /\ for_thread tid (thread_id ft)
  | PDispatch ft false => ft = FiberTask_empty
  | PFiber f ft => st !! f = Some EXEC /\ fiber ft = Some f /\ for_thread tid (thread_id ft)
  | PFiberAgain f ft => st !! f = Some READY /\ for_thread tid (thread_id ft)
  | PCb t | PCbAgain t => for_thread tid t
  | _ => True
  end.
Definition worker_ok (st : gmap Z State) (tid : Z) (w : worker) : Prop :=
  (exists x, st !! w_idle w = Some x /\ idle_ok (w_phase w) x)
  /\ cb_ok st w /\ phase_ok st tid (w_phase w).

Definition count {A} (l : list A) : Z := Z.of_nat (length l).

Record inv (s : Sys) : Prop := {
  inv_owned : NoDup (owned s);
  inv_fresh : forall f x, states s !! f = Some x -> f < next_fiber s;
  inv_others : forall f, f ∈ others s -> is_Some (states s !! f);
  inv_held : forall t w f, workers s !! t = Some w -> w_held w = Some f -> is_Some (states s !! f);
  inv_queue : Forall (task_ok (states s)) (queued s);
  inv_workers : forall t w, workers s !! t = Some w -> worker_ok (states s) t w;
  inv_active : m_activeThreadNum (sched s) = u64 (count (gather w_active (workers s)));
  inv_idling : m_idelThreadNum (sched s) = u64 (count (gather w_idling (workers s)))
}.

(** ** Framing *)

Lemma one_kind_valid t : one_kind t = true -> valid_task t = true.
Proof. unfold one_kind, valid_task. by destruct (cb t), (fiber t). Qed.

Lemma one_kind_fiber t f : one_kind t = true -> fiber t = Some f -> cb t = None.
Proof. unfold one_kind. intros H E. rewrite E in H. by destruct (cb t). Qed.

Lemma one_kind_cb t : one_kind t = true -> fiber t = None -> exists c, cb t = Some c.
Proof. unfold one_kind. intros H E. rewrite E in H. destruct (cb t); [eauto|done]. Qed.

Lemma task_ok_frame st st' t :
  (forall f, fiber t = Some f -> st' !! f = st !! f) -> task_ok st t -> task_ok st' t.
Proof. intros Heq [Hv Hf]. split; [done|]. intros f Hft. rewrite Heq by done. auto. Qed.

Lemma opt_list_elem {A} (o : option A) x : x ∈ opt_list o <-> o = Some x.
Proof. destruct o; cbn; [rewrite list_elem_of_singleton|rewrite elem_of_nil]; naive_solver. Qed.

Lemma q_owned_elem q f : f ∈ q_owned q <-> exists t, t ∈ q /\ fiber t = Some f.
Proof.
  unfold q_owned. rewrite list_elem_of_join. split.
  - intros (l & Hf & Hl). apply list_elem_of_fmap in Hl as (t & -> & Ht).
    apply opt_list_elem in Hf. eauto.
  - intros (t & Ht & Hf). exists (opt_list (fiber t)). split; [by apply opt_list_elem|].
    apply list_elem_of_fmap. by exists t.
Qed.

Lemma worker_ok_frame st st' t w :
  (forall f, f ∈ w_owned t w -> st' !! f = st !! f) -> worker_ok st t w -> worker_ok st' t w.
Proof.
  intros Heq ((x & Hx & Hi) & Hcb & Hp). split_and!.
  - exists x. split; [|done]. rewrite Heq; [done|left].
  - unfold cb_ok in *. destruct (w_cb_fiber w) as [g|] eqn:E; [|done].
    rewrite Heq; [done|]. unfold w_owned. rewrite E. right. left.
  - unfold phase_ok, w_owned in *.
    assert (Hin : forall f l, f ∈ l -> f ∈ w_idle w :: opt_list (w_cb_fiber w) ++ l)
      by (intros; right; apply elem_of_app; by right).
    destruct (w_phase w) as [|ft [|]|f ft|f ft| | | |]; try done.
    + destruct Hp as [Ht Haff]. split; [|done]. eapply task_ok_frame; [|done].
      intros f Hf. apply Heq, Hin. by apply opt_list_elem.
    + destruct Hp as [Hf Haff]. split; [|done].
      rewrite Heq; [done|]. apply Hin, list_elem_of_here.
    + destruct Hp as [Hf Haff]. split; [|done].
      rewrite Heq; [done|]. apply Hin, list_elem_of_here.
Qed.

Definition old_owned (t : Z) (o : option worker) : list Z :=
  match o with Some w => w_owned t w | None => [] end.
Definition old_count {A} (F : Z -> worker -> list A) (t : Z) (o : option worker) : Z :=
  match o with Some w => count (F t w) | None => 0 end.

Lemma gather_old m t :
  gather w_owned m ≡ₚ old_owned t (m !! t) ++ gather w_owned (delete t m).
Proof.
  destruct (m !! t) as [w|] eqn:E; cbn [old_owned].
  - by apply gather_lookup.
  - by rewrite delete_id.
Qed.

Lemma count_update {A} (F : Z -> worker -> list A) m t w :
  count (gather F (<[t := w]> m)) = count (gather F m) + count (F t w) - old_count F t (m !! t).
Proof.
  unfold count. rewrite (gather_insert F m t w), length_app.
  destruct (m !! t) as [w0|] eqn:E; cbn [old_count].
  - rewrite (gather_lookup F m t w0 E), length_app. unfold count. lia.
  - rewrite delete_id by done. lia.
Qed.

Lemma u64_add_l a b : u64 (u64 a + b) = u64 (a + b).
Proof. unfold wrap. by rewrite Zplus_mod_idemp_l. Qed.

Lemma nodup_within {A} (l k : list A) : l ⊆+ k -> NoDup k -> NoDup l.
Proof.
  intros (r & Hr)%submseteq_Permutation Hk. rewrite Hr in Hk. by apply NoDup_app in Hk as [? _].
Qed.

(** Every fiber in a queue or with a thread has a state. *)
Lemma owned_state s f : inv s -> f ∈ owned s -> exists x, states s !! f = Some x.
Proof.
  intros [Hown Hfr _ _ Hq Hw Ha Hi]. unfold owned. rewrite elem_of_app, q_owned_elem, gather_elem.
    intros [(x & Hx & Hf)|(t2 & w2 & Hw2 & Hf)].
    - rewrite Forall_forall in Hq. destruct (Hq x Hx) as [_ Hx2].
      destruct (Hx2 f Hf) as (y & Hy & _). eauto.
    - destruct (Hw t2 w2 Hw2) as ((x & Hx & _) & Hcb & Hp). unfold w_owned in Hf.
      rewrite elem_of_cons, elem_of_app, opt_list_elem in Hf.
      destruct Hf as [->|[Hf|Hf]]; [eauto| |].
      + unfold cb_ok in Hcb. rewrite Hf in Hcb. destruct (w_phase w2); eauto.
      + unfold phase_ok in Hp. destruct (w_phase w2) as [|ft [|]|g ft|g ft| | | |];
          rewrite ?opt_list_elem, ?list_elem_of_singleton, ?elem_of_nil in Hf; try done.
        * destruct Hp as [[_ Hp] _]. destruct (Hp f Hf) as (y & Hy & _). eauto.
        * by subst ft.
        * subst g. destruct Hp; eauto.
        * subst g. destruct Hp; eauto.
Qed.

(** The shape shared by all steps of a thread: it replaces its own entry, takes
    fibers only from the queue or fresh ones, and touches no state but those of
    its own fibers. *)
Lemma inv_update s s' t w' :
  let o := workers s !! t in
  inv s -> others s' = others s ->
  (forall f, is_Some (states s !! f) -> is_Some (states s' !! f)) ->
  (forall f, w_held w' = Some f -> is_Some (states s !! f)) -> workers s' = <[t := w']> (workers s) ->
  (exists fresh, (fresh = [] \/ fresh = [next_fiber s]) /\
    q_owned (queued s') ++ w_owned t w'
      ⊆+ fresh ++ q_owned (queued s) ++ old_owned t o) ->
  (forall f x, states s' !! f = Some x -> f < next_fiber s') ->
  (forall f, f ∉ old_owned t o -> f <> next_fiber s -> states s' !! f = states s !! f) ->
  (forall x, x ∈ queued s' -> x ∈ queued s \/ task_ok (states s') x) ->
  worker_ok (states s') t w' ->
  m_activeThreadNum (sched s')
    = u64 (m_activeThreadNum (sched s) + (count (w_active t w') - old_count w_active t o)) ->
  m_idelThreadNum (sched s')
    = u64 (m_idelThreadNum (sched s) + (count (w_idling t w') - old_count w_idling t o)) ->
  inv s'.
Proof.
  intros o [Hown Hfr Hoth Hheld Hq Hw Ha Hi] Hos Hgrow Hhw Hws (fresh & Hfresh & Hsub) Hfr' Hst Hq' Hw' Ha' Hi'.
  assert (Hnext : forall f, f ∈ owned s -> exists x, states s !! f = Some x) by (intros f; apply owned_state; by split).
  set (rest := gather w_owned (delete t (workers s))) in *.
  assert (Hsplit : owned s ≡ₚ (q_owned (queued s) ++ old_owned t o) ++ rest).
  { unfold owned. rewrite (gather_old _ t). by rewrite app_assoc. }
  assert (Hbig : NoDup (fresh ++ owned s)).
  { destruct Hfresh as [->| ->]; [done|]. constructor; [|done].
    intros Hin. destruct (Hnext _ Hin) as [x Hx]. apply Hfr in Hx. lia. }
  assert (Howned' : NoDup (owned s')).
  { unfold owned. rewrite Hws, gather_insert. fold rest. rewrite app_assoc.
    eapply nodup_within; [|exact Hbig]. rewrite Hsplit, (app_assoc fresh).
    by apply submseteq_app. }
  rewrite Hsplit in Hown. apply NoDup_app in Hown as (Hown1 & Hdis & _).
  assert (Hframe : forall f, f ∈ rest -> states s' !! f = states s !! f).
  { intros f Hf. apply Hst.
    - intros Hin. apply (Hdis f); [apply elem_of_app; by right|done].
    - intros ->. assert (next_fiber s ∈ owned s) as Hin by (rewrite Hsplit; apply elem_of_app; by right).
      destruct (Hnext _ Hin) as [x Hx]. apply Hfr in Hx. lia. }
  split; try done.
  - intros f. rewrite Hos. auto.
  - intros t2 w2 f. rewrite Hws. intros [[<- <-]|[_ Hw2]]%lookup_insert_Some Hf; eauto.
  - rewrite Forall_forall in Hq |- *. intros x Hx. destruct (Hq' x Hx) as [Hx0|]; [|done].
    eapply task_ok_frame; [|by apply Hq]. intros f Hf. apply Hst.
    + intros Hin. apply NoDup_app in Hown1 as (_ & Hd & _).
      apply (Hd f); [|done]. apply q_owned_elem. eauto.
    + intros ->. destruct (Hq x Hx0) as [_ Hy]. destruct (Hy _ Hf) as (y & Hy2 & _).
      apply Hfr in Hy2. lia.
  - intros t2 w2. rewrite Hws. destruct (decide (t = t2)) as [->|Hne].
    + rewrite lookup_insert_eq. by intros [= <-].
    + rewrite lookup_insert_ne by done. intros Hw2. eapply worker_ok_frame; [|by apply Hw].
      intros f Hf. apply Hframe. apply gather_elem. exists t2, w2. split; [|done].
      by rewrite lookup_delete_ne.
  - rewrite Ha', Ha, u64_add_l, Hws, count_update. fold o. f_equal. lia.
  - rewrite Hi', Hi, u64_add_l, Hws, count_update. fold o. f_equal. lia.
Qed.

(** ** The scan *)

(** The task is bound to another thread; its fiber is running. *)
Definition foreign (tid : Z) (t : FiberTask) : bool :=
  negb (thread_id t =? -1) && negb (thread_id t =? tid).
Definition running (st : gmap Z State) (t : FiberTask) : bool :=
  match fiber t with Some f => bool_decide (st !! f = Some EXEC) | None => false end.
Definition eligible (tid : Z) (st : gmap Z State) (t : FiberTask) : Prop :=
  foreign tid t = false /\ running st t = false.

Lemma not_foreign tid t : foreign tid t = false -> for_thread tid (thread_id t).
Proof.
  unfold foreign, for_thread. destruct (Z.eqb_spec (thread_id t) (-1)); [auto|].
  destruct (Z.eqb_spec (thread_id t) tid); [auto|done].
Qed.

Lemma scan_run tid st q :
  Forall (fun t => valid_task t = true) q ->
  exists n o q', scan tid st q = Some (n, o, q') /\
  match o with
  | Some t => exists l1 l2, q = l1 ++ t :: l2 /\ q' = l1 ++ l2 /\ eligible tid st t
      /\ Forall (fun x => ~ eligible tid st x) l1 /\ n = existsb (foreign tid) l1
  | None => q' = q /\ Forall (fun x => ~ eligible tid st x) q /\ n = existsb (foreign tid) q
  end.
Proof.
  induction 1 as [|x q Hx Hq IH]; [by exists false, None, []|].
  destruct IH as (n & o & q' & Hrun & Ho). cbn [scan]. fold (foreign tid x).
  assert (Hskip : forall b, ~ eligible tid st x -> b = foreign tid x || n ->
    exists n0 o0 q0, Some (b, o, x :: q') = Some (n0, o0, q0) /\
    match o0 with
    | Some t => exists l1 l2, x :: q = l1 ++ t :: l2 /\ q0 = l1 ++ l2 /\ eligible tid st t
        /\ Forall (fun x => ~ eligible tid st x) l1 /\ n0 = existsb (foreign tid) l1
    | None => q0 = x :: q /\ Forall (fun x => ~ eligible tid st x) (x :: q)
        /\ n0 = existsb (foreign tid) (x :: q)
    end).
  { intros b Hne ->. exists (foreign tid x || n), o, (x :: q'). split; [done|].
    destruct o as [t|].
    - destruct Ho as (l1 & l2 & -> & -> & He & Hl & ->). exists (x :: l1), l2.
      split_and!; try done. by constructor.
    - destruct Ho as (-> & Hl & ->). split_and!; try done. by constructor. }
  destruct (foreign tid x) eqn:Ef.
  - rewrite Hrun. cbn. apply Hskip; [|done]. intros [? _]. congruence.
  - rewrite Hx. cbn [negb]. fold (running st x). destruct (running st x) eqn:Er.
    + rewrite Hrun. cbn. apply Hskip; [|done]. intros [_ ?]. congruence.
    + exists false, (Some x), q. split; [done|]. exists [], q. split_and!; done || constructor.
Qed.

(** ** Every step is safe *)

Inductive label :=
| LNew                                            (* a fiber is created *)
| LKeep (f : Z)                                   (* a pointer to it is copied, *)
| LDrop (f : Z)                                   (* the last such copy dropped *)
| LSchedule (w : work) (thread : Z)               (* schedule() takes m_threads_mtx *)
| LScheduled                                      (* and has returned *)
| LRun (tid : Z) (stale : bool) (st : State).     (* a step of a thread of run() *)

Definition exec (l : label) : M Sys unit :=
  match l with
  | LNew => f <-- alloc_fiber ;; modify (fun s => set_others ({[f]} ∪ others s) s)
  | LKeep f => modify (fun s => set_others ({[f]} ∪ others s) s)
  | LDrop f => modify (fun s => set_others (others s ∖ {[f]}) s) ;;; drop_pointer f
  | LSchedule w thread =>
      s <-- get ;;
      if is_some (in_schedule s) then mreturn tt
      else modify (set_in_schedule (Some (ACaller w thread)))
  | LScheduled =>
      s <-- get ;;
      match in_schedule s with
      | Some (ACaller w thread) =>
          on_sched (Scheduler_schedule w thread) ;;; modify (set_in_schedule None)
      | _ => mreturn tt
      end
  | LRun tid stale st => run_step tid stale st
  end.

(** Callers schedule a fiber that exists, is not running and has no owner yet,
    and copy and drop pointers they can have; the idle function does not throw. *)
Definition env_ok (s : Sys) (l : label) : Prop :=
  match l with
  | LSchedule (WFiber (Some f)) _ =>
      (f ∉ owned s) /\ exists x, states s !! f = Some x /\ x <> EXEC
  | LKeep f => is_Some (states s !! f)
  | LDrop f => f ∈ others s
  | LRun tid _ st => forall w, workers s !! tid = Some w -> w_phase w = PIdle -> st <> EXCEPT
  | _ => True
  end.

Lemma fiber_state_at s f x : states s !! f = Some x -> fiber_state f s = Ok x s.
Proof. unfold fiber_state. by intros ->. Qed.

Lemma fiber_enter_at s f x :
  states s !! f = Some x -> x <> EXEC -> x <> TERM -> x <> EXCEPT ->
  fiber_enter f s = Ok tt (set_fstate f EXEC s).
Proof.
  intros Hx H1 H2 H3. unfold fiber_enter. mrun (fiber_state_at s f x Hx).
  unfold bind, Assert. by rewrite !bool_decide_true by auto.
Qed.

Lemma insert_fresh s f v :
  inv s -> (f < next_fiber s) ->
  forall g x, <[f := v]> (states s) !! g = Some x -> g < next_fiber s.
Proof.
  intros Hinv Hf g x [[<- _]|[_ Hg]]%lookup_insert_Some; [done|]. by eapply inv_fresh.
Qed.

Lemma state_fresh s f x : inv s -> states s !! f = Some x -> f < next_fiber s.
Proof. intros Hinv. by eapply inv_fresh. Qed.

Lemma schedule_state w t s :
  m_activeThreadNum (Scheduler_schedule w t s) = m_activeThreadNum s
  /\ m_idelThreadNum (Scheduler_schedule w t s) = m_idelThreadNum s
  /\ m_fibers (Scheduler_schedule w t s)
     = if valid_task (FiberTask_of w t) then m_fibers s ++ [FiberTask_of w t] else m_fibers s.
Proof.
  unfold Scheduler_schedule, Scheduler_scheduleNonLock.
  destruct (valid_task _), (m_fibers s) eqn:E; cbn; auto.
Qed.

Lemma worker_idle s t w :
  inv s -> workers s !! t = Some w ->
  exists x, states s !! w_idle w = Some x /\ idle_ok (w_phase w) x.
Proof. intros Hinv Hw. by destruct (inv_workers s Hinv t w Hw) as (? & _). Qed.

Lemma opt_list_sub q1 q2 (t : FiberTask) :
  q_owned (q1 ++ q2) ++ opt_list (fiber t) ≡ₚ q_owned (q1 ++ t :: q2).
Proof.
  unfold q_owned. rewrite !fmap_app, !join_app. cbn. rewrite <- app_assoc.
  apply Permutation_app_head. by rewrite Permutation_app_comm.
Qed.

Lemma q_owned_app q1 q2 : q_owned (q1 ++ q2) = q_owned q1 ++ q_owned q2.
Proof. unfold q_owned. by rewrite fmap_app, join_app. Qed.

Section steps.
Context (s : Sys) (t : Z) (w : worker).
Context (Hinv : inv s) (Hw : workers s !! t = Some w).

Lemma active_same : m_activeThreadNum (sched s) = u64 (m_activeThreadNum (sched s)).
Proof. rewrite (inv_active s Hinv). by rewrite wrap_wrap. Qed.
Lemma idling_same : m_idelThreadNum (sched s) = u64 (m_idelThreadNum (sched s)).
Proof. rewrite (inv_idling s Hinv). by rewrite wrap_wrap. Qed.

Lemma queue_valid : in_schedule s = None ->
  queued s = m_fibers (sched s) /\ Forall (fun x => valid_task x = true) (m_fibers (sched s)).
Proof.
  intros Hn. assert (queued s = m_fibers (sched s)) as E
    by (unfold queued; rewrite Hn; apply app_nil_r).
  split; [done|]. rewrite <- E. eapply Forall_impl; [exact (inv_queue s Hinv)|].
  intros x [? _]. by apply one_kind_valid.
Qed.

(** The effect of the scan on thread [t], given what it found. *)
Lemma inv_select s' o q' :
  w_phase w = PTop -> in_schedule s = None ->
  match o with
  | Some x => exists l1 l2, m_fibers (sched s) = l1 ++ x :: l2 /\ q' = l1 ++ l2 /\ eligible t (states s) x
  | None => q' = m_fibers (sched s)
  end ->
  workers s' = <[t := mkWorker (PDispatch (default FiberTask_empty o) (is_some o))
                        (w_cb_fiber w) (w_idle w) None]> (workers s) ->
  states s' = states s -> next_fiber s' = next_fiber s -> others s' = others s -> queued s' = q' ->
  m_activeThreadNum (sched s') = u64 (m_activeThreadNum (sched s) + (if is_some o then 1 else 0)) ->
  m_idelThreadNum (sched s') = m_idelThreadNum (sched s) -> inv s'.
Proof.
  intros Hp Hn Ho Hws Hst Hnf Hot Hqq Ha Hi. destruct (queue_valid Hn) as [Hqs _].
  destruct (inv_workers s Hinv t w Hw) as (Hidle & Hcb & _). rewrite Hp in Hidle.
  apply (inv_update s s' t _ Hinv Hot) in Hws; [done|..]; rewrite ?Hw, ?Hst, ?Hnf, ?Hqs; try done.
  - exists []. split; [by left|]. cbn [old_owned app]. rewrite Hqq. unfold w_owned. rewrite Hp.
    cbn [w_idle w_cb_fiber w_phase]. rewrite app_nil_r.
    destruct o as [x|]; cbn [default is_some].
    + destruct Ho as (l1 & l2 & -> & -> & _).
      rewrite <- (opt_list_sub l1 l2 x), <- app_assoc. apply submseteq_app; [done|].
      rewrite app_comm_cons. by rewrite Permutation_app_comm.
    + rewrite Ho. by rewrite app_nil_r.
  - intros f x. by apply inv_fresh.
  - intros x Hx. left. rewrite Hqq in Hx. destruct o as [y|]; [|by subst q'].
    destruct Ho as (l1 & l2 & -> & -> & _). apply elem_of_app in Hx as [|]; apply elem_of_app;
      [by left|right; by right].
  - split_and!.
    + destruct Hidle as (x & Hx & Hix). exists x. split; [done|]. exact Hix.
    + unfold cb_ok in *. rewrite Hp in Hcb. cbn. by destruct (w_cb_fiber w).
    + cbn. destruct o as [x|]; [|done]. cbn. destruct Ho as (l1 & l2 & Hqe & _ & He & _).
      split; [|by apply not_foreign]. pose proof (inv_queue s Hinv) as Hq.
      rewrite Hqs, Forall_forall in Hq. apply Hq. rewrite Hqe. apply elem_of_app. right. left.
  - rewrite Ha. unfold w_active, old_count, count. rewrite Hp. f_equal. destruct o; cbn; lia.
  - rewrite Hi. unfold w_idling, old_count, count. rewrite Hp. cbn. rewrite Z.add_0_r.
    exact idling_same.
Qed.

(** What the scan does when nobody is inside [schedule]. *)
Lemma select_runs stale :
  in_schedule s = None ->
  exists o q' s', run_select t stale w s = Ok tt s'
  /\ match o with
     | Some x => exists l1 l2, m_fibers (sched s) = l1 ++ x :: l2 /\ q' = l1 ++ l2 /\ eligible t (states s) x
     | None => q' = m_fibers (sched s)
     end
  /\ workers s' = <[t := mkWorker (PDispatch (default FiberTask_empty o) (is_some o))
                        (w_cb_fiber w) (w_idle w) None]> (workers s)
  /\ states s' = states s /\ next_fiber s' = next_fiber s /\ others s' = others s /\ queued s' = q'
  /\ m_activeThreadNum (sched s') = u64 (m_activeThreadNum (sched s) + (if is_some o then 1 else 0))
  /\ m_idelThreadNum (sched s') = m_idelThreadNum (sched s).
Proof.
  intros Hn. destruct (queue_valid Hn) as [_ Hv].
  destruct (scan_run t (states s) _ Hv) as (n & o & q' & Hscan & Ho).
  exists o, q'. unfold run_select. rewrite (bind_Ok get _ s s s eq_refl), Hn. cbn [is_some].
  rewrite Hscan. cbn [bind on_sched modify].
  destruct o as [x|]; cbn [is_some bind on_sched modify];
    destruct (n || _); cbn [bind on_sched modify];
    (eexists; split; [reflexivity|]); (split; [naive_solver|]);
    unfold queued; cbn; rewrite ?Hn, ?app_nil_r, ?Z.add_0_r; split_and!; try done;
    exact active_same.
Qed.

Lemma safe_select stale :
  w_phase w = PTop -> in_schedule s = None ->
  exists s', run_select t stale w s = Ok tt s' /\ inv s'.
Proof.
  intros Hp Hn. destruct (select_runs stale Hn) as (o & q' & s' & Hrun & H). exists s'.
  split; [done|]. destruct_and! H. by eapply (inv_select s' o q').
Qed.

(** A step that only moves thread [t] and changes states of its own fibers, the
    queue staying as it is. *)
Lemma safe_local s' w' :
  workers s' = <[t := w']> (workers s) ->
  queued s' = queued s -> others s' = others s ->
  (forall f, is_Some (states s !! f) -> is_Some (states s' !! f)) ->
  (forall f, w_held w' = Some f -> is_Some (states s !! f)) ->
  (exists fresh, (fresh = [] \/ fresh = [next_fiber s]) /\ w_owned t w' ⊆+ fresh ++ w_owned t w) ->
  (forall f x, states s' !! f = Some x -> f < next_fiber s') ->
  (forall f, f ∉ w_owned t w -> f <> next_fiber s -> states s' !! f = states s !! f) ->
  worker_ok (states s') t w' ->
  m_activeThreadNum (sched s')
    = u64 (m_activeThreadNum (sched s) + (count (w_active t w') - count (w_active t w))) ->
  m_idelThreadNum (sched s')
    = u64 (m_idelThreadNum (sched s) + (count (w_idling t w') - count (w_idling t w))) ->
  inv s'.
Proof.
  intros Hws Hqq Hot Hgrow Hhw (fresh & Hfr & Hsub) Hst Hfrm Hok Ha Hi.
  apply (inv_update s s' t w' Hinv Hot Hgrow Hhw Hws); rewrite ?Hw; try done.
  - exists fresh. split; [done|]. rewrite Hqq. cbn [old_owned].
    rewrite (Permutation_app_comm (q_owned _)), (app_assoc fresh),
      (Permutation_app_comm fresh), <- app_assoc, (Permutation_app_comm (q_owned _)).
    by apply submseteq_app.
  - intros x. rewrite Hqq. by left.
Qed.

(** Distinct fibers of one thread. *)
Lemma own_nodup : NoDup (w_owned t w).
Proof.
  pose proof (inv_owned s Hinv) as Hn. unfold owned in Hn.
  apply NoDup_app in Hn as (_ & _ & Hn). rewrite (gather_lookup _ _ _ _ Hw) in Hn.
  by apply NoDup_app in Hn as [? _].
Qed.

End steps.

(** Close the conditions of [safe_local] on the fibers that exist and on the
    pointer held. *)
Ltac grows :=
  first [ solve [intros ? ?; cbn; rewrite ?lookup_insert_is_Some'; auto]
        | solve [cbn; intros ? [= <-]; eauto]
        | solve [cbn; eauto using inv_held] ].

(** Close the counter conditions of [safe_local]. *)
Ltac counters Hinv Hp :=
  unfold w_active, w_idling, count; rewrite Hp; cbn;
  first [ f_equal; lia
        | rewrite ?Z.add_0_r; first [exact (active_same _ Hinv) | exact (idling_same _ Hinv)] ].

Lemma bind_ret {S A B} (a : A) (k : A -> M S B) s : bind (mreturn a) k s = k a s.
Proof. done. Qed.

(** The test of the task's fiber at the head of the dispatch. *)
Lemma ready_run {A} s f x (k : option Z -> M Sys A) :
  states s !! f = Some x ->
  (ready <-- (st <-- fiber_state f ;; mreturn (if finished st then None else Some f)) ;; k ready) s
  = k (if finished x then None else Some f) s.
Proof. intros Hx. unfold bind, fiber_state. by rewrite Hx. Qed.

Section dispatch.
Context (s : Sys) (t : Z) (w : worker).
Context (Hinv : inv s) (Hw : workers s !! t = Some w).

(** Entering the fiber of the task taken. *)
Lemma safe_dispatch_fiber ft f x :
  w_phase w = PDispatch ft true -> fiber ft = Some f -> states s !! f = Some x ->
  finished x = false ->
  exists s', run_dispatch t w ft true s = Ok tt s' /\ inv s'.
Proof.
  intros Hp Hf Hx Hfin. unfold run_dispatch. rewrite Hf.
  destruct (inv_workers s Hinv t w Hw) as (Hidle & Hcb & Hph). rewrite Hp in Hidle, Hph.
  cbn in Hph. destruct Hph as [[_ Hex] Haff]. destruct (Hex f Hf) as (y & Hy & Hne).
  assert (y = x) as -> by congruence. unfold finished in Hfin.
  apply bool_decide_eq_false in Hfin.
  rewrite (ready_run s f x _ Hx). unfold finished. rewrite bool_decide_false by done.
  erewrite bind_Ok; [|apply (fiber_enter_at s f x Hx Hne); intros ->; apply Hfin; auto].
  eexists. split; [reflexivity|]. pose proof (own_nodup s t w Hinv Hw) as Hnd.
  unfold w_owned in Hnd. rewrite Hp, Hf in Hnd. cbn [opt_list] in Hnd.
  apply NoDup_cons in Hnd as [Hi1 Hnd]. apply NoDup_app in Hnd as (_ & Hcf & _).
  rewrite not_elem_of_app, list_elem_of_singleton in Hi1. destruct Hi1 as [_ Hi1].
  apply (safe_local s t w Hinv Hw _ (mkWorker (PFiber f ft) (w_cb_fiber w) (w_idle w) (w_held w))); try done; try grows.
  - exists []. split; [by left|]. unfold w_owned. by rewrite Hp, Hf.
  - apply (insert_fresh s f EXEC Hinv). by eapply state_fresh.
  - intros g Hg _. cbn. rewrite lookup_insert_ne; [done|]. intros <-. apply Hg.
    unfold w_owned. rewrite Hp, Hf. right. apply elem_of_app. right. left.
  - split_and!; cbn.
    + destruct Hidle as (z & Hz & Hiz). exists z. by rewrite lookup_insert_ne by congruence.
    + unfold cb_ok in *. rewrite Hp in Hcb. cbn. destruct (w_cb_fiber w) as [g|]; [|done].
      rewrite lookup_insert_ne; [done|]. intros <-. apply (Hcf f); by left.
    + by rewrite lookup_insert_eq.
  - counters Hinv Hp.
  - counters Hinv Hp.
Qed.

(** A task whose fiber has finished is dropped. *)
Lemma safe_dispatch_finished ft f x :
  w_phase w = PDispatch ft true -> fiber ft = Some f -> states s !! f = Some x ->
  finished x = true -> cb ft = None ->
  exists s', run_dispatch t w ft true s = Ok tt s' /\ inv s'.
Proof.
  intros Hp Hf Hx Hfin Hc. unfold run_dispatch. rewrite Hf, Hc.
  destruct (inv_workers s Hinv t w Hw) as (Hidle & Hcb & Hph). rewrite Hp in Hidle.
  rewrite (ready_run s f x _ Hx), Hfin. eexists. split; [reflexivity|].
  apply (safe_local s t w Hinv Hw _ (mkWorker PTop (w_cb_fiber w) (w_idle w) (Some f))); try done; try grows.
  - exists []. split; [by left|]. unfold w_owned. rewrite Hp, Hf. cbn [w_phase w_cb_fiber w_idle].
    apply submseteq_skip, submseteq_skips_l, submseteq_nil_l.
  - intros g y. exact (inv_fresh s Hinv g y).
  - split_and!; [done| |done]. unfold cb_ok in *. rewrite Hp in Hcb. cbn.
    by destruct (w_cb_fiber w).
  - counters Hinv Hp.
  - counters Hinv Hp.
Qed.

(** A callback runs on the kept fiber, reset, or on a new one. *)
Lemma safe_dispatch_cb ft c :
  w_phase w = PDispatch ft true -> fiber ft = None -> cb ft = Some c ->
  exists s', run_dispatch t w ft true s = Ok tt s' /\ inv s'.
Proof.
  intros Hp Hf Hc. unfold run_dispatch. rewrite Hf, Hc.
  destruct (inv_workers s Hinv t w Hw) as (Hidle & Hcb & Hph). rewrite Hp in Hidle, Hph.
  cbn in Hph. destruct Hph as [_ Haff]. rewrite bind_ret.
  unfold cb_ok in Hcb. rewrite Hp in Hcb. cbn [cb_state] in Hcb.
  pose proof (own_nodup s t w Hinv Hw) as Hnd. unfold w_owned in Hnd. rewrite Hp, Hf in Hnd.
  destruct (w_cb_fiber w) as [g|] eqn:Eg; cbn [opt_list app] in Hnd.
  - assert (g <> w_idle w) as Hgi by (intros ->; apply NoDup_cons in Hnd as [Hn _]; apply Hn; left).
    assert ((st <-- fiber_state g ;;
             Assert (bool_decide (st = INIT \/ st = TERM \/ st = EXCEPT)) ;;;
             modify (set_fstate g INIT) ;;; mreturn g) s = Ok g (set_fstate g INIT s)) as Hprep.
    { unfold bind, fiber_state. rewrite Hcb. done. }
    mrun Hprep.
    erewrite bind_Ok; [|apply (fiber_enter_at _ g INIT); try done; cbn; apply lookup_insert_eq].
    eexists. split; [reflexivity|].
    apply (safe_local s t w Hinv Hw _ (mkWorker (PCb (thread_id ft)) (Some g) (w_idle w) (w_held w))); try done; try grows.
    + exists []. split; [by left|]. unfold w_owned. by rewrite Hp, Hf, Eg.
    + cbn. rewrite insert_insert_eq. apply (insert_fresh s g EXEC Hinv). by eapply state_fresh.
    + intros h Hh _. cbn. rewrite insert_insert_eq, lookup_insert_ne; [done|]. intros <-. apply Hh.
      unfold w_owned. rewrite Eg. right. left.
    + split_and!; cbn; [|unfold cb_ok; cbn; by rewrite lookup_insert_eq|done].
      destruct Hidle as (z & Hz & Hiz). exists z.
      by rewrite insert_insert_eq, lookup_insert_ne by congruence.
    + counters Hinv Hp.
    + counters Hinv Hp.
  - assert (w_idle w < next_fiber s) as Hlt
      by (destruct Hidle as (z & Hz & _); by eapply state_fresh).
    rewrite (bind_Ok alloc_fiber _ s _ _ eq_refl).
    erewrite bind_Ok; [|apply (fiber_enter_at _ (next_fiber s) INIT); try done; cbn; apply lookup_insert_eq].
    eexists. split; [reflexivity|].
    apply (safe_local s t w Hinv Hw _ (mkWorker (PCb (thread_id ft)) (Some (next_fiber s)) (w_idle w) (w_held w))); try done; try grows.
    + exists [next_fiber s]. split; [by right|]. unfold w_owned. rewrite Hp, Hf, Eg. cbn.
      apply submseteq_swap.
    + cbn. intros f x. rewrite insert_insert_eq.
      intros [[<- _]|[_ Hx]]%lookup_insert_Some; [lia|]. apply (inv_fresh s Hinv) in Hx. lia.
    + intros h _ Hh. cbn. by rewrite insert_insert_eq, lookup_insert_ne by done.
    + split_and!; cbn; [|unfold cb_ok; cbn; by rewrite lookup_insert_eq|done].
      destruct Hidle as (z & Hz & Hiz). exists z.
      by rewrite insert_insert_eq, lookup_insert_ne by lia.
    + counters Hinv Hp.
    + counters Hinv Hp.
Qed.

(** With nothing to do the thread runs its idle fiber, or ends. *)
Lemma safe_dispatch_idle ft :
  w_phase w = PDispatch ft false -> exists s', run_dispatch t w ft false s = Ok tt s' /\ inv s'.
Proof.
  intros Hp. destruct (inv_workers s Hinv t w Hw) as ((x & Hx & Hix) & Hcb & Hph).
  rewrite Hp in Hix, Hph. cbn in Hph. subst ft. cbn in Hix. destruct Hix as [Hne1 Hne2].
  unfold run_dispatch. cbn [fiber cb FiberTask_empty]. rewrite bind_ret.
  mrun (fiber_state_at s (w_idle w) x Hx). case_bool_decide as Hterm.
  - eexists. split; [reflexivity|].
    apply (safe_local s t w Hinv Hw _ (mkWorker PDone (w_cb_fiber w) (w_idle w) (w_held w))); try done; try grows.
    + exists []. split; [by left|]. unfold w_owned. by rewrite Hp.
    + exact (inv_fresh s Hinv).
    + split_and!; [exists x; by cbn| |done]. unfold cb_ok in *. rewrite Hp in Hcb. cbn.
      by destruct (w_cb_fiber w).
    + counters Hinv Hp.
    + counters Hinv Hp.
  - cbn [bind on_sched modify].
    erewrite bind_Ok; [|by apply (fiber_enter_at _ (w_idle w) x)].
    eexists. split; [reflexivity|].
    pose proof (own_nodup s t w Hinv Hw) as Hnd. unfold w_owned in Hnd.
    apply NoDup_cons in Hnd as [Hn _].
    apply (safe_local s t w Hinv Hw _ (mkWorker PIdle (w_cb_fiber w) (w_idle w) (w_held w))); try done; try grows.
    + exists []. split; [by left|]. unfold w_owned. by rewrite Hp.
    + apply (insert_fresh s (w_idle w) EXEC Hinv). by eapply state_fresh.
    + intros h Hh _. cbn. rewrite lookup_insert_ne; [done|]. intros <-. apply Hh. left.
    + split_and!; cbn; [exists EXEC; by rewrite lookup_insert_eq| |done].
      unfold cb_ok in *. rewrite Hp in Hcb. cbn. destruct (w_cb_fiber w) as [g|]; [|done].
      rewrite lookup_insert_ne; [done|]. intros <-. apply Hn. left.
    + counters Hinv Hp.
    + counters Hinv Hp.
Qed.

Lemma safe_dispatch ft a :
  w_phase w = PDispatch ft a -> exists s', run_dispatch t w ft a s = Ok tt s' /\ inv s'.
Proof.
  intros Hp. destruct a; [|by apply safe_dispatch_idle].
  destruct (inv_workers s Hinv t w Hw) as (_ & _ & Hph). rewrite Hp in Hph. cbn in Hph.
  destruct Hph as [[Hk Hex] _]. destruct (fiber ft) as [f|] eqn:Ef.
  - destruct (Hex f eq_refl) as (x & Hx & _). destruct (finished x) eqn:Hfin.
    + apply (safe_dispatch_finished ft f x); try done. by eapply one_kind_fiber.
    + by apply (safe_dispatch_fiber ft f x).
  - destruct (one_kind_cb ft Hk Ef) as [c Hc]. by apply (safe_dispatch_cb ft c).
Qed.
End dispatch.

Lemma append_queue_sub q r l1 l2 :
  l1 ++ opt_list (fiber r) ≡ₚ l2 -> q_owned (q ++ [r]) ++ l1 ⊆+ q_owned q ++ l2.
Proof.
  intros H. rewrite q_owned_app, <- app_assoc. apply submseteq_skips_l.
  unfold q_owned. cbn. rewrite app_nil_r, (Permutation_app_comm (opt_list _)). by rewrite H.
Qed.

Section back.
Context (s : Sys) (t : Z) (w : worker).
Context (Hinv : inv s) (Hw : workers s !! t = Some w).

(** A fiber of the thread that is neither its idle nor its callback fiber. *)
Lemma own_apart f :
  (match w_phase w with PFiber g _ | PFiberAgain g _ => g = f | _ => False end) ->
  f <> w_idle w /\ w_cb_fiber w <> Some f.
Proof.
  intros Hf. pose proof (own_nodup s t w Hinv Hw) as Hnd. unfold w_owned in Hnd.
  apply NoDup_cons in Hnd as [Hn Hnd]. apply NoDup_app in Hnd as (_ & Hd & _). split.
  - intros ->. apply Hn, elem_of_app. right. destruct (w_phase w); try done; subst; left.
  - intros Hc. apply (Hd f); [by apply opt_list_elem|].
    destruct (w_phase w); try done; subst; left.
Qed.

Lemma cb_apart g : w_cb_fiber w = Some g -> g <> w_idle w.
Proof.
  intros Hc ->. pose proof (own_nodup s t w Hinv Hw) as Hnd. unfold w_owned in Hnd.
  apply NoDup_cons in Hnd as [Hn _]. apply Hn, elem_of_app. left. by apply opt_list_elem.
Qed.

Lemma safe_fiber_back f ft st :
  w_phase w = PFiber f ft -> exists s', run_fiber_back t w f ft st s = Ok tt s' /\ inv s'.
Proof.
  intros Hp. destruct (inv_workers s Hinv t w Hw) as (Hidle & Hcb & Hph).
  rewrite Hp in Hidle, Hph. destruct Hph as (Hf & Hft & Haff).
  destruct (own_apart f) as [Hfi Hfc]; [by rewrite Hp|].
  pose (p' := if bool_decide (st = READY) then PFiberAgain f ft else PTop).
  pose (v := if bool_decide (st = READY) then st else if finished st then st else HOLD).
  pose (held := if bool_decide (st = READY) then w_held w else Some f).
  assert (Hrun : run_fiber_back t w f ft st s = Ok tt (set_worker t (mkWorker p' (w_cb_fiber w) (w_idle w) held)
    (set_fstate f v (set_sched (set_active (u64 (m_activeThreadNum (sched s) - 1)) (sched s)) s)))).
  { unfold run_fiber_back, p', v, held. by case_bool_decide. }
  eexists. split; [exact Hrun|].
  apply (safe_local s t w Hinv Hw _ (mkWorker p' (w_cb_fiber w) (w_idle w) held)); try done; try grows.
  - unfold held. case_bool_decide; grows.
  - exists []. split; [by left|]. unfold w_owned. rewrite Hp. cbn [w_phase w_cb_fiber w_idle].
    apply submseteq_skip, submseteq_skips_l. unfold p'.
    case_bool_decide; [done|apply submseteq_nil_l].
  - apply (insert_fresh s f v Hinv). by eapply state_fresh.
  - intros h Hh _. cbn. rewrite lookup_insert_ne; [done|]. intros <-. apply Hh.
    unfold w_owned. rewrite Hp. right. apply elem_of_app. right. left.
  - split_and!; cbn.
    + destruct Hidle as (z & Hz & Hiz). exists z. rewrite lookup_insert_ne by done.
      split; [done|]. unfold p'. by case_bool_decide.
    + unfold cb_ok in *. rewrite Hp in Hcb. cbn. destruct (w_cb_fiber w) as [g|].
      * rewrite lookup_insert_ne by congruence. unfold p'. by case_bool_decide.
      * unfold p'. by case_bool_decide.
    + unfold p', v. case_bool_decide; [|done]. subst st. cbn. by rewrite lookup_insert_eq.
  - unfold p'. case_bool_decide; counters Hinv Hp.
  - unfold p'. case_bool_decide; counters Hinv Hp.
Qed.

(** Only who holds the mutex changes. *)
Lemma safe_same s' :
  workers s' = workers s -> states s' = states s -> next_fiber s' = next_fiber s ->
  others s' = others s -> queued s' = queued s ->
  m_activeThreadNum (sched s') = m_activeThreadNum (sched s) ->
  m_idelThreadNum (sched s') = m_idelThreadNum (sched s) -> inv s'.
Proof.
  intros Hws Hst Hnf Hot Hqq Ha Hi. destruct Hinv as [H1 H2 H3 H4 H5 H6 H7 H8].
  split; unfold owned in *; by rewrite ?Hws, ?Hst, ?Hnf, ?Hot, ?Hqq, ?Ha, ?Hi.
Qed.

(** The thread's fiber has been put back in the queue. *)
Lemma inv_append f thread w' :
  in_schedule s = Some (AWorker t) -> states s !! f = Some READY ->
  w_owned t w' ++ [f] ≡ₚ w_owned t w -> worker_ok (states s) t w' -> w_held w' = Some f ->
  w_active t w' = w_active t w -> w_idling t w' = w_idling t w ->
  inv (set_worker t w' (set_in_schedule None
         (set_sched (Scheduler_schedule (WFiber (Some f)) thread (sched s)) s))).
Proof.
  intros Hin Hf Hown Hok Hh Ha Hi.
  destruct (schedule_state (WFiber (Some f)) thread (sched s)) as (Ha' & Hi' & Hq).
  cbn [valid_task FiberTask_of is_some cb fiber orb] in Hq.
  set (s' := set_worker _ _ _).
  assert (queued s' = queued s ++ [mkFiberTask (Some f) None thread]) as Hqs
    by (unfold queued; cbn [s' sched set_worker set_in_schedule set_sched in_schedule in_flight];
        by rewrite Hin, Hq, !app_nil_r).
  apply (inv_update s _ t w' Hinv); rewrite ?Hw, ?Hqs;
    cbn [s' old_owned old_count sched states set_worker set_in_schedule set_sched next_fiber others
      workers]; rewrite ?Ha', ?Hi', ?Ha, ?Hi, ?Z.sub_diag, ?Z.add_0_r; try done.
  - rewrite Hh. intros g [= <-]. eauto.
  - exists []. split; [by left|]. cbn [app]. by apply append_queue_sub.
  - exact (inv_fresh s Hinv).
  - intros x [Hx|Hx]%elem_of_app; [by left|right]. apply list_elem_of_singleton in Hx as ->.
    split; [done|]. intros g [= <-]. by exists READY.
  - exact (active_same s Hinv).
  - exact (idling_same s Hinv).
Qed.

(** A thread in [schedule] waits for the mutex, takes it, or has appended. *)
Lemma call_schedule_cases x thread next s' :
  (in_schedule s = Some (AWorker t) -> next (set_in_schedule None (set_sched (Scheduler_schedule x thread (sched s)) s)) = Ok tt s') ->
  exists s1, call_schedule t x thread next s = Ok tt s1 /\
  (s1 = s \/ (in_schedule s = None /\ s1 = set_in_schedule (Some (AWorker t)) s)
   \/ (in_schedule s = Some (AWorker t) /\ s1 = s')).
Proof.
  unfold call_schedule. rewrite (bind_Ok get _ s s s eq_refl). intros Hnext.
  destruct (in_schedule s) as [[t1|w1 th1]|] eqn:Hin; [|by exists s; auto|].
  - destruct (Z.eqb_spec t1 t) as [->|]; [|by exists s; auto].
    exists s'. split; [|auto]. cbn [bind on_sched modify]. by apply Hnext.
  - eexists. split; [reflexivity|]. auto.
Qed.

Lemma inv_lock : in_schedule s = None -> inv (set_in_schedule (Some (AWorker t)) s).
Proof. intros Hn. apply safe_same; try done. unfold queued. by rewrite Hn. Qed.

Lemma safe_fiber_again f ft :
  w_phase w = PFiberAgain f ft -> exists s', run_fiber_again t w f ft s = Ok tt s' /\ inv s'.
Proof.
  intros Hp. destruct (inv_workers s Hinv t w Hw) as (Hidle & Hcb & Hph).
  rewrite Hp in Hidle, Hph. destruct Hph as (Hf & Haff).
  edestruct (call_schedule_cases (WFiber (Some f)) (thread_id ft) (goto_top t w f))
    as (s1 & Hrun & Hs1); [intros _; reflexivity|].
  exists s1. split; [exact Hrun|]. destruct Hs1 as [->|[[Hn ->]|[Hin ->]]]; [done|by apply inv_lock|].
  apply inv_append; try done; unfold w_owned, w_active, w_idling; rewrite ?Hp; cbn; try done.
  - by rewrite app_nil_r.
  - split_and!; [done| |done]. unfold cb_ok in *. rewrite Hp in Hcb. cbn. by destruct (w_cb_fiber w).
Qed.

Lemma safe_cb_back thread st :
  w_phase w = PCb thread -> exists s', run_cb_back t w thread st s = Ok tt s' /\ inv s'.
Proof.
  intros Hp. destruct (inv_workers s Hinv t w Hw) as (Hidle & Hcb & Hph).
  rewrite Hp in Hidle, Hph. cbn in Hph. unfold cb_ok in Hcb. rewrite Hp in Hcb.
  destruct (w_cb_fiber w) as [g|] eqn:Eg; [|done]. cbn in Hcb.
  pose proof (cb_apart g Eg) as Hgi.
  pose (w' := if bool_decide (st = READY) then mkWorker (PCbAgain thread) (Some g) (w_idle w) (w_held w)
              else if finished st then mkWorker PTop (Some g) (w_idle w) (w_held w)
              else mkWorker PTop None (w_idle w) (Some g)).
  pose (v := if bool_decide (st = READY) then READY else if finished st then INIT else HOLD).
  assert (Hrun : run_cb_back t w thread st s = Ok tt (set_worker t w' (set_fstate g v
    (set_sched (set_active (u64 (m_activeThreadNum (sched s) - 1)) (sched s)) s)))).
  { unfold run_cb_back, w', v. rewrite Eg. rewrite (bind_Ok _ _ s g s eq_refl).
    case_bool_decide as Hr.
    - subst st. unfold goto. by rewrite Eg.
    - destruct (finished st); [unfold goto; by rewrite Eg|done]. }
  eexists. split; [exact Hrun|].
  assert (w_idle w' = w_idle w) as Hwi by (unfold w'; case_bool_decide; [done|]; by destruct (finished st)).
  apply (safe_local s t w Hinv Hw _ w'); try done; try grows.
  - unfold w'. case_bool_decide; [grows|]. destruct (finished st); grows.
  - exists []. split; [by left|]. unfold w_owned. rewrite Hp, Eg, Hwi. cbn [app].
    apply submseteq_skip. unfold w'. case_bool_decide; [done|].
    destruct (finished st); cbn; [done|apply submseteq_nil_l].
  - apply (insert_fresh s g v Hinv). by eapply state_fresh.
  - intros h Hh _. cbn. rewrite lookup_insert_ne; [done|]. intros <-. apply Hh.
    unfold w_owned. rewrite Eg. right. left.
  - split_and!; cbn.
    + destruct Hidle as (z & Hz & Hiz). exists z. rewrite Hwi, lookup_insert_ne by done.
      split; [done|]. unfold w'. case_bool_decide; [done|]. by destruct (finished st).
    + unfold cb_ok, w', v. case_bool_decide; cbn; [by rewrite lookup_insert_eq|].
      destruct (finished st); cbn; [by rewrite lookup_insert_eq|done].
    + unfold w'. case_bool_decide; [done|]. by destruct (finished st).
  - unfold w'. case_bool_decide; [counters Hinv Hp|]. destruct (finished st); counters Hinv Hp.
  - unfold w'. case_bool_decide; [counters Hinv Hp|]. destruct (finished st); counters Hinv Hp.
Qed.

Lemma safe_cb_again thread :
  w_phase w = PCbAgain thread -> exists s', run_cb_again t w thread s = Ok tt s' /\ inv s'.
Proof.
  intros Hp. destruct (inv_workers s Hinv t w Hw) as (Hidle & Hcb & Hph).
  rewrite Hp in Hidle. unfold cb_ok in Hcb. rewrite Hp in Hcb.
  destruct (w_cb_fiber w) as [g|] eqn:Eg; [|done]. cbn in Hcb.
  unfold run_cb_again. rewrite Eg, (bind_Ok _ _ s g s eq_refl).
  edestruct (call_schedule_cases (WFiber (Some g)) thread
    (modify (set_worker t (mkWorker PTop None (w_idle w) (Some g))))) as (s1 & Hrun & Hs1);
    [intros _; reflexivity|].
  exists s1. split; [exact Hrun|]. destruct Hs1 as [->|[[Hn ->]|[Hin ->]]]; [done|by apply inv_lock|].
  apply inv_append; try done; unfold w_owned, w_active, w_idling; rewrite ?Hp, ?Eg; cbn; try done.
Qed.

Lemma safe_idle_back st :
  w_phase w = PIdle -> st <> EXCEPT -> exists s', run_idle_back t w st s = Ok tt s' /\ inv s'.
Proof.
  intros Hp Hst. destruct (inv_workers s Hinv t w Hw) as ((x & Hx & _) & Hcb & _).
  eexists. split; [reflexivity|].
  apply (safe_local s t w Hinv Hw _ (mkWorker PTop (w_cb_fiber w) (w_idle w) (w_held w))); try done; try grows.
  - exists []. split; [by left|]. unfold w_owned. by rewrite Hp.
  - apply (insert_fresh s (w_idle w) _ Hinv). by eapply state_fresh.
  - intros h Hh _. cbn. rewrite lookup_insert_ne; [done|]. intros <-. apply Hh. left.
  - split_and!; cbn; [| |done].
    + eexists. split; [by rewrite lookup_insert_eq|]. unfold finished. case_bool_decide as Hf; [destruct Hf as [-> | ->]|]; done.
    + unfold cb_ok in *. rewrite Hp in Hcb. cbn. destruct (w_cb_fiber w) as [g|] eqn:Eg; [|done].
      rewrite lookup_insert_ne; [done|]. by apply not_eq_sym, cb_apart.
  - counters Hinv Hp.
  - counters Hinv Hp.
Qed.

Lemma safe_done : w_phase w = PDone -> exists s', (mreturn tt : M Sys unit) s = Ok tt s' /\ inv s'.
Proof. by exists s. Qed.
End back.

Lemma safe_enter s t :
  inv s -> workers s !! t = None -> exists s', run_enter t s = Ok tt s' /\ inv s'.
Proof.
  intros Hinv Hw. eexists. split; [reflexivity|].
  apply (inv_update s _ t (mkWorker PTop None (next_fiber s) None) Hinv); rewrite ?Hw; cbn; try done; try grows.
  - exists [next_fiber s]. split; [by right|]. rewrite app_nil_r.
    by rewrite Permutation_app_comm.
  - intros f x [[<- _]|[_ Hx]]%lookup_insert_Some; [lia|]. apply (inv_fresh s Hinv) in Hx. lia.
  - intros f _ Hf. by rewrite lookup_insert_ne by done.
  - split_and!; [|done|done]. exists INIT. by rewrite lookup_insert_eq.
  - unfold count. cbn. rewrite Z.add_0_r. exact (active_same s Hinv).
  - unfold count. cbn. rewrite Z.add_0_r. exact (idling_same s Hinv).
Qed.

(** Nothing but the fibers that exist and the pointers from outside change; those
    that are queued or with a thread keep their states. *)
Lemma inv_frame s s' :
  inv s -> workers s' = workers s -> sched s' = sched s -> in_schedule s' = in_schedule s ->
  (forall f, f ∈ owned s -> states s' !! f = states s !! f) ->
  (forall f x, states s' !! f = Some x -> f < next_fiber s') ->
  (forall f, f ∈ others s' -> is_Some (states s' !! f)) ->
  (forall t w f, workers s !! t = Some w -> w_held w = Some f -> is_Some (states s' !! f)) ->
  inv s'.
Proof.
  intros [Hown Hfr Hoth Hheld Hq Hw Ha Hi] Hws Hsc Hin Hst Hfr' Hoth' Hheld'.
  assert (queued s' = queued s) as Hqq by (unfold queued; by rewrite Hsc, Hin).
  split; unfold owned in *; rewrite ?Hws, ?Hqq, ?Hsc; try done.
  - rewrite Forall_forall in Hq |- *. intros x Hx. eapply task_ok_frame; [|by apply Hq].
    intros f Hf. apply Hst. apply elem_of_app. left. apply q_owned_elem. eauto.
  - intros t w Hwt. eapply worker_ok_frame; [|by apply Hw]. intros f Hf. apply Hst.
    apply elem_of_app. right. apply gather_elem. eauto.
Qed.

Lemma owned_fresh s : inv s -> next_fiber s ∉ owned s.
Proof. intros Hinv Hin. destruct (owned_state s _ Hinv Hin) as [x Hx]. apply (inv_fresh s Hinv) in Hx. lia. Qed.

(** A new fiber: the states of the others stay. *)
Lemma safe_create s : inv s -> exists s', exec LNew s = Ok tt s' /\ inv s'.
Proof.
  intros Hinv. eexists. split; [reflexivity|].
  assert (Hold : forall f, is_Some (states s !! f) -> is_Some (<[next_fiber s := INIT]> (states s) !! f))
    by (intros f Hf; rewrite lookup_insert_is_Some'; auto).
  apply (inv_frame s); try done; cbn.
  - intros f Hf. rewrite lookup_insert_ne; [done|]. intros <-. by apply (owned_fresh s).
  - intros f x [[<- _]|[_ Hx]]%lookup_insert_Some; [lia|]. apply (inv_fresh s Hinv) in Hx. lia.
  - intros f [->%elem_of_singleton|Hf]%elem_of_union; [by rewrite lookup_insert_eq|].
    apply Hold. by apply inv_others.
  - intros t w f Hw Hf. apply Hold. by eapply inv_held.
Qed.

Lemma safe_keep s f : inv s -> is_Some (states s !! f) -> exists s', exec (LKeep f) s = Ok tt s' /\ inv s'.
Proof.
  intros Hinv Hf. eexists. split; [reflexivity|]. apply (inv_frame s); try done; cbn.
  - exact (inv_fresh s Hinv).
  - intros g [->%elem_of_singleton|Hg]%elem_of_union; [done|]. by apply inv_others.
  - exact (inv_held s Hinv).
Qed.

(** A fiber that threw and to which nobody points any more. *)
Definition thrown_away (f : Z) (s : Sys) : Prop := states s !! f = Some EXCEPT /\ ~ pointed f s.

(** Dropping a pointer destroys a finished fiber with the last one, and fails
    the assertion of [~Fiber] exactly on one that threw. *)
Lemma drop_pointer_safe s f :
  inv s -> is_Some (states s !! f) ->
  (thrown_away f s -> drop_pointer f s = Abort)
  /\ (~ thrown_away f s -> exists s', drop_pointer f s = Ok tt s' /\ inv s'
        /\ workers s' = workers s /\ sched s' = sched s /\ in_schedule s' = in_schedule s).
Proof.
  intros Hinv [x Hx]. unfold drop_pointer, thrown_away. rewrite (bind_Ok get _ s s s eq_refl).
  destruct (decide (pointed f s)) as [Hp|Hp].
  - split; [by intros []|]. intros _. by exists s.
  - rewrite (bind_Ok _ _ s x s); [|by apply fiber_state_at].
    assert (~ on_own_stack (Some x)) as Hstack by (rewrite <- Hx; unfold pointed in Hp; tauto).
    split; [intros [He _]; by replace x with EXCEPT by congruence|].
    intros Hne. rewrite (bind_Ok _ _ s tt s).
    2: { unfold Assert. rewrite bool_decide_true; [done|]. destruct x; cbn in Hstack; auto; tauto. }
    eexists. split; [reflexivity|]. split; [|done].
    assert (Hdel : forall g, pointed g s -> is_Some (states s !! g) -> is_Some (delete f (states s) !! g))
      by (intros g Hg Hs; rewrite lookup_delete_ne; [done|congruence]).
    apply (inv_frame s); try done; cbn.
    + intros g Hg. apply lookup_delete_ne. intros ->. apply Hp. unfold owned in Hg.
      apply elem_of_app in Hg as [Hg|(t & w & Hw & Hg)%gather_elem]; [right; by left|].
      right; right; left. exists t, w. auto.
    + intros g y [_ Hy]%lookup_delete_Some. by apply (inv_fresh s Hinv) in Hy.
    + intros g Hg. apply Hdel; [by left|by apply inv_others].
    + intros t w g Hw Hg. apply Hdel; [|by eapply inv_held]. right; right; left. exists t, w. auto.
Qed.

(** The pointer a step drops, and the state it does so in. *)
Definition drops (l : label) (s : Sys) : option (Z * Sys) :=
  match l with
  | LDrop f => Some (f, set_others (others s ∖ {[f]}) s)
  | LRun t _ _ =>
      w ← workers s !! t;
      match w_phase w with
      | PTop => (fun f => (f, set_worker t (mkWorker PTop (w_cb_fiber w) (w_idle w) None) s)) <$> w_held w
      | _ => None
      end
  | _ => None
  end.
Definition throws_away (l : label) (s : Sys) : Prop :=
  exists f s1, drops l s = Some (f, s1) /\ thrown_away f s1.

(** A thread is about to scan the queue while somebody is inside [schedule]. *)
Definition overlaps (l : label) (s : Sys) : Prop :=
  exists t stale st w, l = LRun t stale st /\ workers s !! t = Some w /\ w_phase w = PTop
    /\ in_schedule s <> None.

Lemma safe_drop s f :
  inv s -> f ∈ others s ->
  (throws_away (LDrop f) s -> exec (LDrop f) s = Abort)
  /\ (~ throws_away (LDrop f) s -> exists s', exec (LDrop f) s = Ok tt s' /\ inv s').
Proof.
  intros Hinv Hf. set (s1 := set_others (others s ∖ {[f]}) s).
  assert (inv s1) as Hinv1.
  { apply (inv_frame s); try done; cbn; [exact (inv_fresh s Hinv)| |exact (inv_held s Hinv)].
    intros g [Hg _]%elem_of_difference. by apply inv_others. }
  destruct (drop_pointer_safe s1 f Hinv1) as [Habort Hok]; [by apply (inv_others s Hinv)|].
  change (exec (LDrop f) s) with (drop_pointer f s1). split.
  - intros (g & s2 & [= <- <-] & Hg). by apply Habort.
  - intros Hn. destruct Hok as (s' & Hrun & Hinv' & _); [|eauto].
    intros Ht. apply Hn. by exists f, s1.
Qed.

(** The thread's own pointer is dropped. *)
Lemma inv_unheld s t w :
  inv s -> workers s !! t = Some w ->
  inv (set_worker t (mkWorker (w_phase w) (w_cb_fiber w) (w_idle w) None) s).
Proof.
  intros Hinv Hw. destruct (inv_workers s Hinv t w Hw) as (Hidle & Hcb & Hph).
  apply (safe_local s t w Hinv Hw _ (mkWorker (w_phase w) (w_cb_fiber w) (w_idle w) None)); try done; try grows.
  - exact (inv_fresh s Hinv).
  - unfold w_active. cbn. rewrite Z.sub_diag, Z.add_0_r. exact (active_same s Hinv).
  - unfold w_idling. cbn. rewrite Z.sub_diag, Z.add_0_r. exact (idling_same s Hinv).
Qed.

(** One turn from the release to the end of the scan. *)
Lemma safe_scan s t w stale :
  inv s -> workers s !! t = Some w -> w_phase w = PTop ->
  (forall f, w_held w = Some f ->
     thrown_away f (set_worker t (mkWorker PTop (w_cb_fiber w) (w_idle w) None) s) ->
     run_scan t stale w s = Abort)
  /\ ((forall f, w_held w = Some f ->
        ~ thrown_away f (set_worker t (mkWorker PTop (w_cb_fiber w) (w_idle w) None) s)) ->
      (in_schedule s <> None -> run_scan t stale w s = Ub)
      /\ (in_schedule s = None -> exists s', run_scan t stale w s = Ok tt s' /\ inv s')).
Proof.
  intros Hinv Hw Hp. unfold run_scan, release_held. rewrite Hp.
  set (w1 := mkWorker PTop (w_cb_fiber w) (w_idle w) None). set (s1 := set_worker t w1 s).
  assert (Hafter : forall s2, inv s2 -> workers s2 = <[t := w1]> (workers s) ->
    in_schedule s2 = in_schedule s ->
    (in_schedule s <> None -> run_select t stale w s2 = Ub)
    /\ (in_schedule s = None -> exists s', run_select t stale w s2 = Ok tt s' /\ inv s')).
  { intros s2 Hinv2 Hws2 Hin2. split; intros Hin.
    - unfold run_select. rewrite (bind_Ok get _ s2 s2 s2 eq_refl), Hin2.
      by destruct (in_schedule s).
    - destruct (safe_select s2 t w1 Hinv2 (ltac:(by rewrite Hws2, lookup_insert_eq)) stale eq_refl)
        as (s' & Hrun & ?); [congruence|]. by exists s'. }
  destruct (w_held w) as [f|] eqn:Eh.
  - pose proof (inv_unheld s t w Hinv Hw) as Hinv1. rewrite Hp in Hinv1. fold w1 in Hinv1. fold s1 in Hinv1.
    destruct (drop_pointer_safe s1 f Hinv1) as [Habort Hok]; [by eapply (inv_held s)|].
    change (((modify _ ;;; drop_pointer f) ;;; run_select t stale w) s)
      with ((drop_pointer f ;;; run_select t stale w) s1). split.
    + intros g [= <-] Ht. unfold bind. by rewrite Habort.
    + intros Hn. destruct Hok as (s2 & Hrun & Hinv2 & Hws2 & _ & Hin2); [by apply Hn|].
      rewrite (bind_Ok _ _ s1 tt s2 Hrun). by apply Hafter.
  - rewrite bind_ret. split; [done|]. intros _.
    assert (w1 = w) as Ew by (unfold w1; destruct w; cbn in *; congruence).
    apply (Hafter s Hinv); [|done]. by rewrite Ew, insert_id.
Qed.

Lemma queued_flight s w thread :
  in_schedule s = Some (ACaller w thread) ->
  queued (set_in_schedule None (set_sched (Scheduler_schedule w thread (sched s)) s)) = queued s.
Proof.
  intros Hin. destruct (schedule_state w thread (sched s)) as (_ & _ & Hq).
  unfold queued. cbn [sched set_in_schedule set_sched in_schedule in_flight]. rewrite Hq, Hin.
  cbn [in_flight]. destruct (valid_task _); by rewrite !app_nil_r.
Qed.

Lemma safe_schedule s w thread :
  inv s -> env_ok s (LSchedule w thread) -> exists s', exec (LSchedule w thread) s = Ok tt s' /\ inv s'.
Proof.
  intros Hinv Hok. cbn [exec env_ok] in *. rewrite (bind_Ok get _ s s s eq_refl).
  destruct (in_schedule s) as [a|] eqn:Hin; cbn [is_some]; [by exists s|].
  eexists. split; [reflexivity|]. destruct Hinv as [Hown Hfr Hoth Hheld Hq Hw Ha Hi].
  set (s' := set_in_schedule _ s).
  assert (queued s' = queued s ++ in_flight (Some (ACaller w thread))) as Hqs
    by (unfold queued; cbn; by rewrite Hin, app_nil_r).
  split; unfold owned in *; rewrite ?Hqs; try done.
  - cbn [in_flight s' workers set_in_schedule]. rewrite q_owned_app.
    destruct w as [[f|]|[c|]]; cbn [valid_task FiberTask_of is_some cb fiber orb]; try by rewrite app_nil_r.
    change (q_owned [_]) with [f]. rewrite <- app_assoc, (Permutation_app_comm [f]), app_assoc.
    destruct Hok as [Hf _]. apply NoDup_app. split_and!; [done| |apply NoDup_singleton].
    intros g Hg ->%list_elem_of_singleton. by apply Hf.
  - apply Forall_app. split; [done|]. cbn [s' states set_in_schedule].
    destruct w as [[f|]|[c|]]; cbn; repeat constructor; try done; intros g [= <-].
    by destruct Hok as [_ Hx].
Qed.

Lemma safe_scheduled s : inv s -> exists s', exec LScheduled s = Ok tt s' /\ inv s'.
Proof.
  intros Hinv. cbn [exec]. rewrite (bind_Ok get _ s s s eq_refl).
  destruct (in_schedule s) as [[t|w thread]|] eqn:Hin; [by exists s| |by exists s].
  eexists. split; [reflexivity|]. destruct (schedule_state w thread (sched s)) as (Ha & Hi & _).
  apply (safe_same s Hinv); try done. by apply queued_flight.
Qed.

Lemma exec_safe s l :
  inv s -> env_ok s l ->
  (throws_away l s -> exec l s = Abort)
  /\ (~ throws_away l s -> overlaps l s -> exec l s = Ub)
  /\ (~ throws_away l s -> ~ overlaps l s -> exists s', exec l s = Ok tt s' /\ inv s').
Proof.
  intros Hinv Hok.
  assert (Hquiet : (~ throws_away l s) -> (~ overlaps l s) ->
    (exists s', exec l s = Ok tt s' /\ inv s') ->
    (throws_away l s -> exec l s = Abort)
    /\ (~ throws_away l s -> overlaps l s -> exec l s = Ub)
    /\ (~ throws_away l s -> ~ overlaps l s -> exists s', exec l s = Ok tt s' /\ inv s')) by tauto.
  destruct l as [|f|f|w thread| |t stale st].
  all: try (apply Hquiet; [by intros (? & ? & ? & _)|by intros (? & ? & ? & ? & ? & _)|]).
  - by apply safe_create.
  - by apply safe_keep.
  - destruct (safe_drop s f Hinv Hok) as [H1 H2]. split_and!; [done|by intros _ (? & ? & ? & ? & ? & _)|auto].
  - by apply safe_schedule.
  - by apply safe_scheduled.
  - cbn [exec env_ok] in *. unfold run_step. rewrite (bind_Ok get _ s s s eq_refl).
    unfold throws_away, overlaps. cbn [drops].
    destruct (workers s !! t) as [w|] eqn:Hw; cbn [mbind option_bind].
    2: { split_and!; [by intros (? & ? & ? & _)|intros _ (? & ? & ? & ? & [= <- <- <-] & ? & _); congruence|].
         intros _ _. by apply safe_enter. }
    destruct (w_phase w) as [|ft a|f ft|f ft|thread|thread| |] eqn:Hp.
    2-8: split_and!; [by intros (? & ? & ? & _)|intros _ (? & ? & ? & ? & [= <- <- <-] & ? & ? & _); congruence|intros _ _].
    + destruct (safe_scan s t w stale Hinv Hw Hp) as [H1 H2]. split_and!.
      * intros (f & s1 & Hd & Ht). destruct (w_held w) as [g|] eqn:Eh; [|done]. injection Hd as <- <-. by eapply H1.
      * intros Hn (t' & ? & ? & w' & [= <- <- <-] & Hw' & _ & Hin). apply H2; [|done].
        intros f Hf Ht. apply Hn. rewrite Hf. eexists _, _. by split.
      * intros Hn Ho. apply H2.
        -- intros f Hf Ht. apply Hn. rewrite Hf. eexists _, _. by split.
        -- destruct (in_schedule s) eqn:Hin; [|done]. destruct Ho. exists t, stale, st, w. by split_and!.
    + by apply safe_dispatch.
    + by apply safe_fiber_back.
    + by apply safe_fiber_again.
    + by apply safe_cb_back.
    + by apply safe_cb_again.
    + apply safe_idle_back; [done..|]. by apply (Hok w).
    + by exists s.
Qed.

Lemma exec_inv s l s' : inv s -> env_ok s l -> exec l s = Ok tt s' -> inv s'.
Proof.
  intros Hinv Hok Hrun. destruct (exec_safe s l Hinv Hok) as (H1 & H2 & H3).
  assert (~ throws_away l s) as Ht by (intros Ht; rewrite H1 in Hrun by done; done).
  assert (~ overlaps l s) as Ho by (intros Ho; rewrite H2 in Hrun by done; done).
  destruct (H3 Ht Ho) as (s2 & Hrun2 & ?). congruence.
Qed.

(** ** Where the tasks are *)

Definition w_pending (_ : Z) (w : worker) : list FiberTask :=
  match w_phase w with
  | PDispatch ft true => [ft]
  | PFiber f ft | PFiberAgain f ft => [mkFiberTask (Some f) None (thread_id ft)]
  | PCb thread | PCbAgain thread => [mkFiberTask (w_cb_fiber w) None thread]
  | _ => []
  end.

Definition pending (s : Sys) : list FiberTask :=
  queued s ++ gather w_pending (workers s).

(** The tasks a step completes and the tasks it adds.  A callback that starts
    becomes the task of the fiber it runs on; a task is completed when its fiber
    comes back in any state but [READY], or has already finished. *)
Definition effect (s : Sys) (l : label) : list FiberTask * list FiberTask :=
  match l with
  | LSchedule w thread =>
      ([], if is_some (in_schedule s) then [] else in_flight (Some (ACaller w thread)))
  | LRun t _ st =>
      match workers s !! t with
      | None => ([], [])
      | Some w =>
          match w_phase w with
          | PDispatch ft true =>
              match fiber ft with
              | Some f => if bool_decide (states s !! f = Some TERM \/ states s !! f = Some EXCEPT)
                          then ([ft], []) else ([], [])
              | None => ([ft], [mkFiberTask (Some (default (next_fiber s) (w_cb_fiber w))) None (thread_id ft)])
              end
          | PFiber _ _ | PCb _ =>
              (if bool_decide (st = READY) then [] else w_pending t w, [])
          | _ => ([], [])
          end
      end
  | _ => ([], [])
  end.

Definition balance (q q' : list FiberTask) (p p' : list FiberTask) (e : list FiberTask * list FiberTask) : Prop :=
  e.1 ++ q' ++ p' ≡ₚ q ++ p ++ e.2.

Lemma pending_update s s' t w w' e :
  workers s !! t = Some w -> workers s' = <[t := w']> (workers s) ->
  balance (queued s) (queued s') (w_pending t w) (w_pending t w') e ->
  e.1 ++ pending s' ≡ₚ pending s ++ e.2.
Proof.
  intros Hw Hws Hb. unfold balance in Hb. unfold pending. rewrite Hws, gather_insert, (gather_lookup _ _ _ _ Hw).
  set (rest := gather w_pending (delete t (workers s))).
  rewrite !app_assoc in Hb |- *. rewrite Hb, <- !app_assoc.
  do 2 apply Permutation_app_head. apply Permutation_app_comm.
Qed.

Lemma fiber_enter_inv f s a s' : fiber_enter f s = Ok a s' -> s' = set_fstate f EXEC s.
Proof.
  unfold fiber_enter, fiber_state, bind, Assert, modify. destruct (states s !! f); [|done].
  cbn. case_bool_decide; cbn; [case_bool_decide|]; cbn; congruence.
Qed.

Lemma balance_same q p : balance q q p p ([], []).
Proof. unfold balance. cbn. by rewrite app_nil_r. Qed.

(** The fiber for a callback is the kept one or a new one; threads and queue stay. *)
Lemma prepare_cb_inv s w g s1 :
  (match w_cb_fiber w with
   | Some g =>
       st <-- fiber_state g ;;
       Assert (bool_decide (st = INIT \/ st = TERM \/ st = EXCEPT)) ;;;
       modify (set_fstate g INIT) ;;; mreturn g
   | None => alloc_fiber
   end) s = Ok g s1 ->
  g = default (next_fiber s) (w_cb_fiber w) /\ workers s1 = workers s /\ queued s1 = queued s.
Proof.
  intros Hg. destruct (w_cb_fiber w) as [g0|]; [|by injection Hg as <- <-].
  apply bind_Ok_inv in Hg as (x & s2 & Hx & Hg). unfold fiber_state in Hx.
  destruct (states s !! g0); [|done]. injection Hx as <- <-.
  apply bind_Ok_inv in Hg as (? & s3 & Has & Hg). unfold Assert in Has.
  case_bool_decide; [|done]. injection Has as _ <-. by injection Hg as <- <-.
Qed.

Lemma dispatch_balance s t w ft a s' :
  inv s -> workers s !! t = Some w -> w_phase w = PDispatch ft a ->
  run_dispatch t w ft a s = Ok tt s' ->
  exists w', workers s' = <[t := w']> (workers s)
    /\ queued s' = queued s
    /\ forall q, balance q q (w_pending t w) (w_pending t w') (effect s (LRun t true TERM)).
Proof.
  intros Hinv Hw Hp Hrun. destruct (inv_workers s Hinv t w Hw) as (_ & _ & Hph).
  rewrite Hp in Hph. cbn [effect]. rewrite Hw, Hp. unfold run_dispatch in Hrun.
  unfold w_pending at 1. setoid_rewrite Hp. destruct (fiber ft) as [f|] eqn:Ef.
  - destruct a; cbn in Hph; [|by subst ft]. destruct Hph as [[Hk Hex] _].
    destruct (Hex f Ef) as (x & Hx & _). rewrite (ready_run s f x _ Hx) in Hrun.
    pose proof (one_kind_fiber ft f Hk Ef) as Hc. rewrite Hc in Hrun.
    unfold finished in Hrun. rewrite Hx. destruct (decide (x = TERM \/ x = EXCEPT)) as [Hd|Hd].
    + rewrite bool_decide_true in Hrun by done. cbn in Hrun. injection Hrun as <-.
      eexists. split; [reflexivity|]. split; [done|]. intros q.
      rewrite bool_decide_true by (destruct Hd as [->| ->]; auto). unfold balance. cbn.
      rewrite !app_nil_r. by rewrite Permutation_app_comm.
    + rewrite bool_decide_false in Hrun by done.
      apply bind_Ok_inv in Hrun as (? & s1 & Hen & Hrun). apply fiber_enter_inv in Hen as ->.
      injection Hrun as <-. eexists. split; [reflexivity|]. split; [done|]. intros q.
      rewrite bool_decide_false by (intros [?|?]; naive_solver). cbn.
      replace ft with (mkFiberTask (Some f) None (thread_id ft)) at 1
        by (destruct ft; cbn in *; congruence).
      apply balance_same.
  - rewrite bind_ret in Hrun. destruct a; cbn in Hph.
    + destruct Hph as [[Hk _] _]. destruct (one_kind_cb ft Hk Ef) as [c Hc]. rewrite Hc in Hrun.
      apply bind_Ok_inv in Hrun as (g & s1 & Hg & Hrun).
      apply prepare_cb_inv in Hg as (-> & Hws & Hsc).
      apply bind_Ok_inv in Hrun as (? & s2 & Hen & Hrun). apply fiber_enter_inv in Hen as ->.
      injection Hrun as <-. eexists. split; [cbn; rewrite Hws; reflexivity|].
      split; [exact Hsc|]. intros q. unfold balance. cbn.
      apply Permutation_middle.
    + subst ft. cbn in Hrun. apply bind_Ok_inv in Hrun as (x & s1 & Hx & Hrun).
      unfold fiber_state in Hx. destruct (states s !! w_idle w); [|done]. injection Hx as <- <-.
      case_bool_decide.
      * injection Hrun as <-. eexists. split; [reflexivity|]. split; [done|]. intros q.
        apply balance_same.
      * cbn [bind on_sched modify] in Hrun.
        apply bind_Ok_inv in Hrun as (? & s2 & Hen & Hrun). apply fiber_enter_inv in Hen as ->.
        injection Hrun as <-. eexists. split; [reflexivity|]. split; [done|]. intros q.
        apply balance_same.
Qed.

Lemma pending_unchanged s s' :
  workers s' = workers s -> queued s' = queued s -> pending s' = pending s.
Proof. unfold pending. by intros -> ->. Qed.

Lemma schedule_pending w thread s :
  in_schedule s = None ->
  pending (set_in_schedule (Some (ACaller w thread)) s)
  ≡ₚ pending s ++ in_flight (Some (ACaller w thread)).
Proof.
  intros Hin. unfold pending, queued. cbn [sched set_in_schedule in_schedule workers].
  rewrite Hin. cbn [in_flight]. rewrite app_nil_r, <- !app_assoc.
  apply Permutation_app_head, Permutation_app_comm.
Qed.

Section balance.
Context (s : Sys) (t : Z) (w : worker) (s' : Sys).
Context (Hinv : inv s) (Hw : workers s !! t = Some w).

Lemma release_pending s1 :
  release_held t w s = Ok tt s1 ->
  exists w1, workers s1 = <[t := w1]> (workers s) /\ w_phase w1 = w_phase w
    /\ w_cb_fiber w1 = w_cb_fiber w /\ w_idle w1 = w_idle w
    /\ queued s1 = queued s /\ inv s1.
Proof.
  unfold release_held. intros Hrun. destruct (w_held w) as [f|] eqn:Eh.
  2: { injection Hrun as <-. exists w. by rewrite insert_id. }
  pose proof (inv_unheld s t w Hinv Hw) as Hinv1. set (w1 := mkWorker _ _ _ None) in *.
  change (drop_pointer f (set_worker t w1 s) = Ok tt s1) in Hrun.
  destruct (drop_pointer_safe (set_worker t w1 s) f Hinv1) as [Habort Hok]; [by eapply (inv_held s)|].
  destruct (decide (thrown_away f (set_worker t w1 s))) as [Ht|Ht]; [by rewrite Habort in Hrun|].
  destruct (Hok Ht) as (s2 & Hrun2 & Hinv2 & Hws & Hsc & Hin). rewrite Hrun in Hrun2.
  injection Hrun2 as <-. exists w1. split_and!; try done. unfold queued. by rewrite Hsc, Hin.
Qed.

Lemma scan_balance stale st :
  w_phase w = PTop -> run_scan t stale w s = Ok tt s' ->
  (effect s (LRun t stale st)).1 ++ pending s' ≡ₚ pending s ++ (effect s (LRun t stale st)).2.
Proof.
  intros Hp Hrun. cbn [effect]. rewrite Hw, Hp. unfold run_scan in Hrun.
  apply bind_Ok_inv in Hrun as ([] & s1 & Hrel & Hrun).
  destruct (release_pending s1 Hrel) as (w1 & Hws1 & Hp1 & Hc1 & Hi1 & Hq1 & Hinv1).
  assert (in_schedule s1 = None) as Hin.
  { unfold run_select in Hrun. rewrite (bind_Ok get _ s1 s1 s1 eq_refl) in Hrun.
    by destruct (in_schedule s1). }
  assert (Hw1 : workers s1 !! t = Some w1) by (by rewrite Hws1, lookup_insert_eq).
  destruct (queue_valid s1 Hinv1 Hin) as [Hqs _].
  destruct (select_runs s1 t w Hinv1 stale Hin) as (o & q' & s2 & Hrun2 & Ho & Hws & _ & _ & _ & Hqq & _).
  rewrite Hrun in Hrun2. injection Hrun2 as <-.
  rewrite Hws1, insert_insert_eq in Hws. eapply (pending_update s s' t w _ ([], [])); [done|exact Hws|].
  rewrite Hqq, <- Hq1, Hqs. unfold balance, w_pending. rewrite Hp. cbn. rewrite app_nil_r.
  destruct o as [x|]; cbn.
  - destruct Ho as (l1 & l2 & -> & -> & _). rewrite <- app_assoc. apply Permutation_app_head, Permutation_app_comm.
  - rewrite Ho. by rewrite app_nil_r.
Qed.

(** The thread goes on to a phase in which it keeps the task or drops it. *)
Lemma move_balance w' (st : State) :
  workers s' = <[t := w']> (workers s) -> queued s' = queued s ->
  w_pending t w' = (if bool_decide (st = READY) then w_pending t w else []) ->
  (if bool_decide (st = READY) then [] else w_pending t w) ++ pending s' ≡ₚ pending s ++ [].
Proof.
  intros Hws Hq Hp. apply (pending_update s s' t w w' (if bool_decide (st = READY) then [] else w_pending t w, []));
    [done|done|]. rewrite Hq, Hp.
  case_bool_decide; [apply balance_same|]. unfold balance. cbn. rewrite !app_nil_r. by rewrite Permutation_app_comm.
Qed.

(** The task goes back to the end of the queue. *)
Lemma requeue_balance f w' thread s1 :
  (s1 = s \/ (in_schedule s = None /\ s1 = set_in_schedule (Some (AWorker t)) s)
   \/ (in_schedule s = Some (AWorker t) /\
       s1 = set_worker t w' (set_in_schedule None (set_sched (Scheduler_schedule (WFiber (Some f)) thread (sched s)) s)))) ->
  w_pending t w = [mkFiberTask (Some f) None thread] -> w_pending t w' = [] -> pending s1 ≡ₚ pending s ++ [].
Proof.
  rewrite app_nil_r. intros [->|[[Hin ->]|[Hin ->]]] Hp Hp'; [done| |].
  - rewrite (pending_unchanged s); [done|done|]. unfold queued. cbn. by rewrite Hin.
  - rewrite <- (app_nil_r (pending s)). eapply (pending_update s _ t w w' ([], [])); [done|done|].
    destruct (schedule_state (WFiber (Some f)) thread (sched s)) as (_ & _ & Hq').
    unfold queued. cbn [sched set_worker set_in_schedule set_sched in_schedule in_flight].
    rewrite Hin, Hq', Hp, Hp'. unfold balance. cbn. by rewrite !app_nil_r.
Qed.

Lemma back_balance stale st :
  (exists f ft, w_phase w = PFiber f ft /\ run_fiber_back t w f ft st s = Ok tt s')
  \/ (exists thread, w_phase w = PCb thread /\ run_cb_back t w thread st s = Ok tt s') ->
  (effect s (LRun t stale st)).1 ++ pending s' ≡ₚ pending s ++ (effect s (LRun t stale st)).2.
Proof.
  intros [(f & ft & Hp & Hrun)|(thread & Hp & Hrun)]; cbn [effect]; rewrite Hw, Hp.
  - apply (move_balance (if bool_decide (st = READY) then mkWorker (PFiberAgain f ft) (w_cb_fiber w) (w_idle w) (w_held w)
      else mkWorker PTop (w_cb_fiber w) (w_idle w) (Some f)));
      unfold run_fiber_back in Hrun.
    + case_bool_decide; by injection Hrun as <-.
    + case_bool_decide; by injection Hrun as <-.
    + unfold w_pending. rewrite Hp. by case_bool_decide.
  - unfold run_cb_back in Hrun.
    destruct (inv_workers s Hinv t w Hw) as (_ & Hcb & _). unfold cb_ok in Hcb. rewrite Hp in Hcb.
    destruct (w_cb_fiber w) as [g|] eqn:Eg; [|done]. rewrite (bind_Ok _ _ s g s eq_refl) in Hrun. unfold goto in Hrun.
    apply (move_balance (if bool_decide (st = READY) then mkWorker (PCbAgain thread) (Some g) (w_idle w) (w_held w)
      else if finished st then mkWorker PTop (Some g) (w_idle w) (w_held w)
      else mkWorker PTop None (w_idle w) (Some g))).
    + rewrite Eg in Hrun. case_bool_decide; [|destruct (finished st)]; by injection Hrun as <-.
    + case_bool_decide; [|destruct (finished st)]; by injection Hrun as <-.
    + unfold w_pending. rewrite Hp, Eg. case_bool_decide; [done|]. by destruct (finished st).
Qed.

Lemma again_balance stale st :
  (exists f ft, w_phase w = PFiberAgain f ft /\ run_fiber_again t w f ft s = Ok tt s')
  \/ (exists thread, w_phase w = PCbAgain thread /\ run_cb_again t w thread s = Ok tt s') ->
  (effect s (LRun t stale st)).1 ++ pending s' ≡ₚ pending s ++ (effect s (LRun t stale st)).2.
Proof.
  intros [(f & ft & Hp & Hrun)|(thread & Hp & Hrun)]; cbn [effect]; rewrite Hw, Hp.
  - edestruct (call_schedule_cases s t (WFiber (Some f)) (thread_id ft) (goto_top t w f))
      as (s1 & Hrun1 & Hs1); [intros _; reflexivity|].
    unfold run_fiber_again in Hrun. rewrite Hrun in Hrun1. injection Hrun1 as <-.
    eapply requeue_balance; [exact Hs1| |done]. unfold w_pending. by rewrite Hp.
  - unfold run_cb_again in Hrun.
    destruct (inv_workers s Hinv t w Hw) as (_ & Hcb & _). unfold cb_ok in Hcb. rewrite Hp in Hcb.
    destruct (w_cb_fiber w) as [g|] eqn:Eg; [|done]. rewrite (bind_Ok _ _ s g s eq_refl) in Hrun.
    edestruct (call_schedule_cases s t (WFiber (Some g)) thread
      (modify (set_worker t (mkWorker PTop None (w_idle w) (Some g))))) as (s1 & Hrun1 & Hs1);
      [intros _; reflexivity|].
    rewrite Hrun in Hrun1. injection Hrun1 as <-.
    eapply requeue_balance; [exact Hs1| |done]. unfold w_pending. by rewrite Hp, Eg.
Qed.
End balance.

Lemma run_balance s t stale st s' :
  inv s -> run_step t stale st s = Ok tt s' ->
  (effect s (LRun t stale st)).1 ++ pending s' ≡ₚ pending s ++ (effect s (LRun t stale st)).2.
Proof.
  intros Hinv Hrun. unfold run_step in Hrun. rewrite (bind_Ok get _ s s s eq_refl) in Hrun.
  destruct (workers s !! t) as [w|] eqn:Hw.
  2: { injection Hrun as <-. cbn [effect]. rewrite Hw. cbn [fst snd app]. rewrite app_nil_r.
       unfold pending. cbn. rewrite gather_insert. cbn. by rewrite delete_id. }
  destruct (w_phase w) as [|ft a|f ft|f ft|thread|thread| |] eqn:Hp.
  - by eapply scan_balance.
  - destruct (dispatch_balance s t w ft a s' Hinv Hw Hp Hrun) as (w' & Hws & Hq & Hb).
    eapply pending_update; [done|done|]. rewrite Hq.
    replace (effect s (LRun t stale st)) with (effect s (LRun t true TERM)); [apply Hb|].
    cbn [effect]. by rewrite Hw, Hp.
  - eapply back_balance; [done|done|left; eauto].
  - eapply again_balance; [done|done|left; eauto].
  - eapply back_balance; [done|done|right; eauto].
  - eapply again_balance; [done|done|right; eauto].
  - cbn [effect]. rewrite Hw, Hp. injection Hrun as <-.
    apply (pending_update _ _ t w (mkWorker PTop (w_cb_fiber w) (w_idle w) (w_held w))); [done|done|].
    change (queued (set_worker _ _ _)) with (queued s). unfold w_pending. rewrite Hp. apply balance_same.
  - cbn [effect]. rewrite Hw, Hp. injection Hrun as <-. cbn. by rewrite app_nil_r.
Qed.

Lemma exec_balance s l s' :
  inv s -> exec l s = Ok tt s' -> (effect s l).1 ++ pending s' ≡ₚ pending s ++ (effect s l).2.
Proof.
  intros Hinv Hrun. destruct l as [|f|f|w thread| |t stale st]; cbn [exec effect fst snd app] in *;
    rewrite ?app_nil_r.
  - by injection Hrun as <-.
  - by injection Hrun as <-.
  - apply bind_Ok_inv in Hrun as ([] & s1 & Hm & Hrun). injection Hm as <-.
    unfold drop_pointer in Hrun. rewrite (bind_Ok get _ _ _ _ eq_refl) in Hrun.
    destruct (decide _); [by injection Hrun as <-|].
    apply bind_Ok_inv in Hrun as (x & s1 & Hx & Hrun). unfold fiber_state in Hx.
    destruct (states _ !! f); [|done]. injection Hx as <- <-. unfold Assert, bind in Hrun.
    destruct (bool_decide _); [|done]. by injection Hrun as <-.
  - rewrite (bind_Ok get _ s s s eq_refl) in Hrun. destruct (in_schedule s) as [a|] eqn:Hin; cbn [is_some] in *.
    + injection Hrun as <-. by rewrite app_nil_r.
    + injection Hrun as <-. by apply schedule_pending.
  - rewrite (bind_Ok get _ s s s eq_refl) in Hrun.
    destruct (in_schedule s) as [[a|w thread]|] eqn:Hin; injection Hrun as <-; try done.
    unfold pending. by rewrite queued_flight.
  - exact (run_balance s t stale st s' Hinv Hrun).
Qed.

(** ** Reachable states *)

(** Any scheduler whose queue is empty and whose counters are 0, as the
    constructor leaves it. *)
Inductive sys_reachable : Sys -> Prop :=
| sys_start sc : m_fibers sc = [] -> m_activeThreadNum sc = 0 -> m_idelThreadNum sc = 0 ->
    sys_reachable (mkSys sc ∅ ∅ 0 ∅ None)
| sys_next s l s' : sys_reachable s -> env_ok s l -> exec l s = Ok tt s' -> sys_reachable s'.

Lemma inv_start sc :
  m_fibers sc = [] -> m_activeThreadNum sc = 0 -> m_idelThreadNum sc = 0 ->
  inv (mkSys sc ∅ ∅ 0 ∅ None).
Proof.
  intros Hq Ha Hi. split; unfold owned, queued; cbn; rewrite ?Hq, ?Ha, ?Hi; try done.
  constructor.
Qed.

Lemma reachable_inv s : sys_reachable s -> inv s.
Proof.
  induction 1 as [sc Hq Ha Hi|s l s' Hr IH Hok Hrun]; [by apply inv_start|].
  by eapply exec_inv.
Qed.

(** What anybody points to exists. *)
Lemma pointed_state s f : inv s -> pointed f s -> is_Some (states s !! f).
Proof.
  intros Hinv [Hf|[Hf|[(t & w & Hw & [Hf|Hf])|Hf]]].
  - by apply inv_others.
  - apply owned_state; [done|]. apply elem_of_app. by left.
  - apply owned_state; [done|]. apply elem_of_app. right. apply gather_elem. eauto.
  - by eapply inv_held.
  - by destruct (states s !! f).
Qed.

Lemma one_owner s t1 t2 w1 w2 f :
  inv s -> workers s !! t1 = Some w1 -> workers s !! t2 = Some w2 ->
  f ∈ w_owned t1 w1 -> f ∈ w_owned t2 w2 -> t1 = t2.
Proof.
  intros Hinv H1 H2 Hf1 Hf2. destruct (decide (t1 = t2)) as [|Hne]; [done|]. exfalso.
  pose proof (inv_owned s Hinv) as Hn. unfold owned in Hn.
  apply NoDup_app in Hn as (_ & _ & Hn). rewrite (gather_lookup _ _ _ _ H1) in Hn.
  apply NoDup_app in Hn as (_ & Hd & _). apply (Hd f Hf1), gather_elem.
  exists t2, w2. by rewrite lookup_delete_ne.
Qed.

(** The thread is executing a task or about to. *)
Definition busy (w : worker) : bool :=
  match w_phase w with PDispatch _ true | PFiber _ _ | PCb _ => true | _ => false end.

Lemma count_active_zero (m : gmap Z worker) :
  count (gather w_active m) = 0 <-> forall t w, m !! t = Some w -> busy w = false.
Proof.
  unfold count. split.
  - intros H t w Hw. destruct (gather w_active m) as [|u l] eqn:E; [|cbn in H; lia].
    destruct (busy w) eqn:Eb; [|done]. assert (tt ∈ gather w_active m) as Hin.
    { apply gather_elem. exists t, w. split; [done|]. unfold w_active. unfold busy in Eb.
      destruct (w_phase w) as [|ft [|]| | | | | |]; try done; left. }
    rewrite E in Hin. by apply elem_of_nil in Hin.
  - intros H. destruct (gather w_active m) as [|u l] eqn:E; [done|].
    assert (u ∈ gather w_active m) as Hin by (rewrite E; left).
    apply gather_elem in Hin as (t & w & Hw & Hu). specialize (H t w Hw).
    unfold w_active in Hu. unfold busy in H.
    destruct (w_phase w) as [|ft [|]| | | | | |]; try done; by apply elem_of_nil in Hu.
Qed.

(** Thread 7 takes fiber 0, which comes back [READY]. *)
Definition run_labels (ls : list label) (s : Sys) : option Sys :=
  foldl (fun o l => match o with
                    | Some s => match exec l s with Ok _ s' => Some s' | _ => None end
                    | None => None
                    end) (Some s) ls.

Definition stopping_sched : Scheduler := mkScheduler false true 1 0 0 (-1) None [7] [7] [] 0.
Definition sys0 : Sys := mkSys stopping_sched ∅ ∅ 0 ∅ None.
Definition requeue_labels : list label :=
  [LNew; LSchedule (WFiber (Some 0)) (-1); LScheduled; LRun 7 false INIT; LRun 7 false INIT;
   LRun 7 false INIT; LRun 7 false READY].
Definition requeue_example : Sys := default sys0 (run_labels requeue_labels sys0).

Lemma reachable_steps s ls :
  sys_reachable s ->
  (forall k l s', ls !! k = Some l -> run_labels (take k ls) s = Some s' -> env_ok s' l) ->
  forall s', run_labels ls s = Some s' -> sys_reachable s'.
Proof.
  intros Hr. induction ls as [|l ls IH] using rev_ind; intros Hok s' Hrun.
  { cbn in Hrun. by injection Hrun as <-. }
  unfold run_labels in Hrun. rewrite foldl_app in Hrun. fold (run_labels ls s) in Hrun. cbn in Hrun.
  destruct (run_labels ls s) as [s1|] eqn:E; [|done].
  destruct (exec l s1) as [[] s2| | | | |] eqn:El; try done. injection Hrun as <-.
  eapply sys_next; [apply IH; [|done]| |exact El].
  - intros k l' s3 Hk Hs3. apply (Hok k l' s3).
    + by apply lookup_app_l_Some.
    + pose proof (lookup_lt_Some _ _ _ Hk). by rewrite take_app_le by lia.
  - apply (Hok (length ls) l s1).
    + by apply list_lookup_middle.
    + by rewrite take_app_length.
Qed.

(** Go through the labels of a concrete run; those that are fine in any state
    are closed. *)
Ltac by_labels n k :=
  lazymatch n with
  | O => done
  | S ?m =>
      destruct k as [|k];
        [ intros [= <-]; try done; try (intros _ w _ _; discriminate);
          intros Hs; vm_compute in Hs; injection Hs as <-
        | by_labels m k ]
  end.

Lemma requeue_example_reachable : sys_reachable requeue_example.
Proof.
  apply (reachable_steps sys0 requeue_labels); [by apply sys_start| |by vm_compute].
  intros k l s'. by_labels 7%nat k.
  split; [|by exists INIT]. unfold owned. cbn. apply not_elem_of_nil.
Qed.

(** Callers drop their pointer to a fiber that throws: fiber 0 is scheduled,
    dropped, run by thread 7 and comes back [EXCEPT]. *)
Definition thrown_labels : list label :=
  [LNew; LSchedule (WFiber (Some 0)) (-1); LScheduled; LDrop 0; LRun 7 false INIT; LRun 7 false INIT;
   LRun 7 false INIT; LRun 7 false EXCEPT].
Definition thrown_example : Sys := default sys0 (run_labels thrown_labels sys0).

Lemma thrown_example_reachable : sys_reachable thrown_example.
Proof.
  apply (reachable_steps sys0 thrown_labels); [by apply sys_start| |by vm_compute].
  intros k l s'. by_labels 8%nat k.
  - split; [|by exists INIT]. unfold owned. cbn. apply not_elem_of_nil.
  - cbn. set_solver.
  - intros w Hw Hp. vm_compute in Hw. injection Hw as <-. discriminate.
Qed.

(** A caller is inside [schedule] while thread 7 is about to scan. *)
Definition overlap_labels : list label := [LRun 7 false INIT; LSchedule (WCb (Some 5)) (-1)].
Definition overlap_example : Sys := default sys0 (run_labels overlap_labels sys0).

Lemma overlap_example_reachable : sys_reachable overlap_example.
Proof.
  apply (reachable_steps sys0 overlap_labels); [by apply sys_start| |by vm_compute].
  intros k l s'. by_labels 2%nat k.
Qed.

(** C3: safety of the run loop.  Whatever the interleaving of the threads in
    [run] and the callers of [schedule], as long as a fiber is scheduled only
    while nobody owns it: a step fails exactly in two ways.  Dropping the last
    pointer to a fiber that threw, by a caller or by [run] itself before its next
    scan, aborts in [~Fiber]; a scan that overlaps a call of [schedule] is a data
    race, as the two lock different mutexes.  Both happen.  Any other step fails
    no assertion, dereferences no null and switches into no running or finished
    fiber; no fiber is destroyed while the queue, a thread or the fiber's own
    stack points to it; a fiber is with at most one thread; and a thread only
    executes tasks bound to it or to no thread. *)
Theorem scheduler_safe s :
  sys_reachable s ->
  (forall l, env_ok s l ->
     (throws_away l s -> exec l s = Abort)
     /\ (~ throws_away l s -> overlaps l s -> exec l s = Ub)
     /\ (~ throws_away l s -> ~ overlaps l s -> exists s', exec l s = Ok tt s' /\ sys_reachable s'))
  /\ (forall f, pointed f s -> is_Some (states s !! f))
  /\ (forall t1 t2 w1 w2 f, workers s !! t1 = Some w1 -> workers s !! t2 = Some w2 ->
        f ∈ w_owned t1 w1 -> f ∈ w_owned t2 w2 -> t1 = t2)
  /\ (forall t w x, workers s !! t = Some w -> x ∈ w_pending t w ->
        thread_id x = -1 \/ thread_id x = t)
  /\ (exists s0, sys_reachable s0 /\ exec (LRun 7 false INIT) s0 = Abort)
  /\ (exists s0, sys_reachable s0 /\ exec (LRun 7 false INIT) s0 = Ub).
Proof.
  intros Hr. pose proof (reachable_inv s Hr) as Hinv. split_and!.
  - intros l Hok. destruct (exec_safe s l Hinv Hok) as (H1 & H2 & H3). split_and!; [done..|].
    intros Ht Ho. destruct (H3 Ht Ho) as (s' & Hrun & _). exists s'. split; [done|]. by eapply sys_next.
  - intros f. by apply pointed_state.
  - intros *. by apply one_owner.
  - intros t w x Hw Hx. destruct (inv_workers s Hinv t w Hw) as (_ & _ & Hp).
    unfold phase_ok, for_thread, w_pending in *.
    destruct (w_phase w) as [|ft [|]|f ft|f ft|th|th| |]; try (by apply elem_of_nil in Hx);
      apply list_elem_of_singleton in Hx as ->; cbn; intuition.
  - exists thrown_example. split; [exact thrown_example_reachable|by vm_compute].
  - exists overlap_example. split; [exact overlap_example_reachable|by vm_compute].
Qed.

Lemma quiet_run s t stale st w :
  workers s !! t = Some w -> w_phase w <> PTop ->
  ~ throws_away (LRun t stale st) s /\ ~ overlaps (LRun t stale st) s.
Proof.
  intros Hw Hp. split.
  - intros (f & s1 & Hd & _). cbn in Hd. rewrite Hw in Hd. cbn in Hd. by destruct (w_phase w).
  - intros (t' & ? & ? & w' & [= <- <- <-] & Hw' & Hp' & _). congruence.
Qed.

Lemma scheduler_safe_witness :
  exists s', exec (LRun 7 false TERM) requeue_example = Ok tt s' /\ sys_reachable s'.
Proof.
  assert (Hq : ~ throws_away (LRun 7 false TERM) requeue_example /\ ~ overlaps (LRun 7 false TERM) requeue_example)
    by (eapply quiet_run; [vm_compute; reflexivity|done]).
  refine (proj2 (proj2 (proj1 (scheduler_safe requeue_example requeue_example_reachable) _ _)) (proj1 Hq) (proj2 Hq)).
  cbn. intros w Hw Hp. vm_compute in Hw. injection Hw as <-. discriminate.
Defined.

(** A run: labels the callers may issue, each executed in turn, with all the
    tasks completed and all the tasks added. *)
Inductive run : Sys -> list FiberTask -> list FiberTask -> Sys -> Prop :=
| run_nil s : run s [] [] s
| run_cons s l s1 completed added s2 :
    env_ok s l -> exec l s = Ok tt s1 -> run s1 completed added s2 ->
    run s ((effect s l).1 ++ completed) ((effect s l).2 ++ added) s2.

(** C15: conservation of tasks.  Over any run, the tasks completed together
    with those queued or held at the end are exactly those queued or held at
    the start together with those added: no task is lost, duplicated or
    executed twice. *)
Theorem tasks_conserved s completed added s' :
  sys_reachable s -> run s completed added s' ->
  completed ++ pending s' ≡ₚ pending s ++ added.
Proof.
  intros Hr Hrun. induction Hrun as [s|s l s1 completed added s2 Hok Hex Hrun IH].
  { by rewrite app_nil_r. }
  pose proof (exec_balance s l s1 (reachable_inv s Hr) Hex) as Hb.
  specialize (IH (sys_next s l s1 Hr Hok Hex)).
  rewrite <- app_assoc, IH, !app_assoc. by rewrite Hb.
Qed.

(** The state after more steps of thread 7, in which fiber 0 comes back in [st]. *)
Definition after_requeue (k : nat) (st : State) : Sys :=
  default sys0 (run_labels (replicate k (LRun 7 false st)) requeue_example).

Lemma run_step_eq s l s1 e completed added s2 :
  env_ok s l -> exec l s = Ok tt s1 -> effect s l = e -> run s1 completed added s2 ->
  run s (e.1 ++ completed) (e.2 ++ added) s2.
Proof. intros Hok Hex <- Hrun. by eapply run_cons. Qed.

Lemma tasks_conserved_witness :
  [mkFiberTask (Some 0) None (-1)] ++ pending (after_requeue 5 TERM) ≡ₚ pending requeue_example ++ [].
Proof.
  pose (ft := mkFiberTask (Some 0) None (-1)). pose (l := LRun 7 false TERM).
  assert (Hok : forall s, env_ok s l) by (intros s w _ _; discriminate).
  refine (tasks_conserved requeue_example [ft] [] (after_requeue 5 TERM) requeue_example_reachable _).
  refine (run_step_eq _ l (after_requeue 1 TERM) ([], []) [ft] [] _ (Hok _) _ _ _);
    [vm_compute; reflexivity..|].
  refine (run_step_eq _ l (after_requeue 2 TERM) ([], []) [ft] [] _ (Hok _) _ _ _);
    [vm_compute; reflexivity..|].
  refine (run_step_eq _ l (after_requeue 3 TERM) ([], []) [ft] [] _ (Hok _) _ _ _);
    [vm_compute; reflexivity..|].
  refine (run_step_eq _ l (after_requeue 4 TERM) ([], []) [ft] [] _ (Hok _) _ _ _);
    [vm_compute; reflexivity..|].
  refine (run_step_eq _ l (after_requeue 5 TERM) ([ft], []) [] [] _ (Hok _) _ _ _);
    [vm_compute; reflexivity..|].
  apply run_nil.
Defined.

(** Note: selection.  The scan takes the first task of the queue that is bound
    to no other thread and whose fiber is not running, leaves the others in
    their order, and asks for a tickle when it passed a task of another thread. *)
Theorem scan_takes_first_eligible tid st q :
  Forall (fun t => valid_task t = true) q ->
  exists n o q', scan tid st q = Some (n, o, q') /\
  match o with
  | Some t => exists l1 l2, q = l1 ++ t :: l2 /\ q' = l1 ++ l2 /\ eligible tid st t
      /\ Forall (fun x => ~ eligible tid st x) l1 /\ n = existsb (foreign tid) l1
  | None => q' = q /\ Forall (fun x => ~ eligible tid st x) q /\ n = existsb (foreign tid) q
  end.
Proof. apply scan_run. Qed.

Lemma scan_takes_first_eligible_witness :
  exists n o q', scan 7 ∅ [mkFiberTask (Some 1) None 3; mkFiberTask None (Some 2) 7] = Some (n, o, q')
    /\ o = Some (mkFiberTask None (Some 2) 7) /\ n = true.
Proof.
  destruct (scan_takes_first_eligible 7 ∅ [mkFiberTask (Some 1) None 3; mkFiberTask None (Some 2) 7])
    as (n & o & q' & Hrun & _); [by repeat constructor|].
  exists n, o, q'. split; [exact Hrun|]. vm_compute in Hrun. by injection Hrun as <- <- _.
Defined.

(** Note: [stopping] answers true exactly when the scheduler has been told to
    stop, the queue is empty and no thread is about to run or running a task;
    what can still be pending then is a fiber that came back [READY] and is
    about to be put back in the queue, or a task that a caller inside [schedule]
    has not appended yet, which [stopping] does not see. *)
Theorem stopping_spec s :
  sys_reachable s -> Z.of_nat (size (workers s)) < 2 ^ 64 ->
  (Scheduler_stopping (sched s) = true <->
    m_autoStop (sched s) = true /\ m_running (sched s) = false /\ m_fibers (sched s) = []
    /\ forall t w, workers s !! t = Some w -> busy w = false)
  /\ (Scheduler_stopping (sched s) = true ->
      forall x, x ∈ pending s -> x ∈ in_flight (in_schedule s) \/ exists t w, workers s !! t = Some w /\
        match w_phase w with PFiberAgain _ _ | PCbAgain _ => True | _ => False end).
Proof.
  intros Hr Hsize. pose proof (reachable_inv s Hr) as Hinv.
  assert (Hcount : m_activeThreadNum (sched s) = count (gather w_active (workers s))).
  { rewrite (inv_active s Hinv). apply wrap_id. split; [unfold count; lia|].
    unfold count. enough (length (gather w_active (workers s)) <= size (workers s))%nat by lia.
    apply gather_length. intros t w. unfold w_active.
    destruct (w_phase w) as [|ft [|]| | | | | |]; cbn; lia. }
  assert (Hiff : Scheduler_stopping (sched s) = true <->
    m_autoStop (sched s) = true /\ m_running (sched s) = false /\ m_fibers (sched s) = []
    /\ forall t w, workers s !! t = Some w -> busy w = false).
  { rewrite <- count_active_zero, <- Hcount. unfold Scheduler_stopping.
    destruct (m_autoStop (sched s)), (m_running (sched s)), (m_fibers (sched s)); cbn;
      rewrite ?Z.eqb_eq; intuition congruence. }
  split; [done|]. intros (_ & _ & Hq & Hbusy)%Hiff x Hx. unfold pending, queued in Hx. rewrite Hq in Hx.
  apply elem_of_app in Hx as [Hx|(t & w & Hw & Hx)%gather_elem]; [by left|right]. exists t, w. split; [done|].
  specialize (Hbusy t w Hw). unfold busy in Hbusy. unfold w_pending in Hx.
  destruct (w_phase w) as [|ft [|]| | | | | |]; try done; by apply elem_of_nil in Hx.
Qed.

Lemma stopping_spec_witness :
  Scheduler_stopping (sched requeue_example) = true
  /\ forall x, x ∈ pending requeue_example -> x ∈ in_flight (in_schedule requeue_example) \/ exists t w, workers requeue_example !! t = Some w /\
       match w_phase w with PFiberAgain _ _ | PCbAgain _ => True | _ => False end.
Proof.
  assert (Hs : Scheduler_stopping (sched requeue_example) = true) by reflexivity.
  split; [exact Hs|].
  exact (proj2 (stopping_spec requeue_example requeue_example_reachable eq_refl) Hs).
Defined.

(** The state of the last witness: [stopping] is true while thread 7 still has
    to put fiber 0 back in the queue. *)
Lemma stopping_before_requeue :
  Scheduler_stopping (sched requeue_example) = true
  /\ pending requeue_example = [mkFiberTask (Some 0) None (-1)].
Proof. split; reflexivity. Qed.

(** A scheduler without a scheduling fiber of its own dereferences null in
    [stop] when tasks are left after the threads have ended. *)
Lemma stop_without_main_fiber :
  Scheduler_stop false INIT (fun s => s)
    (mkScheduler true false 1 0 0 (-1) None [7] [7] [mkFiberTask (Some 0) None 9] 0) = Ub.
Proof. reflexivity. Qed.

(** A scheduler that was stopped is destroyed without another stop; one that runs
    aborts. *)
Lemma destroy_after_stop mine st join s b s' :
  (forall x, m_running (join x) = m_running x /\ m_autoStop (join x) = m_autoStop x) ->
  Scheduler_stop mine st join s = Ok b s' -> Scheduler_destroy mine st join s' = Ok false s'.
Proof.
  intros Hj Hstop.
  assert (Hs : m_running s' = false /\ m_autoStop s' = true).
  { revert b s' Hstop. change (ensures (Scheduler_stop mine st join) s (fun _ s' => m_running s' = false /\ m_autoStop s' = true)).
    eapply ensures_bind; [by apply (ensures_modify _ _ (fun _ s' => m_autoStop s' = true))|]. cbn. intros _ s1 H1.
    eapply ensures_bind with (Q := fun x s' => x = s' /\ m_autoStop s' = true); [by intros x s2 [= <- <-]|]. cbn.
    intros x s2 [-> H2].
    eapply ensures_bind with (Q := fun e s' => m_autoStop s' = true /\ (e = true -> m_running s' = false)).
    { destruct (is_some _ && _ && _); [|by apply ensures_return].
      eapply ensures_bind; [by apply (ensures_modify _ _ (fun _ s' => m_autoStop s' = true /\ m_running s' = false))|].
      cbn. intros _ s3 [? ?]. by apply ensures_gets. }
    cbn. intros [] s3 [H3 H3']; [apply ensures_return; auto|].
    eapply ensures_bind with (Q := fun x s' => x = s' /\ m_autoStop s' = true); [by intros y s4 [= <- <-]|]. cbn.
    intros y s4 [-> H4].
    eapply ensures_bind with (Q := fun _ s' => s' = s4).
    { intros u s5. unfold Assert. repeat case_match; try done; by intros [= _ <-]. }
    cbn. intros _ s5 ->.
    eapply ensures_bind; [by apply (ensures_modify _ _ (fun _ s' => m_autoStop s' = true /\ m_running s' = false))|].
    cbn. intros _ s5 [H5 H5'].
    eapply ensures_bind; [apply (ensures_modify _ _ (fun _ s' => m_autoStop s' = true /\ m_running s' = false))|].
    { destruct (Hj (set_threads (m_threadIds s5) [] s5)) as [-> ->]. by split. }
    cbn. intros _ s6 [H6 H6'].
    eapply ensures_bind with (Q := fun x s' => x = s' /\ m_autoStop s' = true /\ m_running s' = false); [by intros z s7 [= <- <-]|].
    cbn. intros z s7 (-> & H7 & H7').
    eapply ensures_bind with (Q := fun _ s' => m_autoStop s' = true /\ m_running s' = false).
    { destruct (is_some _); [by apply ensures_modify|by apply ensures_return]. }
    cbn. intros _ s8 [H8 H8'].
    eapply ensures_bind; [by apply (ensures_gets _ _ (fun _ s' => m_autoStop s' = true /\ m_running s' = false))|].
    cbn. intros [] s9 [H9 H9']; [by apply ensures_return|].
    destruct (m_mainFiber s7); [by apply ensures_return|by intros b s']. }
  destruct Hs as [Hr Ha]. unfold Scheduler_destroy, bind, get, Assert. rewrite Hr. cbn [negb]. by rewrite Ha.
Qed.
Lemma destroy_running mine st join s : m_running s = true -> Scheduler_destroy mine st join s = Abort.
Proof. intros Hr. unfold Scheduler_destroy, bind, get, Assert. by rewrite Hr. Qed.
