(* ===== verification/Handover.v ===== *)
(** * A fiber between threads (fiber/fiber.cpp, fiber/scheduler.cpp)

    How one fiber, [f], goes from thread to thread: [Scheduler::run] takes it from
    the queue and switches into it, [yieldToHold] and the end of its function
    switch back.  Fiber has these calls on one thread and Scheduler cuts the loop
    at the switches; here a step is a single access to [m_state] or [m_ctx], so
    that a fiber can be scheduled, and taken, while it is still on its way out.
    [yieldToReady], which does not come back to the scheduler, is left out. *)
From S2P Require Import Prelude.
From S2P Require Import Scheduler.
From S2P Require Fiber.
Import Fiber (State, INIT, HOLD, EXEC, TERM, READY, EXCEPT).

(** Where a thread of the scheduler is, with the task it took. *)
Inductive place :=
| Away                                     (* before the scan, or busy with other tasks *)
| Taken (ft : FiberTask)                   (* at [if(ft.fiber && ...)] *)
| Entering (ft : FiberTask)                (* in [swapIn], at its assertion *)
| Switching (ft : FiberTask)               (* at [m_state = EXEC] *)
| Loading (ft : FiberTask)                 (* at [swapcontext] *)
| Running (ft : FiberTask) (k : nat)       (* runs the code of the fiber from point [k] *)
| Parking (ft : FiberTask) (k : nat)       (* in [yieldToHold], at [cur->m_state = HOLD] *)
| Leaving (ft : FiberTask) (p : option nat) (* in [swapOut], at [swapcontext] *)
| Back (ft : FiberTask)                    (* behind [ft.fiber->swapIn()] *)
| Settling (ft : FiberTask).               (* at [ft.fiber->setState(Fiber::HOLD)] *)

#[export] Instance place_eq_dec : EqDecision place.
Proof. solve_decision. Defined.

(** What a thread is told: the states of the other fibers for its scan, and what
    the code of the fiber does. *)
Inductive choice :=
| CScan (others : gmap Z State)
| CGo                                      (* goes on to the next point *)
| CYield                                   (* calls [yieldToHold] *)
| CEnd (threw : bool)                      (* returns or throws *)
| CStep.                                   (* the code leaves no choice *)

Section hand.
Variable (f : Z).

(** The saved context is a point of the code, [None] behind its end; [reached] is
    the point that the execution has come to, for the statements. *)
Record Hand := mkHand {
  h_queue : list FiberTask;
  h_state : State;
  h_ctx : option nat;
  reached : nat;
  places : gmap Z place
}.
Definition set_queue v s := mkHand v (h_state s) (h_ctx s) (reached s) (places s).
Definition set_hstate v s := mkHand (h_queue s) v (h_ctx s) (reached s) (places s).
Definition set_hctx v s := mkHand (h_queue s) (h_state s) v (reached s) (places s).
Definition set_reached v s := mkHand (h_queue s) (h_state s) (h_ctx s) v (places s).
Definition set_place t v s := mkHand (h_queue s) (h_state s) (h_ctx s) (reached s) (<[t := v]> (places s)).
Definition place_of (s : Hand) (t : Z) : place := default Away (places s !! t).
Definition at_place (t : Z) (p : place) : M Hand unit := modify (set_place t p).

(** [schedule(fiber, thread)] *)
Definition wake (thread : Z) (s : Hand) : Hand :=
  set_queue (h_queue s ++ [FiberTask_of (WFiber (Some f)) thread]) s.

(** One step of thread [t]. *)
Definition hand_step (t : Z) (c : choice) : M Hand unit := fun s =>
  match place_of s t, c with
  | Away, CScan others =>
      match scan t (<[f := h_state s]> others) (h_queue s) with
      | None => Abort
      | Some (_, ft, q) =>
          (modify (set_queue q) ;;;
           match ft with
           | Some ft => if bool_decide (fiber ft = Some f) then at_place t (Taken ft) else mreturn tt
           | None => mreturn tt
           end) s
      end
  | Taken ft, CStep => at_place t (if finished (h_state s) then Away else Entering ft) s
  | Entering ft, CStep => (Assert (bool_decide (h_state s <> EXEC)) ;;; at_place t (Switching ft)) s
  | Switching ft, CStep => (modify (set_hstate EXEC) ;;; at_place t (Loading ft)) s
  | Loading ft, CStep =>
      match h_ctx s with
      | Some k => at_place t (Running ft k) s
      | None => Abort (* [Assert_Commit(false, "never reached")] *)
      end
  | Running ft k, CGo => (modify (set_reached (S k)) ;;; at_place t (Running ft (S k))) s
  | Running ft k, CYield => (Assert (bool_decide (h_state s = EXEC)) ;;; at_place t (Parking ft k)) s
  | Running ft k, CEnd threw =>
      (modify (set_hstate (if threw then EXCEPT else TERM)) ;;; at_place t (Leaving ft None)) s
  | Parking ft k, CStep => (modify (set_hstate HOLD) ;;; at_place t (Leaving ft (Some k))) s
  | Leaving ft p, CStep => (modify (set_hctx p) ;;; at_place t (Back ft)) s
  | Back ft, CStep =>
      (if bool_decide (h_state s = READY) then modify (wake (thread_id ft)) ;;; at_place t Away
       else at_place t (if finished (h_state s) then Away else Settling ft)) s
  | Settling ft, CStep => (modify (set_hstate HOLD) ;;; at_place t Away) s
  | _, _ => NoFuel
  end.

(** A task of the fiber. *)
Definition own_task (t : FiberTask) : bool := bool_decide (fiber t = Some f).

(** The scheduler has threads [worker]; the fiber may be scheduled for [allowed]
    threads, by anyone and at any time; [free] restricts who may take it. *)
Inductive hand_next (worker allowed : Z -> Prop) (free : Hand -> Z -> Prop) : Hand -> Hand -> Prop :=
| next_thread t c s s' :
    worker t -> (place_of s t = Away -> place_of s' t <> Away -> free s t) -> hand_step t c s = Ok tt s' ->
    hand_next worker allowed free s s'
| next_wake thread s : allowed thread -> hand_next worker allowed free s (wake thread s)
| next_others q s :
    Forall (fun t => valid_task t = true) q -> List.filter own_task q = List.filter own_task (h_queue s) ->
    hand_next worker allowed free s (set_queue q s).
End hand.
