(* ===== verification/HandoverFacts.v ===== *)
(** * Facts about a fiber between threads

    When the fiber is only taken while no other thread has it, every access finds
    what it expects, and that is so by itself when all its tasks are for one
    thread; with two threads a fiber that is scheduled on its way out is resumed
    from an old point, or runs twice at once. *)
From S2P Require Import Prelude.
From S2P Require Import Scheduler SchedulerFacts Handover.
From S2P Require Fiber.
Import Fiber (State, INIT, HOLD, EXEC, TERM, READY, EXCEPT).

Section hand.
Variables (f : Z) (worker allowed : Z -> Prop).
Implicit Types (s : Hand) (t : Z).

(** No other thread has the fiber. *)
Definition alone s t : Prop := forall t', t' <> t -> place_of s t' = Away.
Abbreviation next := (hand_next f worker allowed).
Abbreviation anyhow := (fun (_ : Hand) (_ : Z) => True).

(** A new fiber, with the first of its tasks. *)
Record hand_start s : Prop := {
  hs_fiber : h_state s = INIT /\ h_ctx s = Some 0%nat /\ reached s = 0%nat /\ places s = ∅;
  hs_queue : Forall (fun x => valid_task x = true) (h_queue s);
  hs_tasks : forall x, x ∈ h_queue s -> own_task f x = true -> allowed (thread_id x)
}.

(** What the threads rely on: one has the fiber at a time, no step fails, and its
    code is resumed where it stopped. *)
Record handed s : Prop := {
  hd_one : forall t1 t2, place_of s t1 <> Away -> place_of s t2 <> Away -> t1 = t2;
  hd_safe : forall t c, hand_step f t c s <> Abort;
  hd_fresh : forall t ft k, place_of s t = Running ft k -> k = reached s /\ h_state s = EXEC;
  hd_resume : forall t ft, place_of s t = Loading ft -> h_ctx s = Some (reached s)
}.

(** ** The invariant *)

Definition resting s : Prop := (h_state s = INIT \/ h_state s = HOLD) /\ h_ctx s = Some (reached s).
Definition parked s : Prop := resting s \/ finished (h_state s) = true.
Definition place_ok s (p : place) : Prop :=
  match p with
  | Away => True
  | Taken _ | Back _ => parked s
  | Entering _ | Switching _ | Settling _ => resting s
  | Loading _ => h_state s = EXEC /\ h_ctx s = Some (reached s)
  | Running _ k | Parking _ k => h_state s = EXEC /\ k = reached s
  | Leaving _ (Some k) => h_state s = HOLD /\ k = reached s
  | Leaving _ None => finished (h_state s) = true
  end.

Record hand_inv s : Prop := {
  hi_one : forall t, place_of s t <> Away -> alone s t;
  hi_queue : Forall (fun x => valid_task x = true) (h_queue s);
  hi_place : forall t, place_ok s (place_of s t);
  hi_parked : (forall t, place_of s t = Away) -> parked s
}.

Lemma place_set s t p t' : place_of (set_place t p s) t' = if decide (t' = t) then p else place_of s t'.
Proof.
  unfold place_of, set_place. cbn. destruct (decide (t' = t)) as [->|]; [by rewrite lookup_insert_eq|by rewrite lookup_insert_ne].
Qed.

(** A thread that alone has the fiber goes to another place. *)
Lemma inv_move s s' t p :
  alone s t -> Forall (fun x => valid_task x = true) (h_queue s') -> places s' = <[t := p]> (places s) ->
  place_ok s' p -> (p = Away -> parked s') -> hand_inv s'.
Proof.
  intros Halone Hq Hpl Hp Haway.
  assert (Hplace : forall t', place_of s' t' = if decide (t' = t) then p else Away).
  { intros t'. unfold place_of. rewrite Hpl. destruct (decide (t' = t)) as [->|Hne]; [by rewrite lookup_insert_eq|].
    rewrite lookup_insert_ne by done. by apply Halone. }
  split; [|done| |].
  - intros t1 H1 t2 Hne. rewrite Hplace in *. destruct (decide (t1 = t)) as [->|]; [|done]. by rewrite decide_False.
  - intros t1. rewrite Hplace. by destruct (decide _).
  - intros Hall. apply Haway. specialize (Hall t). rewrite Hplace in Hall. by rewrite decide_True in Hall.
Qed.

Lemma resting_parked s : resting s -> parked s.
Proof. by left. Qed.
Lemma resting_running s : resting s -> h_state s <> EXEC.
Proof. intros [[->| ->] _]; done. Qed.
Lemma parked_settled s : parked s -> finished (h_state s) = false -> resting s.
Proof. intros [?|Hf] Hn; [done|congruence]. Qed.
Lemma parked_unready s : parked s -> h_state s <> READY.
Proof. intros [[[->| ->] _]|Hf]; try done. unfold finished in Hf. apply bool_decide_eq_true in Hf. destruct Hf; congruence. Qed.

Lemma scan_valid t st q n o q' :
  Forall (fun x => valid_task x = true) q -> scan t st q = Some (n, o, q') -> Forall (fun x => valid_task x = true) q'.
Proof.
  intros Hq Hs. destruct (scan_run t st q Hq) as (n' & o' & q2 & Hrun & Ho). rewrite Hrun in Hs. injection Hs as -> -> ->.
  destruct o as [x|]; [|by destruct Ho as (-> & _)]. destruct Ho as (l1 & l2 & -> & -> & _).
  apply Forall_app in Hq as [H1 H2]. apply Forall_cons in H2 as [_ H2]. by apply Forall_app.
Qed.

(** A scan takes a task of the fiber, or leaves its place alone. *)
Lemma scan_step s t others s' :
  hand_inv s -> place_of s t = Away -> hand_step f t (CScan others) s = Ok tt s' ->
  h_state s' = h_state s /\ h_ctx s' = h_ctx s /\ reached s' = reached s
  /\ Forall (fun x => valid_task x = true) (h_queue s') /\ (forall x, x ∈ h_queue s' -> x ∈ h_queue s)
  /\ (places s' = places s
      \/ exists ft, places s' = <[t := Taken ft]> (places s) /\ ft ∈ h_queue s /\ own_task f ft = true
          /\ for_thread t (thread_id ft)).
Proof.
  intros Hinv Haway Hrun. unfold hand_step in Hrun. rewrite Haway in Hrun. pose proof (hi_queue s Hinv) as Hq.
  destruct (scan_run t (<[f := h_state s]> others) _ Hq) as (n & o & q & Hscan & Ho). rewrite Hscan in Hrun.
  pose proof (scan_valid _ _ _ _ _ _ Hq Hscan) as Hq'.
  assert (Hsub : forall x, x ∈ q -> x ∈ h_queue s).
  { destruct o as [ft|]; [|by destruct Ho as (-> & _)]. destruct Ho as (l1 & l2 & -> & -> & _). set_solver. }
  destruct o as [ft|]; [destruct (bool_decide _) eqn:Eown|]; injection Hrun as <-; split_and!; try done; [|by left..].
  right. exists ft. destruct Ho as (l1 & l2 & Eq & _ & [Hfor _] & _). split; [done|]. split; [rewrite Eq; set_solver|].
  split; [exact Eown|by apply not_foreign].
Qed.

(** A step of a thread that has the fiber, or takes it while nobody has it. *)
Lemma inv_step s t c s' :
  hand_inv s -> (place_of s t = Away -> place_of s' t <> Away -> alone s t) -> hand_step f t c s = Ok tt s' -> hand_inv s'.
Proof.
  intros Hinv Hfree Hrun. destruct (decide (place_of s t = Away)) as [Haway|Hnot].
  { destruct c as [others| | | |]; try (unfold hand_step in Hrun; by rewrite Haway in Hrun).
    destruct (scan_step s t others s' Hinv Haway Hrun) as (E1 & E2 & E3 & Hq & _ & [Hpl|(ft & Hpl & _)]).
    - assert (Hplace : forall t', place_of s' t' = place_of s t') by (intros t'; unfold place_of; by rewrite Hpl).
      destruct Hinv as [H1 _ H3 H4]. split; [| done| |].
      + intros t1 Ht t2 Hne. rewrite Hplace in *. by eapply H1.
      + intros t1. specialize (H3 t1). rewrite Hplace. by destruct (place_of s t1) as [| | | | | | |? [?|]| |];
          unfold place_ok, parked, resting in *; rewrite ?E1, ?E2, ?E3.
      + intros Ha. unfold parked, resting. rewrite E1, E2, E3. apply H4. intros t'. by rewrite <- Hplace.
    - assert (Halone : alone s t).
      { apply Hfree; [done|]. unfold place_of. by rewrite Hpl, lookup_insert_eq. }
      eapply (inv_move s); try done. unfold place_ok, parked, resting. rewrite E1, E2, E3. apply (hi_parked s Hinv).
      intros t'. destruct (decide (t' = t)) as [->|]; [done|by apply Halone]. }
  pose proof (hi_one s Hinv t Hnot) as Halone.
  pose proof (hi_place s Hinv t) as Hp. pose proof (hi_queue s Hinv) as Hq. unfold hand_step in Hrun.
  destruct (place_of s t) as [|ft|ft|ft|ft|ft k|ft k|ft p|ft|ft] eqn:Ep, c as [others| | |threw|]; try done; cbn [place_ok] in Hp.
  - injection Hrun as <-. destruct (finished (h_state s)) eqn:Ef; eapply (inv_move s); try done. by apply parked_settled.
  - rewrite bool_decide_true in Hrun by by apply resting_running. injection Hrun as <-. by eapply (inv_move s).
  - injection Hrun as <-. eapply (inv_move s); try done. split; [done|apply Hp].
  - destruct Hp as [He Hc]. rewrite Hc in Hrun. injection Hrun as <-. by eapply (inv_move s).
  - injection Hrun as <-. eapply (inv_move s); try done. by split; [apply Hp|].
  - destruct Hp as [He ->]. rewrite bool_decide_true in Hrun by done. injection Hrun as <-. by eapply (inv_move s).
  - injection Hrun as <-. eapply (inv_move s); try done. by destruct threw.
  - injection Hrun as <-. eapply (inv_move s); try done. split; [done|apply Hp].
  - injection Hrun as <-. eapply (inv_move s); try done. destruct p as [k|]; cbn in Hp; [|by right].
    destruct Hp as [Hs ->]. left. split; [by right|done].
  - rewrite bool_decide_false in Hrun by by apply parked_unready. injection Hrun as <-.
    destruct (finished (h_state s)) eqn:Ef; eapply (inv_move s); try done. by apply parked_settled.
  - injection Hrun as <-. eapply (inv_move s); try done. intros _. left. split; [by right|apply Hp].
Qed.

Lemma inv_next s s' : hand_inv s -> next alone s s' -> hand_inv s'.
Proof.
  intros Hinv Hnext. destruct Hnext as [t c s1 s2 _ Hfree Hrun|thread s1 _|q s1 Hq Hown].
  - by eapply inv_step.
  - destruct Hinv as [? Hv ? ?]. split; try done. apply Forall_app. split; [done|by repeat constructor].
  - destruct Hinv. by split.
Qed.

Lemma hand_start_inv s : hand_start s -> hand_inv s.
Proof.
  intros [(Hs & Hc & Hr & Hp) Hq _]. assert (Haway : forall t, place_of s t = Away)
    by (intros t; unfold place_of; by rewrite Hp, lookup_empty).
  split; [|done| |].
  - intros t Ht. by rewrite Haway in Ht.
  - intros t. by rewrite Haway.
  - intros _. left. split; [by left|by rewrite Hc, Hr].
Qed.

Lemma inv_handed s : hand_inv s -> handed s.
Proof.
  intros Hinv. split.
  - intros t1 t2 H1 H2. destruct (decide (t1 = t2)) as [|Hne]; [done|]. by apply (hi_one s Hinv t2 H2) in Hne.
  - intros t c. pose proof (hi_place s Hinv t) as Hp. unfold hand_step.
    destruct (place_of s t) as [|ft|ft|ft|ft|ft k|ft k|ft p|ft|ft], c as [others| | |threw|]; try done; cbn [place_ok] in Hp.
    + destruct (scan_run t (<[f := h_state s]> others) _ (hi_queue s Hinv)) as (n & o & q & -> & _).
      destruct o as [ft|]; [by destruct (bool_decide _)|done].
    + by rewrite bool_decide_true by by apply resting_running.
    + destruct Hp as [_ ->]. done.
    + by rewrite bool_decide_true by apply Hp.
    + by destruct (bool_decide _).
  - intros t ft k Ht. pose proof (hi_place s Hinv t) as Hp. rewrite Ht in Hp. by destruct Hp.
  - intros t ft Ht. pose proof (hi_place s Hinv t) as Hp. rewrite Ht in Hp. by destruct Hp.
Qed.

(** A fiber that is only taken while no other thread has it is handed over well. *)
Lemma careful_handed s0 s : hand_start s0 -> rtc (next alone) s0 s -> handed s.
Proof.
  intros Hstart Hrun. apply inv_handed. apply hand_start_inv in Hstart. induction Hrun as [|s s1 s2 Hs _ IH]; [done|].
  apply IH. by eapply inv_next.
Qed.

(** ** One thread *)

Definition one_thread (t0 : Z) : Prop := forall th t, allowed th -> worker t -> for_thread t th -> t = t0.

(** The task a thread has. *)
Definition task_of (p : place) : option FiberTask :=
  match p with
  | Away => None
  | Taken ft | Entering ft | Switching ft | Loading ft | Running ft _ | Parking ft _ | Leaving ft _ | Back ft
  | Settling ft => Some ft
  end.

(** Only [t0] has the fiber, and its tasks are for allowed threads. *)
Record kept (t0 : Z) s : Prop := {
  kp_away : alone s t0;
  kp_queue : forall x, x ∈ h_queue s -> own_task f x = true -> allowed (thread_id x);
  kp_task : forall ft, task_of (place_of s t0) = Some ft -> allowed (thread_id ft)
}.

Lemma kept_move t0 s s' p :
  kept t0 s -> places s' = <[t0 := p]> (places s) ->
  (forall x, x ∈ h_queue s' -> x ∈ h_queue s \/ allowed (thread_id x)) ->
  (forall ft, task_of p = Some ft -> allowed (thread_id ft)) -> kept t0 s'.
Proof.
  intros [Ha Hq Ht] Hp Hin Hft. split.
  - intros t Hne. unfold place_of. rewrite Hp, lookup_insert_ne by done. by apply Ha.
  - intros x [Hx|Hx]%Hin Ho; [by apply Hq|done].
  - unfold place_of. by rewrite Hp, lookup_insert_eq.
Qed.

Lemma queue_own q q' : List.filter (own_task f) q = List.filter (own_task f) q' ->
  forall x, own_task f x = true -> x ∈ q -> x ∈ q'.
Proof.
  intros E x Hx Hin. assert (Hf : x ∈ List.filter (own_task f) q) by (apply list_elem_of_In, filter_In; split; [by apply list_elem_of_In|done]).
  rewrite E in Hf. apply list_elem_of_In, filter_In in Hf as [Hf _]. by apply list_elem_of_In.
Qed.

(** A thread that has the fiber keeps its task until it lets the fiber go. *)
Lemma busy_step s t c s' ft :
  task_of (place_of s t) = Some ft -> hand_step f t c s = Ok tt s' ->
  exists p, places s' = <[t := p]> (places s) /\ (forall x, task_of p = Some x -> x = ft)
    /\ (forall x, x ∈ h_queue s' -> x ∈ h_queue s \/ thread_id x = thread_id ft).
Proof.
  intros Hft Hrun. unfold hand_step in Hrun.
  destruct (place_of s t) as [|x|x|x|x|x k|x k|x p|x|x], c as [others| | |threw|]; try done; injection Hft as ->.
  all: try (apply bind_Ok_inv in Hrun as (u & s1 & H1 & Hrun); unfold Assert in H1; destruct (bool_decide _) in H1; try done;
    injection H1 as _ <-).
  all: repeat (case_match; try done).
  all: injection Hrun as <-; eexists; (split; [reflexivity|]); (split; [by intros y [= <-]|]); auto.
  intros y [Hy| ->%list_elem_of_singleton]%elem_of_app; auto.
Qed.

Lemma kept_step t0 s t c s' :
  one_thread t0 -> worker t -> hand_inv s -> kept t0 s -> hand_step f t c s = Ok tt s' ->
  (place_of s t = Away -> place_of s' t <> Away -> alone s t) /\ kept t0 s'.
Proof.
  intros Hone Hwork Hinv Hk Hrun. pose proof Hk as [Ha Hq Htask].
  destruct (task_of (place_of s t)) as [ft|] eqn:Eft.
  - assert (t = t0) as -> by (destruct (decide (t = t0)) as [|Hne]; [done|]; rewrite (Ha t Hne) in Eft; done).
    destruct (busy_step s t0 c s' ft Eft Hrun) as (p & Hp & Hft & Hin).
    split; [intros E; by rewrite E in Eft|]. eapply (kept_move t0 s); [done|done| |].
    + intros x [?|Hx]%Hin; [by left|right]. rewrite Hx. by apply Htask.
    + intros x ->%Hft. by apply Htask.
  - assert (Haway : place_of s t = Away) by (by destruct (place_of s t)).
    destruct c as [others| | | |]; try (unfold hand_step in Hrun; by rewrite Haway in Hrun).
    destruct (scan_step s t others s' Hinv Haway Hrun) as (_ & _ & _ & _ & Hsub & [Hpl|(ft & Hpl & Hin & Hown & Hfor)]).
    + split; [intros _ Hne; unfold place_of in *; by rewrite Hpl in Hne|].
      split; [intros t' Hne; unfold place_of; rewrite Hpl; by apply Ha| |].
      * intros x Hx. by apply Hq, Hsub.
      * unfold place_of. by rewrite Hpl.
    + pose proof (Hq ft Hin Hown) as Hall. assert (t = t0) as -> by (by eapply Hone).
      split; [done|]. eapply (kept_move t0 s); [done|done|auto|]. by intros x [= <-].
Qed.

Lemma kept_next t0 s s' : one_thread t0 -> hand_inv s -> kept t0 s -> next anyhow s s' -> next alone s s' /\ kept t0 s'.
Proof.
  intros Hone Hinv Hk Hnext. destruct Hnext as [t c s1 s2 Hw _ Hrun|thread s1 Hth|q s1 Hq Hown].
  - destruct (kept_step t0 s1 t c s2 Hone Hw Hinv Hk Hrun) as [Hfree Hk']. split; [by eapply next_thread|done].
  - split; [by apply next_wake|]. destruct Hk as [Ha Hq Ht]. split; [done| |done].
    intros x [Hx| ->%list_elem_of_singleton]%elem_of_app Ho; [by apply Hq|done].
  - split; [by apply next_others|]. destruct Hk as [Ha Hkq Ht]. split; [done| |done].
    intros x Hx Ho. apply Hkq; [|done]. by eapply queue_own.
Qed.

Lemma start_kept t0 s : hand_start s -> kept t0 s.
Proof.
  intros [(_ & _ & _ & Hp) _ Ht]. assert (Haway : forall t, place_of s t = Away)
    by (intros t; unfold place_of; by rewrite Hp, lookup_empty).
  split; [by intros t _|done|]. rewrite Haway. done.
Qed.

(** A run on one thread is a careful one. *)
Lemma one_thread_careful t0 s0 s :
  one_thread t0 -> hand_start s0 -> rtc (next anyhow) s0 s -> rtc (next alone) s0 s /\ hand_inv s /\ kept t0 s.
Proof.
  intros Hone Hstart Hrun. pose proof (hand_start_inv s0 Hstart) as Hinv. pose proof (start_kept t0 s0 Hstart) as Hk.
  clear Hstart. induction Hrun as [s|s s1 s2 Hs _ IH]; [done|].
  destruct (kept_next t0 s s1 Hone Hinv Hk Hs) as [Hs' Hk']. destruct (IH (inv_next _ _ Hinv Hs') Hk') as (Hr & H2).
  split; [by eapply rtc_l|done].
Qed.

(** ** A task that is queued is not lost *)
Section resume.
Variable (t0 : Z).
Hypotheses (Hwork : worker t0).

(** [s'] can come after [s], with the same queue. *)
Definition leads s s' : Prop :=
  rtc (next anyhow) s s' /\ h_queue s' = h_queue s /\ reached s' = reached s.
Lemma leads_refl s : leads s s.
Proof. by split. Qed.
Lemma leads_step s c s1 s' :
  hand_step f t0 c s = Ok tt s1 -> h_queue s1 = h_queue s -> reached s1 = reached s -> leads s1 s' -> leads s s'.
Proof.
  intros Hrun Hq Hr (H1 & H2 & H3). split; [|split; congruence]. eapply rtc_l; [by eapply next_thread|done].
Qed.
Lemma place_at t p s : place_of (set_place t p s) t = p.
Proof. by rewrite place_set, decide_True. Qed.

(** On the way in the fiber comes to run, from where it stopped. *)
Lemma load_in s ft :
  place_of s t0 = Loading ft -> h_ctx s = Some (reached s) -> exists s', leads s s' /\ place_of s' t0 = Running ft (reached s).
Proof.
  intros Hpl Hctx. exists (set_place t0 (Running ft (reached s)) s). split; [|apply place_at].
  eapply (leads_step s CStep); [unfold hand_step; rewrite Hpl, Hctx; reflexivity|done..|apply leads_refl].
Qed.
Lemma switch_in s ft :
  place_of s t0 = Switching ft -> h_ctx s = Some (reached s) -> exists s', leads s s' /\ place_of s' t0 = Running ft (reached s).
Proof.
  intros Hpl Hctx. destruct (load_in (set_place t0 (Loading ft) (set_hstate EXEC s)) ft) as (s' & Hl & Hr); [apply place_at|done|].
  exists s'. split; [|done]. eapply (leads_step s CStep); [unfold hand_step; rewrite Hpl; reflexivity|done..|exact Hl].
Qed.
Lemma way_in s ft :
  resting s -> place_of s t0 = Entering ft -> exists s', leads s s' /\ place_of s' t0 = Running ft (reached s).
Proof.
  intros Hrest Hpl. destruct (switch_in (set_place t0 (Switching ft) s) ft) as (s' & Hl & Hr); [apply place_at|apply Hrest|].
  exists s'. split; [|done]. eapply (leads_step s CStep (set_place t0 (Switching ft) s)); [|done..|exact Hl].
  unfold hand_step. rewrite Hpl. by rewrite bool_decide_true by by apply resting_running.
Qed.
Lemma test_in s ft :
  resting s -> finished (h_state s) = false -> place_of s t0 = Taken ft ->
  exists s', leads s s' /\ place_of s' t0 = Running ft (reached s).
Proof.
  intros Hrest Hfin Hpl. destruct (way_in (set_place t0 (Entering ft) s) ft) as (s' & Hl & Hr); [done|apply place_at|].
  exists s'. split; [|done]. eapply (leads_step s CStep (set_place t0 (Entering ft) s)); [|done..|exact Hl].
  unfold hand_step. by rewrite Hpl, Hfin.
Qed.

(** On the way out it comes to rest. *)
Lemma way_out s :
  hand_inv s -> finished (h_state s) = false ->
  match place_of s t0 with Parking _ _ | Leaving _ _ | Back _ | Settling _ => True | _ => False end ->
  exists s', leads s s' /\ place_of s' t0 = Away /\ finished (h_state s') = false.
Proof.
  intros Hinv Hfin Hpl. pose proof (hi_place s Hinv t0) as Hp.
  assert (Hsettle : forall s ft, place_of s t0 = Settling ft ->
    exists s', leads s s' /\ place_of s' t0 = Away /\ finished (h_state s') = false).
  { intros s1 ft H1. exists (set_place t0 Away (set_hstate HOLD s1)). split; [|by rewrite place_at].
    eapply (leads_step s1 CStep); [unfold hand_step; rewrite H1; reflexivity|done..|apply leads_refl]. }
  assert (Hback : forall s ft, parked s -> finished (h_state s) = false -> place_of s t0 = Back ft ->
    exists s', leads s s' /\ place_of s' t0 = Away /\ finished (h_state s') = false).
  { intros s1 ft Hpk Hf H1. destruct (Hsettle (set_place t0 (Settling ft) s1) ft) as (s' & Hl & Hrest); [apply place_at|].
    exists s'. split; [|done]. eapply (leads_step s1 CStep (set_place t0 (Settling ft) s1)); [|done..|exact Hl].
    unfold hand_step. rewrite H1, bool_decide_false by by apply parked_unready. by rewrite Hf. }
  assert (Hleave : forall s ft k, h_state s = HOLD -> k = reached s -> place_of s t0 = Leaving ft (Some k) ->
    exists s', leads s s' /\ place_of s' t0 = Away /\ finished (h_state s') = false).
  { intros s1 ft k Hs -> H1.
    destruct (Hback (set_place t0 (Back ft) (set_hctx (Some (reached s1)) s1)) ft) as (s' & Hl & Hrest).
    - left. split; [by right|done].
    - cbn. by rewrite Hs.
    - apply place_at.
    - exists s'. split; [|done]. eapply (leads_step s1 CStep); [unfold hand_step; rewrite H1; reflexivity|done..|exact Hl]. }
  destruct (place_of s t0) as [|ft|ft|ft|ft|ft k|ft k|ft [k|]|ft|ft] eqn:Ep; try done; cbn [place_ok] in Hp.
  - destruct Hp as [_ ->].
    destruct (Hleave (set_place t0 (Leaving ft (Some (reached s))) (set_hstate HOLD s)) ft (reached s)) as (s' & Hl & Hrest);
      [done|done|apply place_at|].
    exists s'. split; [|done]. eapply (leads_step s CStep); [unfold hand_step; rewrite Ep; reflexivity|done..|exact Hl].
  - destruct Hp as [Hs Hk]. by eapply Hleave.
  - cbn in Hp. congruence.
  - by eapply Hback.
  - by eapply Hsettle.
Qed.

(** At rest, with a task for the thread in the queue, the fiber is taken. *)
Lemma taken_again s ft :
  hand_inv s -> (forall t, place_of s t = Away) -> finished (h_state s) = false ->
  ft ∈ h_queue s -> own_task f ft = true -> for_thread t0 (thread_id ft) ->
  exists s' x, rtc (next anyhow) s s' /\ place_of s' t0 = Running x (reached s) /\ reached s' = reached s.
Proof.
  intros Hinv Haway Hfin Hin Hown Hfor. pose proof (parked_settled s (hi_parked s Hinv Haway) Hfin) as Hrest.
  set (q := List.filter (own_task f) (h_queue s)). set (s1 := set_queue q s).
  assert (Hq : Forall (fun x => valid_task x = true) q).
  { apply Forall_forall. intros x Hx. apply list_elem_of_In, filter_In in Hx as [Hx _]. apply list_elem_of_In in Hx.
    pose proof (hi_queue s Hinv) as Hv. rewrite Forall_forall in Hv. by apply Hv. }
  assert (Hin1 : ft ∈ q) by (apply list_elem_of_In, filter_In; split; [by apply list_elem_of_In|done]).
  assert (H1 : next anyhow s s1).
  { apply next_others; [done|]. unfold q. clear. induction (h_queue s) as [|x l IH]; [done|]. cbn.
    destruct (own_task f x) eqn:E; [cbn; by rewrite E, IH|done]. }
  destruct (scan_run t0 (<[f := h_state s]> ∅) q Hq) as (n & o & q' & Hscan & Ho).
  assert (Hel : eligible t0 (<[f := h_state s]> ∅) ft).
  { split; [by unfold for_thread, foreign in *; destruct Hfor as [-> | ->]; rewrite ?Z.eqb_refl, ?andb_false_r|].
    unfold running. unfold own_task in Hown. apply bool_decide_eq_true in Hown as ->. rewrite lookup_insert_eq.
    apply bool_decide_eq_false. intros [= E]. by apply (resting_running s Hrest). }
  destruct o as [x|]; [|by destruct Ho as (_ & Hall & _); rewrite Forall_forall in Hall; apply Hall in Hin1].
  destruct Ho as (l1 & l2 & Eq & _).
  assert (Hx : fiber x = Some f).
  { assert (Hxq : x ∈ q) by (rewrite Eq; set_solver). apply list_elem_of_In, filter_In in Hxq as [_ Hxq].
    by apply bool_decide_eq_true in Hxq. }
  set (s2 := set_place t0 (Taken x) (set_queue q' s1)).
  assert (H2 : next anyhow s1 s2).
  { eapply (next_thread _ _ _ _ t0 (CScan ∅)); [done|done|]. unfold hand_step.
    replace (place_of s1 t0) with Away by (symmetry; apply Haway). cbn [h_state h_queue s1 set_queue]. rewrite Hscan.
    cbn. by rewrite bool_decide_true. }
  destruct (test_in s2 x) as (s' & (Hr & _ & Hreach) & Hrun); [done|done|apply place_at|].
  exists s', x. split; [|done]. eapply rtc_l; [exact H1|]. by eapply rtc_l; [exact H2|].
Qed.
End resume.
End hand.

(** C4: one thread.  When all tasks of a fiber are for one thread, because it is
    the only one of the scheduler or because the tasks are bound to it, the fiber
    may be scheduled by anybody at any time, also while it runs or is on its way
    out: only that thread ever has it, no step fails, its code always goes on
    where it stopped, and as long as it is not finished a task in the queue lets
    it run again. *)
Theorem handover_one_thread f worker allowed t0 s0 s :
  one_thread worker allowed t0 -> worker t0 -> hand_start f allowed s0 ->
  rtc (hand_next f worker allowed (fun _ _ => True)) s0 s ->
  handed f s /\ (forall t, place_of s t <> Away -> t = t0)
  /\ (forall ft, ft ∈ h_queue s -> own_task f ft = true -> for_thread t0 (thread_id ft) -> finished (h_state s) = false ->
        exists s' x k, rtc (hand_next f worker allowed (fun _ _ => True)) s s'
          /\ place_of s' t0 = Running x k /\ k = reached s').
Proof.
  intros Hone Hwork Hstart Hrun. destruct (one_thread_careful f worker allowed t0 s0 s Hone Hstart Hrun) as (_ & Hinv & Hk).
  split; [by apply inv_handed|]. split.
  { intros t Ht. destruct (decide (t = t0)) as [|Hne]; [done|]. by apply (kp_away _ _ _ _ Hk) in Hne. }
  intros ft Hin Hown Hfor Hfin.
  assert (Hruns : forall s1 x, leads f worker allowed s s1 -> place_of s1 t0 = Running x (reached s) ->
    exists s' x k, rtc (hand_next f worker allowed (fun _ _ => True)) s s' /\ place_of s' t0 = Running x k /\ k = reached s').
  { intros s1 x (H1 & _ & H3) H2. exists s1, x, (reached s). auto. }
  assert (Hagain : forall s1, leads f worker allowed s s1 -> place_of s1 t0 = Away -> finished (h_state s1) = false ->
    exists s' x k, rtc (hand_next f worker allowed (fun _ _ => True)) s s' /\ place_of s' t0 = Running x k /\ k = reached s').
  { intros s1 (H1 & Hq & Hr) Hpl Hf.
    destruct (one_thread_careful f worker allowed t0 s0 s1 Hone Hstart ltac:(by etransitivity)) as (_ & Hinv1 & Hk1).
    destruct (taken_again f worker allowed t0 Hwork s1 ft) as (s' & x & H2 & H3 & H4); try done; [|by rewrite Hq|].
    - intros t. destruct (decide (t = t0)) as [->|Hne]; [done|]. by apply (kp_away _ _ _ _ Hk1).
    - exists s', x, (reached s1). split; [by etransitivity|auto]. }
  pose proof (hi_place s Hinv t0) as Hp.
  destruct (place_of s t0) as [|x|x|x|x|x k|x k|x p|x|x] eqn:Ep; cbn [place_ok] in Hp.
  7-10: destruct (way_out f worker allowed t0 Hwork s Hinv Hfin ltac:(by rewrite Ep)) as (s1 & Hl & Hpl & Hf); by apply (Hagain s1).
  - by apply (Hagain s).
  - destruct (test_in f worker allowed t0 Hwork s x) as (s' & Hl & Hr); [by apply parked_settled|done|done|by eapply Hruns].
  - destruct (way_in f worker allowed t0 Hwork s x) as (s' & Hl & Hr); [done|done|by eapply Hruns].
  - destruct (switch_in f worker allowed t0 Hwork s x) as (s' & Hl & Hr); [done|apply Hp|by eapply Hruns].
  - destruct (load_in f worker allowed t0 Hwork s x) as (s' & Hl & Hr); [done|apply Hp|by eapply Hruns].
  - destruct Hp as [_ ->]. by apply (Hruns s x).
Qed.

(** ** Two threads *)

(** The steps of a run, executed. *)
Inductive hand_move := MThread (t : Z) (c : choice) | MWake (thread : Z).
Fixpoint hand_moves (f : Z) (ms : list hand_move) (s : Hand) : option Hand :=
  match ms with
  | [] => Some s
  | MThread t c :: ms => match hand_step f t c s with Ok _ s' => hand_moves f ms s' | _ => None end
  | MWake thread :: ms => hand_moves f ms (wake f thread s)
  end.
Lemma moves_run f worker allowed ms s s' :
  Forall (fun m => match m with MThread t _ => worker t | MWake th => allowed th end) ms -> hand_moves f ms s = Some s' ->
  rtc (hand_next f worker allowed (fun _ _ => True)) s s'.
Proof.
  intros Hms. revert s. induction Hms as [|[t c|th] ms Hm _ IH]; intros s; cbn.
  - intros [= ->]. done.
  - destruct (hand_step f t c s) as [[] s1| | | | |] eqn:Hrun; try done. intros Hrest.
    eapply rtc_l; [by eapply next_thread|by apply IH].
  - intros Hrest. eapply rtc_l; [by apply next_wake|by apply IH].
Qed.

(** Fiber 5, two threads, tasks for either of them. *)
Definition two_workers (t : Z) : Prop := t = 1 \/ t = 2.
Definition for_any (th : Z) : Prop := th = -1.
Definition hand_new (tasks : nat) : Hand :=
  mkHand (replicate tasks (FiberTask_of (WFiber (Some 5)) (-1))) INIT (Some 0%nat) 0 ∅.
Lemma new_start tasks : hand_start 5 for_any (hand_new tasks).
Proof.
  split; [done|by apply Forall_replicate|]. intros x [-> _]%elem_of_replicate _. done.
Qed.

(** The thread takes the fiber and resumes it. *)
Definition resume_moves (t : Z) : list hand_move :=
  MThread t (CScan ∅) :: replicate 4 (MThread t CStep).
(** It comes to the next point and yields; it is about to save the context. *)
Definition yield_moves (t : Z) : list hand_move := [MThread t CGo; MThread t CYield; MThread t CStep].
Definition stale_moves : list hand_move := resume_moves 1 ++ yield_moves 1 ++ [MWake (-1)] ++ resume_moves 2.
Definition twice_moves : list hand_move :=
  resume_moves 1 ++ yield_moves 1 ++ [MThread 1 CStep; MThread 1 CStep; MWake (-1)] ++ resume_moves 2
  ++ [MThread 1 CStep; MWake (-1)] ++ resume_moves 1.
Definition abort_moves : list hand_move :=
  [MThread 1 (CScan ∅); MThread 2 (CScan ∅); MThread 1 CStep; MThread 2 CStep; MThread 1 CStep; MThread 1 CStep].

(** C5: two threads.  With tasks that any thread may take, a fiber that is
    scheduled while another thread is on its way out of it is resumed from the
    point before the last, as its context is not saved yet; or it runs on both
    threads at once, when the first then sets its state to HOLD; and of two tasks
    that are in the queue together the second fails the assertion of swapIn. *)
Theorem handover_races :
  let reach n s := hand_start 5 for_any (hand_new n) /\ rtc (hand_next 5 two_workers for_any (fun _ _ => True)) (hand_new n) s in
  let ft := FiberTask_of (WFiber (Some 5)) (-1) in
  (exists s, reach 1%nat s /\ place_of s 1 = Leaving ft (Some 1%nat) /\ place_of s 2 = Running ft 0 /\ reached s = 1%nat)
  /\ (exists s, reach 1%nat s /\ place_of s 1 = Running ft 1 /\ place_of s 2 = Running ft 1)
  /\ (exists s, reach 2%nat s /\ hand_step 5 2 CStep s = Abort).
Proof.
  intros reach ft.
  assert (Hreach : forall n ms s, Forall (fun m => match m with MThread t _ => two_workers t | MWake th => for_any th end) ms ->
    hand_moves 5 ms (hand_new n) = Some s -> reach n s).
  { intros n ms s Hms Hrun. split; [apply new_start|by eapply moves_run]. }
  split_and!.
  - destruct (hand_moves 5 stale_moves (hand_new 1)) as [s|] eqn:E; [|by vm_compute in E]. exists s.
    split; [apply (Hreach _ stale_moves); [|done]; repeat constructor; by (left + right)|].
    vm_compute in E. injection E as <-. by vm_compute.
  - destruct (hand_moves 5 twice_moves (hand_new 1)) as [s|] eqn:E; [|by vm_compute in E]. exists s.
    split; [apply (Hreach _ twice_moves); [|done]; repeat constructor; by (left + right)|].
    vm_compute in E. injection E as <-. by vm_compute.
  - destruct (hand_moves 5 abort_moves (hand_new 2)) as [s|] eqn:E; [|by vm_compute in E]. exists s.
    split; [apply (Hreach _ abort_moves); [|done]; repeat constructor; by (left + right)|].
    vm_compute in E. injection E as <-. by vm_compute.
Qed.

(** The only thread, 1, is on its way out when the fiber is scheduled. *)
Definition leaving_moves : list hand_move := resume_moves 1 ++ yield_moves 1 ++ [MWake (-1)].
Definition leaving_example : Hand := default (hand_new 1) (hand_moves 5 leaving_moves (hand_new 1)).
Lemma leaving_run : rtc (hand_next 5 (fun t => t = 1) for_any (fun _ _ => True)) (hand_new 1) leaving_example.
Proof.
  apply (moves_run 5 _ _ leaving_moves); [by repeat constructor|]. vm_compute. reflexivity.
Qed.
Lemma handover_one_thread_witness :
  place_of leaving_example 1 = Leaving (FiberTask_of (WFiber (Some 5)) (-1)) (Some 1%nat)
  /\ exists s' x k, rtc (hand_next 5 (fun t => t = 1) for_any (fun _ _ => True)) leaving_example s'
     /\ place_of s' 1 = Running x k /\ k = reached s'.
Proof.
  destruct (handover_one_thread 5 (fun t => t = 1) for_any 1 (hand_new 1) leaving_example ltac:(intros th t _ Ht _; exact Ht) eq_refl
    (new_start 1) leaving_run) as (_ & _ & Hagain).
  split; [vm_compute; reflexivity|].
  apply (Hagain (FiberTask_of (WFiber (Some 5)) (-1))); [|reflexivity|by left|vm_compute; reflexivity].
  assert (Hq : h_queue leaving_example = [FiberTask_of (WFiber (Some 5)) (-1)]) by (vm_compute; reflexivity).
  rewrite Hq. left.
Defined.
