(* ===== verification/EventPoller.v ===== *)
(** * The event poller (src/src/eventpoller/eventpoller.h, eventpoller.cpp)

    [EventPoller] over a scheduler given by the interface [TaskSink] and the
    timers of Timer.  The system calls are the environment's: [epoll_ctl] answers
    with a return value, and every accepted call is recorded in [ctl_log];
    [epoll_wait] is interrupted any number of times, and then delivers a list of
    events; a registration names the scheduler it is for.  The locks on one [FdContext] are held
    for the whole of an operation; [m_mtx] is represented by its number of
    readers because the code releases it by hand. *)
From S2P Require Import Prelude.
From S2P Require Import Timer Scheduler.
From S2P Require Fiber.

(** ** What the poller needs of a scheduler *)

Class TaskSink (S : Type) := {
  (** [schedule(x)] *)
  sink_schedule : work -> S -> S;
  (** [schedule(&x)]: what is left in [x], and the scheduler *)
  sink_schedule_ptr : work -> S -> work * S;
  (** [schedule(begin, end)] *)
  sink_schedule_range : list work -> S -> list work * S;
  (** [Scheduler::stopping()] *)
  sink_stopping : S -> bool;
  (** [m_fibers.erase(it)] in [run]: a thread takes the task at a place *)
  sink_take : nat -> S -> S;
  (** the tasks waiting, first to last *)
  sink_tasks : S -> list FiberTask
}.

Definition emptied (w : work) : work := match w with WFiber _ => WFiber None | WCb _ => WCb None end.
Definition tasks_of (ws : list work) : list FiberTask :=
  List.filter valid_task ((fun w => FiberTask_of w (-1)) <$> ws).

(** The contract: what is scheduled is taken from the caller and waits after
    everything scheduled before; a task that is taken no longer waits. *)
Class TaskSinkLaws (S : Type) `{TaskSink S} : Prop := {
  sink_schedule_law w s : sink_tasks (sink_schedule w s) = sink_tasks s ++ tasks_of [w];
  sink_ptr_law w s :
    (sink_schedule_ptr w s).1 = emptied w
    /\ sink_tasks (sink_schedule_ptr w s).2 = sink_tasks s ++ tasks_of [w];
  sink_range_law ws s :
    (sink_schedule_range ws s).1 = emptied <$> ws
    /\ sink_tasks (sink_schedule_range ws s).2 = sink_tasks s ++ tasks_of ws;
  sink_take_law i s : sink_tasks (sink_take i s) = base.delete i (sink_tasks s)
}.

#[export] Instance Scheduler_sink : TaskSink Scheduler := {
  sink_schedule w s := Scheduler_schedule w (-1) s;
  sink_schedule_ptr w s := Scheduler_schedule_ptr w (-1) s;
  sink_schedule_range := Scheduler_schedule_range;
  sink_stopping := Scheduler_stopping;
  sink_take i s := set_queue (base.delete i (m_fibers s)) s;
  sink_tasks := m_fibers
}.

(** ** Events *)

(** [EventPoller::Event] *)
Definition NONE : Z := 0x0.
Definition READ : Z := 0x1.
Definition WRITE : Z := 0x4.

(** Masks and commands of [<sys/epoll.h>]. *)
Definition EPOLLIN : Z := 0x1.
Definition EPOLLOUT : Z := 0x4.
Definition EPOLLERR : Z := 0x8.
Definition EPOLLHUP : Z := 0x10.
Definition EPOLLET : Z := 2 ^ 31.
Inductive ctl_op := EPOLL_CTL_ADD | EPOLL_CTL_DEL | EPOLL_CTL_MOD.

#[export] Instance ctl_op_eq_dec : EqDecision ctl_op.
Proof. solve_decision. Defined.

(** [x & m] as a condition. *)
Definition has (x m : Z) : bool := negb (Z.land x m =? 0).
(** [x & ~m] *)
Definition without (x m : Z) : Z := Z.ldiff x m.

(** [struct EventContext]; pointers are numbers, null is [None]. *)
Record EventContext := mkEventContext { ec_scheduler : option Z; ec_fiber : option Z; ec_cb : option Z }.
(** [struct FdContext] *)
Record FdContext := mkFdContext { read : EventContext; write : EventContext; fd : Z; events : Z }.

(** [void FdContext::resetContext(EventContext& ctx)] *)
Definition resetContext (_ : EventContext) : EventContext := mkEventContext None None None.
(** [new FdContext] with its [fd] *)
Definition new_FdContext (i : Z) : FdContext :=
  mkFdContext (mkEventContext None None None) (mkEventContext None None None) i NONE.

(** [FdContext::getContext(Event event)]; [None] is the failing assertion. *)
Definition getContext (event : Z) (c : FdContext) : option EventContext :=
  if event =? READ then Some (read c) else if event =? WRITE then Some (write c) else None.
(** Assignment through the reference [getContext(event)]. *)
Definition setContext (event : Z) (x : EventContext) (c : FdContext) : FdContext :=
  if event =? READ then mkFdContext x (write c) (fd c) (events c)
  else mkFdContext (read c) x (fd c) (events c).
Definition set_events (v : Z) (c : FdContext) : FdContext :=
  mkFdContext (read c) (write c) (fd c) v.

Section poller.
Context {S : Type} `{TaskSink S}.

Record EventPoller := mkEventPoller {
  ep_scheduler : S;            (* the Scheduler base *)
  ep_timers : TimerManager;    (* the TimerManager base *)
  m_fdContexts : list FdContext;
  m_pendingEventCount : Z;
  m_readers : Z;               (* shared owners of m_mtx *)
  ctl_log : list (ctl_op * Z * Z);  (* accepted epoll_ctl calls: op, fd, events *)
  tickle_bytes : Z;            (* bytes written to the tickle pipe *)
  ep_this : Z;                 (* the object's own address, as a Scheduler *)
  ep_elsewhere : list (Z * work)    (* what was scheduled on other schedulers *)
}.

Definition set_scheduler v p := mkEventPoller v (ep_timers p) (m_fdContexts p) (m_pendingEventCount p) (m_readers p) (ctl_log p) (tickle_bytes p) (ep_this p) (ep_elsewhere p).
Definition set_timers v p := mkEventPoller (ep_scheduler p) v (m_fdContexts p) (m_pendingEventCount p) (m_readers p) (ctl_log p) (tickle_bytes p) (ep_this p) (ep_elsewhere p).
Definition set_contexts v p := mkEventPoller (ep_scheduler p) (ep_timers p) v (m_pendingEventCount p) (m_readers p) (ctl_log p) (tickle_bytes p) (ep_this p) (ep_elsewhere p).
Definition set_pending v p := mkEventPoller (ep_scheduler p) (ep_timers p) (m_fdContexts p) v (m_readers p) (ctl_log p) (tickle_bytes p) (ep_this p) (ep_elsewhere p).
Definition set_readers v p := mkEventPoller (ep_scheduler p) (ep_timers p) (m_fdContexts p) (m_pendingEventCount p) v (ctl_log p) (tickle_bytes p) (ep_this p) (ep_elsewhere p).
Definition set_log v p := mkEventPoller (ep_scheduler p) (ep_timers p) (m_fdContexts p) (m_pendingEventCount p) (m_readers p) v (tickle_bytes p) (ep_this p) (ep_elsewhere p).
Definition set_bytes v p := mkEventPoller (ep_scheduler p) (ep_timers p) (m_fdContexts p) (m_pendingEventCount p) (m_readers p) (ctl_log p) v (ep_this p) (ep_elsewhere p).
Definition set_elsewhere v p := mkEventPoller (ep_scheduler p) (ep_timers p) (m_fdContexts p) (m_pendingEventCount p) (m_readers p) (ctl_log p) (tickle_bytes p) (ep_this p) v.

Abbreviation EM := (M EventPoller).

(** [m_fdContexts\[i\]]; out of range is undefined. *)
Definition context_at (i : Z) : EM FdContext := fun p =>
  if i <? 0 then Ub else deref (m_fdContexts p !! Z.to_nat i) p.
Definition put_context (i : Z) (c : FdContext) : EM unit :=
  modify (fun p => set_contexts (<[Z.to_nat i := c]> (m_fdContexts p)) p).

Definition pending_add (d : Z) : EM unit :=
  modify (fun p => set_pending (u64 (m_pendingEventCount p + d)) p).

(** [m_mtx.lock_shared()]: the poller's code holds no unique lock for long. *)
Definition lock_shared : EM unit := modify (fun p => set_readers (m_readers p + 1) p).
(** [m_mtx.unlock_shared()]: undefined without a shared owner. *)
Definition unlock_shared : EM unit := fun p =>
  if m_readers p <=? 0 then Ub else Ok tt (set_readers (m_readers p - 1) p).
(** [m_mtx.lock()] by a thread that may already own it, [mine]. *)
Definition lock_unique (mine : bool) : EM unit := fun p => if mine then Deadlock else Ok tt p.

(** [epoll_ctl(m_epfd, op, fd, &epevent)], which returns [rt]. *)
Definition epoll_ctl (rt : Z) (op : ctl_op) (f ev : Z) : EM bool := fun p =>
  if rt =? 0 then Ok true (set_log (ctl_log p ++ [(op, f, ev)]) p) else Ok false p.

(** The loop of [contextResize]: a context for every null slot. *)
Fixpoint fill_contexts (i : nat) (n : nat) : list FdContext :=
  match n with
  | O => []
  | Datatypes.S n => new_FdContext (Z.of_nat i) :: fill_contexts (Datatypes.S i) n
  end.

(** [void contextResize(size_t size)]; [mine] tells whether the calling thread
    already owns [m_mtx]. *)
Definition EventPoller_contextResize (mine : bool) (size : Z) : EM unit :=
  lock_unique mine ;;;
  modify (fun p =>
    let n := length (m_fdContexts p) in
    if size <=? Z.of_nat n then p
    else set_contexts (m_fdContexts p ++ fill_contexts n (Z.to_nat size - n)) p).

(** [EventPoller(threads, use_caller, name)] at the address [this], over a
    constructed scheduler that [start] starts; the other arguments are the results of [epoll_create],
    [pipe], [fcntl] and [epoll_ctl].  The pipe is not in [ctl_log]. *)
Definition new_EventPoller (this : Z) (base : S) (start : S -> S) (epfd rt_pipe rt_fcntl rt_ctl : Z) : M unit EventPoller :=
  Assert (0 <? epfd) ;;; Assert (rt_pipe =? 0) ;;; Assert (rt_fcntl =? 0) ;;; Assert (rt_ctl =? 0) ;;;
  fun u =>
    match EventPoller_contextResize false 32 (mkEventPoller base new_TimerManager [] 0 0 [] 0 this []) with
    | Ok _ p => Ok (set_scheduler (start (ep_scheduler p)) p) u
    | Throw e _ => Throw e u
    | Abort => Abort | Ub => Ub | Deadlock => Deadlock | NoFuel => NoFuel
    end.
(** [~EventPoller()], before the bases; [stop] is that of the scheduler. *)
Definition EventPoller_destroy (stop : S -> res S bool) : EM unit := fun p =>
  match stop (ep_scheduler p) with
  | Ok _ s => Ok tt (set_contexts [] (set_scheduler s p))
  | Throw e s => Throw e (set_scheduler s p)
  | Abort => Abort | Ub => Ub | Deadlock => Deadlock | NoFuel => NoFuel
  end.

(** [sc->schedule(&x)]: the scheduler [sc] is this one or another. *)
Definition schedule_on (sc : Z) (w : work) (p : EventPoller) : work * EventPoller :=
  if sc =? ep_this p then
    let '(w', s) := sink_schedule_ptr w (ep_scheduler p) in (w', set_scheduler s p)
  else (emptied w, set_elsewhere (ep_elsewhere p ++ [(sc, w)]) p).

(** [void FdContext::triggerEvent(Event event)] on the context of [i] *)
Definition triggerEvent (i event : Z) : EM unit :=
  c <-- context_at i ;;
  Assert (has (events c) event) ;;;
  let c := set_events (without (events c) event) c in
  match getContext event c with
  | None => fun _ => Abort
  | Some ctx =>
      match ec_scheduler ctx with
      | None => ub
      | Some sc =>
          p <-- get ;;
          let '(ctx, p) :=
            match ec_cb ctx with
            | Some f =>
                let '(w, p) := schedule_on sc (WCb (Some f)) p in
                (mkEventContext (Some sc) (ec_fiber ctx)
                   (match w with WCb x => x | WFiber _ => ec_cb ctx end), p)
            | None =>
                let '(w, p) := schedule_on sc (WFiber (ec_fiber ctx)) p in
                (mkEventContext (Some sc)
                   (match w with WFiber x => x | WCb _ => ec_fiber ctx end) (ec_cb ctx), p)
            end in
          modify (fun _ => p) ;;;
          put_context i (setContext event (mkEventContext None (ec_fiber ctx) (ec_cb ctx)) c)
      end
  end.

(** [int addEvent(int fd, Event event, std::function<void()> cb)], the part under
    the lock of the context.  [self] is [Scheduler::getThis()], [cur] the running
    fiber and its state. *)
Definition addEvent_locked (self : option Z) (cur : Z * Fiber.State) (rt f event : Z) (cb : option Z)
  : EM Z :=
  c <-- context_at f ;;
  Assert (negb (has (events c) event)) ;;;
  let op := if events c =? 0 then EPOLL_CTL_ADD else EPOLL_CTL_MOD in
  ok <-- epoll_ctl rt op f (Z.lor EPOLLET (Z.lor (events c) event)) ;;
  if negb ok then mreturn (-1) else
  pending_add 1 ;;;
  let c := set_events (Z.lor (events c) event) c in
  match getContext event c with
  | None => fun _ => Abort
  | Some ctx =>
      Assert (negb (is_some (ec_scheduler ctx)) && negb (is_some (ec_fiber ctx))
              && negb (is_some (ec_cb ctx))) ;;;
      (match cb with
       | Some g => put_context f (setContext event (mkEventContext self None (Some g)) c)
       | None =>
           put_context f (setContext event (mkEventContext self (Some cur.1) None) c) ;;;
           Assert (bool_decide (cur.2 = Fiber.EXEC))
       end) ;;;
      mreturn 0
  end.

(** [int addEvent(...)]: a descriptor beyond the table resizes it under the lock
    that the resizing takes. *)
Definition EventPoller_addEvent (self : option Z) (cur : Z * Fiber.State) (rt f event : Z)
  (cb : option Z) : EM Z :=
  lock_shared ;;;
  n <-- gets (fun p => Z.of_nat (length (m_fdContexts p))) ;;
  unlock_shared ;;;
  (if f <? i32 n then mreturn tt
   else lock_unique false ;;; EventPoller_contextResize true (f * 3 / 2)) ;;;
  addEvent_locked self cur rt f event cb.

(** The part of [delEvent] under the lock of the context. *)
Definition delEvent_locked (rt f event : Z) : EM bool :=
  c <-- context_at f ;;
  if negb (has (events c) event) then mreturn false else
  let new_events := without (events c) event in
  let op := if new_events =? 0 then EPOLL_CTL_DEL else EPOLL_CTL_MOD in
  ok <-- epoll_ctl rt op f (Z.lor EPOLLET new_events) ;;
  if negb ok then mreturn false else
  pending_add (-1) ;;;
  let c := set_events new_events c in
  match getContext event c with
  | None => fun _ => Abort
  | Some ctx =>
      put_context f (setContext event (resetContext ctx) c) ;;;
      mreturn true
  end.

(** The part of [cancelEvent] under the lock of the context. *)
Definition cancelEvent_locked (rt f event : Z) : EM bool :=
  c <-- context_at f ;;
  if negb (has (events c) event) then mreturn false else
  let new_events := without (events c) event in
  let op := if new_events =? 0 then EPOLL_CTL_DEL else EPOLL_CTL_MOD in
  ok <-- epoll_ctl rt op f (Z.lor EPOLLET new_events) ;;
  if negb ok then mreturn false else
  pending_add (-1) ;;;
  triggerEvent f event ;;;
  mreturn true.

(** The part of [cancelAll] under the lock of the context. *)
Definition cancelAll_locked (rt f : Z) : EM bool :=
  c <-- context_at f ;;
  if events c =? 0 then mreturn false else
  ok <-- epoll_ctl rt EPOLL_CTL_DEL f 0 ;;
  if negb ok then mreturn false else
  (if has (events c) READ then triggerEvent f READ ;;; pending_add (-1) else mreturn tt) ;;;
  c <-- context_at f ;;
  (if has (events c) WRITE then triggerEvent f WRITE ;;; pending_add (-1) else mreturn tt) ;;;
  c <-- context_at f ;;
  Assert (events c =? 0) ;;;
  mreturn true.

(** What [delEvent], [cancelEvent] and [cancelAll] do around it: a
    [std::shared_lock] on [m_mtx], whose mutex is released by hand in the middle
    and again by the destructor of the lock. *)
Definition with_table (f : Z) (body : EM bool) : EM bool :=
  lock_shared ;;;
  n <-- gets (fun p => Z.of_nat (length (m_fdContexts p))) ;;
  if i32 n <=? f then unlock_shared ;;; mreturn false else
  unlock_shared ;;;
  r <-- body ;;
  unlock_shared ;;;
  mreturn r.

Definition EventPoller_delEvent (rt f event : Z) : EM bool := with_table f (delEvent_locked rt f event).
Definition EventPoller_cancelEvent (rt f event : Z) : EM bool :=
  with_table f (cancelEvent_locked rt f event).
Definition EventPoller_cancelAll (rt f : Z) : EM bool := with_table f (cancelAll_locked rt f).

(** [void tickle()]: one byte into the pipe; [rt] is what [write] returns. *)
Definition EventPoller_tickle (rt : Z) : EM unit :=
  modify (fun p => if rt =? 1 then set_bytes (tickle_bytes p + 1) p else p) ;;;
  Assert (rt =? 1).

(** [void flushTimer()] *)
Definition EventPoller_flushTimer (rt : Z) : EM unit := EventPoller_tickle rt.

(** ** The idle fiber *)

(** An operation of the timer base. *)
Definition on_timers {A} (m : M TimerManager A) : EM A := fun p =>
  match m (ep_timers p) with
  | Ok a t => Ok a (set_timers t p)
  | Throw e t => Throw e (set_timers t p)
  | Abort => Abort
  | Ub => Ub
  | Deadlock => Deadlock
  | NoFuel => NoFuel
  end.

(** [bool stopping(uint64_t &timeout)]: the result and [timeout] *)
Definition EventPoller_stopping_timeout (now : Z) : EM (bool * Z) :=
  timeout <-- on_timers (TimerManager_getNextTimer now) ;;
  p <-- get ;;
  mreturn ((m_pendingEventCount p =? 0) && (timeout =? 2 ^ 64 - 1) && sink_stopping (ep_scheduler p),
           timeout).

(** [bool stopping()]: it ends without returning a value. *)
Definition EventPoller_stopping (now : Z) : EM bool :=
  r <-- EventPoller_stopping_timeout now ;;
  ub.

Definition MAX_TIMEOUT : Z := 3000.

(** The [timeout] argument of [epoll_wait]. *)
Definition wait_timeout (next_timeout : Z) : Z :=
  if next_timeout =? 0 then MAX_TIMEOUT
  else if MAX_TIMEOUT <? next_timeout then MAX_TIMEOUT else next_timeout.

(** What [epoll_wait] delivers: the tickle pipe, or the context of a descriptor
    with the events that occurred. *)
Inductive ready := RTickle | REvent (f ev : Z).

(** The body of the loop over the delivered events; [rt] answers [epoll_ctl]. *)
Definition idle_event (r : ready) (rt : Z) : EM unit :=
  match r with
  | RTickle => mreturn tt
  | REvent f ev =>
      c <-- context_at f ;;
      let ev := if has ev (Z.lor EPOLLERR EPOLLHUP)
                then Z.lor ev (Z.land (Z.lor EPOLLIN EPOLLOUT) (events c)) else ev in
      let real_events := NONE in
      let real_events := if has ev EPOLLIN then Z.lor real_events READ else real_events in
      let real_events := if has ev EPOLLOUT then Z.lor real_events WRITE else real_events in
      if Z.land (events c) real_events =? NONE then mreturn tt else
      let left_events := without (events c) real_events in
      let op := if left_events =? 0 then EPOLL_CTL_DEL else EPOLL_CTL_MOD in
      ok <-- epoll_ctl rt op (fd c) (Z.lor EPOLLET left_events) ;;
      if negb ok then mreturn tt else
      (if has real_events READ then triggerEvent f READ ;;; pending_add (-1) else mreturn tt) ;;;
      (if has real_events WRITE then triggerEvent f WRITE ;;; pending_add (-1) else mreturn tt)
  end.

Fixpoint idle_events (l : list (ready * Z)) : EM unit :=
  match l with
  | [] => mreturn tt
  | (r, rt) :: l => idle_event r rt ;;; idle_events l
  end.

(** The middle of a turn of [idle]: the callbacks of the timers that are due are
    scheduled together.  [func] names the callbacks. *)
Definition idle_expired (func : Func -> option Z) (now probe : Z) : EM unit :=
  cbs <-- on_timers (TimerManager_listExpiredCb now probe []) ;;
  match cbs with
  | [] => mreturn tt
  | _ => modify (fun p => set_scheduler
           (sink_schedule_range ((fun f => WCb (func f)) <$> cbs) (ep_scheduler p)).2 p)
  end.

(** How a call of [epoll_wait] ends: by a signal ([EINTR]), in another error, or
    with the events delivered. *)
Inductive wait_answer := Interrupted | Failed | Delivered (l : list (ready * Z)).
Definition delivered (a : wait_answer) : list (ready * Z) :=
  match a with Delivered l => l | _ => [] end.

(** The inner loop: an interrupted wait starts over.  The result are the time-outs
    of its waits, and what was delivered. *)
Fixpoint idle_wait (answers : list wait_answer) (next_timeout : Z) : EM (list Z * list (ready * Z)) :=
  match answers with
  | [] => fun _ => NoFuel
  | a :: answers =>
      let next_timeout := wait_timeout next_timeout in
      match a with
      | Interrupted =>
          r <-- idle_wait answers next_timeout ;;
          mreturn (next_timeout :: (r : list Z * _).1, r.2)
      | _ => mreturn ([next_timeout], delivered a)
      end
  end.

(** One turn of the loop of [idle]: whether it goes on (to [swapOut], with the
    time-outs it waited for) or breaks.  [answers] are those of [epoll_wait],
    [now] and [now'] the clock before and after. *)
Definition idle_turn (func : Func -> option Z) (now now' probe : Z) (answers : list wait_answer)
  : EM (option (list Z)) :=
  r <-- EventPoller_stopping_timeout now ;;
  if (r : bool * Z).1 then mreturn None else
  waited <-- idle_wait answers r.2 ;;
  idle_expired func now' probe ;;;
  idle_events (waited : list Z * _).2 ;;;
  mreturn (Some waited.1).
End poller.
Arguments EventPoller S : clear implicits.
