(* ===== verification/EventPollerFacts.v ===== *)
(** * The event poller: registrations, delivery, locking

    The registered events of a descriptor, the waiters stored for it, the count
    of pending events and the interest list of the kernel are shown to agree
    over any sequence of operations, taken as their parts under the lock of a context;
    what the public calls do to the lock of the table; a delivered event schedules exactly its
    waiters.  The client side of [TaskSink] only uses its laws, which the
    scheduler discharges. *)
From S2P Require Import Prelude.
From S2P Require Import StdSet Timer TimerFacts Scheduler EventPoller.
From S2P Require Fiber.

(** ** The scheduler keeps the contract *)

Lemma scheduleNonLock_tasks item s :
  m_fibers (Scheduler_scheduleNonLock item s).2 = m_fibers s ++ List.filter valid_task [item].
Proof.
  unfold Scheduler_scheduleNonLock. cbn. destruct (valid_task item); [done|by rewrite app_nil_r].
Qed.

Lemma schedule_loop_tasks ws b s :
  (schedule_loop ws b s).1.2 = emptied <$> ws
  /\ m_fibers (schedule_loop ws b s).2 = m_fibers s ++ tasks_of ws.
Proof.
  revert b s. induction ws as [|w ws IH]; intros b s; cbn [schedule_loop].
  { split; [done|]. cbn. by rewrite app_nil_r. }
  unfold FiberTask_swap. destruct (Scheduler_scheduleNonLock (FiberTask_of w (-1)) s) as [nb s1] eqn:E.
  pose proof (scheduleNonLock_tasks (FiberTask_of w (-1)) s) as Hq. rewrite E in Hq. cbn [snd] in Hq.
  destruct (IH (b || nb) s1) as [H1 H2].
  destruct (schedule_loop ws (b || nb) s1) as [[b2 ws2] s2]. cbn [fst snd] in *. split.
  - by rewrite H1.
  - rewrite H2, Hq, <- app_assoc. f_equal. unfold tasks_of. cbn.
    by destruct (valid_task (FiberTask_of w (-1))).
Qed.

#[export] Instance Scheduler_sink_laws : TaskSinkLaws Scheduler.
Proof.
  split.
  - intros w s. cbn [sink_schedule sink_tasks Scheduler_sink]. unfold Scheduler_schedule.
    pose proof (scheduleNonLock_tasks (FiberTask_of w (-1)) s) as Hq.
    destruct (Scheduler_scheduleNonLock _ s) as [b s1]. by destruct b.
  - intros w s. cbn [sink_schedule_ptr sink_tasks Scheduler_sink]. unfold Scheduler_schedule_ptr, FiberTask_swap.
    pose proof (scheduleNonLock_tasks (FiberTask_of w (-1)) s) as Hq.
    destruct (Scheduler_scheduleNonLock _ s) as [b s1]. cbn [fst snd] in *. split; [done|].
    destruct b; exact Hq.
  - intros ws s. cbn [sink_schedule_range sink_tasks Scheduler_sink]. unfold Scheduler_schedule_range.
    destruct (schedule_loop_tasks ws false s) as [H1 H2].
    destruct (schedule_loop ws false s) as [[b ws2] s2]. cbn [fst snd] in *.
    split; [done|]. rewrite <- H2. by destruct b.
  - done.
Qed.

(** ** The invariant *)

(** The mask of a pair of directions. *)
Definition mask (r w : bool) : Z := (if r then READ else 0) + (if w then WRITE else 0).

Definition slot_ok (armed : bool) (x : EventContext) : Prop :=
  if armed then ec_scheduler x <> None /\ xorb (is_some (ec_fiber x)) (is_some (ec_cb x)) = true
  else x = mkEventContext None None None.

Definition ctx_ok (c : FdContext) : Prop :=
  exists r w, events c = mask r w /\ slot_ok r (read c) /\ slot_ok w (write c).

Lemma mask_read r w : has (mask r w) READ = r.
Proof. by destruct r, w. Qed.
Lemma mask_write r w : has (mask r w) WRITE = w.
Proof. by destruct r, w. Qed.

(** The number of directions registered. *)
Definition registered (c : FdContext) : Z :=
  (if has (events c) READ then 1 else 0) + (if has (events c) WRITE then 1 else 0).
Definition total (l : list FdContext) : Z := foldr (fun c n => registered c + n) 0 l.

(** The interest list of a kernel that honours the accepted calls. *)
Definition ctl_step (k : gmap Z Z) (x : ctl_op * Z * Z) : gmap Z Z :=
  match x with
  | (EPOLL_CTL_DEL, f, _) => base.delete f k
  | (_, f, ev) => <[f := ev]> k
  end.
Definition interest (l : list (ctl_op * Z * Z)) : gmap Z Z := foldl ctl_step ∅ l.
(** Only a new descriptor is added, only a known one changed or removed. *)
Definition ctl_legal (k : gmap Z Z) (x : ctl_op * Z * Z) : Prop :=
  match x with
  | (EPOLL_CTL_ADD, f, _) => k !! f = None
  | (_, f, _) => is_Some (k !! f)
  end.

Definition work_of (x : EventContext) : work :=
  match ec_cb x with Some g => WCb (Some g) | None => WFiber (ec_fiber x) end.
(** What a waiter gives the scheduler [this], and the other schedulers. *)
Definition here (this : Z) (x : EventContext) : list work :=
  if bool_decide (ec_scheduler x = Some this) then [work_of x] else [].
Definition away (this : Z) (x : EventContext) : list (Z * work) :=
  match ec_scheduler x with
  | Some sc => if sc =? this then [] else [(sc, work_of x)]
  | None => []
  end.

Section poller_facts.
Context {S : Type} `{TaskSinkLaws S}.
Implicit Types (p : EventPoller S).

Record ep_inv p : Prop := {
  ep_ctx : forall i c, m_fdContexts p !! i = Some c -> fd c = Z.of_nat i /\ ctx_ok c;
  ep_pending : m_pendingEventCount p = u64 (total (m_fdContexts p));
  ep_kernel : forall i c, m_fdContexts p !! i = Some c ->
    interest (ctl_log p) !! Z.of_nat i =
      if events c =? 0 then None else Some (Z.lor EPOLLET (events c));
  ep_legal : forall l x l', ctl_log p = l ++ x :: l' -> ctl_legal (interest l) x
}.

(** The context of descriptor [f] and the rest of the state after it becomes [c]. *)
Definition with_context (f : Z) (c : FdContext) p := set_contexts (<[Z.to_nat f := c]> (m_fdContexts p)) p.

Lemma context_at_spec p f c :
  0 <= f -> m_fdContexts p !! Z.to_nat f = Some c -> context_at f p = Ok c p.
Proof. intros Hf Hc. unfold context_at. rewrite (proj2 (Z.ltb_ge f 0)) by lia. by rewrite Hc. Qed.

Lemma total_cons c l : total (c :: l) = registered c + total l.
Proof. done. Qed.

Lemma total_insert l i c c' :
  l !! i = Some c -> total (<[i := c']> l) = total l - registered c + registered c'.
Proof.
  revert i. induction l as [|x l IH]; intros [|i] Hi; try done; rewrite total_cons.
  - injection Hi as ->. change (<[O := c']> (c :: l)) with (c' :: l). rewrite total_cons. lia.
  - change (<[Datatypes.S i := c']> (x :: l)) with (x :: <[i := c']> l).
    rewrite total_cons, IH by done. lia.
Qed.

Lemma u64_step a d : u64 (u64 a + d) = u64 (a + d).
Proof. unfold wrap. by rewrite Zplus_mod_idemp_l. Qed.

(** The two directions, with their bit and their slot. *)
Definition dir_ok (event : Z) : Prop := event = READ \/ event = WRITE.
Definition slot (event : Z) (c : FdContext) : EventContext := if event =? READ then read c else write c.
Definition cleared (event : Z) (c : FdContext) : FdContext :=
  setContext event (mkEventContext None None None) (set_events (without (events c) event) c).

Lemma getContext_slot event c : dir_ok event -> getContext event c = Some (slot event c).
Proof. by intros [-> | ->]. Qed.

Lemma ctx_slot event c :
  dir_ok event -> ctx_ok c -> slot_ok (has (events c) event) (slot event c).
Proof.
  intros Hd (r & w & He & Hr & Hw). rewrite He.
  destruct Hd as [-> | ->], r, w; assumption.
Qed.

Lemma ctx_cleared event c : dir_ok event -> ctx_ok c -> ctx_ok (cleared event c).
Proof.
  intros Hd (r & w & He & Hr & Hw). unfold cleared. rewrite He.
  destruct Hd as [-> | ->].
  - exists false, w. split_and!; [by destruct r, w|done|done].
  - exists r, false. split_and!; [by destruct r, w|done|done].
Qed.

Lemma registered_cleared event c :
  dir_ok event -> ctx_ok c -> has (events c) event = true ->
  registered (cleared event c) = registered c - 1.
Proof.
  intros Hd (r & w & He & _) Hh. unfold registered, cleared. rewrite He in *.
  destruct Hd as [-> | ->], r, w; done.
Qed.

(** What scheduling a waiter changes. *)
Record handed_over p p' (ws : list work) (aws : list (Z * work)) : Prop := {
  ho_tasks : sink_tasks (ep_scheduler p') = sink_tasks (ep_scheduler p) ++ tasks_of ws;
  ho_elsewhere : ep_elsewhere p' = ep_elsewhere p ++ aws;
  ho_this : ep_this p' = ep_this p;
  ho_contexts : m_fdContexts p' = m_fdContexts p;
  ho_pending : m_pendingEventCount p' = m_pendingEventCount p;
  ho_log : ctl_log p' = ctl_log p;
  ho_timers : ep_timers p' = ep_timers p;
  ho_readers : m_readers p' = m_readers p;
  ho_bytes : tickle_bytes p' = tickle_bytes p
}.

Lemma schedule_on_spec sc w p x :
  ec_scheduler x = Some sc -> work_of x = w ->
  (schedule_on sc w p).1 = emptied w
  /\ handed_over p (schedule_on sc w p).2 (here (ep_this p) x) (away (ep_this p) x).
Proof.
  intros Hsc <-. unfold schedule_on, here, away. rewrite Hsc.
  destruct (Z.eqb_spec sc (ep_this p)) as [->|Hne].
  - rewrite bool_decide_true by done. destruct (sink_ptr_law (work_of x) (ep_scheduler p)) as [H1 H2].
    destruct (sink_schedule_ptr (work_of x) (ep_scheduler p)) as [w' s]. cbn [fst snd] in *.
    split; [done|]. split; cbn; try done. by rewrite app_nil_r.
  - rewrite bool_decide_false by congruence. split; [done|]. split; cbn; try done. by rewrite app_nil_r.
Qed.

Lemma triggerEvent_spec p f event c :
  0 <= f -> m_fdContexts p !! Z.to_nat f = Some c -> ctx_ok c -> dir_ok event ->
  has (events c) event = true ->
  exists p1, triggerEvent f event p = Ok tt (with_context f (cleared event c) p1)
    /\ handed_over p p1 (here (ep_this p) (slot event c)) (away (ep_this p) (slot event c)).
Proof.
  intros Hf Hc Hok Hd Hh.
  pose proof (ctx_slot event c Hd Hok) as Hslot. rewrite Hh in Hslot. destruct Hslot as [Hs Hx].
  destruct (ec_scheduler (slot event c)) as [sc|] eqn:Hsc; [|done].
  destruct (schedule_on_spec sc (work_of (slot event c)) p _ Hsc eq_refl) as [Hw Hho].
  exists (schedule_on sc (work_of (slot event c)) p).2. split; [|done]. clear Hho.
  unfold triggerEvent. rewrite (bind_Ok _ _ _ _ _ (context_at_spec p f c Hf Hc)).
  unfold bind at 1, Assert. rewrite Hh.
  assert (getContext event (set_events (without (events c) event) c) = Some (slot event c)) as ->
    by (destruct Hd as [-> | ->]; done).
  rewrite Hsc. unfold work_of in *. destruct (slot event c) as [sc' fb g]. cbn in Hx, Hsc, Hw |- *.
  destruct g as [g|]; [destruct fb; [done|]|];
    unfold bind, get; destruct (schedule_on _ _ p) as [w0 p0]; cbn [fst snd] in *; by subst w0.
Qed.

Lemma interest_snoc l x : interest (l ++ [x]) = ctl_step (interest l) x.
Proof. unfold interest. by rewrite foldl_app. Qed.

Lemma ctl_step_other k op f ev g : f <> g -> ctl_step k (op, f, ev) !! g = k !! g.
Proof.
  intros Hne. destruct op; cbn; [by apply lookup_insert_ne|by apply lookup_delete_ne|by apply lookup_insert_ne].
Qed.

(** One accepted [epoll_ctl] call that follows the new mask of a context. *)
Lemma inv_change p p' f c c' op ev :
  ep_inv p -> 0 <= f -> m_fdContexts p !! Z.to_nat f = Some c ->
  m_fdContexts p' = <[Z.to_nat f := c']> (m_fdContexts p) ->
  fd c' = fd c -> ctx_ok c' ->
  m_pendingEventCount p' = u64 (m_pendingEventCount p + (registered c' - registered c)) ->
  ctl_log p' = ctl_log p ++ [(op, f, ev)] ->
  (op = EPOLL_CTL_ADD <-> events c = 0) ->
  match op with EPOLL_CTL_DEL => events c' = 0
  | _ => events c' <> 0 /\ ev = Z.lor EPOLLET (events c') end ->
  ep_inv p'.
Proof.
  intros [Hctx Hpend Hker Hleg] Hf Hc Hctx' Hfd Hok Hpend' Hlog Hadd Hop.
  assert (Hint : interest (ctl_log p) !! f = if events c =? 0 then None else Some (Z.lor EPOLLET (events c))).
  { specialize (Hker _ _ Hc). by rewrite Z2Nat.id in Hker. }
  pose proof (lookup_lt_Some _ _ _ Hc) as Hlt. split.
  - intros i x. rewrite Hctx'. destruct (decide (i = Z.to_nat f)) as [->|Hne].
    + rewrite list_lookup_insert_eq by done. intros [= <-].
      destruct (Hctx _ _ Hc) as [Hfc _]. split; [congruence|done].
    + rewrite list_lookup_insert_ne by done. apply Hctx.
  - rewrite Hpend', Hctx', (total_insert _ _ c) by done. rewrite Hpend, u64_step. f_equal. lia.
  - intros i x. rewrite Hctx', Hlog, interest_snoc.
    destruct (decide (i = Z.to_nat f)) as [->|Hne].
    + rewrite list_lookup_insert_eq by done. intros [= <-]. rewrite Z2Nat.id by done.
      destruct op; cbn [ctl_step].
      * destruct Hop as [Hne ->]. rewrite lookup_insert_eq.
        by rewrite (proj2 (Z.eqb_neq _ _)).
      * rewrite lookup_delete_eq. by rewrite Hop.
      * destruct Hop as [Hne ->]. rewrite lookup_insert_eq.
        by rewrite (proj2 (Z.eqb_neq _ _)).
    + rewrite list_lookup_insert_ne by done. intros Hx. rewrite ctl_step_other by lia. by apply Hker.
  - intros l x l' Hl. rewrite Hlog in Hl.
    destruct l' as [|y l'] using rev_ind.
    + apply app_inj_tail in Hl as [<- <-]. unfold ctl_legal.
      rewrite Hint. destruct op.
      * by rewrite (proj1 Hadd eq_refl).
      * rewrite (proj2 (Z.eqb_neq (events c) 0)); [eauto|]. intros He. by apply Hadd in He.
      * rewrite (proj2 (Z.eqb_neq (events c) 0)); [eauto|]. intros He. by apply Hadd in He.
    + rewrite app_comm_cons, app_assoc in Hl. apply app_inj_tail in Hl as [Hl _].
      by eapply Hleg.
Qed.

(** An operation that leaves contexts, count and log alone. *)
Lemma inv_same p p' :
  m_fdContexts p' = m_fdContexts p -> m_pendingEventCount p' = m_pendingEventCount p ->
  ctl_log p' = ctl_log p -> ep_inv p -> ep_inv p'.
Proof. intros H1 H2 H3 [? ? ? ?]. split; rewrite ?H1, ?H2, ?H3; auto. Qed.

(** ** Firing the waiters of one or both directions *)

Definition fired_ctx (ri wi : bool) (c : FdContext) : FdContext :=
  let c := if ri then cleared READ c else c in if wi then cleared WRITE c else c.
Definition fired_work (this : Z) (ri wi : bool) (c : FdContext) : list work :=
  (if ri then here this (read c) else []) ++ (if wi then here this (write c) else []).
Definition fired_away (this : Z) (ri wi : bool) (c : FdContext) : list (Z * work) :=
  (if ri then away this (read c) else []) ++ (if wi then away this (write c) else []).

(** What [triggerEvent] and the count leave alone. *)
Record same_rest p p' : Prop := {
  sr_log : ctl_log p' = ctl_log p;
  sr_timers : ep_timers p' = ep_timers p;
  sr_readers : m_readers p' = m_readers p;
  sr_bytes : tickle_bytes p' = tickle_bytes p;
  sr_this : ep_this p' = ep_this p
}.

Lemma fire_one p f event c (b : bool) :
  0 <= f -> m_fdContexts p !! Z.to_nat f = Some c -> ctx_ok c -> dir_ok event ->
  (b = true -> has (events c) event = true) -> m_pendingEventCount p = u64 (m_pendingEventCount p) ->
  let c' := if b then cleared event c else c in
  exists p', (if b then triggerEvent f event ;;; pending_add (-1) else mreturn tt) p = Ok tt p'
    /\ m_fdContexts p' = <[Z.to_nat f := c']> (m_fdContexts p)
    /\ m_pendingEventCount p' = u64 (m_pendingEventCount p + (registered c' - registered c))
    /\ sink_tasks (ep_scheduler p')
       = sink_tasks (ep_scheduler p) ++ tasks_of (if b then here (ep_this p) (slot event c) else [])
    /\ ep_elsewhere p' = ep_elsewhere p ++ (if b then away (ep_this p) (slot event c) else [])
    /\ same_rest p p'.
Proof.
  intros Hf Hc Hok Hd Hb Hu c'. destruct b; subst c'.
  - destruct (triggerEvent_spec p f event c Hf Hc Hok Hd (Hb eq_refl)) as (p1 & Hrun & Hho).
    mrun Hrun. eexists. split; [reflexivity|]. destruct Hho as [H1 H2 H3 H4 H5 H6 H7 H8 H9].
    cbn. rewrite H4, H5. split; [done|]. split; [|split; [done|split; [done|by split]]].
    rewrite registered_cleared by auto. f_equal. lia.
  - exists p. split; [done|]. rewrite list_insert_id by done. split; [done|].
    split; [by rewrite Z.sub_diag, Z.add_0_r|]. rewrite !app_nil_r. by split_and!.
Qed.

Lemma slot_write_cleared c : slot WRITE (cleared READ c) = write c.
Proof. done. Qed.

Lemma has_write_cleared c : ctx_ok c -> has (events (cleared READ c)) WRITE = has (events c) WRITE.
Proof. intros (r & w & He & _). unfold cleared. cbn. rewrite He. by destruct r, w. Qed.

Lemma tasks_of_app l1 l2 : tasks_of (l1 ++ l2) = tasks_of l1 ++ tasks_of l2.
Proof. unfold tasks_of. by rewrite fmap_app, List.filter_app. Qed.

Lemma fire_two p f c ri wi :
  0 <= f -> m_fdContexts p !! Z.to_nat f = Some c -> ctx_ok c ->
  (ri = true -> has (events c) READ = true) -> (wi = true -> has (events c) WRITE = true) ->
  m_pendingEventCount p = u64 (m_pendingEventCount p) ->
  let c' := fired_ctx ri wi c in
  exists p1 p',
    (if ri then triggerEvent f READ ;;; pending_add (-1) else mreturn tt) p = Ok tt p1
    /\ m_fdContexts p1 !! Z.to_nat f = Some (if ri then cleared READ c else c)
    /\ (if wi then triggerEvent f WRITE ;;; pending_add (-1) else mreturn tt) p1 = Ok tt p'
    /\ m_fdContexts p' = <[Z.to_nat f := c']> (m_fdContexts p)
    /\ m_pendingEventCount p' = u64 (m_pendingEventCount p + (registered c' - registered c))
    /\ sink_tasks (ep_scheduler p')
       = sink_tasks (ep_scheduler p) ++ tasks_of (fired_work (ep_this p) ri wi c)
    /\ ep_elsewhere p' = ep_elsewhere p ++ fired_away (ep_this p) ri wi c
    /\ same_rest p p'.
Proof.
  intros Hf Hc Hok Hri Hwi Hu c'.
  destruct (fire_one p f READ c ri Hf Hc Hok (or_introl eq_refl) Hri Hu)
    as (p1 & Hrun1 & Hctx1 & Hp1 & Ht1 & He1 & [Hl1 Hti1 Hr1 Hb1 Hth1]).
  set (c1 := if ri then cleared READ c else c) in *.
  pose proof (lookup_lt_Some _ _ _ Hc) as Hlt.
  assert (m_fdContexts p1 !! Z.to_nat f = Some c1) as Hc1
    by (rewrite Hctx1; by apply list_lookup_insert_eq).
  assert (ctx_ok c1) as Hok1 by (subst c1; destruct ri; [by apply ctx_cleared; [left|]|done]).
  destruct (fire_one p1 f WRITE c1 wi Hf Hc1 Hok1 (or_intror eq_refl))
    as (p' & Hrun2 & Hctx2 & Hp2 & Ht2 & He2 & [Hl2 Hti2 Hr2 Hb2 Hth2]).
  { intros E. subst c1. destruct ri; [rewrite has_write_cleared by done|]; auto. }
  { rewrite Hp1. by rewrite wrap_wrap. }
  assert (Hslot : slot WRITE c1 = write c) by (by subst c1; destruct ri).
  rewrite Hslot, Hth1 in Ht2, He2.
  exists p1, p'. split_and!; try done.
  - rewrite Hctx2, Hctx1, list_insert_insert_eq. done.
  - rewrite Hp2, Hp1, u64_step. f_equal. subst c'. unfold fired_ctx. fold c1. lia.
  - rewrite Ht2, Ht1, <- app_assoc, <- tasks_of_app. done.
  - rewrite He2, He1, <- app_assoc. done.
  - split; congruence.
Qed.
End poller_facts.

(** ** Operations *)

Inductive ep_op :=
| PAdd (self : option Z) (cur : Z * Fiber.State) (rt f event : Z) (cb : option Z)
| PDel (rt f event : Z)
| PCancel (rt f event : Z)
| PCancelAll (rt f : Z)
| PEvent (r : ready) (rt : Z).

(** The directions an event from the kernel counts for: what it names, and on an
    error or hang-up all that is registered. *)
Definition reported (ev : Z) (c : FdContext) (dir : Z) : bool :=
  has ev dir || (has ev (Z.lor EPOLLERR EPOLLHUP) && has (events c) dir).

Lemma has_lor a b m : has (Z.lor a b) m = has a m || has b m.
Proof.
  unfold has. rewrite Z.land_lor_distr_l.
  destruct (Z.eqb_spec (Z.land a m) 0) as [->|Ha]; [by rewrite Z.lor_0_l|].
  destruct (Z.eqb_spec (Z.lor (Z.land a m) (Z.land b m)) 0) as [Hl|]; [|done].
  by apply Z.lor_eq_0_iff in Hl as [? _].
Qed.

Section poller_ops.
Context {S : Type} `{TaskSinkLaws S}.
Implicit Types (p : EventPoller S).

Definition ep_exec (o : ep_op) : M (EventPoller S) Z :=
  match o with
  | PAdd self cur rt f event cb => addEvent_locked self cur rt f event cb
  | PDel rt f event => b <-- delEvent_locked rt f event ;; mreturn (Z.b2z b)
  | PCancel rt f event => b <-- cancelEvent_locked rt f event ;; mreturn (Z.b2z b)
  | PCancelAll rt f => b <-- cancelAll_locked rt f ;; mreturn (Z.b2z b)
  | PEvent r rt => idle_event r rt ;;; mreturn 0
  end.

Definition ctx_of p (f : Z) : FdContext :=
  default (new_FdContext f) (m_fdContexts p !! Z.to_nat f).
Definition in_table p (f : Z) : Prop := 0 <= f < Z.of_nat (length (m_fdContexts p)).

(** A descriptor of the table and one direction; a new registration with a
    current scheduler and a callback or a running fiber; a delivered event names
    no unregistered direction next to a registered one. *)
Definition ep_ok p (o : ep_op) : Prop :=
  match o with
  | PAdd self cur _ f event cb =>
      in_table p f /\ dir_ok event /\ has (events (ctx_of p f)) event = false
      /\ self <> None /\ (cb = None -> cur.2 = Fiber.EXEC)
  | PDel _ f event | PCancel _ f event => in_table p f /\ dir_ok event
  | PCancelAll _ f => in_table p f
  | PEvent RTickle _ => True
  | PEvent (REvent f ev) _ =>
      in_table p f /\
      let c := ctx_of p f in
      ((has (events c) READ && reported ev c READ) || (has (events c) WRITE && reported ev c WRITE) = false
       \/ forall dir, dir_ok dir -> reported ev c dir = true -> has (events c) dir = true)
  end.

(** The waiters an operation schedules, each on the scheduler it was registered
    under: on this one, and on others. *)
Definition ep_fires p (o : ep_op) : option (Z * bool * bool) :=
  match o with
  | PCancel rt f event =>
      let c := ctx_of p f in
      if (rt =? 0) && has (events c) event then Some (f, event =? READ, negb (event =? READ)) else None
  | PCancelAll rt f =>
      let c := ctx_of p f in
      if rt =? 0 then Some (f, has (events c) READ, has (events c) WRITE) else None
  | PEvent (REvent f ev) rt =>
      let c := ctx_of p f in
      if rt =? 0 then Some (f, has (events c) READ && reported ev c READ,
                            has (events c) WRITE && reported ev c WRITE) else None
  | _ => None
  end.
Definition ep_work p (o : ep_op) : list work :=
  match ep_fires p o with Some (f, ri, wi) => fired_work (ep_this p) ri wi (ctx_of p f) | None => [] end.
Definition ep_away p (o : ep_op) : list (Z * work) :=
  match ep_fires p o with Some (f, ri, wi) => fired_away (ep_this p) ri wi (ctx_of p f) | None => [] end.

Lemma in_table_ctx p f :
  ep_inv p -> in_table p f ->
  m_fdContexts p !! Z.to_nat f = Some (ctx_of p f) /\ fd (ctx_of p f) = f /\ ctx_ok (ctx_of p f).
Proof.
  intros Hinv Hf. unfold in_table in Hf. unfold ctx_of.
  destruct (lookup_lt_is_Some_2 (m_fdContexts p) (Z.to_nat f)) as [c Hc]; [lia|]. rewrite Hc.
  split; [done|]. destruct (ep_ctx p Hinv _ _ Hc) as [Hfd Hok]. cbn. split; [lia|done].
Qed.

Lemma pending_wrapped p : ep_inv p -> m_pendingEventCount p = u64 (m_pendingEventCount p).
Proof. intros Hinv. rewrite (ep_pending p Hinv). by rewrite wrap_wrap. Qed.

(** The contexts after an operation, and what it returns. *)
Definition stored (self : option Z) (cur : Z * Fiber.State) (cb : option Z) : EventContext :=
  match cb with Some g => mkEventContext self None (Some g) | None => mkEventContext self (Some cur.1) None end.
Definition ep_after p (o : ep_op) : list FdContext :=
  let put f c := <[Z.to_nat f := c]> (m_fdContexts p) in
  match o with
  | PAdd self cur rt f event cb =>
      let c := ctx_of p f in
      if rt =? 0 then put f (setContext event (stored self cur cb) (set_events (Z.lor (events c) event) c))
      else m_fdContexts p
  | PDel rt f event | PCancel rt f event =>
      let c := ctx_of p f in
      if (rt =? 0) && has (events c) event then put f (cleared event c) else m_fdContexts p
  | PCancelAll rt f =>
      let c := ctx_of p f in
      if rt =? 0 then put f (fired_ctx (has (events c) READ) (has (events c) WRITE) c) else m_fdContexts p
  | PEvent RTickle _ => m_fdContexts p
  | PEvent (REvent f ev) rt =>
      let c := ctx_of p f in
      if rt =? 0 then put f (fired_ctx (has (events c) READ && reported ev c READ)
                                       (has (events c) WRITE && reported ev c WRITE) c)
      else m_fdContexts p
  end.
Definition ep_answer p (o : ep_op) : Z :=
  match o with
  | PAdd _ _ rt _ _ _ => if rt =? 0 then 0 else -1
  | PDel rt f event | PCancel rt f event => Z.b2z ((rt =? 0) && has (events (ctx_of p f)) event)
  | PCancelAll rt f => Z.b2z ((rt =? 0) && negb (events (ctx_of p f) =? 0))
  | PEvent _ _ => 0
  end.

(** What every operation achieves. *)
Record done_by_in p (o : ep_op) p' : Prop := {
  db_inv : ep_inv p';
  db_tasks : sink_tasks (ep_scheduler p') = sink_tasks (ep_scheduler p) ++ tasks_of (ep_work p o);
  db_elsewhere : ep_elsewhere p' = ep_elsewhere p ++ ep_away p o;
  db_this : ep_this p' = ep_this p;
  db_contexts : m_fdContexts p' = ep_after p o;
  db_timers : ep_timers p' = ep_timers p;
  db_readers : m_readers p' = m_readers p
}.
Definition done_by p (o : ep_op) : Prop :=
  exists p', ep_exec o p = Ok (ep_answer p o) p' /\ done_by_in p o p'.

Lemma no_work l : l = l ++ tasks_of [].
Proof. cbn. by rewrite app_nil_r. Qed.

Lemma nothing_done p o :
  ep_inv p -> (match ep_fires p o with Some (_, ri, wi) => ri || wi = false | None => True end) ->
  ep_after p o = m_fdContexts p -> done_by_in p o p.
Proof.
  intros Hinv Hw Ha.
  assert (ep_work p o = [] /\ ep_away p o = []) as [H1 H2]
    by (unfold ep_work, ep_away; by destruct (ep_fires p o) as [[[f []] []]|]).
  split; [done|rewrite H1; apply no_work|by rewrite H2, app_nil_r|done|by rewrite Ha|done..].
Qed.

Section one.
Context p (f : Z) (Hinv : ep_inv p) (Hf : in_table p f).
Let c := ctx_of p f.

Lemma has_mask_cases event : dir_ok event -> ctx_ok c ->
  exists r w, events c = mask r w /\ has (events c) event = (if event =? READ then r else w).
Proof.
  intros Hd (r & w & He & _). exists r, w. split; [done|]. rewrite He.
  destruct Hd as [-> | ->]; by destruct r, w.
Qed.

Lemma ep_add self cur rt event cb :
  ep_ok p (PAdd self cur rt f event cb) -> done_by p (PAdd self cur rt f event cb).
Proof.
  intros (_ & Hd & Hno & Hself & Hcb). destruct (in_table_ctx p f Hinv Hf) as (Hc & Hfd & Hok).
  fold c in Hc, Hfd, Hok, Hno. unfold done_by. cbn [ep_exec ep_work]. unfold addEvent_locked.
  mrun (context_at_spec p f c (proj1 Hf) Hc). unfold bind at 1, Assert. rewrite Hno. cbn [negb].
  pose proof (ctx_slot event c Hd Hok) as Hslot. rewrite Hno in Hslot. cbn in Hslot.
  unfold bind at 1, epoll_ctl. destruct (Z.eqb_spec rt 0) as [->|Hrt].
  2: { exists p. cbn [ep_answer]. rewrite (proj2 (Z.eqb_neq rt 0) Hrt). split; [done|].
       apply nothing_done; [done..|]. cbn [ep_after]. by rewrite (proj2 (Z.eqb_neq rt 0) Hrt). }
  cbn [negb]. set (op := if events c =? 0 then EPOLL_CTL_ADD else EPOLL_CTL_MOD).
  set (ev := Z.lor EPOLLET (Z.lor (events c) event)). cbn [bind pending_add modify].
  assert (getContext event (set_events (Z.lor (events c) event) c)
    = Some (mkEventContext None None None)) as ->
    by (rewrite <- Hslot; destruct Hd as [-> | ->]; done).
  unfold bind at 1, Assert. cbn [ec_scheduler ec_fiber ec_cb is_some negb andb].
  change (match cb with Some g => mkEventContext self None (Some g)
            | None => mkEventContext self (Some cur.1) None end) with (stored self cur cb).
  set (x := stored self cur cb). set (c' := setContext event x (set_events (Z.lor (events c) event) c)).
  assert (Hx : slot_ok true x) by (subst x; by destruct cb).
  assert (Hc' : ctx_ok c' /\ registered c' = registered c + 1 /\ fd c' = fd c
    /\ events c' = Z.lor (events c) event /\ events c' <> 0).
  { destruct Hok as (r & w & He & Hr & Hw). unfold c', registered, ctx_ok. rewrite He in *.
    destruct Hd as [-> | ->]; cbn in Hno |- *.
    - assert (r = false) as -> by (by destruct r, w). split_and!; try (by destruct w).
      exists true, w. split_and!; [by destruct w|done|done].
    - assert (w = false) as -> by (by destruct r, w). split_and!; try (by destruct r).
      exists r, true. split_and!; [by destruct r|done|done]. }
  destruct Hc' as (Hok' & Hreg & Hfd' & He' & Hne').
  set (p1 := set_pending _ _).
  exists (with_context f c' p1). split; [|split].
  - destruct cb as [g|]; cbn; [done|]. unfold bind, Assert. rewrite bool_decide_true by auto. done.
  - apply (inv_change p _ f c c' op ev Hinv (proj1 Hf) Hc); try done.
    + cbn. f_equal. lia.
    + subst op. destruct (Z.eqb_spec (events c) 0); split; (done || by intros).
    + subst op ev. rewrite He'. destruct (Z.eqb_spec (events c) 0); split; congruence.
  - apply no_work.
  - symmetry. apply app_nil_r.
  - done.
  - done.
  - done.
  - done.
Qed.

Lemma ep_del rt event : ep_ok p (PDel rt f event) -> done_by p (PDel rt f event).
Proof.
  intros (_ & Hd). destruct (in_table_ctx p f Hinv Hf) as (Hc & Hfd & Hok).
  fold c in Hc, Hfd, Hok. unfold done_by. cbn [ep_exec ep_work]. unfold delEvent_locked.
  assert (Hstop : forall b, (bind (mreturn b) (fun b => mreturn (Z.b2z b))) p = Ok (Z.b2z b) p) by done.
  unfold bind at 1. rewrite (bind_Ok _ _ _ _ _ (context_at_spec p f c (proj1 Hf) Hc)).
  destruct (has (events c) event) eqn:Hh; cbn [negb].
  2: { exists p. cbn [ep_answer]. fold c. rewrite Hh, andb_false_r. split; [done|].
       apply nothing_done; [done..|]. cbn [ep_after]. fold c. by rewrite Hh, andb_false_r. }
  set (op := if without (events c) event =? 0 then EPOLL_CTL_DEL else EPOLL_CTL_MOD).
  set (ev := Z.lor EPOLLET (without (events c) event)).
  unfold bind at 1, epoll_ctl. destruct (rt =? 0) eqn:Hrt.
  2: { exists p. cbn [ep_answer]. rewrite Hrt. split; [done|].
       apply nothing_done; [done..|]. cbn [ep_after]. by rewrite Hrt. }
  cbn [negb bind pending_add modify].
  rewrite (getContext_slot event (set_events _ c) Hd). cbn [put_context bind modify mreturn].
  pose proof (registered_cleared event c Hd Hok Hh) as Hreg.
  pose proof (ctx_cleared event c Hd Hok) as Hok'.
  assert (Hboth : (rt =? 0) && has (events c) event = true) by (by rewrite Hrt, Hh).
  eexists. cbn [ep_answer]. fold c. rewrite Hboth. split; [reflexivity|].
  split; [|apply no_work|symmetry; apply app_nil_r|done|cbn [ep_after]; fold c; by rewrite Hboth|done|done].
  - apply (inv_change p _ f c (cleared event c) op ev Hinv (proj1 Hf) Hc); try done.
    + by destruct Hd as [-> | ->].
    + cbn. rewrite Hreg. f_equal. lia.
    + subst op. destruct Hok as (r & w & He & _). rewrite He in *.
      destruct Hd as [-> | ->], r, w; done.
    + subst op ev. destruct (Z.eqb_spec (without (events c) event) 0);
        by destruct Hd as [-> | ->].
Qed.

Lemma ep_cancel rt event : ep_ok p (PCancel rt f event) -> done_by p (PCancel rt f event).
Proof.
  intros (_ & Hd). destruct (in_table_ctx p f Hinv Hf) as (Hc & Hfd & Hok).
  fold c in Hc, Hfd, Hok. unfold done_by. cbn [ep_exec ep_work]. fold c. unfold cancelEvent_locked.
  unfold bind at 1. rewrite (bind_Ok _ _ _ _ _ (context_at_spec p f c (proj1 Hf) Hc)).
  destruct (has (events c) event) eqn:Hh; cbn [negb].
  2: { exists p. cbn [ep_answer]. fold c. rewrite Hh, andb_false_r. split; [done|].
       apply nothing_done; [done|cbn [ep_fires]|cbn [ep_after]]; fold c; by rewrite Hh, andb_false_r. }
  set (op := if without (events c) event =? 0 then EPOLL_CTL_DEL else EPOLL_CTL_MOD).
  set (ev := Z.lor EPOLLET (without (events c) event)).
  unfold bind at 1, epoll_ctl. destruct (rt =? 0) eqn:Hrt.
  2: { exists p. cbn [ep_answer]. rewrite Hrt. split; [done|].
       apply nothing_done; [done|cbn [ep_fires]|cbn [ep_after]]; by rewrite Hrt. }
  cbn [negb bind pending_add modify].
  set (p1 := set_pending _ _).
  destruct (triggerEvent_spec p1 f event c (proj1 Hf) Hc Hok Hd Hh) as (p2 & Hrun & Hho).
  rewrite (bind_Ok _ _ _ _ _ Hrun). cbn [mreturn].
  pose proof (registered_cleared event c Hd Hok Hh) as Hreg.
  assert (Hboth : (rt =? 0) && has (events c) event = true) by (by rewrite Hrt, Hh).
  eexists. cbn [ep_answer]. fold c. rewrite Hboth. split; [reflexivity|].
  assert (Hfires : ep_work p (PCancel rt f event) = here (ep_this p) (slot event c)
    /\ ep_away p (PCancel rt f event) = away (ep_this p) (slot event c)).
  { unfold ep_work, ep_away. cbn [ep_fires]. fold c. rewrite Hboth. unfold fired_work, fired_away.
    destruct Hd as [-> | ->]; cbn; by rewrite ?app_nil_r. }
  destruct Hfires as [Hwk Haw]. destruct Hho as [H1 H2 H3 H4 H5 H6 H7 H8 H9].
  split; [|by rewrite Hwk|by rewrite Haw|done|cbn [ep_after]; fold c; rewrite Hboth; cbn; by rewrite H4|done|done].
  - apply (inv_change p _ f c (cleared event c) op ev Hinv (proj1 Hf) Hc); try done.
    + cbn. by rewrite H4.
    + by destruct Hd as [-> | ->].
    + by apply ctx_cleared.
    + cbn. rewrite H5, Hreg. cbn. f_equal. lia.
    + subst op. destruct Hok as (r & w & He & _). rewrite He in *.
      destruct Hd as [-> | ->], r, w; done.
    + subst op ev. destruct (Z.eqb_spec (without (events c) event) 0);
        by destruct Hd as [-> | ->].
Qed.

(** Both directions of the context fire, after an accepted [epoll_ctl]. *)
Lemma fired_inv p1 p' ri wi op ev :
  m_fdContexts p1 = m_fdContexts p -> m_pendingEventCount p1 = m_pendingEventCount p ->
  ctl_log p1 = ctl_log p ++ [(op, f, ev)] ->
  m_fdContexts p' = <[Z.to_nat f := fired_ctx ri wi c]> (m_fdContexts p1) ->
  m_pendingEventCount p'
    = u64 (m_pendingEventCount p1 + (registered (fired_ctx ri wi c) - registered c)) ->
  same_rest p1 p' ->
  (ri = true -> has (events c) READ = true) -> (wi = true -> has (events c) WRITE = true) ->
  ri || wi = true ->
  op = (if events (fired_ctx ri wi c) =? 0 then EPOLL_CTL_DEL else EPOLL_CTL_MOD) ->
  (op = EPOLL_CTL_MOD -> ev = Z.lor EPOLLET (events (fired_ctx ri wi c))) ->
  ep_inv p'.
Proof.
  intros H1 H2 H3 H4 H5 [H6 _ _ _ _] Hri Hwi Hany Hop Hev.
  destruct (in_table_ctx p f Hinv Hf) as (Hc & Hfd & Hok). fold c in Hc, Hfd, Hok.
  apply (inv_change p _ f c (fired_ctx ri wi c) op ev Hinv (proj1 Hf) Hc).
  - by rewrite H4, H1.
  - by destruct ri, wi.
  - unfold fired_ctx. destruct ri, wi; repeat apply ctx_cleared;
      first [done | left; done | right; done].
  - by rewrite H5, H2.
  - by rewrite H6, H3.
  - rewrite Hop. destruct Hok as (r & w & He & _). rewrite He in *. split.
    + by destruct (_ =? 0).
    + intros Hz. destruct r, w; try done. destruct ri; [by specialize (Hri eq_refl)|].
      destruct wi; [by specialize (Hwi eq_refl)|done].
  - rewrite Hop in Hev |- *. destruct (Z.eqb_spec (events (fired_ctx ri wi c)) 0); [done|].
    split; [done|]. by apply Hev.
Qed.

Lemma ep_cancelAll rt : done_by p (PCancelAll rt f).
Proof.
  destruct (in_table_ctx p f Hinv Hf) as (Hc & Hfd & Hok).
  fold c in Hc, Hfd, Hok. unfold done_by. cbn [ep_exec ep_work]. fold c. unfold cancelAll_locked.
  unfold bind at 1. rewrite (bind_Ok _ _ _ _ _ (context_at_spec p f c (proj1 Hf) Hc)).
  destruct (Z.eqb_spec (events c) 0) as [Hz|Hnz].
  { exists p. cbn [ep_answer]. fold c. rewrite Hz, andb_false_r. split; [done|].
    apply nothing_done; [done|cbn [ep_fires]|cbn [ep_after]]; fold c; rewrite Hz; destruct (rt =? 0);
      try done. by apply list_insert_id. }
  unfold bind at 1, epoll_ctl. destruct (rt =? 0) eqn:Hrt.
  2: { exists p. cbn [ep_answer]. rewrite Hrt. split; [done|].
       apply nothing_done; [done|cbn [ep_fires]|cbn [ep_after]]; by rewrite Hrt. }
  cbn [negb]. set (p1 := set_log _ p).
  destruct (fire_two p1 f c (has (events c) READ) (has (events c) WRITE) (proj1 Hf) Hc Hok
    (fun x => x) (fun x => x) (pending_wrapped p Hinv))
    as (p2 & p3 & Hrun1 & Hc2 & Hrun2 & Hctx & Hpend & Htasks & Haway & Hrest).
  set (ri := has (events c) READ) in *. set (wi := has (events c) WRITE) in *.
  assert (Hall : events (fired_ctx ri wi c) = 0 /\ ri || wi = true
    /\ has (events (if ri then cleared READ c else c)) WRITE = wi).
  { subst ri wi. destruct Hok as (r & w & He & _). rewrite He in Hnz |- *.
    rewrite mask_read, mask_write. unfold fired_ctx, cleared.
    destruct r, w; try done; cbn [events setContext set_events Z.eqb READ WRITE Pos.eqb];
      rewrite He; done. }
  destruct Hall as (Hzero & Hany & Hw).
  assert (Hc3 : context_at f p3 = Ok (fired_ctx ri wi c) p3).
  { apply context_at_spec; [exact (proj1 Hf)|]. rewrite Hctx. apply list_lookup_insert_eq.
    exact (lookup_lt_Some _ _ _ Hc). }
  rewrite (bind_Ok _ _ _ _ _ Hrun1).
  rewrite (bind_Ok _ _ _ _ _ (context_at_spec p2 f _ (proj1 Hf) Hc2)). rewrite Hw.
  rewrite (bind_Ok _ _ _ _ _ Hrun2), (bind_Ok _ _ _ _ _ Hc3).
  unfold bind at 1, Assert. rewrite Hzero. cbn [Z.eqb mreturn].
  exists p3. cbn [ep_answer]. fold c. rewrite Hrt, (proj2 (Z.eqb_neq _ _) Hnz). split; [done|].
  destruct Hrest as [Hlog Hti Hre Hby Hth].
  split; [|unfold ep_work|unfold ep_away|done|cbn [ep_after]|done..]; cbn [ep_fires]; fold c;
    try by rewrite Hrt, ?Htasks, ?Haway, ?Hctx.
  apply (fired_inv p1 p3 ri wi EPOLL_CTL_DEL 0); try done. by rewrite Hzero.
Qed.

Lemma reported_bits ev dir :
  dir_ok dir ->
  has (if has ev (Z.lor EPOLLERR EPOLLHUP)
       then Z.lor ev (Z.land (Z.lor EPOLLIN EPOLLOUT) (events c)) else ev) dir = reported ev c dir.
Proof.
  intros Hd. destruct (in_table_ctx p f Hinv Hf) as (_ & _ & r & w & He & _). fold c in He.
  unfold reported. destruct (has ev (Z.lor EPOLLERR EPOLLHUP)); cbn [andb].
  - rewrite has_lor. f_equal. rewrite He. destruct Hd as [-> | ->]; by destruct r, w.
  - by rewrite orb_false_r.
Qed.

(** [idle_event] in terms of the directions it counts. *)
Lemma idle_event_run ev rt :
  let ri := reported ev c READ in
  let wi := reported ev c WRITE in
  idle_event (REvent f ev) rt p =
  (if Z.land (events c) (mask ri wi) =? NONE then mreturn tt else
   ok <-- epoll_ctl rt (if without (events c) (mask ri wi) =? 0 then EPOLL_CTL_DEL else EPOLL_CTL_MOD)
            f (Z.lor EPOLLET (without (events c) (mask ri wi))) ;;
   if negb ok then mreturn tt else
   (if ri then triggerEvent f READ ;;; pending_add (-1) else mreturn tt) ;;;
   (if wi then triggerEvent f WRITE ;;; pending_add (-1) else mreturn tt)) p.
Proof.
  intros ri wi. destruct (in_table_ctx p f Hinv Hf) as (Hc & Hfd & Hok). fold c in Hc, Hfd, Hok.
  unfold idle_event. rewrite (bind_Ok _ _ _ _ _ (context_at_spec p f c (proj1 Hf) Hc)).
  set (ev' := if has ev (Z.lor EPOLLERR EPOLLHUP) then _ else ev).
  change EPOLLIN with READ. change EPOLLOUT with WRITE.
  unfold ev'. rewrite (reported_bits ev READ (or_introl eq_refl)),
    (reported_bits ev WRITE (or_intror eq_refl)). fold ri wi. rewrite Hfd.
  replace (if wi then Z.lor (if ri then Z.lor NONE READ else NONE) WRITE
           else if ri then Z.lor NONE READ else NONE) with (mask ri wi) by (by destruct ri, wi).
  replace (has (mask ri wi) READ) with ri by (by destruct ri, wi).
  replace (has (mask ri wi) WRITE) with wi by (by destruct ri, wi). done.
Qed.

Lemma ep_event ev rt : ep_ok p (PEvent (REvent f ev) rt) -> done_by p (PEvent (REvent f ev) rt).
Proof.
  intros [_ Hsub]. destruct (in_table_ctx p f Hinv Hf) as (Hc & Hfd & Hok).
  cbv zeta in Hsub. fold c in Hc, Hfd, Hok, Hsub. unfold done_by. cbn [ep_exec ep_work]. fold c.
  unfold bind at 1. rewrite idle_event_run.
  set (ri := reported ev c READ) in *. set (wi := reported ev c WRITE) in *.
  assert (Hland : (Z.land (events c) (mask ri wi) =? NONE)
    = negb ((has (events c) READ && ri) || (has (events c) WRITE && wi))).
  { destruct Hok as (r & w & He & _). rewrite He. by destruct r, w, ri, wi. }
  rewrite Hland. destruct ((has (events c) READ && ri) || (has (events c) WRITE && wi)) eqn:Eany;
    cbn [negb].
  2: { exists p. split; [done|]. apply orb_false_iff in Eany as [Er Ew].
       apply nothing_done; [done|cbn [ep_fires]|cbn [ep_after]]; fold c ri wi; rewrite Er, Ew;
         destruct (rt =? 0); try done. by apply list_insert_id. }
  destruct Hsub as [Hno|Hsub]; [congruence|].
  assert (Hri : ri = true -> has (events c) READ = true) by (apply Hsub; by left).
  assert (Hwi : wi = true -> has (events c) WRITE = true) by (apply Hsub; by right).
  assert ((has (events c) READ && ri) = ri /\ (has (events c) WRITE && wi) = wi) as [Er Ew].
  { destruct ri, wi; rewrite ?andb_false_r, ?Hri, ?Hwi by done; done. }
  rewrite Er, Ew in Eany.
  unfold bind at 1, epoll_ctl. destruct (rt =? 0) eqn:Hrt.
  2: { exists p. split; [done|]. apply nothing_done; [done|cbn [ep_fires]|cbn [ep_after]]; by rewrite Hrt. }
  cbn [negb]. set (op := if without _ _ =? 0 then _ else _). set (em := Z.lor EPOLLET _).
  set (p1 := set_log _ p).
  destruct (fire_two p1 f c ri wi (proj1 Hf) Hc Hok Hri Hwi (pending_wrapped p Hinv))
    as (p2 & p3 & Hrun1 & Hc2 & Hrun2 & Hctx & Hpend & Htasks & Haway & Hrest).
  rewrite (bind_Ok _ _ _ _ _ Hrun1), Hrun2. cbn [mreturn].
  assert (Hleft : without (events c) (mask ri wi) = events (fired_ctx ri wi c)).
  { unfold fired_ctx, cleared. destruct Hok as (r & w & He & _). rewrite He in *.
    destruct r, w, ri, wi; cbn; rewrite ?He; done. }
  exists p3. split; [done|]. destruct Hrest as [Hlog Hti Hre Hby Hth].
  split; [|unfold ep_work|unfold ep_away|done|cbn [ep_after]|done..]; cbn [ep_fires]; fold c ri wi;
    try by rewrite Hrt, Er, Ew, ?Htasks, ?Haway, ?Hctx.
  apply (fired_inv p1 p3 ri wi op em); try done.
  - subst op. by rewrite Hleft.
  - subst em. by rewrite Hleft.
Qed.
End one.

Lemma ep_step p o : ep_inv p -> ep_ok p o -> done_by p o.
Proof.
  intros Hinv Hok. destruct o as [self cur rt f event cb|rt f event|rt f event|rt f|[|f ev] rt].
  - apply ep_add; [done|by destruct Hok|done].
  - apply ep_del; [done|by destruct Hok|done].
  - apply ep_cancel; [done|by destruct Hok|done].
  - by apply ep_cancelAll.
  - exists p. split; [done|]. by apply nothing_done.
  - apply ep_event; [done|by destruct Hok|done].
Qed.
(** ** Where the waiters are *)

Lemma after_length p o p' : done_by_in p o p' -> length (m_fdContexts p') = length (m_fdContexts p).
Proof.
  intros [_ _ _ _ -> _ _]. destruct o as [self cur rt f event cb|rt f event|rt f event|rt f|[|f ev] rt];
    cbn [ep_after]; repeat case_match; by rewrite ?length_insert.
Qed.
Lemma after_in_table p o p' f : done_by_in p o p' -> in_table p' f <-> in_table p f.
Proof. intros Hd. unfold in_table. by rewrite (after_length p o p' Hd). Qed.

Lemma ctx_of_contexts p p' f : m_fdContexts p' = m_fdContexts p -> ctx_of p' f = ctx_of p f.
Proof. unfold ctx_of. by intros ->. Qed.
Lemma ctx_of_put p p' f g c :
  in_table p f -> 0 <= g -> m_fdContexts p' = <[Z.to_nat f := c]> (m_fdContexts p) ->
  ctx_of p' g = if decide (g = f) then c else ctx_of p g.
Proof.
  intros Hf Hg Hp. unfold in_table in Hf. unfold ctx_of. rewrite Hp. destruct (decide (g = f)) as [->|Hne].
  - rewrite list_lookup_insert_eq by lia. done.
  - by rewrite list_lookup_insert_ne by lia.
Qed.

(** Empty, and what an operation may leave of the slot [dir]. *)
Definition no_waiter : EventContext := mkEventContext None None None.
Definition kept_or_cleared (dir : Z) (c c' : FdContext) : Prop :=
  slot dir c' = slot dir c /\ has (events c') dir = has (events c) dir
  \/ slot dir c' = no_waiter /\ has (events c') dir = false.

Lemma cleared_slots event dir c :
  dir_ok event -> dir_ok dir -> ctx_ok c ->
  slot dir (cleared event c) = (if decide (dir = event) then no_waiter else slot dir c)
  /\ has (events (cleared event c)) dir = negb (bool_decide (dir = event)) && has (events c) dir.
Proof.
  intros [-> | ->] [-> | ->] (r & w & He & _); unfold cleared; (split; [done|]); cbn [events setContext set_events];
    rewrite He; by destruct r, w.
Qed.
Lemma cleared_kept event dir c :
  dir_ok event -> dir_ok dir -> ctx_ok c -> kept_or_cleared dir c (cleared event c).
Proof.
  intros He Hd Hc. destruct (cleared_slots event dir c He Hd Hc) as [Hs Hh]. unfold kept_or_cleared.
  rewrite Hs, Hh. destruct (decide (dir = event)); [right|left]; [by rewrite bool_decide_true|].
  by rewrite bool_decide_false.
Qed.
Lemma fired_kept ri wi dir c : dir_ok dir -> ctx_ok c -> kept_or_cleared dir c (fired_ctx ri wi c).
Proof.
  intros Hd Hc. unfold fired_ctx. pose proof (or_introl eq_refl : dir_ok READ) as Hr.
  pose proof (or_intror eq_refl : dir_ok WRITE) as Hw. destruct ri, wi.
  - destruct (cleared_kept READ dir c Hr Hd Hc) as [[H1 H2]|[H1 H2]];
      destruct (cleared_kept WRITE dir _ Hw Hd (ctx_cleared READ c Hr Hc)) as [[H3 H4]|[H3 H4]];
      unfold kept_or_cleared; rewrite H3, H4, ?H1, ?H2; auto.
  - by apply cleared_kept.
  - by apply cleared_kept.
  - by left.
Qed.

(** A slot is left alone, emptied, or filled by a registration for it. *)
Lemma after_slot p o p' g dir :
  ep_inv p -> ep_ok p o -> done_by_in p o p' -> in_table p g -> dir_ok dir ->
  kept_or_cleared dir (ctx_of p g) (ctx_of p' g)
  \/ exists self cur rt cb, o = PAdd self cur rt g dir cb /\ slot dir (ctx_of p' g) = stored self cur cb.
Proof.
  intros Hinv Hok [_ _ _ _ Ha _ _] Hg Hd.
  assert (Hsame : m_fdContexts p' = m_fdContexts p -> kept_or_cleared dir (ctx_of p g) (ctx_of p' g)).
  { intros He. left. by rewrite (ctx_of_contexts p p'). }
  assert (Hput : forall f c, in_table p f -> m_fdContexts p' = <[Z.to_nat f := c]> (m_fdContexts p) ->
    (g = f -> kept_or_cleared dir (ctx_of p f) c) -> kept_or_cleared dir (ctx_of p g) (ctx_of p' g)).
  { intros f c Hf He Hc. rewrite (ctx_of_put p p' f g c Hf (proj1 Hg) He).
    destruct (decide (g = f)) as [->|]; [auto|by left]. }
  destruct (in_table_ctx p g Hinv Hg) as (_ & _ & Hcg).
  destruct o as [self cur rt f event cb|rt f event|rt f event|rt f|[|f ev] rt]; cbn [ep_after ep_ok] in *.
  - destruct (rt =? 0); [|auto]. destruct Hok as (Hf & He & _). rewrite (ctx_of_put p p' f g _ Hf (proj1 Hg) Ha).
    destruct (decide (g = f)) as [->|]; [|left; by left].
    destruct (decide (dir = event)) as [->|Hne].
    + right. exists self, cur, rt, cb. split; [done|]. by destruct He as [-> | ->].
    + left. left. destruct Hcg as (r & w & Hev & _). unfold slot, setContext, set_events.
      destruct Hd as [-> | ->], He as [-> | ->]; try done; cbn [events READ WRITE Z.eqb Pos.eqb];
        rewrite Hev; by destruct r, w.
  - left. destruct Hok as [Hf He]. destruct (_ && _); [|auto]. eapply (Hput f); [done|exact Ha|]. intros ->. by apply cleared_kept.
  - left. destruct Hok as [Hf He]. destruct (_ && _); [|auto]. eapply (Hput f); [done|exact Ha|]. intros ->. by apply cleared_kept.
  - left. destruct (rt =? 0); [|auto]. eapply (Hput f); [done|exact Ha|]. intros ->. by apply fired_kept.
  - auto.
  - left. destruct Hok as [Hf _]. destruct (rt =? 0); [|auto]. eapply (Hput f); [done|exact Ha|]. intros ->. by apply fired_kept.
Qed.
End poller_ops.

(** ** Conservation of waiters *)

Section waiters.
Context {S : Type} `{TaskSinkLaws S}.
Implicit Types (p : EventPoller S).
(** The waiters that count: not the null ones. *)
Variable (q : work -> bool).
Hypotheses (Hq_fiber : q (WFiber None) = false) (Hq_cb : q (WCb None) = false).

Definition slot_weight (x : EventContext) : Z := Z.b2z (q (work_of x)).
Definition ctx_weight (c : FdContext) : Z := slot_weight (read c) + slot_weight (write c).
(** How many are registered, and how many wait in the scheduler. *)
Definition waiting (l : list FdContext) : Z := foldr (fun c n => ctx_weight c + n) 0 l.
Definition count (ws : list work) : Z := foldr (fun w n => Z.b2z (q w) + n) 0 ws.
Definition task_work (t : FiberTask) : work :=
  match cb t with Some g => WCb (Some g) | None => WFiber (fiber t) end.
Definition queued (ts : list FiberTask) : Z := count (task_work <$> ts).

Lemma count_app l1 l2 : count (l1 ++ l2) = count l1 + count l2.
Proof. induction l1 as [|w l1 IH]; [done|]. unfold count in *. cbn. rewrite IH. lia. Qed.
Lemma queued_app l1 l2 : queued (l1 ++ l2) = queued l1 + queued l2.
Proof. unfold queued. by rewrite fmap_app, count_app. Qed.
Lemma count_nonneg l : 0 <= count l.
Proof. induction l as [|w l IH]; [done|]. unfold count in *. cbn. destruct (q w); cbn; lia. Qed.
Lemma queued_nonneg l : 0 <= queued l.
Proof. apply count_nonneg. Qed.
Lemma queued_tasks_of ws : queued (tasks_of ws) = count ws.
Proof.
  induction ws as [|w ws IH]; [done|]. unfold tasks_of in *. cbn [fmap list_fmap List.filter].
  change (count (w :: ws)) with (Z.b2z (q w) + count ws). rewrite <- IH.
  destruct w as [[g|]|[g|]]; cbn; rewrite ?Hq_fiber, ?Hq_cb; done.
Qed.
Lemma queued_take l i t :
  l !! i = Some t -> queued (base.delete i l) = queued l - Z.b2z (q (task_work t)).
Proof.
  intros Hi. rewrite <- (take_drop_middle l i t Hi) at 2. rewrite delete_take_drop, !queued_app.
  change (queued (t :: drop (Datatypes.S i) l)) with (Z.b2z (q (task_work t)) + queued (drop (Datatypes.S i) l)). lia.
Qed.
(** Only the tasks that [own] keeps count. *)
Lemma queued_filter (own : FiberTask -> bool) l :
  (forall t, q (task_work t) = true -> own t = true) -> queued (List.filter own l) = queued l.
Proof.
  intros Hown. induction l as [|t l IH]; [done|]. cbn [List.filter].
  change (queued (t :: l)) with (Z.b2z (q (task_work t)) + queued l).
  destruct (own t) eqn:E.
  - change (queued (t :: List.filter own l)) with (Z.b2z (q (task_work t)) + queued (List.filter own l)). lia.
  - destruct (q (task_work t)) eqn:Eq; [by rewrite Hown in E|]. cbn. lia.
Qed.
Lemma queued_positive l : 0 < queued l -> exists i t, l !! i = Some t /\ q (task_work t) = true.
Proof.
  induction l as [|t l IH]; [done|]. change (queued (t :: l)) with (Z.b2z (q (task_work t)) + queued l).
  intros Hl. destruct (q (task_work t)) eqn:E; [by exists O, t|].
  destruct IH as (i & t' & Hi & Ht); [cbn in Hl; lia|]. by exists (Datatypes.S i), t'.
Qed.

Lemma ctx_weight_nonneg c : 0 <= ctx_weight c.
Proof.
  unfold ctx_weight, slot_weight. destruct (q (work_of (read c))), (q (work_of (write c))); cbn; lia.
Qed.
Lemma waiting_nonneg l : 0 <= waiting l.
Proof.
  induction l as [|c l IH]; [done|]. pose proof (ctx_weight_nonneg c). unfold waiting in *. cbn [foldr]. lia.
Qed.
Lemma waiting_set_ctx l i c c' :
  l !! i = Some c -> waiting (<[i := c']> l) = waiting l - ctx_weight c + ctx_weight c'.
Proof.
  revert i. induction l as [|x l IH]; intros [|i] Hi; try done.
  - injection Hi as ->. change (ctx_weight c' + waiting l = ctx_weight c + waiting l - ctx_weight c + ctx_weight c'). lia.
  - change (ctx_weight x + waiting (<[i := c']> l) = ctx_weight x + waiting l - ctx_weight c + ctx_weight c').
    rewrite IH by done. lia.
Qed.
Lemma waiting_positive l :
  0 < waiting l -> exists i c, l !! i = Some c /\ 0 < ctx_weight c.
Proof.
  induction l as [|c l IH]; [done|]. change (waiting (c :: l)) with (ctx_weight c + waiting l). intros Hw. destruct (Z.ltb_spec 0 (ctx_weight c)).
  - by exists O, c.
  - destruct IH as (i & c' & Hi & Hc); [lia|]. by exists (Datatypes.S i), c'.
Qed.
Lemma waiting_slot l i c dir :
  l !! i = Some c -> q (work_of (slot dir c)) = true -> 0 < waiting l.
Proof.
  intros Hi Hs. assert (0 < ctx_weight c).
  { unfold ctx_weight, slot_weight. unfold slot in Hs. destruct (dir =? READ); rewrite Hs; [destruct (q (work_of (write c)))|destruct (q (work_of (read c)))]; cbn; lia. }
  pose proof (waiting_set_ctx l i c (new_FdContext 0) Hi) as Hw. pose proof (waiting_nonneg (<[i:=new_FdContext 0]> l)).
  cbn in Hw. unfold ctx_weight at 2, slot_weight in Hw. cbn in Hw. rewrite Hq_fiber in Hw. cbn in Hw. lia.
Qed.

Lemma weight_cleared event c :
  dir_ok event -> ctx_weight (cleared event c) = ctx_weight c - slot_weight (slot event c).
Proof.
  unfold ctx_weight, slot_weight. intros [-> | ->]; unfold cleared; cbn; rewrite Hq_fiber; cbn; lia.
Qed.
(** A waiter goes to this scheduler or to another. *)
Lemma slot_split this b x :
  slot_ok b x -> count (here this x) + count (snd <$> away this x) = slot_weight x.
Proof.
  unfold slot_ok, here, away, slot_weight. destruct b.
  - intros [Hs _]. destruct (ec_scheduler x) as [sc|]; [|done].
    destruct (Z.eqb_spec sc this) as [->|Hne].
    + rewrite bool_decide_true by done. cbn. lia.
    + rewrite bool_decide_false by congruence. cbn. lia.
  - intros ->. cbn. by rewrite Hq_fiber.
Qed.
Lemma weight_fired this ri wi c :
  ctx_ok c ->
  ctx_weight (fired_ctx ri wi c) + count (fired_work this ri wi c) + count (snd <$> fired_away this ri wi c)
  = ctx_weight c.
Proof.
  intros (r & w & _ & Hr0 & Hw0). unfold fired_ctx, fired_work, fired_away. rewrite fmap_app, !count_app.
  pose proof (or_introl eq_refl : dir_ok READ) as Hr.
  pose proof (or_intror eq_refl : dir_ok WRITE) as Hw.
  pose proof (slot_split this _ _ Hr0). pose proof (slot_split this _ _ Hw0).
  assert (count [] = 0) as Hz by done.
  destruct ri, wi; rewrite ?(weight_cleared WRITE), ?(weight_cleared READ) by done;
    rewrite ?fmap_nil, ?Hz, ?slot_write_cleared;
    change (slot READ c) with (read c) in *; change (slot WRITE c) with (write c) in *; lia.
Qed.
Lemma weight_stored event x c v :
  dir_ok event -> slot event c = no_waiter ->
  ctx_weight (setContext event x (set_events v c)) = ctx_weight c + slot_weight x.
Proof.
  unfold ctx_weight, slot_weight. intros [-> | ->] Hs; cbn in Hs |- *; rewrite Hs; cbn; rewrite Hq_fiber; cbn; lia.
Qed.

(** What an operation adds from outside or drops. *)
Definition added p (o : ep_op) : Z :=
  match o with
  | PAdd self cur rt _ _ cb => if rt =? 0 then slot_weight (stored self cur cb) else 0
  | PDel rt f event =>
      let c := ctx_of p f in if (rt =? 0) && has (events c) event then - slot_weight (slot event c) else 0
  | _ => 0
  end.

Lemma fires_table p o f ri wi :
  ep_ok p o -> ep_fires p o = Some (f, ri, wi) ->
  in_table p f /\ (ctx_ok (ctx_of p f) ->
    ep_after p o = <[Z.to_nat f := fired_ctx ri wi (ctx_of p f)]> (m_fdContexts p)).
Proof.
  destruct o as [self cur rt g event cb|rt g event|rt g event|rt g|[|g ev] rt]; cbn [ep_fires ep_ok ep_after];
    try done.
  - intros [Hg Hd]. destruct (rt =? 0); [|done]. cbn [andb].
    destruct (has _ event); [|done]. intros [= <- <- <-]. split_and!; [done..|]. intros _.
    by destruct Hd as [-> | ->].
  - intros Hg. destruct (rt =? 0); [|done]. intros [= <- <- <-]. by split_and!.
  - intros [Hg _]. destruct (rt =? 0); [|done]. intros [= <- <- <-]. by split_and!.
Qed.

Lemma conserved p o p' :
  ep_inv p -> ep_ok p o -> done_by_in p o p' ->
  waiting (m_fdContexts p') + queued (sink_tasks (ep_scheduler p')) + count (snd <$> ep_away p o)
  = waiting (m_fdContexts p) + queued (sink_tasks (ep_scheduler p)) + added p o.
Proof.
  intros Hinv Hok [_ Ht _ _ Ha _ _]. rewrite Ht, Ha, queued_app, queued_tasks_of.
  assert (Hzero : count [] = 0) by done.
  assert (Hput : forall f c', in_table p f ->
    waiting (<[Z.to_nat f := c']> (m_fdContexts p)) = waiting (m_fdContexts p) - ctx_weight (ctx_of p f) + ctx_weight c').
  { intros f c' Hf. apply waiting_set_ctx. by apply in_table_ctx. }
  unfold ep_work, ep_away. destruct (ep_fires p o) as [[[f ri] wi]|] eqn:Ef.
  - destruct (fires_table p o f ri wi Hok Ef) as (Hf & Hafter).
    destruct (in_table_ctx p f Hinv Hf) as (_ & _ & Hc). rewrite (Hafter Hc), Hput by done.
    pose proof (weight_fired (ep_this p) ri wi (ctx_of p f) Hc).
    assert (added p o = 0) as -> by (by destruct o). lia.
  - rewrite fmap_nil, Hzero.
    destruct o as [self cur rt f event cb|rt f event|rt f event|rt f|[|f ev] rt]; cbn [ep_after ep_fires added ep_ok] in *.
    + destruct Hok as (Hf & Hd & Hno & _). destruct (rt =? 0); [|lia]. rewrite Hput by done.
      destruct (in_table_ctx p f Hinv Hf) as (_ & _ & Hc). pose proof (ctx_slot event _ Hd Hc) as Hs.
      rewrite Hno in Hs. rewrite (weight_stored event) by done. lia.
    + destruct Hok as [Hf Hd]. destruct (_ && _); [|lia]. rewrite Hput, weight_cleared by done. lia.
    + destruct (_ && _); [done|lia].
    + destruct (rt =? 0); [done|lia].
    + lia.
    + destruct (rt =? 0); [done|lia].
Qed.
End waiters.

(** ** Properties *)

Section poller_properties.
Context {S : Type} `{TaskSinkLaws S}.
Implicit Types (p : EventPoller S).

(** A poller after [contextResize(n)] in its constructor. *)
Inductive ep_reachable : EventPoller S -> Prop :=
| ep_start (s : S) t n r b this : ep_reachable (mkEventPoller s t (fill_contexts 0 n) 0 r [] b this [])
| ep_next p o r p' : ep_reachable p -> ep_ok p o -> ep_exec o p = Ok r p' -> ep_reachable p'.

Lemma fill_lookup i n k c :
  fill_contexts i n !! k = Some c -> c = new_FdContext (Z.of_nat (i + k)).
Proof.
  revert i k. induction n as [|n IH]; intros i [|k] Hk; try done; cbn in Hk.
  - injection Hk as <-. by rewrite Nat.add_0_r.
  - apply IH in Hk. by rewrite Nat.add_succ_r.
Qed.

Lemma ep_inv_start (s : S) t n r b this : ep_inv (mkEventPoller s t (fill_contexts 0 n) 0 r [] b this []).
Proof.
  split; cbn.
  - intros i c Hc%fill_lookup. subst c. split; [done|]. by exists false, false.
  - assert (forall k, total (fill_contexts k n) = 0) as Hz.
    { induction n as [|n IH]; intros k; [done|]. cbn [fill_contexts]. by rewrite total_cons, IH. }
    by rewrite Hz.
  - intros i c Hc%fill_lookup. subst c. cbn. apply lookup_empty.
  - intros l x l' Hl. by destruct l.
Qed.

Lemma ep_reachable_inv p : ep_reachable p -> ep_inv p.
Proof.
  induction 1 as [s t n r b this|p o r p' Hr IH Hok Hrun]; [apply ep_inv_start|].
  destruct (ep_step p o IH Hok) as (p2 & Hrun2 & Hdone). destruct Hdone. congruence.
Qed.

(** The constructor makes a poller without registrations and with 32 contexts, on
    the started scheduler, or aborts. *)
Lemma new_poller_reachable this base start epfd rt_pipe rt_fcntl rt_ctl :
  if (0 <? epfd) && (rt_pipe =? 0) && (rt_fcntl =? 0) && (rt_ctl =? 0) then
    exists p, new_EventPoller this base start epfd rt_pipe rt_fcntl rt_ctl tt = Ok p tt /\
      ep_reachable p /\ length (m_fdContexts p) = 32%nat /\ ep_scheduler p = start base
  else new_EventPoller this base start epfd rt_pipe rt_fcntl rt_ctl tt = Abort.
Proof.
  unfold new_EventPoller, bind, Assert. destruct (0 <? epfd), (rt_pipe =? 0), (rt_fcntl =? 0), (rt_ctl =? 0); try done.
  eexists. split; [reflexivity|]. split; [|done]. exact (ep_start (start base) new_TimerManager 32 0 0 this).
Qed.
End poller_properties.

Definition poller0 : EventPoller Scheduler :=
  mkEventPoller (mkScheduler true false 1 0 0 (-1) None [7] [7] [] 0) new_TimerManager
    (fill_contexts 0 4) 0 0 [] 0 1 [].
(** Descriptor 3 waits for both directions: fiber 5 to read, callback 8 to write. *)
Definition poller_half : EventPoller Scheduler :=
  match ep_exec (PAdd (Some 1) (5, Fiber.EXEC) 0 3 READ None) poller0 with Ok _ p => p | _ => poller0 end.
Definition poller1 : EventPoller Scheduler :=
  match ep_exec (PAdd (Some 1) (6, Fiber.EXEC) 0 3 WRITE (Some 8)) poller_half with
  | Ok _ p => p | _ => poller0 end.

Lemma poller_half_reachable : ep_reachable poller_half.
Proof.
  apply (ep_next poller0 (PAdd (Some 1) (5, Fiber.EXEC) 0 3 READ None) 0 poller_half).
  - exact (ep_start _ new_TimerManager 4 0 0 1).
  - split; [by vm_compute|]. split; [by left|]. by split_and!.
  - by vm_compute.
Qed.

Lemma poller1_reachable : ep_reachable poller1.
Proof.
  apply (ep_next poller_half (PAdd (Some 1) (6, Fiber.EXEC) 0 3 WRITE (Some 8)) 0 poller1).
  - exact poller_half_reachable.
  - split; [by vm_compute|]. split; [by right|]. by split_and!.
  - by vm_compute.
Qed.

(** An event that counts for a registered direction and an unregistered one. *)
Lemma event_unregistered {S : Type} `{TaskSinkLaws S} (p : EventPoller S) f ev :
  ep_inv p -> in_table p f ->
  let c := ctx_of p f in
  let ri := reported ev c READ in
  let wi := reported ev c WRITE in
  let r := has (events c) READ in
  let w := has (events c) WRITE in
  (r && ri) || (w && wi) = true -> (ri && negb r) || (wi && negb w) = true ->
  idle_event (REvent f ev) 0 p = Abort.
Proof.
  intros Hinv Hf c ri wi r w Hany Hbad. destruct (in_table_ctx p f Hinv Hf) as (Hc & Hfd & Hok).
  fold c in Hc, Hfd, Hok.
  pose proof (idle_event_run p f Hinv Hf ev 0) as Hrun. cbv zeta in Hrun. fold c ri wi in Hrun.
  assert (Hland : (Z.land (events c) (mask ri wi) =? NONE) = negb ((r && ri) || (w && wi))).
  { subst r w. destruct Hok as (r & w & He & _). rewrite He, mask_read, mask_write.
    by destruct r, w, ri, wi. }
  rewrite Hland, Hany in Hrun. rewrite Hrun. cbn [negb].
  unfold bind at 1, epoll_ctl. cbn [Z.eqb negb]. set (p1 := set_log _ p).
  assert (Hat : context_at f p1 = Ok c p1) by (apply context_at_spec; [apply Hf|exact Hc]).
  destruct ri eqn:Eri; [destruct r eqn:Er|].
  + destruct wi, w eqn:Ew; try done.
    assert (has (events c) READ = true) as Hr1 by exact Er.
    destruct (triggerEvent_spec p1 f READ c (proj1 Hf) Hc Hok (or_introl eq_refl) Hr1) as (p0 & Ht & Hho).
    rewrite (bind_Ok (triggerEvent f READ ;;; pending_add (-1)) _ p1 tt _ (bind_Ok _ _ _ _ _ Ht)).
    set (p2 := set_pending _ _).
    assert (Hat2 : context_at f p2 = Ok (cleared READ c) p2).
    { apply context_at_spec; [apply Hf|]. cbn. rewrite (ho_contexts _ _ _ _ Hho). apply list_lookup_insert_eq.
      exact (lookup_lt_Some _ _ _ Hc). }
    unfold triggerEvent at 1. unfold bind at 1. rewrite (bind_Ok _ _ _ _ _ Hat2).
    unfold bind at 1, Assert. rewrite has_write_cleared by done.
    replace (has (events c) WRITE) with false by (symmetry; exact Ew). done.
  + unfold triggerEvent at 1. unfold bind at 1, bind at 1. rewrite (bind_Ok _ _ _ _ _ Hat).
    unfold bind at 1, Assert. replace (has (events c) READ) with false by (symmetry; exact Er). done.
  + destruct wi; [|done]. destruct w eqn:Ew; [done|]. by rewrite andb_false_r in Hany.
Qed.

(** C16: delivery.  An event delivered for a descriptor counts for the
    directions it names and, on an error or hang-up, for all registered ones.
    When every direction it counts for is registered, each of their waiters is
    scheduled once, on the scheduler it was registered under: for this poller's
    own, the reader first, behind everything already waiting; and only their
    registrations are removed.  When it counts for a registered
    direction and an unregistered one, the assertion of [triggerEvent] fails. *)
Theorem event_delivery {S : Type} `{TaskSinkLaws S} (p : EventPoller S) f ev :
  ep_reachable p -> in_table p f ->
  let c := ctx_of p f in
  let ri := reported ev c READ in
  let wi := reported ev c WRITE in
  let r := has (events c) READ in
  let w := has (events c) WRITE in
  ((r && ri) || (w && wi) = false -> idle_event (REvent f ev) 0 p = Ok tt p)
  /\ ((ri = true -> r = true) -> (wi = true -> w = true) ->
      exists p', idle_event (REvent f ev) 0 p = Ok tt p'
        /\ sink_tasks (ep_scheduler p') = sink_tasks (ep_scheduler p)
             ++ tasks_of ((if ri then here (ep_this p) (read c) else [])
                          ++ (if wi then here (ep_this p) (write c) else []))
        /\ ep_elsewhere p' = ep_elsewhere p
             ++ (if ri then away (ep_this p) (read c) else []) ++ (if wi then away (ep_this p) (write c) else [])
        /\ ((ri = true -> ec_scheduler (read c) = Some (ep_this p)) ->
            (wi = true -> ec_scheduler (write c) = Some (ep_this p)) ->
            sink_tasks (ep_scheduler p') = sink_tasks (ep_scheduler p)
              ++ tasks_of ((if ri then [work_of (read c)] else []) ++ (if wi then [work_of (write c)] else [])))
        /\ events (ctx_of p' f) = mask (r && negb ri) (w && negb wi)
        /\ forall g, g <> f -> in_table p g -> ctx_of p' g = ctx_of p g)
  /\ ((r && ri) || (w && wi) = true -> (ri && negb r) || (wi && negb w) = true ->
      idle_event (REvent f ev) 0 p = Abort).
Proof.
  intros Hr Hf c ri wi r w. pose proof (ep_reachable_inv p Hr) as Hinv.
  destruct (in_table_ctx p f Hinv Hf) as (Hc & Hfd & Hok). fold c in Hc, Hfd, Hok.
  pose proof (idle_event_run p f Hinv Hf ev 0) as Hrun. cbv zeta in Hrun. fold c ri wi in Hrun.
  assert (Hland : (Z.land (events c) (mask ri wi) =? NONE) = negb ((r && ri) || (w && wi))).
  { subst r w. destruct Hok as (r & w & He & _). rewrite He, mask_read, mask_write.
    by destruct r, w, ri, wi. }
  rewrite Hland in Hrun. set (p1 := set_log (ctl_log p ++ [(if without (events c) (mask ri wi) =? 0
    then EPOLL_CTL_DEL else EPOLL_CTL_MOD, f, Z.lor EPOLLET (without (events c) (mask ri wi)))]) p).
  split_and!.
  - intros Hno. rewrite Hno in Hrun. exact Hrun.
  - intros Hri Hwi. destruct ((r && ri) || (w && wi)) eqn:Eany.
    + destruct (fire_two p1 f c ri wi (proj1 Hf) Hc Hok Hri Hwi (pending_wrapped p Hinv))
        as (p2 & p3 & Hrun1 & _ & Hrun2 & Hctx & _ & Htasks & Haway & _).
      exists p3. split_and!.
      * rewrite Hrun. cbn [negb]. unfold bind at 1, epoll_ctl. cbn [Z.eqb negb]. fold p1.
        by rewrite (bind_Ok _ _ _ _ _ Hrun1), Hrun2.
      * exact Htasks.
      * exact Haway.
      * intros H1 H2. rewrite Htasks. unfold fired_work, here. f_equal. f_equal.
        destruct ri, wi; rewrite ?bool_decide_true by auto; done.
      * unfold ctx_of. rewrite Hctx, list_lookup_insert_eq by exact (lookup_lt_Some _ _ _ Hc).
        cbn [default]. unfold fired_ctx, cleared. subst r w.
        destruct Hok as (r & w & He & _). rewrite He, mask_read, mask_write in *.
        destruct r, w, ri, wi; cbn [events setContext set_events Z.eqb READ WRITE Pos.eqb];
          rewrite ?He; try done; by (specialize (Hri eq_refl) || specialize (Hwi eq_refl)).
      * intros g Hg Hg'. unfold ctx_of. rewrite Hctx, list_lookup_insert_ne; [done|].
        unfold in_table in *. lia.
    + assert (ri = false /\ wi = false) as [Eri Ewi].
      { apply orb_false_iff in Eany as [E1 E2]. split.
        - destruct ri; [|done]. by rewrite Hri in E1.
        - destruct wi; [|done]. by rewrite Hwi in E2. }
      exists p. split_and!; [exact Hrun|rewrite Eri, Ewi; apply no_work|by rewrite Eri, Ewi, app_nil_r
        |intros _ _; rewrite Eri, Ewi; apply no_work| |done].
      rewrite Eri, Ewi, !andb_true_r. subst r w.
      destruct Hok as (r & w & He & _). fold c. by rewrite He, mask_read, mask_write.
  - intros Hany Hbad. by apply (event_unregistered p f ev).
Qed.

Lemma event_delivery_witness :
  (exists p', idle_event (REvent 3 EPOLLHUP) 0 poller1 = Ok tt p'
     /\ m_fibers (ep_scheduler p') = [mkFiberTask (Some 5) None (-1); mkFiberTask None (Some 8) (-1)]
     /\ events (ctx_of p' 3) = 0).
Proof.
  destruct (event_delivery poller1 3 EPOLLHUP poller1_reachable ltac:(by vm_compute))
    as (_ & H2 & _).
  destruct (H2 (fun _ => eq_refl) (fun _ => eq_refl)) as (p' & Hrun & Ht & _ & _ & He & _).
  exists p'. exact (conj Hrun (conj Ht He)).
Defined.

(** ** The lock of the table *)

Create HintDb keeps.

Section table_lock.
Context {S : Type} `{TaskSink S}.
Implicit Types (p : EventPoller S).

(** An operation that leaves the owners of [m_mtx] alone. *)
Definition keeps_readers {A} (m : M (EventPoller S) A) : Prop :=
  forall p a p', m p = Ok a p' -> m_readers p' = m_readers p.

Lemma keeps_bind {A B} (m : M (EventPoller S) A) (k : A -> M (EventPoller S) B) :
  keeps_readers m -> (forall a, keeps_readers (k a)) -> keeps_readers (bind m k).
Proof.
  intros Hm Hk p b p'. unfold bind. destruct (m p) as [a p1| | | | |] eqn:E; try done.
  intros Hb. by rewrite (Hk _ _ _ _ Hb), (Hm _ _ _ E).
Qed.
Lemma keeps_same {A} (m : M (EventPoller S) A) :
  (forall p a p', m p = Ok a p' -> p' = p) -> keeps_readers m.
Proof. intros Hm p a p' Hrun. by rewrite (Hm _ _ _ Hrun). Qed.
Lemma keeps_return {A} (a : A) : keeps_readers (mreturn a).
Proof. by intros p b p' [= _ <-]. Qed.
Lemma keeps_modify f : (forall p, m_readers (f p) = m_readers p) -> keeps_readers (modify f).
Proof. intros Hf p a p' [= _ <-]. apply Hf. Qed.
Lemma keeps_gets {A} (f : EventPoller S -> A) : keeps_readers (gets f).
Proof. by intros p a p' [= _ <-]. Qed.
Lemma keeps_assert b : keeps_readers (Assert b).
Proof. apply keeps_same. intros p a p'. unfold Assert. destruct b; by intros [= _ <-]. Qed.
Lemma keeps_context f : keeps_readers (context_at f).
Proof.
  apply keeps_same. intros p a p'. unfold context_at. destruct (f <? 0); [done|].
  destruct (_ !! _); cbn; by intros [= _ <-].
Qed.
Lemma keeps_ctl rt op f ev : keeps_readers (epoll_ctl rt op f ev).
Proof. intros p a p'. unfold epoll_ctl. destruct (rt =? 0); by intros [= _ <-]. Qed.

Ltac keeps :=
  repeat first
    [ solve [eauto with keeps] | apply keeps_return | apply keeps_gets | apply keeps_assert | apply keeps_context
    | apply keeps_ctl | by apply keeps_modify | by apply keeps_same
    | apply keeps_bind; [|intros ?] | case_match ].

Lemma schedule_on_readers sc w p : m_readers (schedule_on sc w p).2 = m_readers p.
Proof. unfold schedule_on. destruct (sc =? ep_this p); [|done]. by destruct (sink_schedule_ptr w (ep_scheduler p)). Qed.
Lemma keeps_trigger f event : keeps_readers (triggerEvent f event).
Proof.
  intros p u p' (c & p1 & Hc%keeps_context & Hrun)%bind_Ok_inv.
  apply bind_Ok_inv in Hrun as ([] & p2 & Ha%keeps_assert & Hrun).
  rewrite <- Hc, <- Ha. cbv zeta in Hrun. destruct (getContext event (set_events _ c)) as [ctx|]; [|done].
  destruct (ec_scheduler ctx) as [sc|]; [|done].
  apply bind_Ok_inv in Hrun as (p3 & p4 & [= <- <-] & Hrun).
  destruct (ec_cb ctx) as [g|].
  - pose proof (schedule_on_readers sc (WCb (Some g)) p2) as Hr.
    destruct (schedule_on sc _ p2) as [w3 p3]. by injection Hrun as _ <-.
  - pose proof (schedule_on_readers sc (WFiber (ec_fiber ctx)) p2) as Hr.
    destruct (schedule_on sc _ p2) as [w3 p3]. by injection Hrun as _ <-.
Qed.
#[local] Hint Resolve keeps_trigger : keeps.

Lemma keeps_del rt f event : keeps_readers (delEvent_locked rt f event).
Proof. unfold delEvent_locked, pending_add, put_context. keeps. Qed.
Lemma keeps_cancel rt f event : keeps_readers (cancelEvent_locked rt f event).
Proof. unfold cancelEvent_locked, pending_add. keeps. Qed.
Lemma keeps_cancelAll rt f : keeps_readers (cancelAll_locked rt f).
Proof. unfold cancelAll_locked, pending_add. keeps. Qed.

Lemma set_readers_same p : set_readers (m_readers p + 1 - 1) p = p.
Proof. destruct p; cbn. unfold set_readers; cbn. f_equal. lia. Qed.

(** [with_table] runs its body without the lock and then gives up a share of the
    lock that is not its own. *)
Lemma with_table_spec p f body r p' :
  0 <= m_readers p -> Z.of_nat (length (m_fdContexts p)) < 2 ^ 31 -> in_table p f ->
  keeps_readers body -> body p = Ok r p' ->
  with_table f body p =
    if m_readers p =? 0 then Ub else Ok r (set_readers (m_readers p - 1) p').
Proof.
  intros Hr Hn Hf Hkeep Hrun. unfold with_table, lock_shared. cbn [bind modify gets].
  cbn [m_fdContexts set_readers].
  assert ((i32 (Z.of_nat (length (m_fdContexts p))) <=? f) = false) as ->.
  { unfold in_table in Hf. rewrite swrap_id by lia. lia. }
  unfold bind at 1. unfold unlock_shared at 1. cbn [m_readers set_readers].
  assert ((m_readers p + 1 <=? 0) = false) as -> by lia.
  change (set_readers (m_readers p + 1 - 1) (set_readers (m_readers p + 1) p))
    with (set_readers (m_readers p + 1 - 1) p).
  rewrite set_readers_same. rewrite (bind_Ok _ _ _ _ _ Hrun).
  unfold bind, unlock_shared. rewrite (Hkeep _ _ _ Hrun).
  destruct (Z.eqb_spec (m_readers p) 0) as [->|]; [done|].
  by assert ((m_readers p <=? 0) = false) as -> by lia.
Qed.

Lemma with_table_out p f body :
  0 <= m_readers p -> Z.of_nat (length (m_fdContexts p)) < 2 ^ 31 ->
  Z.of_nat (length (m_fdContexts p)) <= f -> with_table f body p = Ok false p.
Proof.
  intros Hr Hn Hf. unfold with_table, lock_shared. cbn [bind modify gets].
  cbn [m_fdContexts set_readers]. rewrite swrap_id by lia.
  assert ((Z.of_nat (length (m_fdContexts p)) <=? f) = true) as -> by lia.
  unfold bind, unlock_shared. cbn [m_readers set_readers].
  assert ((m_readers p + 1 <=? 0) = false) as -> by lia.
  change (set_readers (m_readers p + 1 - 1) (set_readers (m_readers p + 1) p))
    with (set_readers (m_readers p + 1 - 1) p).
  by rewrite set_readers_same.
Qed.

Lemma addEvent_out p self cur rt f event cb :
  0 <= m_readers p -> Z.of_nat (length (m_fdContexts p)) < 2 ^ 31 ->
  EventPoller_addEvent self cur rt f event cb p =
    if Z.of_nat (length (m_fdContexts p)) <=? f then Deadlock
    else addEvent_locked self cur rt f event cb p.
Proof.
  intros Hr Hn. unfold EventPoller_addEvent, lock_shared. cbn [bind modify gets].
  unfold bind at 1, unlock_shared. cbn [m_readers set_readers m_fdContexts].
  assert ((m_readers p + 1 <=? 0) = false) as -> by lia.
  change (set_readers (m_readers p + 1 - 1) (set_readers (m_readers p + 1) p))
    with (set_readers (m_readers p + 1 - 1) p).
  rewrite set_readers_same, swrap_id by lia.
  destruct (Z.leb_spec (Z.of_nat (length (m_fdContexts p))) f).
  - by assert ((f <? Z.of_nat (length (m_fdContexts p))) = false) as -> by lia.
  - by assert ((f <? Z.of_nat (length (m_fdContexts p))) = true) as -> by lia.
Qed.
End table_lock.

(** The whole calls that remove registrations, each with its part under the lock
    of the context. *)
Definition removals {S : Type} `{TaskSink S} (rt f event : Z)
  : list (M (EventPoller S) bool * M (EventPoller S) bool) :=
  [(EventPoller_delEvent rt f event, delEvent_locked rt f event);
   (EventPoller_cancelEvent rt f event, cancelEvent_locked rt f event);
   (EventPoller_cancelAll rt f, cancelAll_locked rt f)].

Lemma removals_run {S : Type} `{TaskSinkLaws S} (p : EventPoller S) f rt event run body :
  ep_inv p -> 0 <= m_readers p -> Z.of_nat (length (m_fdContexts p)) < 2 ^ 31 ->
  dir_ok event -> in_table p f -> (run, body) ∈ removals rt f event ->
  exists r p', body p = Ok r p'
    /\ run p = if m_readers p =? 0 then Ub else Ok r (set_readers (m_readers p - 1) p').
Proof.
  intros Hr Hk Hn Hd Hf Hin.
  assert (Hbody : forall o m, ep_ok p o -> ep_exec o p = bind m (fun b => mreturn (Z.b2z b)) p ->
    exists r p', m p = Ok r p').
  { intros o m Ho He. destruct (ep_step p o Hr Ho) as (p' & Hrun & _). rewrite He in Hrun.
    apply bind_Ok_inv in Hrun as (b & p1 & ? & _). eauto. }
  unfold removals in Hin. rewrite !elem_of_cons in Hin.
  destruct Hin as [[= -> ->]|[[= -> ->]|[[= -> ->]|Hin%elem_of_nil]]]; [..|done].
  - destruct (Hbody (PDel rt f event) _ (conj Hf Hd) eq_refl) as (r & p' & Hrun).
    exists r, p'. split; [done|]. by apply with_table_spec; [..|apply keeps_del|].
  - destruct (Hbody (PCancel rt f event) _ (conj Hf Hd) eq_refl) as (r & p' & Hrun).
    exists r, p'. split; [done|]. by apply with_table_spec; [..|apply keeps_cancel|].
  - destruct (Hbody (PCancelAll rt f) _ Hf eq_refl) as (r & p' & Hrun).
    exists r, p'. split; [done|]. by apply with_table_spec; [..|apply keeps_cancelAll|].
Qed.

(** C2: consistency.  Over any sequence of registrations, deletions,
    cancellations and deliveries within the contract, taken as the parts under
    the lock of the descriptor's context: none of these parts fails; the
    count of pending events is the number of directions registered; a direction
    is registered exactly when its waiter is stored, and the waiter is a callback
    or a fiber; every accepted [epoll_ctl] call adds a descriptor the kernel does
    not have or changes one it has, so that the kernel's interest in a
    descriptor is at all times what is registered for it.  Of the public calls
    on a descriptor of the table, [addEvent] is its part under that lock; but
    [delEvent], [cancelEvent] and [cancelAll] do their part and then release
    [m_mtx] a second time: undefined behaviour unless another thread happens to
    share it, whose share is then gone. *)
Theorem poller_consistent {S : Type} `{TaskSinkLaws S} (p : EventPoller S) :
  ep_reachable p ->
  m_pendingEventCount p = u64 (total (m_fdContexts p))
  /\ (forall f, in_table p f ->
        let c := ctx_of p f in
        interest (ctl_log p) !! f = (if events c =? 0 then None else Some (Z.lor EPOLLET (events c)))
        /\ forall dir, dir_ok dir -> slot_ok (has (events c) dir) (slot dir c))
  /\ (forall l x l', ctl_log p = l ++ x :: l' -> ctl_legal (interest l) x)
  /\ (forall o, ep_ok p o -> exists r p', ep_exec o p = Ok r p' /\ ep_reachable p')
  /\ (0 <= m_readers p -> Z.of_nat (length (m_fdContexts p)) < 2 ^ 31 ->
      forall rt f event, in_table p f -> dir_ok event ->
      (forall self cur cb, EventPoller_addEvent self cur rt f event cb p = addEvent_locked self cur rt f event cb p)
      /\ forall run body, (run, body) ∈ removals rt f event ->
         exists r p', body p = Ok r p'
           /\ run p = if m_readers p =? 0 then Ub else Ok r (set_readers (m_readers p - 1) p')).
Proof.
  intros Hr. pose proof (ep_reachable_inv p Hr) as Hinv. split_and!.
  - by apply ep_pending.
  - intros f Hf. destruct (in_table_ctx p f Hinv Hf) as (Hc & Hfd & Hok). split.
    + rewrite <- (ep_kernel p Hinv _ _ Hc). by rewrite Z2Nat.id by apply Hf.
    + intros dir Hd. by apply ctx_slot.
  - apply (ep_legal p Hinv).
  - intros o Hok. destruct (ep_step p o Hinv Hok) as (p' & Hrun & _).
    eexists _, p'. split; [done|]. by eapply ep_next.
  - intros Hk Hn rt f event Hf Hd. split.
    + intros self cur cb. rewrite addEvent_out by done. unfold in_table in Hf.
      by rewrite (proj2 (Z.leb_gt _ _)) by lia.
    + intros run body. by apply removals_run.
Qed.

Lemma poller_consistent_witness :
  m_pendingEventCount poller1 = u64 2
  /\ (exists r p', ep_exec (PCancelAll 0 3) poller1 = Ok r p' /\ ep_reachable p')
  /\ exists r p', cancelAll_locked 0 3 poller1 = Ok r p' /\ EventPoller_cancelAll 0 3 poller1 = Ub.
Proof.
  destruct (poller_consistent poller1 poller1_reachable) as (H1 & _ & _ & H2 & H3).
  split; [exact H1|]. split; [apply H2; by vm_compute|].
  destruct (proj2 (H3 ltac:(by vm_compute) ltac:(by vm_compute) 0 3 READ ltac:(by vm_compute) ltac:(by left))
    _ (cancelAll_locked 0 3) ltac:(by apply list_elem_of_further, list_elem_of_further, list_elem_of_here))
    as (r & p' & Hb & Hrun).
  exists r, p'. split; [exact Hb|exact Hrun].
Defined.

(** Note: the lock of the table.  For a descriptor in the table [delEvent],
    [cancelEvent] and [cancelAll] do their work without the lock of the table and
    then release it once more than they took it: undefined when no other thread
    shares it, and otherwise at the cost of one of the others' shares.  Beyond
    the table they return false and leave the poller alone, whereas [addEvent]
    waits for a lock its own thread holds. *)
Theorem table_lock {S : Type} `{TaskSinkLaws S} (p : EventPoller S) f rt event :
  ep_reachable p -> 0 <= m_readers p -> Z.of_nat (length (m_fdContexts p)) < 2 ^ 31 ->
  dir_ok event ->
  (in_table p f -> forall run body, (run, body) ∈ removals rt f event ->
     exists r p', body p = Ok r p'
       /\ run p = if m_readers p =? 0 then Ub else Ok r (set_readers (m_readers p - 1) p'))
  /\ (Z.of_nat (length (m_fdContexts p)) <= f ->
      EventPoller_delEvent rt f event p = Ok false p
      /\ EventPoller_cancelEvent rt f event p = Ok false p
      /\ EventPoller_cancelAll rt f p = Ok false p
      /\ forall self cur cb, EventPoller_addEvent self cur rt f event cb p = Deadlock).
Proof.
  intros Hr%ep_reachable_inv Hk Hn Hd. split.
  - intros Hf run body. by apply removals_run.
  - intros Hf. unfold EventPoller_delEvent, EventPoller_cancelEvent, EventPoller_cancelAll.
    split_and!; [by apply with_table_out..|]. intros. rewrite addEvent_out by done.
    by assert ((Z.of_nat (length (m_fdContexts p)) <=? f) = true) as -> by lia.
Qed.

Lemma table_lock_witness :
  EventPoller_cancelAll 0 3 poller1 = Ub /\ EventPoller_delEvent 0 9 READ poller1 = Ok false poller1.
Proof.
  destruct (table_lock poller1 3 0 READ poller1_reachable ltac:(by vm_compute)
    ltac:(by vm_compute) ltac:(by left)) as [H1 _].
  destruct (table_lock poller1 9 0 READ poller1_reachable ltac:(by vm_compute)
    ltac:(by vm_compute) ltac:(by left)) as [_ H2].
  split; [|by apply H2; vm_compute].
  destruct (H1 ltac:(by vm_compute) _ (cancelAll_locked 0 3)
    ltac:(by apply list_elem_of_further, list_elem_of_further, list_elem_of_here)) as (r & p' & _ & Hrun).
  exact Hrun.
Defined.

(** ** The idle fiber *)

Lemma wait_timeout_spec d :
  0 <= d ->
  1 <= wait_timeout d <= MAX_TIMEOUT /\ (0 < d -> wait_timeout d <= d)
  /\ (d = 0 -> wait_timeout d = MAX_TIMEOUT).
Proof. intros Hd. unfold wait_timeout, MAX_TIMEOUT. case_bool; lia. Qed.

Section idle.
Context {S : Type} `{TaskSinkLaws S}.
Implicit Types (p : EventPoller S).

Lemma on_timers_Ok {A} (m : M TimerManager A) p a t :
  m (ep_timers p) = Ok a t -> on_timers m p = Ok a (set_timers t p).
Proof. intros Hm. unfold on_timers. by rewrite Hm. Qed.

(** The callbacks of the timers that are due go to the scheduler together. *)
Lemma idle_expired_run func now probe p :
  tm_wf (ep_timers p) -> timer_heap (ep_timers p) !! probe = None ->
  let h := timer_heap (ep_timers p) in
  let expired := filter (fun a => due h now a = true) (m_timers (ep_timers p)) in
  exists t s, TimerManager_listExpiredCb now probe [] (ep_timers p) = Ok (cb_at h <$> expired) t
    /\ idle_expired func now probe p = Ok tt (set_scheduler s (set_timers t p)) /\ tm_wf t
    /\ (forall a, timer_heap t !! a = if decide (Some a ∈ expired) then fired now <$> h !! a else h !! a)
    /\ (forall x, x ∈ m_timers t <-> x ∈ m_timers (ep_timers p) /\
          (due h now x = false \/ recurring_at h x = true))
    /\ sink_tasks s = sink_tasks (ep_scheduler p)
         ++ tasks_of ((fun f => WCb (func f)) <$> (cb_at h <$> expired)).
Proof.
  intros Hwf Hprobe h expired.
  destruct (listExpiredCb_run now probe [] _ Hwf Hprobe) as (t & Hrun & Hwf' & Hheap & Hset & _).
  cbn [app] in Hrun. fold h expired in Hrun, Hheap, Hset.
  exists t, (match cb_at h <$> expired with [] => ep_scheduler p
             | cbs => (sink_schedule_range ((fun f => WCb (func f)) <$> cbs) (ep_scheduler p)).2 end).
  split; [done|]. split; [|split; [done|split; [done|split; [done|]]]].
  - unfold idle_expired. rewrite (bind_Ok _ _ _ _ _ (on_timers_Ok _ p _ _ Hrun)).
    by destruct (cb_at h <$> expired), p.
  - destruct (cb_at h <$> expired); [apply symmetry, app_nil_r|]. apply sink_range_law.
Qed.

Lemma getNextTimer_below now t d t' :
  tm_wf t -> 0 < now -> TimerManager_getNextTimer now t = Ok d t' ->
  0 <= d < 2 ^ 64 - 1 /\ t' = set_tickled false t.
Proof.
  intros Hwf Hnow. rewrite getNextTimer_spec by done. intros [= <- <-]. split; [|done].
  pose proof (tm_live t Hwf) as Hl. destruct (m_timers t) as [|[a|] l]; [lia| |lia].
  destruct (Hl _ (list_elem_of_here _ _)) as (b & u & [= <-] & Ha & _).
  pose proof (proj1 (tm_words t Hwf _ _ Ha)). unfold next_at. rewrite Ha. cbn. lia.
Qed.

Lemma stopping_timeout_run now p d t' :
  tm_wf (ep_timers p) -> 0 < now -> TimerManager_getNextTimer now (ep_timers p) = Ok d t' ->
  EventPoller_stopping_timeout now p = Ok (false, d) (set_timers t' p).
Proof.
  intros Hwf Hnow Hd. destruct (getNextTimer_below _ _ _ _ Hwf Hnow Hd) as [Hr _].
  unfold EventPoller_stopping_timeout. rewrite (bind_Ok _ _ _ _ _ (on_timers_Ok _ p _ _ Hd)).
  unfold bind, get, mreturn. assert ((d =? 2 ^ 64 - 1) = false) as -> by lia.
  by rewrite andb_false_r.
Qed.
End idle.

Lemma idle_wait_spec {S : Type} `{TaskSink S} k a rest d (p : EventPoller S) :
  a <> Interrupted ->
  idle_wait (replicate k Interrupted ++ a :: rest) d p
  = Ok (replicate (Datatypes.S k) (wait_timeout d), delivered a) p.
Proof.
  intros Ha.
  assert (Htwice : forall x, wait_timeout (wait_timeout x) = wait_timeout x).
  { intros x. unfold wait_timeout, MAX_TIMEOUT. case_bool; lia. }
  revert d. induction k as [|k IH]; intros d; cbn [replicate app idle_wait].
  - by destruct a.
  - rewrite (bind_Ok _ _ _ _ _ (IH (wait_timeout d))), Htwice. done.
Qed.

(** C22: the idle fiber.  Whatever the clock (past 0) and the timers,
    [stopping(timeout)] answers false, so [idle] never ends, and [stopping()]
    returns no value at all.  A turn of [idle] computes one time-out, of at least
    1 and at most 3000 ms, never past the next deadline when that is in the
    future, but the whole 3000 ms when it has been reached, and waits for it; a
    wait that a signal interrupts starts over with the same time-out, so that
    after [k] interruptions the turn has made [k + 1] waits of that length, and
    may have passed the deadline and the 3000 ms.  Then it schedules the callbacks
    of all timers that are due, in order of deadline, and handles the events. *)
Theorem idle_turn_spec {S : Type} `{TaskSinkLaws S} (p : EventPoller S) func now now' probe k a rest :
  tm_wf (ep_timers p) -> timer_heap (ep_timers p) !! probe = None -> 0 < now -> a <> Interrupted ->
  EventPoller_stopping now p = Ub
  /\ exists d p1,
    TimerManager_getNextTimer now (ep_timers p) = Ok d (set_tickled false (ep_timers p))
    /\ EventPoller_stopping_timeout now p = Ok (false, d) (set_timers (set_tickled false (ep_timers p)) p)
    /\ idle_turn func now now' probe (replicate k Interrupted ++ a :: rest) p
       = (idle_events (delivered a) ;;; mreturn (Some (replicate (Datatypes.S k) (wait_timeout d)))) p1
    /\ 1 <= wait_timeout d <= 3000 /\ (0 < d -> wait_timeout d <= d) /\ (d = 0 -> wait_timeout d = 3000)
    /\ tm_wf (ep_timers p1) /\ m_fdContexts p1 = m_fdContexts p
    /\ sink_tasks (ep_scheduler p1) = sink_tasks (ep_scheduler p)
         ++ tasks_of ((fun f => WCb (func f)) <$> (cb_at (timer_heap (ep_timers p)) <$>
              filter (fun a => due (timer_heap (ep_timers p)) now' a = true) (m_timers (ep_timers p)))).
Proof.
  intros Hwf Hprobe Hnow Ha. pose proof (getNextTimer_spec now _ Hwf) as Hd.
  set (d := match m_timers (ep_timers p) with Some a :: _ => _ | _ => 0 end) in Hd.
  destruct (getNextTimer_below _ _ _ _ Hwf Hnow Hd) as [Hr _].
  pose proof (stopping_timeout_run now p d _ Hwf Hnow Hd) as Hstop.
  assert (Hwf1 : tm_wf (set_tickled false (ep_timers p))) by (destruct Hwf; by split).
  destruct (idle_expired_run func now' probe (set_timers (set_tickled false (ep_timers p)) p) Hwf1 Hprobe)
    as (t2 & s2 & _ & Hrun & Hwf2 & _ & _ & Htasks).
  split; [unfold EventPoller_stopping; by rewrite (bind_Ok _ _ _ _ _ Hstop)|].
  exists d. eexists. split; [done|]. split; [done|].
  split; [|split; [apply wait_timeout_spec; lia|split; [apply wait_timeout_spec; lia|
           split; [apply wait_timeout_spec; lia|]]]].
  - unfold idle_turn. rewrite (bind_Ok _ _ _ _ _ Hstop). cbn [fst snd].
    rewrite (bind_Ok _ _ _ _ _ (idle_wait_spec k a rest d _ Ha)). cbn [fst snd].
    by rewrite (bind_Ok _ _ _ _ _ Hrun).
  - split; [done|]. split; [done|]. exact Htasks.
Qed.

(** A poller whose timers are those of the example: the first is due at 110. *)
Definition poller_timers : EventPoller Scheduler :=
  mkEventPoller (ep_scheduler poller0) timers_example (fill_contexts 0 4) 0 0 [] 0 1 [].
Lemma idle_turn_spec_witness :
  EventPoller_stopping 105 poller_timers = Ub
  /\ exists d p', idle_turn (fun _ => Some 1) 105 130 99 [Interrupted; Delivered [(RTickle, 0)]] poller_timers
                    = Ok (Some [wait_timeout d; wait_timeout d]) p'
                 /\ 0 < wait_timeout d <= d.
Proof.
  destruct (idle_turn_spec poller_timers (fun _ => Some 1) 105 130 99 1 (Delivered [(RTickle, 0)]) []
    timers_example_wf eq_refl ltac:(done) ltac:(done)) as (H1 & d & p1 & Hd & _ & Hturn & Hw & Hlt & _).
  split; [exact H1|]. exists d. eexists. split; [refine (eq_trans Hturn _); reflexivity|].
  vm_compute in Hd. injection Hd as <-. split; [lia|]. apply Hlt. reflexivity.
Defined.
