(* ===== verification/Text.v ===== *)
(** * Strings and numerals

    A [std::string] is the list of its bytes.  [text] reads a literal, [dec] and
    [hex] are what [operator<<] writes for an unsigned number with [std::dec]
    and [std::hex]; [byte_lt] is the order of [std::string] and of [memcmp]. *)
From S2P Require Import Prelude.
From S2P Require Import StdSet.
From Stdlib Require Import DecimalString HexadecimalString.

Definition code (c : Ascii.ascii) : Z := Z.of_N (Ascii.N_of_ascii c).

(** A string literal. *)
Fixpoint text (s : string) : list Z :=
  match s with
  | EmptyString => []
  | String c s => code c :: text s
  end.

(** [os << std::dec << n] and [os << std::hex << n] for [n >= 0] *)
Definition dec (n : Z) : list Z := text (DecimalString.NilZero.string_of_uint (N.to_uint (Z.to_N n))).
Definition hex (n : Z) : list Z := text (HexadecimalString.NilZero.string_of_uint (N.to_hex_uint (Z.to_N n))).

(** [memchr] / [std::string::find] of a character: its index. *)
Fixpoint find_char (c : Z) (s : list Z) : option nat :=
  match s with
  | [] => None
  | x :: s => if x =? c then Some O else S <$> find_char c s
  end.

(** The C string that starts a byte array: up to the first NUL. *)
Definition c_str (s : list Z) : list Z :=
  match find_char 0 s with Some i => take i s | None => s end.

(** Comparison of bytes from the left, [Eq] when one string ends. *)
Fixpoint bytes_cmp (a b : list Z) : comparison :=
  match a, b with
  | x :: a, y :: b => match x ?= y with Eq => bytes_cmp a b | c => c end
  | _, _ => Eq
  end.

(** The lexicographic order. *)
Fixpoint byte_lt (a b : list Z) : bool :=
  match a, b with
  | _, [] => false
  | [], _ :: _ => true
  | x :: a, y :: b => (x <? y) || ((x =? y) && byte_lt a b)
  end.

(** ** Facts *)

#[export] Instance byte_lt_strict : StrictTotal byte_lt.
Proof.
  split.
  - intros x. induction x as [|x l IH]; cbn; [done|]. rewrite IH. lia.
  - intros a. induction a as [|x a IH]; intros [|y b] [|z c] H1 H2; cbn in *; try done.
    rewrite orb_true_iff, andb_true_iff in *.
    destruct H1 as [H1|[H1 H1']], H2 as [H2|[H2 H2']]; [left; lia..|].
    right. split; [lia|]. by apply (IH b).
  - intros a. induction a as [|x a IH]; intros [|y b] H1 H2; cbn in *; try done.
    apply orb_false_iff in H1 as [H1 H1'], H2 as [H2 H2'].
    assert (x = y) as -> by lia. rewrite Z.eqb_refl in H1', H2'. f_equal. by apply IH.
Qed.

(** The order in terms of a comparison of the common length. *)
Lemma byte_lt_cmp a b :
  byte_lt a b =
    match bytes_cmp a b with Lt => true | Gt => false | Eq => (length a <? length b)%nat end.
Proof.
  revert b. induction a as [|x a IH]; intros [|y b]; cbn; try done.
  rewrite IH. destruct (Z.compare_spec x y) as [->|Hl|Hg].
  - rewrite Z.ltb_irrefl, Z.eqb_refl. done.
  - by assert ((x <? y) = true) as -> by lia.
  - assert ((x <? y) = false) as -> by lia. by assert ((x =? y) = false) as -> by lia.
Qed.

Lemma bytes_cmp_take n a b :
  (length a <= n \/ length b <= n)%nat -> bytes_cmp (take n a) (take n b) = bytes_cmp a b.
Proof.
  revert a b. induction n as [|n IH]; intros [|x a] [|y b] Hn; cbn in *; try done; try lia.
  rewrite IH by lia. done.
Qed.

Lemma bytes_cmp_eq a b : length a = length b -> (bytes_cmp a b = Eq <-> a = b).
Proof.
  revert b. induction a as [|x a IH]; intros [|y b] Hn; cbn in *; try done.
  injection Hn as Hn. destruct (Z.compare_spec x y) as [->|Hl|Hg].
  - rewrite IH by done. split; [by intros ->|by intros [= ->]].
  - split; [done|]. intros [= -> ->]. lia.
  - split; [done|]. intros [= -> ->]. lia.
Qed.

Lemma find_char_spec c s :
  match find_char c s with
  | Some i => exists a b, s = a ++ c :: b /\ (c ∉ a) /\ length a = i
  | None => c ∉ s
  end.
Proof.
  induction s as [|x s IH]; cbn; [apply not_elem_of_nil|].
  destruct (Z.eqb_spec x c) as [->|Hx].
  - exists [], s. split_and!; [done|apply not_elem_of_nil|done].
  - destruct (find_char c s) as [i|]; cbn.
    + destruct IH as (a & b & -> & Ha & <-). exists (x :: a), b. split_and!; [done|set_solver|done].
    + set_solver.
Qed.

Lemma find_char_app c a b : c ∉ a -> find_char c (a ++ c :: b) = Some (length a).
Proof.
  induction a as [|x a IH]; intros Ha; cbn; [by rewrite Z.eqb_refl|].
  apply not_elem_of_cons in Ha as [Hx Ha]. rewrite (proj2 (Z.eqb_neq x c)) by congruence.
  by rewrite IH.
Qed.

Lemma find_char_none c s : c ∉ s -> find_char c s = None.
Proof.
  intros Hc. pose proof (find_char_spec c s) as Hs. destruct (find_char c s); [|done].
  destruct Hs as (a & b & -> & _). set_solver.
Qed.

Lemma c_str_app a b : 0 ∉ a -> c_str (a ++ 0 :: b) = a.
Proof. intros Ha. unfold c_str. rewrite find_char_app by done. apply take_app_length. Qed.
