(* ===== verification/Macro.v ===== *)
(** * Assertions and stack traces (util/macro.h; util/util.cpp, lines 34-54)

    What [Assert] and [Assert_Commit] write before they abort; the outcome itself
    is [Prelude.Assert].  The frames of the stack are the environment's: what
    [backtrace] and [backtrace_symbols] give, innermost first. *)
From S2P Require Import Prelude.
From S2P Require Import Text.

Section stack.
Variable (frames : list (list Z)).

(** [void Backtrace(std::vector<std::string>& bt, int size, int skip)]; the
    comparison [i < s] is one of [size_t]. *)
Definition Backtrace (bt : list (list Z)) (size skip : Z) : list (list Z) :=
  let strings := take (Z.to_nat size) frames in
  if u64 skip <? Z.of_nat (length strings) then bt ++ drop (Z.to_nat skip) strings else bt.

(** [std::string BacktraceToString(int size, int skip, const std::string& prefix)] *)
Definition BacktraceToString (size skip : Z) (prefix : list Z) : list Z :=
  concat (map (fun s => prefix ++ s ++ [10]) (Backtrace [] size skip)).

(** The log message of [Assert(x)] and of [Assert_Commit(x, s)]; [x] is false. *)
Definition Assert_message : list Z := text "Assertion: " ++ text "0" ++ BacktraceToString 64 2 [9].
Definition Assert_Commit_message (s : list Z) : list Z := text "Assertion: " ++ text "0" ++ BacktraceToString 64 2 s.

(** Note: a stack trace has a line for each frame but the first [skip], of the
    [size] innermost ones, and none when [skip] is negative. *)
Lemma BacktraceToString_lines size skip prefix :
  0 <= size < 2 ^ 31 -> - 2 ^ 31 <= skip < 2 ^ 31 ->
  BacktraceToString size skip prefix =
  if skip <? 0 then [] else concat (map (fun s => prefix ++ s ++ [10]) (drop (Z.to_nat skip) (take (Z.to_nat size) frames))).
Proof.
  intros Hs Hk. unfold BacktraceToString, Backtrace. pose proof (length_take frames (Z.to_nat size)).
  destruct (Z.ltb_spec skip 0).
  - assert (u64 skip = skip + 2 ^ 64) as ->.
    { unfold wrap. rewrite <- (Z_mod_plus_full skip 1 (2 ^ 64)), Z.mod_small by lia. lia. }
    by rewrite (proj2 (Z.ltb_ge _ _)) by lia.
  - rewrite wrap_id by lia. destruct (Z.ltb_spec skip (Z.of_nat (length (take (Z.to_nat size) frames)))); [done|].
    by rewrite drop_ge by lia.
Qed.
End stack.

(** The frame of [BacktraceToString] and the one of [Backtrace] are left out. *)
Example assert_message_example :
  Assert_message [text "Backtrace"; text "BacktraceToString"; text "addEvent"; text "do_io"]
  = text "Assertion: 0" ++ [9] ++ text "addEvent" ++ [10] ++ [9] ++ text "do_io" ++ [10].
Proof. reflexivity. Qed.
