(* ===== verification/Yaml.v ===== *)
(** * The YAML library and the conversions of base types

    yaml-cpp and [boost::lexical_cast] are not part of the repository.  [Yaml] is
    the part of yaml-cpp's interface that the configuration module calls and
    [YamlLaws] what its documentation says about it; [Lexical] and [LexicalLaws]
    do the same for the types whose conversion is [boost::lexical_cast].
    [TreeYaml] and [SmallLexical] are small implementations of both, on which the
    definitions can be run. *)
From S2P Require Import Prelude.
From S2P Require Import StdSet.
From S2P Require Import Text.

(** [YAML::Node] and its functions; [None] is a thrown [YAML::Exception]. *)
Class Yaml := {
  Node : Type;
  (** [YAML::Load(s)] *)
  Load : list Z -> option Node;
  (** [ss << n] *)
  emit : Node -> option (list Z);
  IsMap : Node -> bool;
  IsScalar : Node -> bool;
  Scalar : Node -> option (list Z);
  (** [n.size()] and [n[i]] for an unsigned [i] *)
  size_of : Node -> nat;
  at_index : Node -> nat -> option Node;
  (** the pairs from [n.begin()] to [n.end()] *)
  entries : Node -> list (Node * Node);
  (** [YAML::Node(YAML::NodeType::Sequence)], [Map]; [n.push_back(x)] and [n[k] = x] *)
  empty_sequence : Node;
  empty_map : Node;
  push_node : Node -> Node -> Node;
  set_node : Node -> list Z -> Node -> Node;
  (** the depth of a document *)
  height : Node -> nat
}.

Section yaml_values.
Context `{!Yaml}.
(** The sequence and the map that the module builds from parts. *)
Definition sequence (l : list Node) : Node := fold_left push_node l empty_sequence.
Definition mapping (l : list (list Z * Node)) : Node :=
  fold_left (fun n kx => set_node n kx.1 kx.2) l empty_map.
End yaml_values.

Class YamlLaws (Y : Yaml) : Prop := {
  (** a document is finite *)
  height_entries n k x : (k, x) ∈ entries n -> (height x < height n)%nat;
  scalar_text n : IsScalar n = true -> is_Some (Scalar n);
  sequence_size l : size_of (sequence l) = length l;
  sequence_index l i : at_index (sequence l) i = l !! i;
  (** a map with distinct keys iterates over them in the order of insertion *)
  mapping_entries l : NoDup l.*1 ->
    map (fun e => (Scalar e.1, e.2)) (entries (mapping l)) = map (fun kx => (Some kx.1, kx.2)) l;
  (** what is written can be read back *)
  emit_sequence l : exists s, emit (sequence l) = Some s /\ Load s = Some (sequence l);
  emit_mapping l : NoDup l.*1 ->
    exists s, emit (mapping l) = Some s /\ Load s = Some (mapping l)
}.

(** The types converted by [boost::lexical_cast], their values with [==] and
    [<], and the conversions; [None] is [boost::bad_lexical_cast]. *)
Class Lexical := {
  base : Type;
  base_eq_dec :: EqDecision base;
  bval : Type;
  base_of : bval -> base;
  base_eqb : bval -> bval -> bool;
  base_ltb : bval -> bval -> bool;
  read_base : base -> list Z -> option bval;
  write_base : bval -> option (list Z)
}.

Class LexicalLaws (L : Lexical) : Prop := {
  read_base_type b s v : read_base b s = Some v -> base_of v = b;
  base_eqb_eq v w : base_eqb v w = true <-> v = w;
  base_ltb_total :: StrictTotal base_ltb
}.

(** ** Implementations *)

(** Nodes are trees of strings: [GenLeaf s] a scalar, [GenNode 0] a sequence,
    [GenNode 1] a map of pairs [GenNode 2].  A collection is written as one
    number, its code, after a zero. *)
Definition tree := gen_tree (list Z).
Definition tree_pair (t : tree) : option (tree * tree) :=
  match t with GenNode 2 [k; x] => Some (k, x) | _ => None end.
Fixpoint tree_height (t : tree) : nat :=
  match t with
  | GenLeaf _ => O
  | GenNode _ l => S (foldr Nat.max O (map tree_height l))
  end.
Definition tree_load (s : list Z) : option tree :=
  match s with
  | [0; Zpos p] => countable.decode p
  | _ => Some (GenLeaf s)
  end.
Definition tree_emit (t : tree) : option (list Z) :=
  match t with
  | GenLeaf s => Some s
  | GenNode _ _ => Some [0; Zpos (countable.encode t)]
  end.

#[export] Instance TreeYaml : Yaml := {
  Node := tree;
  Load := tree_load;
  emit := tree_emit;
  IsMap t := match t with GenNode 1 _ => true | _ => false end;
  IsScalar t := match t with GenLeaf _ => true | _ => false end;
  Scalar t := match t with GenLeaf s => Some s | _ => None end;
  size_of t := match t with GenNode 0 l | GenNode 1 l => length l | _ => O end;
  at_index t i := match t with GenNode 0 l => l !! i | _ => None end;
  entries t := match t with GenNode 1 l => omap tree_pair l | _ => [] end;
  empty_sequence := GenNode 0 [];
  empty_map := GenNode 1 [];
  push_node t x := match t with GenNode 0 l => GenNode 0 (l ++ [x]) | _ => t end;
  set_node t k x :=
    match t with GenNode 1 l => GenNode 1 (l ++ [GenNode 2 [GenLeaf k; x]]) | _ => t end;
  height := tree_height
}.

Definition tree_entry (kx : list Z * tree) : tree := GenNode 2 [GenLeaf kx.1; kx.2].

Lemma tree_sequence l : sequence l = (GenNode 0 l : tree).
Proof.
  unfold sequence. cbn.
  enough (forall a, fold_left push_node l (GenNode 0 a : tree) = GenNode 0 (a ++ l)) as -> by done.
  induction l as [|x l IH]; intros a; cbn; [by rewrite app_nil_r|].
  rewrite IH. by rewrite <- app_assoc.
Qed.

Lemma tree_mapping l : mapping l = (GenNode 1 (map tree_entry l) : tree).
Proof.
  unfold mapping. cbn.
  enough (forall a, fold_left (fun n kx => set_node n kx.1 kx.2) l (GenNode 1 a : tree)
    = GenNode 1 (a ++ map tree_entry l)) as -> by done.
  induction l as [|x l IH]; intros a; cbn; [by rewrite app_nil_r|].
  rewrite IH. by rewrite <- app_assoc.
Qed.

Lemma omap_tree_entries l :
  omap tree_pair (map tree_entry l) = map (fun kx => (GenLeaf kx.1, kx.2)) l.
Proof. induction l as [|x l IH]; cbn; [done|]. by rewrite IH. Qed.

Lemma tree_height_in l x : x ∈ l -> (tree_height x <= foldr Nat.max O (map tree_height l))%nat.
Proof. induction 1; cbn; lia. Qed.

#[export] Instance TreeYamlLaws : YamlLaws TreeYaml.
Proof.
  split.
  - intros n k x H. destruct n as [s|[|[|i]] l]; cbn in H; try by apply not_elem_of_nil in H.
    apply list_elem_of_omap in H as (p & Hp & E).
    apply tree_height_in in Hp. cbn.
    destruct p as [|[|[|[|i]]] [|k' [|x' [|]]]]; try done. injection E as -> ->. cbn in Hp. lia.
  - intros [s|i l]; [by eexists|done].
  - intros l. by rewrite tree_sequence.
  - intros l i. by rewrite tree_sequence.
  - intros l _. rewrite tree_mapping. cbn. rewrite omap_tree_entries, map_map. done.
  - intros l. rewrite tree_sequence. eexists. split; [done|]. cbn [Load TreeYaml tree_load].
    apply countable.decode_encode.
  - intros l _. rewrite tree_mapping. eexists. split; [done|]. cbn [Load TreeYaml tree_load].
    apply countable.decode_encode.
Qed.

(** Numbers, read as one element that is the number, and strings. *)
Inductive small_base := BInt | BString.
#[export] Instance small_base_eq_dec : EqDecision small_base.
Proof. solve_decision. Defined.
Definition small_value := (list Z + Z)%type.
Definition small_ltb (v w : small_value) : bool :=
  match v, w with
  | inl a, inl b => byte_lt a b
  | inl _, inr _ => true
  | inr _, inl _ => false
  | inr a, inr b => a <? b
  end.
#[export] Instance SmallLexical : Lexical := {
  base := small_base;
  bval := small_value;
  base_of v := match v with inl _ => BString | inr _ => BInt end;
  base_eqb v w := bool_decide (v = w);
  base_ltb := small_ltb;
  read_base b s :=
    match b, s with
    | BString, _ => Some (inl s)
    | BInt, [c] => if (48 <=? c) && (c <=? 57) then Some (inr (c - 48)) else None
    | BInt, _ => None
    end;
  write_base v :=
    match v with
    | inl s => Some s
    | inr z => if (0 <=? z) && (z <=? 9) then Some [z + 48] else None
    end
}.

#[export] Instance SmallLexicalLaws : LexicalLaws SmallLexical.
Proof.
  split.
  - intros [] s v; cbn; [|by intros [= <-]].
    destruct s as [|c [|]]; try done. by case_match; intros [= <-].
  - intros v w. apply bool_decide_eq_true.
  - split.
    + intros [a|a]; cbn; [apply st_irrefl|apply Z.ltb_irrefl].
    + intros [a|a] [b|b] [c|c]; cbn; try done; [apply st_trans|lia].
    + intros [a|a] [b|b]; cbn; try done; intros H1 H2; f_equal; [by apply (st_total a b)|lia].
Qed.
