(* ===== verification/LexicalCast.v ===== *)
(** * Values of configuration variables and their text (config/config.h)

    The types a variable can have, their values and comparisons, and the
    specialisations of [LexicalCast] between values and YAML text.  A value is a
    tree; [has_type], in LexicalCastFacts, says which values a C++ type has. *)
From S2P Require Import Prelude.
From S2P Require Import StdSet.
From S2P Require Import Text.
From S2P Require Import Yaml.

(** ** Types and values *)

(** The types [T] of [ConfigVar<T>]: those with a specialisation of
    [LexicalCast], over the types that use the general template. *)
Inductive cty `{!Lexical} :=
| Base (b : base)
| Vector (t : cty)
| List (t : cty)
| Set_ (t : cty)
| USet (t : cty)
| Map (t : cty)
| UMap (t : cty).

#[export] Instance cty_eq_dec `{!Lexical} : EqDecision cty.
Proof. solve_decision. Defined.

(** Containers hold their elements in iteration order. *)
Inductive value `{!Lexical} :=
| VBase (v : bval)
| VSeq (l : list value)
| VMap (l : list (list Z * value)).

(** Where an unordered container places a new element among those it has. *)
Class HashOrder `{!Lexical} := {
  set_place : list value -> value -> nat;
  map_place : list (list Z) -> list Z -> nat
}.

Section containers.
Context {A : Type}.
(** [l1 < l2] of two sequences *)
Fixpoint lexicographic (lt : A -> A -> bool) (l1 l2 : list A) : bool :=
  match l1, l2 with
  | _, [] => false
  | [], _ :: _ => true
  | x :: l1, y :: l2 => lt x y || (negb (lt y x) && lexicographic lt l1 l2)
  end.
(** [l1 == l2] of two sequences *)
Fixpoint same_elements (eq : A -> A -> bool) (l1 l2 : list A) : bool :=
  match l1, l2 with
  | [], [] => true
  | x :: l1, y :: l2 => eq x y && same_elements eq l1 l2
  | _, _ => false
  end.
(** The mapped value of a key, and [std::map::insert], which keeps what is there. *)
Fixpoint assoc {K} `{!EqDecision K} (k : K) (l : list (K * A)) : option A :=
  match l with
  | [] => None
  | (k', x) :: l => if decide (k = k') then Some x else assoc k l
  end.
Definition map_insert (k : list Z) (x : A) (l : list (list Z * A)) : list (list Z * A) :=
  match assoc k l with
  | Some _ => l
  | None => let i := set_lower_bound byte_lt k l.*1 in take i l ++ (k, x) :: drop i l
  end.
(** [insert] of an unordered container, at a place of its choosing *)
Definition insert_at (i : nat) (x : A) (l : list A) : list A := take i l ++ x :: drop i l.
End containers.

Section casting.
Context `{Y : Yaml, L : Lexical, HO : !HashOrder}.

(** [operator<] of a type that has one *)
Fixpoint value_ltb (t : cty) (v w : value) : bool :=
  match t, v, w with
  | Base _, VBase a, VBase b => base_ltb a b
  | (Vector t | List t | Set_ t), VSeq l1, VSeq l2 => lexicographic (value_ltb t) l1 l2
  | Map t, VMap l1, VMap l2 =>
      lexicographic (fun a b => byte_lt a.1 b.1 || (negb (byte_lt b.1 a.1) && value_ltb t a.2 b.2)) l1 l2
  | _, _, _ => false
  end.

(** [operator==]: of unordered containers, the same elements in any order *)
Fixpoint value_eqb (t : cty) (v w : value) : bool :=
  match t, v, w with
  | Base _, VBase a, VBase b => base_eqb a b
  | (Vector t | List t | Set_ t), VSeq l1, VSeq l2 => same_elements (value_eqb t) l1 l2
  | USet t, VSeq l1, VSeq l2 =>
      (length l1 =? length l2)%nat && forallb (fun x => existsb (value_eqb t x) l2) l1
  | Map t, VMap l1, VMap l2 =>
      same_elements (fun a b => bool_decide (a.1 = b.1) && value_eqb t a.2 b.2) l1 l2
  | UMap t, VMap l1, VMap l2 =>
      (length l1 =? length l2)%nat &&
      forallb (fun a => match assoc a.1 l2 with Some y => value_eqb t a.2 y | None => false end) l1
  | _, _, _ => false
  end.

(** [insert] of the set types and of [std::unordered_map] *)
Definition set_add (t : cty) (l : list value) (x : value) : list value :=
  (set_insert (value_ltb t) x l).2.
Definition uset_add (t : cty) (l : list value) (x : value) : list value :=
  if existsb (value_eqb t x) l then l else insert_at (set_place l x) x l.
Definition umap_insert {A} (k : list Z) (x : A) (l : list (list Z * A)) : list (list Z * A) :=
  match assoc k l with
  | Some _ => l
  | None => insert_at (map_place l.*1 k) (k, x) l
  end.

(** ** [LexicalCast] *)

(** A call of yaml-cpp or of [boost::lexical_cast] *)
Definition yaml {A} (o : option A) : exn + A :=
  match o with Some a => inr a | None => inl runtime_error end.
Definition lexical {A} (o : option A) : exn + A :=
  match o with Some a => inr a | None => inl bad_cast end.
Definition andThen {A B} (r : exn + A) (k : A -> exn + B) : exn + B :=
  match r with inl e => inl e | inr a => k a end.

Section casts.
Context (from : list Z -> exn + value) (to : value -> exn + list Z).

(** The body of the loops over [node[i]]: print the element, convert the text. *)
Definition load_element (node : Node) (i : nat) : exn + value :=
  andThen (yaml (at_index node i)) (fun n => andThen (yaml (emit n)) from).
(** [for(size_t i = 0; i < node.size(); ++i) vec.add(LexicalCast(node[i]))] *)
Fixpoint load_elements (add : list value -> value -> list value) (node : Node) (i n : nat)
    (vec : list value) : exn + list value :=
  match n with
  | O => inr vec
  | S n => andThen (load_element node i) (fun x => load_elements add node (S i) n (add vec x))
  end.
(** [for(it = node.begin(); it != node.end(); ++it) vec.insert({it->first.Scalar(), ...})] *)
Fixpoint load_entries
    (add : list Z -> value -> list (list Z * value) -> list (list Z * value))
    (l : list (Node * Node)) (vec : list (list Z * value)) : exn + list (list Z * value) :=
  match l with
  | [] => inr vec
  | (k, x) :: l =>
      andThen (andThen (yaml (emit x)) from) (fun y =>
      andThen (yaml (Scalar k)) (fun key => load_entries add l (add key y vec)))
  end.
(** [for(auto& i : v) node.push_back(YAML::Load(LexicalCast(i)))] *)
Fixpoint dump_elements (l : list value) (node : Node) : exn + Node :=
  match l with
  | [] => inr node
  | x :: l =>
      andThen (to x) (fun s => andThen (yaml (Load s)) (fun n => dump_elements l (push_node node n)))
  end.
(** [for(auto& i : v) node[i.first] = YAML::Load(LexicalCast(i.second))] *)
Fixpoint dump_entries (l : list (list Z * value)) (node : Node) : exn + Node :=
  match l with
  | [] => inr node
  | (k, x) :: l =>
      andThen (to x) (fun s => andThen (yaml (Load s)) (fun n => dump_entries l (set_node node k n)))
  end.

Definition string_to_vector (v : list Z) : exn + value :=
  andThen (yaml (Load v)) (fun node =>
  andThen (load_elements (fun vec x => vec ++ [x]) node 0 (size_of node) []) (fun vec =>
  inr (VSeq vec))).
Definition vector_to_string (v : list value) : exn + list Z :=
  andThen (dump_elements v empty_sequence) (fun node => yaml (emit node)).
Definition string_to_list (v : list Z) : exn + value :=
  andThen (yaml (Load v)) (fun node =>
  andThen (load_elements (fun vec x => vec ++ [x]) node 0 (size_of node) []) (fun vec =>
  inr (VSeq vec))).
Definition list_to_string (v : list value) : exn + list Z :=
  andThen (dump_elements v empty_sequence) (fun node => yaml (emit node)).
Definition string_to_set (t : cty) (v : list Z) : exn + value :=
  andThen (yaml (Load v)) (fun node =>
  andThen (load_elements (set_add t) node 0 (size_of node) []) (fun vec =>
  inr (VSeq vec))).
Definition set_to_string (v : list value) : exn + list Z :=
  andThen (dump_elements v empty_sequence) (fun node => yaml (emit node)).
Definition string_to_unordered_set (t : cty) (v : list Z) : exn + value :=
  andThen (yaml (Load v)) (fun node =>
  andThen (load_elements (uset_add t) node 0 (size_of node) []) (fun vec =>
  inr (VSeq vec))).
Definition unordered_set_to_string (v : list value) : exn + list Z :=
  andThen (dump_elements v empty_sequence) (fun node => yaml (emit node)).
Definition string_to_map (v : list Z) : exn + value :=
  andThen (yaml (Load v)) (fun node =>
  andThen (load_entries map_insert (entries node) []) (fun vec => inr (VMap vec))).
Definition map_to_string (v : list (list Z * value)) : exn + list Z :=
  andThen (dump_entries v empty_map) (fun node => yaml (emit node)).
Definition string_to_unordered_map (v : list Z) : exn + value :=
  andThen (yaml (Load v)) (fun node =>
  andThen (load_entries umap_insert (entries node) []) (fun vec => inr (VMap vec))).
Definition unordered_map_to_string (v : list (list Z * value)) : exn + list Z :=
  andThen (dump_entries v empty_map) (fun node => yaml (emit node)).
End casts.

(** [LexicalCast<std::string, T>()] and [LexicalCast<T, std::string>()]: the
    specialisation that the type selects *)
Fixpoint FromStr (t : cty) (s : list Z) : exn + value :=
  match t with
  | Base b => andThen (lexical (read_base b s)) (fun v => inr (VBase v))
  | Vector t => string_to_vector (FromStr t) s
  | List t => string_to_list (FromStr t) s
  | Set_ t => string_to_set (FromStr t) t s
  | USet t => string_to_unordered_set (FromStr t) t s
  | Map t => string_to_map (FromStr t) s
  | UMap t => string_to_unordered_map (FromStr t) s
  end.
Fixpoint ToStr (t : cty) (v : value) : exn + list Z :=
  match t, v with
  | Base _, VBase v => lexical (write_base v)
  | Vector t, VSeq l => vector_to_string (ToStr t) l
  | List t, VSeq l => list_to_string (ToStr t) l
  | Set_ t, VSeq l => set_to_string (ToStr t) l
  | USet t, VSeq l => unordered_set_to_string (ToStr t) l
  | Map t, VMap l => map_to_string (ToStr t) l
  | UMap t, VMap l => unordered_map_to_string (ToStr t) l
  | _, _ => inl bad_cast
  end.
End casting.
