(* ===== verification/LexicalCastFacts.v ===== *)
(** * Facts about values and their text

    Which values a type has, that the comparisons order the values of a type,
    that reading text only gives values of the type asked for, and that values
    survive being written and read back. *)
From S2P Require Import Prelude.
From S2P Require Import StdSet.
From S2P Require Import Text.
From S2P Require Import Yaml.
From S2P Require Import LexicalCast.

(** ** Orders on part of a type *)

Record StrictOn {A} (P : A -> Prop) (lt : A -> A -> bool) : Prop := {
  so_irrefl x : P x -> lt x x = false;
  so_trans x y z : P x -> P y -> P z -> lt x y = true -> lt y z = true -> lt x z = true;
  so_total x y : P x -> P y -> lt x y = false -> lt y x = false -> x = y
}.

Lemma strict_on_all {A} (lt : A -> A -> bool) (P : A -> Prop) : StrictTotal lt -> StrictOn P lt.
Proof.
  intros H. split; intros; [by apply st_irrefl|by eapply st_trans|by apply (st_total (lt := lt))].
Qed.

Section strict_on.
Context {A : Type} (P : A -> Prop) (lt : A -> A -> bool) (H : StrictOn P lt).

Lemma so_asym x y : P x -> P y -> lt x y = true -> lt y x = false.
Proof.
  intros Hx Hy E. destruct (lt y x) eqn:E'; [|done].
  pose proof (so_trans _ _ H x y x Hx Hy Hx E E') as E2. by rewrite (so_irrefl _ _ H) in E2.
Qed.

Lemma lexicographic_strict : StrictOn (Forall P) (lexicographic lt).
Proof.
  split.
  - induction 1 as [|x l Hx Hl IH]; cbn; [done|]. by rewrite (so_irrefl _ _ H), IH.
  - intros a b c Ha. revert b c. induction Ha as [|x a Hx Ha IH]; intros b c Hb Hc E1 E2;
      destruct Hb as [|y b Hy Hb], Hc as [|z c Hz Hc]; cbn in *; try done.
    apply orb_true_iff in E1, E2. apply orb_true_iff. rewrite andb_true_iff, negb_true_iff in *.
    destruct E1 as [E1|[N1 E1]], E2 as [E2|[N2 E2]].
    + left. by apply (so_trans _ _ H x y z).
    + destruct (lt y z) eqn:Eyz; [left; by apply (so_trans _ _ H x y z)|].
      left. by rewrite <- (so_total _ _ H y z).
    + destruct (lt x y) eqn:Exy; [left; by apply (so_trans _ _ H x y z)|].
      left. by rewrite (so_total _ _ H x y).
    + destruct (lt x y) eqn:Exy; destruct (lt y z) eqn:Eyz;
        try (left; by apply (so_trans _ _ H x y z)).
      * left. by rewrite <- (so_total _ _ H y z).
      * left. by rewrite (so_total _ _ H x y).
      * right. rewrite (so_total _ _ H x y) by done. split; [done|]. by apply (IH b c).
  - intros a b Ha. revert b. induction Ha as [|x a Hx Ha IH]; intros b Hb E1 E2;
      destruct Hb as [|y b Hy Hb]; cbn in *; try done.
    apply orb_false_iff in E1 as [E1 E1'], E2 as [E2 E2'].
    rewrite E1 in E2'. rewrite E2 in E1'. cbn in *.
    rewrite (so_total _ _ H x y) by done. f_equal. by apply IH.
Qed.

Lemma pair_strict :
  StrictOn (fun p : list Z * A => P p.2)
    (fun a b => byte_lt a.1 b.1 || (negb (byte_lt b.1 a.1) && lt a.2 b.2)).
Proof.
  assert (Hany : forall x y, x = y -> byte_lt x y = false) by (intros ? ? ->; apply st_irrefl).
  split.
  - intros [k x] Hx. cbn in *. by rewrite st_irrefl, (so_irrefl _ _ H).
  - intros [k x] [k' y] [k'' z] Hx Hy Hz E1 E2. cbn in *.
    apply orb_true_iff in E1, E2. apply orb_true_iff. rewrite andb_true_iff, negb_true_iff in *.
    destruct (byte_lt k k') eqn:Ek, (byte_lt k' k'') eqn:Ek'.
    + left. by apply (st_trans k k' k'').
    + left. destruct E2 as [?|[N2 _]]; [done|]. by rewrite <- (st_total k' k'').
    + left. destruct E1 as [?|[N1 _]]; [done|]. by rewrite (st_total k k').
    + right. destruct E1 as [?|[N1 E1]], E2 as [?|[N2 E2]]; try done.
      rewrite (st_total k k') by done. split; [done|]. by apply (so_trans _ _ H x y z).
  - intros [k x] [k' y] Hx Hy E1 E2. cbn in *.
    apply orb_false_iff in E1 as [E1 E1'], E2 as [E2 E2'].
    rewrite E1 in E2'. rewrite E2 in E1'. cbn in *.
    f_equal; [by apply (st_total k k')|by apply (so_total _ _ H)].
Qed.

(** Insertion into an ordered list of values of the type. *)
Lemma set_insert_on k l :
  P k -> Forall P l -> ordered lt l ->
  Forall P (set_insert lt k l).2 /\ ordered lt (set_insert lt k l).2.
Proof.
  intros Hk Hl Ho. unfold set_insert, set_find. set (i := set_lower_bound lt k l).
  assert (Hnew : Forall (fun x => lt k x = true) (drop i l) ->
    Forall P (take i l ++ k :: drop i l) /\ ordered lt (take i l ++ k :: drop i l)).
  { intros Ha. split; [apply Forall_app; split; [|constructor]; auto using Forall_take, Forall_drop|].
    pose proof (lower_bound_below lt k l) as Hb. fold i in Hb.
    apply ordered_app.
    - eapply ordered_sublist; [apply sublist_take|done].
    - constructor; [|done]. eapply ordered_sublist; [apply sublist_drop|done].
    - intros x y Hx Hy. rewrite Forall_forall in Hb, Ha, Hl. pose proof (Hb x Hx) as Hxk.
      apply elem_of_cons in Hy as [->|Hy]; [done|].
      eapply (so_trans _ _ H x k y); eauto.
      all: apply Hl; apply (elem_of_take_drop i); auto. }
  destruct (l !! i) as [x|] eqn:E; [|apply Hnew; rewrite drop_ge; [done|by apply lookup_ge_None]].
  destruct (lt k x) eqn:Ekx; [|done]. apply Hnew.
  pose proof (drop_S l x i E) as Hd.
  assert (ordered lt (drop i l)) as Hod by (eapply ordered_sublist; [apply sublist_drop|done]).
  rewrite Hd in Hod |- *. inversion Hod as [|? ? _ Hxs]; subst. constructor; [done|].
  rewrite Forall_forall in Hxs, Hl |- *. intros y Hy. pose proof (Hxs y Hy) as Hxy.
  eapply (so_trans _ _ H k x y); eauto.
  - apply Hl. by eapply list_elem_of_lookup_2.
  - apply Hl. apply (elem_of_take_drop i). right. rewrite Hd. by right.
Qed.
End strict_on.

Lemma lower_bound_all {A} (lt : A -> A -> bool) k l :
  Forall (fun x => lt x k = true) l -> set_lower_bound lt k l = length l.
Proof. induction 1 as [|x l Hx Hl IH]; cbn; [done|]. by rewrite Hx, IH. Qed.

(** Inserting the elements of an ordered list in turn rebuilds it. *)
Lemma set_insert_last {A} (lt : A -> A -> bool) k l :
  Forall (fun x => lt x k = true) l -> (set_insert lt k l).2 = l ++ [k].
Proof.
  intros H. unfold set_insert, set_find. rewrite lower_bound_all by done.
  rewrite lookup_ge_None_2 by done. cbn. by rewrite take_ge, drop_ge by done.
Qed.

Lemma fold_set_insert {A} (lt : A -> A -> bool) l1 l2 :
  ordered lt (l1 ++ l2) -> fold_left (fun l x => (set_insert lt x l).2) l2 l1 = l1 ++ l2.
Proof.
  revert l1. induction l2 as [|x l2 IH]; intros l1 H; cbn; [by rewrite app_nil_r|].
  rewrite set_insert_last.
  - rewrite IH by (by rewrite <- app_assoc). by rewrite <- app_assoc.
  - clear IH. induction l1 as [|y l1 IH]; [done|]. inversion H as [|? ? H' Hy]; subst.
    constructor; [|by apply IH]. rewrite Forall_forall in Hy. apply Hy. set_solver.
Qed.

Section typing.
Context `{Y : Yaml, L : Lexical, HO : !HashOrder, LL : !LexicalLaws L}.
Implicit Types (t : cty) (v w : value).

(** ** Which values a type has *)

(** The types with [operator<], and the types that are well formed: elements of
    [std::set] are ordered, those of [std::unordered_set] have [std::hash]. *)
Fixpoint has_order t : bool :=
  match t with
  | Base _ => true
  | Vector t | List t | Set_ t | Map t => has_order t
  | USet _ | UMap _ => false
  end.
Fixpoint well_formed t : bool :=
  match t with
  | Base _ => true
  | Vector t | List t | Map t | UMap t => well_formed t
  | Set_ t => has_order t && well_formed t
  | USet (Base _) => true
  | USet _ => false
  end.

Fixpoint has_type t v : Prop :=
  match t, v with
  | Base b, VBase a => base_of a = b
  | (Vector t | List t), VSeq l => Forall (has_type t) l
  | Set_ t, VSeq l => Forall (has_type t) l /\ ordered (value_ltb t) l
  | USet t, VSeq l => Forall (has_type t) l /\ NoDup l
  | Map t, VMap l => Forall (fun kx => has_type t kx.2) l /\ ordered byte_lt l.*1
  | UMap t, VMap l => Forall (fun kx => has_type t kx.2) l /\ NoDup l.*1
  | _, _ => False
  end.

Lemma strict_image {A B} (P : A -> Prop) (Q : B -> Prop) (lt : A -> A -> bool) (lt' : B -> B -> bool)
    (f : A -> B) :
  (forall b, Q b -> exists a, b = f a /\ P a) -> (forall a a', lt' (f a) (f a') = lt a a') ->
  StrictOn P lt -> StrictOn Q lt'.
Proof.
  intros Hf Heq H. split.
  - intros b Hb. destruct (Hf b Hb) as (a & -> & Ha). rewrite Heq. by apply (so_irrefl _ _ H).
  - intros b1 b2 b3 H1 H2 H3. destruct (Hf _ H1) as (a1 & -> & ?), (Hf _ H2) as (a2 & -> & ?),
      (Hf _ H3) as (a3 & -> & ?). rewrite !Heq. by apply (so_trans _ _ H).
  - intros b1 b2 H1 H2. destruct (Hf _ H1) as (a1 & -> & ?), (Hf _ H2) as (a2 & -> & ?).
    rewrite !Heq. intros. f_equal. by apply (so_total _ _ H).
Qed.

Lemma value_ltb_strict t : has_order t = true -> StrictOn (has_type t) (value_ltb t).
Proof.
  induction t as [b|t IH|t IH|t IH|t IH|t IH|t IH]; cbn [has_order]; intros Ho; try done.
  - eapply (strict_image (fun _ => True) _ base_ltb _ VBase); [|done|apply strict_on_all, _].
    intros [a|l|l]; cbn; [eauto|done..].
  - eapply (strict_image _ _ _ _ VSeq); [|done|apply lexicographic_strict, IH, Ho].
    intros [a|l|l]; cbn; intros Hv; try done; exists l; (split; [done|apply Hv]).
  - eapply (strict_image _ _ _ _ VSeq); [|done|apply lexicographic_strict, IH, Ho].
    intros [a|l|l]; cbn; intros Hv; try done; exists l; (split; [done|apply Hv]).
  - eapply (strict_image _ _ _ _ VSeq); [|done|apply lexicographic_strict, IH, Ho].
    intros [a|l|l]; cbn; intros Hv; try done; exists l; (split; [done|apply Hv]).
  - eapply (strict_image _ _ _ _ VMap); [|done|apply lexicographic_strict, pair_strict, IH, Ho].
    intros [a|l|l]; cbn; intros Hv; try done; exists l; (split; [done|apply Hv]).
Qed.

Lemma same_elements_eq {A} (P : A -> Prop) (eq : A -> A -> bool) (l1 l2 : list A) :
  (forall x y, P x -> P y -> eq x y = true <-> x = y) -> Forall P l1 -> Forall P l2 ->
  same_elements eq l1 l2 = true <-> l1 = l2.
Proof.
  intros Hxy H1. revert l2. induction H1 as [|x l1 Hx H1 IH]; intros l2 H2;
    destruct H2 as [|y l2 Hy H2]; cbn; [done..|].
  rewrite andb_true_iff, Hxy, IH by done. naive_solver.
Qed.

(** Comparison of values of an ordered type is equality. *)
Lemma value_eqb_eq t v w :
  has_order t = true -> has_type t v -> has_type t w -> value_eqb t v w = true <-> v = w.
Proof.
  revert v w. induction t as [b|t IH|t IH|t IH|t IH|t IH|t IH]; intros v w Ho Hv Hw; cbn in Ho; try done;
    destruct v as [a|l|l], w as [a'|l'|l']; cbn in Hv, Hw; try done; cbn [value_eqb].
  - rewrite base_eqb_eq. naive_solver.
  - rewrite (same_elements_eq (has_type t)) by (done || (intros; by apply IH)). naive_solver.
  - rewrite (same_elements_eq (has_type t)) by (done || (intros; by apply IH)). naive_solver.
  - rewrite (same_elements_eq (has_type t)); [naive_solver| |apply Hv|apply Hw]. intros; by apply IH.
  - rewrite (same_elements_eq (fun kx => has_type t kx.2)); [naive_solver| |apply Hv|apply Hw].
    intros [k x] [k' y] Hx Hy. cbn in *. rewrite andb_true_iff, bool_decide_eq_true, IH by done.
    naive_solver.
Qed.

(** ** Reading text gives values of the type *)

Lemma andThen_inr {A B} (r : exn + A) (k : A -> exn + B) b :
  andThen r k = inr b <-> exists a, r = inr a /\ k a = inr b.
Proof. destruct r; cbn; naive_solver. Qed.
Lemma yaml_inr {A} (o : option A) a : yaml o = inr a <-> o = Some a.
Proof. destruct o; cbn; naive_solver. Qed.

Lemma load_elements_inv (P : value -> Prop) (I : list value -> Prop) from add node i n vec vec' :
  (forall s x, from s = inr x -> P x) -> (forall u x, I u -> P x -> I (add u x)) ->
  I vec -> load_elements from add node i n vec = inr vec' -> I vec'.
Proof.
  intros Hf Ha. revert i vec. induction n as [|n IH]; intros i vec Hi; cbn; [by intros [= <-]|].
  intros (x & Hx & Hrest)%andThen_inr. eapply IH; [|exact Hrest]. apply Ha; [done|].
  unfold load_element in Hx. apply andThen_inr in Hx as (m & _ & Hx).
  apply andThen_inr in Hx as (s & _ & Hx). by eapply Hf.
Qed.

Lemma load_entries_inv (P : value -> Prop) (I : list (list Z * value) -> Prop) from add es vec vec' :
  (forall s x, from s = inr x -> P x) -> (forall u k x, I u -> P x -> I (add k x u)) ->
  I vec -> load_entries from add es vec = inr vec' -> I vec'.
Proof.
  intros Hf Ha. revert vec. induction es as [|[k n] es IH]; intros vec Hi; cbn; [by intros [= <-]|].
  intros (x & Hx & (key & _ & Hrest)%andThen_inr)%andThen_inr. eapply IH; [|exact Hrest].
  apply Ha; [done|]. apply andThen_inr in Hx as (s & _ & Hx). by eapply Hf.
Qed.

Lemma assoc_None {A} (k : list Z) (l : list (list Z * A)) : assoc k l = None <-> k ∉ l.*1.
Proof.
  induction l as [|[k' x] l IH]; cbn; [set_solver|]. case_decide as E; subst; [set_solver|].
  rewrite IH. set_solver.
Qed.
Lemma assoc_Some {A} (k : list Z) (l : list (list Z * A)) x :
  NoDup l.*1 -> assoc k l = Some x <-> (k, x) ∈ l.
Proof.
  induction l as [|[k' y] l IH]; cbn; [set_solver|]. intros [Hk' Hnd]%NoDup_cons.
  rewrite elem_of_cons. case_decide as E; subst.
  - split; [intros [= ->]; auto|]. intros [[= ->]|Hin]; [done|].
    destruct Hk'. by apply (list_elem_of_fmap_2 fst) in Hin.
  - rewrite IH by done. naive_solver.
Qed.

Lemma insert_at_perm {A} i (x : A) l : insert_at i x l ≡ₚ x :: l.
Proof. unfold insert_at. rewrite <- Permutation_middle. by rewrite take_drop. Qed.

Lemma umap_insert_perm {A} k (x : A) l :
  umap_insert k x l = l \/ (k ∉ l.*1) /\ umap_insert k x l ≡ₚ (k, x) :: l.
Proof.
  unfold umap_insert. destruct (assoc k l) eqn:E; [auto|]. right.
  split; [by apply assoc_None|]. apply insert_at_perm.
Qed.

Lemma umap_insert_nodup {A} k (x : A) l : NoDup l.*1 -> NoDup (umap_insert k x l).*1.
Proof.
  intros Hl. destruct (umap_insert_perm k x l) as [->|[Hk ->]]; [done|]. cbn. by constructor.
Qed.

Lemma umap_insert_Forall {A} (P : A -> Prop) k (x : A) l :
  P x -> Forall (fun kx => P kx.2) l -> Forall (fun kx => P kx.2) (umap_insert k x l).
Proof. intros Hx Hl. destruct (umap_insert_perm k x l) as [->|[Hk ->]]; [done|]. by constructor. Qed.

Lemma map_insert_keys {A} k (x : A) l :
  ordered byte_lt l.*1 -> (map_insert k x l).*1 = (set_insert byte_lt k l.*1).2.
Proof.
  intros Ho. unfold map_insert, set_insert. pose proof (set_find_spec byte_lt k l.*1 Ho) as Hf.
  destruct (assoc k l) as [y|] eqn:E.
  - destruct (set_find byte_lt k l.*1) as [i|] eqn:Ei; [done|].
    destruct Hf as [Hn _]. apply assoc_None in Hn. congruence.
  - destruct (set_find byte_lt k l.*1) as [i|] eqn:Ei.
    + apply assoc_None in E. destruct E. by eapply list_elem_of_lookup_2.
    + cbn. by rewrite fmap_app, fmap_cons, fmap_take, fmap_drop.
Qed.

Lemma map_insert_Forall {A} (P : A -> Prop) k (x : A) l :
  P x -> Forall (fun kx => P kx.2) l -> Forall (fun kx => P kx.2) (map_insert k x l).
Proof.
  intros Hx Hl. unfold map_insert. destruct (assoc k l); [done|].
  apply Forall_app. split; [by apply Forall_take|]. constructor; [done|by apply Forall_drop].
Qed.

Lemma map_insert_ordered {A} k (x : A) l :
  ordered byte_lt l.*1 -> ordered byte_lt (map_insert k x l).*1.
Proof.
  intros Ho. rewrite map_insert_keys by done. destruct (set_insert byte_lt k l.*1) as [i l'] eqn:E.
  by apply (set_insert_spec byte_lt k _ i l' Ho).
Qed.

Lemma uset_add_typed b l x :
  Forall (has_type (Base b)) l /\ NoDup l -> has_type (Base b) x ->
  Forall (has_type (Base b)) (uset_add (Base b) l x) /\ NoDup (uset_add (Base b) l x).
Proof.
  intros [Hl Hnd] Hx. unfold uset_add. destruct (existsb _ l) eqn:E; [done|].
  rewrite insert_at_perm. split; [by constructor|]. constructor; [|done]. intros Hin.
  enough (existsb (value_eqb (Base b) x) l = true) by congruence.
  apply existsb_exists. exists x. split; [by apply list_elem_of_In|]. by apply value_eqb_eq.
Qed.

(** Reading text gives a value of the type, when it gives one. *)
Lemma FromStr_typed t s v : well_formed t = true -> FromStr t s = inr v -> has_type t v.
Proof.
  revert s v. induction t as [b|t IH|t IH|t IH|t IH|t IH|t IH]; intros s v Hw H; cbn in H, Hw;
    apply andThen_inr in H as (a & Ha & H).
  - injection H as <-. cbn. destruct (read_base b s) as [a'|] eqn:E; [|done]. injection Ha as <-.
    by eapply read_base_type.
  - apply andThen_inr in H as (vec & H & [= <-]). revert H.
    apply (load_elements_inv (has_type t)); [eauto| |by constructor].
    intros u x Hu Hx. apply Forall_app. auto.
  - apply andThen_inr in H as (vec & H & [= <-]). revert H.
    apply (load_elements_inv (has_type t)); [eauto| |by constructor].
    intros u x Hu Hx. apply Forall_app. auto.
  - apply andb_true_iff in Hw as [Hord Hw].
    apply andThen_inr in H as (vec & H & [= <-]). revert H.
    apply (load_elements_inv (has_type t)
      (fun l => Forall (has_type t) l /\ ordered (value_ltb t) l)); [eauto| |by repeat constructor].
    intros u x [Hu Ho] Hx. by apply (set_insert_on _ _ (value_ltb_strict t Hord)).
  - destruct t as [b| | | | | |]; try done.
    apply andThen_inr in H as (vec & H & [= <-]). revert H.
    apply (load_elements_inv (has_type (Base b)) (fun l => Forall (has_type (Base b)) l /\ NoDup l));
      [eauto| |by repeat constructor].
    intros u x. apply uset_add_typed.
  - apply andThen_inr in H as (vec & H & [= <-]). revert H.
    apply (load_entries_inv (has_type t)
      (fun l => Forall (fun kx => has_type t kx.2) l /\ ordered byte_lt l.*1));
      [eauto| |by repeat constructor].
    intros u k x [Hu Ho] Hx. split; [by apply map_insert_Forall|by apply map_insert_ordered].
  - apply andThen_inr in H as (vec & H & [= <-]). revert H.
    apply (load_entries_inv (has_type t)
      (fun l => Forall (fun kx => has_type t kx.2) l /\ NoDup l.*1));
      [eauto| |by repeat constructor].
    intros u k x [Hu Ho] Hx. split; [by apply umap_insert_Forall|by apply umap_insert_nodup].
Qed.

(** ** Round trips *)

(** A text that goes through a node: what [ss << node[i]] prints for [YAML::Load(s)]. *)
Definition reprint (s : list Z) : option (list Z) := n ← Load s; emit n.

(** The base values inside can be written, and read back after YAML has printed them. *)
Fixpoint printable t v : Prop :=
  match t, v with
  | Base b, VBase a =>
      exists s s', write_base a = Some s /\ reprint s = Some s' /\ read_base b s' = Some a
  | (Vector t | List t | Set_ t | USet t), VSeq l => Forall (printable t) l
  | (Map t | UMap t), VMap l => Forall (fun kx => printable t kx.2) l
  | _, _ => False
  end.

Definition is_base t : bool := match t with Base _ => true | _ => false end.

Section elements.
Context (from : list Z -> exn + value) (to : value -> exn + list Z) (R : value -> value -> Prop).

(** [x] is written to a text that is read back, through YAML, as an [x'] related to it. *)
Definition survives x x' : Prop :=
  exists s s', to x = inr s /\ reprint s = Some s' /\ from s' = inr x' /\ R x x'.
Definition reads n x : Prop := exists s, emit n = Some s /\ from s = inr x.

Lemma survives_node x x' :
  survives x x' ->
  exists s n, to x = inr s /\ Load s = Some n /\ reads n x' /\ R x x'.
Proof.
  intros (s & s' & Hto & (n & Hn & He)%bind_Some & Hf & HR).
  exists s, n. split_and!; try done. by exists s'.
Qed.

Lemma dump_elements_spec l l' :
  Forall2 survives l l' ->
  exists ns, Forall2 reads ns l' /\
    forall pre, dump_elements to l (sequence pre) = inr (sequence (pre ++ ns)).
Proof.
  induction 1 as [|x x' l l' Hx Hl (ns & Hns & IH)].
  - exists []. split; [done|]. intros pre. by rewrite app_nil_r.
  - apply survives_node in Hx as (s & n & Hto & Hn & Hrd & _). exists (n :: ns).
    split; [by constructor|]. intros pre. cbn. rewrite Hto. cbn. rewrite Hn. cbn.
    rewrite (cons_middle n), app_assoc, <- IH. f_equal.
    unfold sequence. by rewrite fold_left_app.
Qed.

Lemma load_elements_spec `{!YamlLaws Y} add pre ns l vec :
  Forall2 reads ns l ->
  load_elements from add (sequence (pre ++ ns)) (length pre) (length ns) vec
  = inr (fold_left add l vec).
Proof.
  intros H. revert pre vec. induction H as [|n x ns l (s & He & Hf) Hns IH]; intros pre vec; [done|].
  cbn [load_elements length fold_left]. unfold load_element. rewrite sequence_index.
  rewrite lookup_app_r, Nat.sub_diag by done. cbn. rewrite He. cbn. rewrite Hf. cbn.
  rewrite (cons_middle n), app_assoc.
  specialize (IH (pre ++ [n]) (add vec x)). by rewrite length_app, Nat.add_comm in IH.
Qed.

Lemma dump_entries_spec l l' :
  Forall2 survives l.*2 l'.*2 -> l.*1 = l'.*1 ->
  exists ns, ns.*1 = l'.*1 /\ Forall2 reads ns.*2 l'.*2 /\
    forall pre, dump_entries to l (mapping pre) = inr (mapping (pre ++ ns)).
Proof.
  revert l'. induction l as [|[k x] l IH]; intros [|[k' x'] l'] H Hk; cbn in *; try done.
  - exists []. split_and!; [done..|]. intros pre. by rewrite app_nil_r.
  - inversion H as [|? ? ? ? Hx Hl]; subst. injection Hk as -> Hk.
    destruct (IH l' Hl Hk) as (ns & Hns1 & Hns2 & Hd).
    apply survives_node in Hx as (s & n & Hto & Hn & Hrd & _). exists ((k', n) :: ns). cbn.
    split_and!; [by rewrite Hns1|by constructor|]. intros pre. rewrite Hto. cbn. rewrite Hn. cbn.
    rewrite (cons_middle (k', n)), app_assoc, <- Hd. f_equal.
    unfold mapping. by rewrite fold_left_app.
Qed.

Lemma load_entries_spec add (es : list (Node * Node)) ns l vec :
  map (fun e => (Scalar e.1, e.2)) es = map (fun kn => (Some kn.1, kn.2)) ns ->
  ns.*1 = l.*1 -> Forall2 reads ns.*2 l.*2 ->
  load_entries from add es vec = inr (fold_left (fun u kx => add kx.1 kx.2 u) l vec).
Proof.
  revert es l vec. induction ns as [|[k n] ns IH]; intros [|[ke ne] es] [|[k' x] l] vec He Hk Hr;
    cbn in *; try done.
  injection He as Hs -> He. injection Hk as -> Hk. inversion Hr as [|? ? ? ? (s & Hem & Hf) Hr']; subst.
  rewrite Hem. cbn. rewrite Hf. cbn. rewrite Hs. cbn. by apply IH.
Qed.

(** The text of a collection, and what it reads back as. *)
Lemma sequence_roundtrip `{!YamlLaws Y} l l' :
  Forall2 survives l l' ->
  exists s, andThen (dump_elements to l empty_sequence) (fun node => yaml (emit node)) = inr s /\
    reprint s = Some s /\
    forall add, andThen (yaml (Load s)) (fun node => load_elements from add node 0 (size_of node) [])
      = inr (fold_left add l' []).
Proof.
  intros (ns & Hns & Hd)%dump_elements_spec. specialize (Hd []). rewrite app_nil_l in Hd.
  change (sequence []) with empty_sequence in Hd.
  destruct (emit_sequence ns) as (s & He & Hl). exists s. split_and!.
  - rewrite Hd. cbn [andThen]. by rewrite He.
  - unfold reprint. rewrite Hl. exact He.
  - intros add. rewrite Hl. cbn. rewrite sequence_size.
    apply (load_elements_spec add [] ns l' [] Hns).
Qed.

Lemma mapping_roundtrip `{!YamlLaws Y} l l' :
  Forall2 survives l.*2 l'.*2 -> l.*1 = l'.*1 -> NoDup l.*1 ->
  exists s, andThen (dump_entries to l empty_map) (fun node => yaml (emit node)) = inr s /\
    reprint s = Some s /\
    forall add, andThen (yaml (Load s)) (fun node => load_entries from add (entries node) [])
      = inr (fold_left (fun u kx => add kx.1 kx.2 u) l' []).
Proof.
  intros Hl Hk Hnd. destruct (dump_entries_spec l l' Hl Hk) as (ns & Hns1 & Hns2 & Hd).
  specialize (Hd []). rewrite app_nil_l in Hd. change (mapping []) with empty_map in Hd. assert (NoDup ns.*1) as Hns by (by rewrite Hns1, <- Hk).
  destruct (emit_mapping ns Hns) as (s & He & Hld). exists s. split_and!.
  - rewrite Hd. cbn [andThen]. by rewrite He.
  - unfold reprint. rewrite Hld. exact He.
  - intros add. rewrite Hld. cbn [andThen yaml].
    apply (load_entries_spec add (entries (mapping ns)) ns l' []); [by apply mapping_entries|done..].
Qed.
End elements.

(** Rebuilding a container from its elements. *)
Lemma fold_push {A} (l pre : list A) : fold_left (fun u x => u ++ [x]) l pre = pre ++ l.
Proof.
  revert pre. induction l as [|x l IH]; intros pre; cbn; [by rewrite app_nil_r|].
  by rewrite IH, <- app_assoc.
Qed.

Lemma fold_uset b l pre :
  Forall (has_type (Base b)) (pre ++ l) -> NoDup (pre ++ l) ->
  fold_left (uset_add (Base b)) l pre ≡ₚ pre ++ l.
Proof.
  revert pre. induction l as [|x l IH]; intros pre Ht Hnd; cbn; [by rewrite app_nil_r|].
  assert (uset_add (Base b) pre x ≡ₚ pre ++ [x]) as Hp.
  { unfold uset_add. destruct (existsb _ pre) eqn:E.
    - apply existsb_exists in E as (y & Hy & E). apply list_elem_of_In in Hy.
      rewrite Forall_forall in Ht. apply value_eqb_eq in E as <-; [|done|apply Ht; set_solver..].
      apply NoDup_app in Hnd as (_ & Hnd & _). destruct (Hnd x Hy). set_solver.
    - rewrite insert_at_perm. apply Permutation_cons_append. }
  rewrite (cons_middle x), app_assoc in Ht, Hnd |- *. rewrite <- Hp in Ht, Hnd |- *. by apply IH.
Qed.

Lemma fold_map {A} (l pre : list (list Z * A)) :
  ordered byte_lt (pre ++ l).*1 -> fold_left (fun u kx => map_insert kx.1 kx.2 u) l pre = pre ++ l.
Proof.
  revert pre. induction l as [|[k x] l IH]; intros pre Ho; cbn; [by rewrite app_nil_r|].
  rewrite (cons_middle (k, x)), app_assoc in Ho |- *.
  assert (Forall (fun y => byte_lt y k = true) pre.*1) as Hk.
  { rewrite !fmap_app in Ho. clear IH. induction pre as [|[k' y] pre IH]; [by constructor|].
    inversion Ho as [|? ? Ho' Hy]; subst. constructor; [|by apply IH].
    rewrite Forall_forall in Hy. apply Hy. set_solver. }
  assert (map_insert k x pre = pre ++ [(k, x)]) as ->; [|by apply IH].
  unfold map_insert. destruct (assoc k pre) as [y|] eqn:E.
  - assert (k ∈ pre.*1) as Hin.
    { apply dec_stable. intros Hn. by apply (assoc_None k pre) in Hn; congruence. }
    rewrite Forall_forall in Hk. specialize (Hk k Hin). cbn in Hk. by rewrite st_irrefl in Hk.
  - rewrite lower_bound_all by done. rewrite length_fmap, take_ge, drop_ge by done. done.
Qed.

Lemma fold_umap {A} (l pre : list (list Z * A)) :
  NoDup (pre ++ l).*1 -> fold_left (fun u kx => umap_insert kx.1 kx.2 u) l pre ≡ₚ pre ++ l.
Proof.
  revert pre. induction l as [|[k x] l IH]; intros pre Hnd; cbn; [by rewrite app_nil_r|].
  assert (umap_insert k x pre ≡ₚ pre ++ [(k, x)]) as Hp.
  { unfold umap_insert. destruct (assoc k pre) as [y|] eqn:E.
    - assert (k ∉ pre.*1) as Hn by (rewrite fmap_app, NoDup_app in Hnd; set_solver).
      apply assoc_None in Hn. congruence.
    - rewrite insert_at_perm. apply Permutation_cons_append. }
  rewrite (cons_middle (k, x)), app_assoc in Hnd |- *. rewrite <- Hp in Hnd |- *. by apply IH.
Qed.

Lemma same_elements_spec {A} (eq : A -> A -> bool) l1 l2 :
  same_elements eq l1 l2 = true <-> Forall2 (fun x y => eq x y = true) l1 l2.
Proof.
  revert l2. induction l1 as [|x l1 IH]; intros [|y l2]; cbn.
  - split; [by constructor|done].
  - split; [done|by inversion 1].
  - split; [done|by inversion 1].
  - rewrite andb_true_iff, IH. split; [by intros []; constructor|by inversion 1].
Qed.

Lemma Forall_survives t l :
  Forall (fun x => exists x', survives (FromStr t) (ToStr t) (fun v w => value_eqb t v w = true) x x') l ->
  exists l', Forall2 (survives (FromStr t) (ToStr t) (fun v w => value_eqb t v w = true)) l l'.
Proof.
  induction 1 as [|x l (x' & Hx) Hl (l' & IH)]; [by exists []|]. exists (x' :: l'). by constructor.
Qed.

Lemma Forall_survives_entries t (l : list (list Z * value)) :
  Forall (fun kx => exists x', survives (FromStr t) (ToStr t) (fun v w => value_eqb t v w = true) kx.2 x') l ->
  exists l', Forall2 (fun a b => a.1 = b.1 /\ value_eqb t a.2 b.2 = true) l l' /\ l.*1 = l'.*1 /\
    Forall2 (survives (FromStr t) (ToStr t) (fun v w => value_eqb t v w = true)) l.*2 l'.*2.
Proof.
  induction 1 as [|[k x] l (x' & Hx) Hl (l' & IH1 & IH2 & IH3)]; [by exists []|].
  exists ((k, x') :: l'). cbn in *. split_and!; [|by rewrite IH2|by constructor].
  constructor; [|done]. split; [done|]. by destruct Hx as (? & ? & _ & _ & _ & ?).
Qed.

Lemma andThen_assoc {A B C} (r : exn + A) (f : A -> exn + B) (g : B -> exn + C) :
  andThen r (fun a => andThen (f a) g) = andThen (andThen r f) g.
Proof. by destruct r. Qed.

Lemma survives_eq t l l' :
  has_order t = true -> well_formed t = true -> Forall (has_type t) l ->
  Forall2 (survives (FromStr t) (ToStr t) (fun v w => value_eqb t v w = true)) l l' -> l' = l.
Proof.
  intros Ho Hw Ht H. induction H as [|x x' l l' (s & s' & _ & _ & Hf & He) H IH]; [done|].
  inversion Ht; subst. f_equal; [|by apply IH]. symmetry.
  apply (value_eqb_eq t); [done|done|by eapply FromStr_typed|done].
Qed.

Lemma survives_values t l l' :
  Forall2 (survives (FromStr t) (ToStr t) (fun v w => value_eqb t v w = true)) l l' ->
  same_elements (value_eqb t) l l' = true.
Proof.
  intros H. apply same_elements_spec. eapply Forall2_impl; [exact H|].
  by intros x x' (? & ? & _ & _ & _ & ?).
Qed.

Lemma uset_eqb b l l' : Forall (has_type (Base b)) l -> l' ≡ₚ l -> value_eqb (USet (Base b)) (VSeq l) (VSeq l') = true.
Proof.
  intros Ht Hp. cbn [value_eqb]. rewrite Hp, Nat.eqb_refl. apply forallb_forall. intros x Hx.
  apply existsb_exists. exists x. apply list_elem_of_In in Hx. rewrite <- list_elem_of_In, Hp.
  rewrite Forall_forall in Ht. split; [done|]. apply (value_eqb_eq (Base b)); auto.
Qed.

Lemma umap_eqb t l l' m :
  Forall2 (fun a b => a.1 = b.1 /\ value_eqb t a.2 b.2 = true) l l' -> NoDup l'.*1 -> m ≡ₚ l' ->
  value_eqb (UMap t) (VMap l) (VMap m) = true.
Proof.
  intros H Hnd Hp. cbn [value_eqb]. rewrite Hp, (Forall2_length _ _ _ H), Nat.eqb_refl.
  apply forallb_forall. intros [k x] Hx%list_elem_of_In. cbn.
  apply list_elem_of_lookup in Hx as [i Hi].
  destruct (Forall2_lookup_l _ _ _ _ _ H Hi) as ([k' x'] & Hi' & [Hk Hv]). cbn in Hk, Hv. subst k'.
  apply list_elem_of_lookup_2 in Hi'.
  assert (assoc k m = Some x') as ->; [|done]. apply assoc_Some; [by rewrite Hp|by rewrite Hp].
Qed.

Lemma map_eqb t l l' :
  Forall2 (fun a b => a.1 = b.1 /\ value_eqb t a.2 b.2 = true) l l' ->
  value_eqb (Map t) (VMap l) (VMap l') = true.
Proof.
  intros H. cbn [value_eqb]. apply same_elements_spec. eapply Forall2_impl; [exact H|].
  intros a b [Hk Hv]. cbn. by rewrite Hv, bool_decide_eq_true_2.
Qed.

Lemma same_elements_refl {A} (eq : A -> A -> bool) l :
  Forall (fun x => eq x x = true) l -> same_elements eq l l = true.
Proof. intros H. apply same_elements_spec. by apply Forall_Forall2_diag. Qed.

Lemma value_eqb_refl t v : well_formed t = true -> has_type t v -> value_eqb t v v = true.
Proof.
  revert v. induction t as [b|t IH|t IH|t IH|t IH|t IH|t IH]; intros [a|l|l] Hw Hv; cbn in Hw, Hv; try done.
  - by apply base_eqb_eq.
  - apply same_elements_refl. eapply Forall_impl; [done|]. auto.
  - apply same_elements_refl. eapply Forall_impl; [done|]. auto.
  - apply andb_true_iff in Hw as [_ Hw].
    apply same_elements_refl. eapply Forall_impl; [apply Hv|]. cbn. auto.
  - destruct t as [b| | | | | |]; try done. apply uset_eqb; [apply Hv|done].
  - apply map_eqb, Forall_Forall2_diag. eapply Forall_impl; [apply Hv|]. cbn. auto.
  - apply (umap_eqb _ _ l); [|by apply Hv|done].
    apply Forall_Forall2_diag. eapply Forall_impl; [apply Hv|]. cbn. auto.
Qed.

Lemma well_formed_order t : has_order t = true -> well_formed t = true.
Proof. induction t; cbn; intros H; try done; auto. by rewrite H, IHt. Qed.

(** A value is written, and what is read back equals it. *)
Definition comes_back t v : Prop :=
  exists s s' v', ToStr t v = inr s /\ reprint s = Some s' /\ (is_base t = false -> s' = s) /\
    FromStr t s' = inr v' /\ value_eqb t v v' = true.

Lemma comes_back_survives t v :
  comes_back t v -> exists v', survives (FromStr t) (ToStr t) (fun v w => value_eqb t v w = true) v v'.
Proof. intros (s & s' & v' & Hto & Hr & _ & Hf & He). exists v', s, s'. done. Qed.

Section containers_come_back.
Context `{!YamlLaws Y} (t C : cty).

Lemma sequence_comes_back add l l' :
  ToStr C (VSeq l) = andThen (dump_elements (ToStr t) l empty_sequence) (fun node => yaml (emit node)) ->
  (forall s, FromStr C s = andThen (yaml (Load s)) (fun node =>
    andThen (load_elements (FromStr t) add node 0 (size_of node) []) (fun vec => inr (VSeq vec)))) ->
  Forall2 (survives (FromStr t) (ToStr t) (fun v w => value_eqb t v w = true)) l l' ->
  value_eqb C (VSeq l) (VSeq (fold_left add l' [])) = true -> comes_back C (VSeq l).
Proof.
  intros Hto Hfrom Hl He. destruct (sequence_roundtrip _ _ _ _ _ Hl) as (s & Hs & Hr & Hld).
  exists s, s, (VSeq (fold_left add l' [])). split_and!; try done; [by rewrite Hto|].
  by rewrite Hfrom, andThen_assoc, Hld.
Qed.

Lemma mapping_comes_back add l l' :
  ToStr C (VMap l) = andThen (dump_entries (ToStr t) l empty_map) (fun node => yaml (emit node)) ->
  (forall s, FromStr C s = andThen (yaml (Load s)) (fun node =>
    andThen (load_entries (FromStr t) add (entries node) []) (fun vec => inr (VMap vec)))) ->
  Forall2 (survives (FromStr t) (ToStr t) (fun v w => value_eqb t v w = true)) l.*2 l'.*2 ->
  l.*1 = l'.*1 -> NoDup l.*1 ->
  value_eqb C (VMap l) (VMap (fold_left (fun u kx => add kx.1 kx.2 u) l' [])) = true ->
  comes_back C (VMap l).
Proof.
  intros Hto Hfrom Hl Hk Hnd He.
  destruct (mapping_roundtrip _ _ _ l l' Hl Hk Hnd) as (s & Hs & Hr & Hld).
  exists s, s, (VMap (fold_left (fun u kx => add kx.1 kx.2 u) l' [])).
  split_and!; try done; [by rewrite Hto|]. by rewrite Hfrom, andThen_assoc, Hld.
Qed.
End containers_come_back.

Lemma Forall_comes_back {A} t (f : A -> value) (l : list A) :
  (forall v, well_formed t = true -> has_type t v -> printable t v -> comes_back t v) ->
  well_formed t = true -> Forall (fun a => has_type t (f a)) l -> Forall (fun a => printable t (f a)) l ->
  Forall (fun a => exists x', survives (FromStr t) (ToStr t) (fun v w => value_eqb t v w = true) (f a) x') l.
Proof.
  intros IH Hw Ht Hp. apply Forall_forall. intros a Ha. rewrite Forall_forall in Ht, Hp.
  apply comes_back_survives. auto.
Qed.

Lemma value_comes_back `{!YamlLaws Y} t v :
  well_formed t = true -> has_type t v -> printable t v -> comes_back t v.
Proof.
  revert v. induction t as [b|t IH|t IH|t IH|t IH|t IH|t IH]; intros v Hw Hv Hp; cbn in Hw;
    destruct v as [a|l|l]; try done; cbn in Hv, Hp.
  - destruct Hp as (s & s' & Hwr & Hr & Hrd). exists s, s', (VBase a). cbn.
    rewrite Hwr, Hrd. split_and!; try done. by apply base_eqb_eq.
  - destruct (Forall_survives t l) as (l' & Hl'); [by apply (Forall_comes_back t id)|].
    apply (sequence_comes_back t _ (fun u x => u ++ [x]) l l'); try done.
    rewrite fold_push. by apply survives_values.
  - destruct (Forall_survives t l) as (l' & Hl'); [by apply (Forall_comes_back t id)|].
    apply (sequence_comes_back t _ (fun u x => u ++ [x]) l l'); try done.
    rewrite fold_push. by apply survives_values.
  - apply andb_true_iff in Hw as [Ho Hw]. destruct Hv as [Hv Hord].
    destruct (Forall_survives t l) as (l' & Hl'); [by apply (Forall_comes_back t id)|].
    apply (sequence_comes_back t _ (set_add t) l l'); try done.
    assert (l' = l) as -> by (by eapply (survives_eq t)).
    unfold set_add. rewrite fold_set_insert by done. by apply survives_values.
  - destruct t as [b| | | | | |]; try done. destruct Hv as [Hv Hnd].
    destruct (Forall_survives (Base b) l) as (l' & Hl'); [by apply (Forall_comes_back (Base b) id)|].
    apply (sequence_comes_back (Base b) _ (uset_add (Base b)) l l'); try done.
    assert (l' = l) as -> by (by eapply (survives_eq (Base b))).
    apply uset_eqb; [done|]. by apply (fold_uset b l []).
  - destruct Hv as [Hv Hord]. pose proof (ordered_nodup byte_lt _ Hord) as Hnd.
    destruct (Forall_survives_entries t l) as (l' & H2 & Hk & Hl'); [by apply (Forall_comes_back t snd)|].
    apply (mapping_comes_back t _ map_insert l l'); try done.
    rewrite fold_map by (by rewrite app_nil_l, <- Hk). by apply map_eqb.
  - destruct Hv as [Hv Hnd].
    destruct (Forall_survives_entries t l) as (l' & H2 & Hk & Hl'); [by apply (Forall_comes_back t snd)|].
    apply (mapping_comes_back t _ umap_insert l l'); try done.
    apply (umap_eqb _ _ l'); [done|by rewrite <- Hk|]. apply (fold_umap l' []). by rewrite app_nil_l, <- Hk.
Qed.

(** C26 (configuration values): the containers lose nothing.  When each base value
    inside a container, of any nesting, is read back from what the YAML library
    prints for the text it is written as, the container is written to a text that
    the library prints unchanged and that is read back as an equal value of the
    same type.  The condition on the base values is one on the libraries: it fails
    for an empty string and for one that starts a comment, and for a base value
    by itself nothing is stated. *)
Theorem cast_roundtrip `{!YamlLaws Y} t v :
  is_base t = false -> well_formed t = true -> has_type t v -> printable t v ->
  exists s v', ToStr t v = inr s /\ reprint s = Some s /\
    FromStr t s = inr v' /\ value_eqb t v v' = true /\ has_type t v'.
Proof.
  intros Hb Hw Hv Hp. destruct (value_comes_back t v Hw Hv Hp) as (s & s' & v' & H1 & H2 & H3 & H4 & H5).
  rewrite (H3 Hb) in *. exists s, v'. split_and!; try done. by eapply FromStr_typed.
Qed.
End typing.

(** ** A concrete instance *)

(** New elements go to the front. *)
Definition FrontOrder : HashOrder := {| set_place _ _ := O; map_place _ _ := O |}.

Definition example_type : cty := Map (USet (Base BInt)).
Definition example_value : value :=
  VMap [(text "a", VSeq [VBase (inr 3); VBase (inr 1)]); (text "b", VSeq [])].

(** The set comes back in another order. *)
Lemma cast_roundtrip_witness :
  exists s v', ToStr example_type example_value = inr s /\ reprint s = Some s /\
    FromStr (HO := FrontOrder) example_type s = inr v' /\
    value_eqb example_type example_value v' = true /\ has_type example_type v'.
Proof.
  apply (cast_roundtrip (HO := FrontOrder) example_type example_value); [reflexivity|reflexivity| |].
  - cbn. split; [|repeat constructor]. repeat constructor; set_solver.
  - cbn. repeat constructor; eexists _, _; (split_and!; reflexivity).
Defined.
