(* ===== verification/Config.v ===== *)
(** * Configuration variables (config/config.h, config.cc)

    The registry of named, typed variables, their listeners, and the loading of
    documents.  Variables are shared objects: [heap] holds them, a pointer is an
    index, and the registry maps names to pointers.  A listener is a function on
    the rest of the program's state, [World]; it may throw.  The callback of [Visit]
    may use the registry; if it adds a name, the iteration is undefined. *)
From S2P Require Import Prelude.
From S2P Require Import StdSet.
From S2P Require Import Text.
From S2P Require Import Yaml.
From S2P Require Import LexicalCast.

(** ** Names *)

(** [::tolower] *)
Definition tolower (c : Z) : Z := if (65 <=? c) && (c <=? 90) then c + 32 else c.
Definition name_chars : list Z := Eval cbv in text "abcdefghikjlmnopqrstuvwxyz._012345678".
(** [name.find_first_not_of(name_chars) == npos] *)
Definition valid_name (name : list Z) : bool := forallb (fun c => existsb (Z.eqb c) name_chars) name.

(** The callbacks: what calling one does, and what it throws. *)
Class Listeners `{!Lexical} := {
  World : Type;
  on_change_cb : Type;
  call : on_change_cb -> value -> value -> World -> World * option exn
}.

Section config.
Context `{Y : Yaml, L : Lexical, HO : !HashOrder, CB : !Listeners}.

(** ** State *)

(** [ConfigVarBase] and [ConfigVar<T>]; [m_cbs] is a [std::map], in key order. *)
Record ConfigVar := mkConfigVar {
  m_name : list Z;
  m_description : list Z;
  var_type : cty;
  m_val : value;
  m_cbs : list (Z * on_change_cb)
}.
Definition set_val (v : value) (x : ConfigVar) : ConfigVar :=
  mkConfigVar (m_name x) (m_description x) (var_type x) v (m_cbs x).
Definition set_cbs (l : list (Z * on_change_cb)) (x : ConfigVar) : ConfigVar :=
  mkConfigVar (m_name x) (m_description x) (var_type x) (m_val x) l.

(** What the module logs. *)
Inductive config_log :=
| LToString (name : list Z)
| LFromString (name val : list Z)
| LExists (name : list Z)
| LTypeMismatch (name : list Z) (real : cty) (val : list Z)
| LInvalidLookup (name : list Z)
| LInvalidName (prefix node : list Z)
| LLoadOk (file : list Z)
| LLoadFailed (file : list Z).

(** [GetDatas()], the counters [s_fun_id] of [addListener], one per type, and
    [s_file2modifytime] *)
Record Config := mkConfig {
  heap : list ConfigVar;
  datas : list (list Z * nat);
  s_fun_id : cty -> Z;
  s_file2modifytime : list (list Z * Z);
  logs : list config_log;
  world : World
}.
Definition set_heap (h : list ConfigVar) (s : Config) : Config :=
  mkConfig h (datas s) (s_fun_id s) (s_file2modifytime s) (logs s) (world s).
Definition set_datas (d : list (list Z * nat)) (s : Config) : Config :=
  mkConfig (heap s) d (s_fun_id s) (s_file2modifytime s) (logs s) (world s).
Definition set_fun_id (f : cty -> Z) (s : Config) : Config :=
  mkConfig (heap s) (datas s) f (s_file2modifytime s) (logs s) (world s).
Definition set_mtimes (m : list (list Z * Z)) (s : Config) : Config :=
  mkConfig (heap s) (datas s) (s_fun_id s) m (logs s) (world s).
Definition set_world (w : World) (s : Config) : Config :=
  mkConfig (heap s) (datas s) (s_fun_id s) (s_file2modifytime s) (logs s) w.
Definition log_record (r : config_log) : M Config unit :=
  modify (fun s => mkConfig (heap s) (datas s) (s_fun_id s) (s_file2modifytime s) (logs s ++ [r]) (world s)).

(** The object behind a pointer, and assigning to it. *)
Definition var (p : nat) : M Config ConfigVar := fun s => deref (heap s !! p) s.
Definition put_var (p : nat) (x : ConfigVar) : M Config unit :=
  modify (fun s => set_heap (<[p := x]> (heap s)) s).

(** ** [ConfigVar] *)

(** [new ConfigVar<T>(name, default_value, description)] *)
Definition new_ConfigVar (t : cty) (name : list Z) (default_value : value) (description : list Z) : ConfigVar :=
  mkConfigVar (map tolower name) description t default_value [].

Definition ConfigVar_toString (p : nat) : M Config (list Z) :=
  x <-- var p ;;
  try_std (lift (ToStr (var_type x) (m_val x)))
    (fun _ => log_record (LToString (m_name x)) ;;; mreturn []).

Definition call_listener (p : nat) (v : value) (cb : on_change_cb) : M Config unit :=
  x <-- var p ;; fun s =>
  let (w, e) := call cb (m_val x) v (world s) in
  match e with None => Ok tt (set_world w s) | Some e => Throw e (set_world w s) end.
Definition ConfigVar_setValue (p : nat) (v : value) : M Config unit :=
  x <-- var p ;;
  if value_eqb (var_type x) v (m_val x) then mreturn tt else
  for_each (fun i => call_listener p v i.2) (m_cbs x) ;;;
  put_var p (set_val v x).

Definition ConfigVar_fromString (p : nat) (val : list Z) : M Config bool :=
  x <-- var p ;;
  try_std
    (v <-- lift (FromStr (var_type x) val) ;; ConfigVar_setValue p v)
    (fun _ => log_record (LFromString (m_name x) val)) ;;;
  mreturn false.

Definition ConfigVar_getValue (p : nat) : M Config value := x <-- var p ;; mreturn (m_val x).

(** [m_cbs[key] = cb] *)
Fixpoint cbs_assign (key : Z) (cb : on_change_cb) (l : list (Z * on_change_cb)) : list (Z * on_change_cb) :=
  match l with
  | [] => [(key, cb)]
  | (k, c) :: l =>
      if k =? key then (key, cb) :: l
      else if k <? key then (k, c) :: cbs_assign key cb l
      else (key, cb) :: (k, c) :: l
  end.
Definition fun_upd (f : cty -> Z) (t : cty) (z : Z) : cty -> Z :=
  fun t' => if decide (t = t') then z else f t'.

Definition ConfigVar_addListener (p : nat) (cb : on_change_cb) : M Config Z :=
  x <-- var p ;;
  modify (fun s => set_fun_id (fun_upd (s_fun_id s) (var_type x) (u64 (s_fun_id s (var_type x) + 1))) s) ;;;
  id <-- gets (fun s => s_fun_id s (var_type x)) ;;
  put_var p (set_cbs (cbs_assign id cb (m_cbs x)) x) ;;;
  mreturn id.
Definition ConfigVar_delListener (p : nat) (key : Z) : M Config unit :=
  x <-- var p ;; put_var p (set_cbs (filter (fun i => i.1 <> key) (m_cbs x)) x).
Definition ConfigVar_getListener (p : nat) (key : Z) : M Config (option on_change_cb) :=
  x <-- var p ;; mreturn (assoc key (m_cbs x)).
Definition ConfigVar_clearListener (p : nat) : M Config unit :=
  x <-- var p ;; put_var p (set_cbs [] x).

(** ** [Config] *)

(** [std::dynamic_pointer_cast<ConfigVar<T>>] *)
Definition dynamic_pointer_cast (t : cty) (p : nat) : M Config (option nat) :=
  x <-- var p ;; mreturn (if decide (var_type x = t) then Some p else None).

(** [Lookup<T>(name, default_value, description)] *)
Definition Config_Lookup (t : cty) (name : list Z) (default_value : value) (description : list Z)
    : M Config (option nat) :=
  it <-- gets (fun s => assoc name (datas s)) ;;
  match it with
  | Some p =>
      tmp <-- dynamic_pointer_cast t p ;;
      match tmp with
      | Some p => log_record (LExists name) ;;; mreturn (Some p)
      | None =>
          x <-- var p ;;
          s <-- ConfigVar_toString p ;;
          log_record (LTypeMismatch name (var_type x) s) ;;; mreturn None
      end
  | None =>
      if negb (valid_name name) then
        log_record (LInvalidLookup name) ;;; throw invalid_argument
      else
        p <-- gets (fun s => length (heap s)) ;;
        modify (fun s => set_heap (heap s ++ [new_ConfigVar t name default_value description]) s) ;;;
        modify (fun s => set_datas (umap_insert name p (datas s)) s) ;;;
        mreturn (Some p)
  end.

(** [Lookup<T>(name)] *)
Definition Config_Lookup_name (t : cty) (name : list Z) : M Config (option nat) :=
  it <-- gets (fun s => assoc name (datas s)) ;;
  match it with
  | None => mreturn None
  | Some p => dynamic_pointer_cast t p
  end.

Definition Config_LookupBase (name : list Z) : M Config (option nat) :=
  gets (fun s => assoc name (datas s)).

(** A call of yaml-cpp *)
Definition yaml_call {A} (o : option A) : M Config A := lift (yaml o).

(** [prefix.empty() ? key : prefix + "." + key] *)
Definition join_name (prefix key : list Z) : list Z :=
  if bool_decide (prefix = []) then key else prefix ++ text "." ++ key.

Fixpoint ListAllMember (fuel : nat) (prefix : list Z) (node : Node)
    (output : list (list Z * Node)) : M Config (list (list Z * Node)) :=
  match fuel with
  | O => nofuel
  | S fuel =>
      if negb (valid_name prefix) then
        n <-- yaml_call (emit node) ;;
        log_record (LInvalidName prefix n) ;;; mreturn output
      else
        if IsMap node then
          fold_each (fun output it =>
              key <-- yaml_call (Scalar it.1) ;;
              ListAllMember fuel (join_name prefix key) it.2 output)
            (entries node) (output ++ [(prefix, node)])
        else mreturn (output ++ [(prefix, node)])
  end.

(** The body of the loop of [LoadFromYaml] *)
Definition load_member (i : list Z * Node) : M Config unit :=
  if bool_decide (i.1 = []) then mreturn tt else
  let key := map tolower i.1 in
  v <-- Config_LookupBase key ;;
  match v with
  | None => mreturn tt
  | Some p =>
      if IsScalar i.2 then
        s <-- yaml_call (Scalar i.2) ;; ConfigVar_fromString p s ;;; mreturn tt
      else
        s <-- yaml_call (emit i.2) ;; ConfigVar_fromString p s ;;; mreturn tt
  end.
Definition Config_LoadFromYaml (root : Node) : M Config unit :=
  all_nodes <-- ListAllMember (S (height root)) [] root [] ;;
  for_each load_member all_nodes.

(** [Visit(cb)]: the callback on every pointer of the registry.  The loop walks
    the registry itself: a variable that the callback registers may rehash it,
    which leaves the iterator behind, and counts as undefined. *)
Definition visit_one (cb : nat -> M Config unit) (it : list Z * nat) : M Config unit :=
  n <-- gets (fun s => length (datas s)) ;;
  cb it.2 ;;;
  n' <-- gets (fun s => length (datas s)) ;;
  if (n' =? n)%nat then mreturn tt else ub.
Definition Config_Visit (cb : nat -> M Config unit) : M Config unit :=
  m <-- gets datas ;; for_each (visit_one cb) m.
End config.
