(* ===== verification/ConfigFacts.v ===== *)
(** * Facts about configuration variables

    The registry stays well typed under every operation and an operation on
    valid pointers fails only if a callback of [Visit] registers a variable; what the lookups, the setters and the listeners do; and
    which variables a document changes. *)
From S2P Require Import Prelude.
From S2P Require Import StdSet.
From S2P Require Import Text.
From S2P Require Import Yaml.
From S2P Require Import LexicalCast.
From S2P Require Import LexicalCastFacts.
From S2P Require Import Config.

Section config_facts.
Context `{Y : Yaml, L : Lexical, HO : !HashOrder, CB : !Listeners, LL : !LexicalLaws L, YL : !YamlLaws Y}.
Implicit Types (s : Config) (p : nat) (t : cty) (v : value) (name : list Z).

(** ** Names *)

Lemma valid_name_elem name : valid_name name = true <-> Forall (fun c => c ∈ name_chars) name.
Proof.
  unfold valid_name. rewrite forallb_forall, Forall_forall.
  assert (Hc : forall c, existsb (Z.eqb c) name_chars = true <-> c ∈ name_chars).
  { intros c. rewrite existsb_exists. setoid_rewrite Z.eqb_eq. setoid_rewrite <- list_elem_of_In.
    naive_solver. }
  setoid_rewrite Hc. by setoid_rewrite list_elem_of_In.
Qed.

Lemma name_chars_lower c : c ∈ name_chars -> tolower c = c.
Proof.
  intros H. assert (Forall (fun c => tolower c = c) name_chars) as Hall
    by (apply (Forall_forall _ _); intros x Hx; by apply (bool_decide_unpack (tolower x = x)); revert x Hx;
        apply Forall_forall; repeat constructor).
  rewrite Forall_forall in Hall. by apply Hall.
Qed.

(** A valid name has no upper-case letter, so lowering it changes nothing. *)
Lemma lower_valid name : valid_name name = true -> map tolower name = name.
Proof.
  rewrite valid_name_elem. induction 1 as [|c l Hc Hl IH]; cbn; [done|].
  by rewrite name_chars_lower, IH.
Qed.

(** The comments allow the digits 0 to 9; the character set ends in 8. *)
Lemma name_with_nine name : valid_name (name ++ text "9") = false.
Proof. unfold valid_name. rewrite forallb_app. apply andb_false_r. Qed.

(** ** Well-typed configurations *)

Record var_ok (x : ConfigVar) : Prop := {
  var_wf : well_formed (var_type x) = true;
  var_typed : has_type (var_type x) (m_val x);
  var_cbs : StronglySorted Z.lt (m_cbs x).*1
}.

(** Every registered name is valid and is the name of the variable it is bound
    to; no two names share a variable; every variable holds a value of its type. *)
Record config_ok s : Prop := {
  ok_names : NoDup (datas s).*1;
  ok_pointers : NoDup (datas s).*2;
  ok_entries name p : (name, p) ∈ datas s ->
    exists x, heap s !! p = Some x /\ m_name x = name /\ valid_name name = true;
  ok_vars : Forall var_ok (heap s)
}.

(** Variables keep their name, description and type, entries their variable. *)
Record extends s s' : Prop := {
  ext_heap p x : heap s !! p = Some x ->
    exists x', heap s' !! p = Some x' /\ m_name x' = m_name x /\
      m_description x' = m_description x /\ var_type x' = var_type x;
  ext_datas e : e ∈ datas s -> e ∈ datas s'
}.

#[export] Instance extends_preorder : PreOrder extends.
Proof.
  split.
  - intros s. split; [|done]. intros p x Hx. by exists x.
  - intros s1 s2 s3 [H1 D1] [H2 D2]. split; [|auto]. intros p x Hx.
    destruct (H1 p x Hx) as (x' & Hx' & <- & <- & <-). destruct (H2 p x' Hx') as (y & Hy & <- & <- & <-).
    by exists y.
Qed.

(** The outcome of an operation from [s]: it ends, well typed, and [Q] holds of a
    normal return. *)
Definition safe {A} s (r : res Config A) (Q : A -> Config -> Prop) : Prop :=
  match r with
  | Ok a s' => config_ok s' /\ extends s s' /\ Q a s'
  | Throw _ s' => config_ok s' /\ extends s s'
  | _ => False
  end.

Lemma safe_bind {A B} s (m : M Config A) (k : A -> M Config B) Q R :
  safe s (m s) Q ->
  (forall a s', config_ok s' -> extends s s' -> Q a s' -> safe s' (k a s') R) ->
  safe s (bind m k s) R.
Proof.
  unfold safe, bind. destruct (m s) as [a s'|e s'| | | |]; intros H Hk; try done.
  destruct H as (Hok & Hext & HQ). specialize (Hk a s' Hok Hext HQ).
  destruct (k a s'); intuition (etrans; eauto).
Qed.

Lemma safe_weaken {A} s (r : res Config A) (Q R : A -> Config -> Prop) :
  (forall a s', Q a s' -> R a s') -> safe s r Q -> safe s r R.
Proof. unfold safe. destruct r; naive_solver. Qed.

Lemma safe_return {A} s (a : A) (Q : A -> Config -> Prop) : config_ok s -> Q a s -> safe s (mreturn a s) Q.
Proof. by intros. Qed.

Lemma safe_gets {A} s (f : Config -> A) (Q : A -> Config -> Prop) :
  config_ok s -> Q (f s) s -> safe s (gets f s) Q.
Proof. by intros. Qed.

Lemma safe_lift {A} s (r : exn + A) (Q : A -> Config -> Prop) :
  config_ok s -> (forall a, r = inr a -> Q a s) -> safe s (lift r s) Q.
Proof. intros Hs HQ. unfold safe. destruct r as [e|a]; cbn; [done|]. split_and!; auto. reflexivity. Qed.

Lemma safe_try_std {A} s (m : M Config A) (h : exn -> M Config A) Q :
  safe s (m s) Q -> (forall e s', config_ok s' -> extends s s' -> safe s' (h e s') Q) ->
  safe s (try_std m h s) Q.
Proof.
  unfold safe, try_std. destruct (m s) as [a s'|e s'| | | |]; try done. intros [Hok Hext] Hh.
  destruct e; try done;
    match goal with |- context[h ?e _] => specialize (Hh e s' Hok Hext); destruct (h e s') end;
    intuition (etrans; eauto).
Qed.

Lemma safe_for_each {A} (I : A -> Config -> Prop) (body : A -> M Config unit) l s :
  config_ok s -> Forall (fun a => I a s) l ->
  (forall a s s', I a s -> extends s s' -> I a s') ->
  (forall a s, config_ok s -> I a s -> safe s (body a s) (fun _ _ => True)) ->
  safe s (for_each body l s) (fun _ _ => True).
Proof.
  intros Hs Hl Hmono Hb. revert s Hs Hl. induction l as [|x l IH]; intros s Hs Hl; [done|].
  inversion Hl; subst. cbn. eapply safe_bind; [by apply Hb|].
  intros _ s' Hs' Hext _. apply IH; [done|]. eapply Forall_impl; [done|]. cbn. eauto.
Qed.

Lemma safe_var s p : config_ok s -> (p < length (heap s))%nat ->
  exists x, var p s = Ok x s /\ heap s !! p = Some x /\ var_ok x.
Proof.
  intros Hs Hp. destruct (lookup_lt_is_Some_2 _ _ Hp) as [x Hx]. exists x.
  unfold var, deref. rewrite Hx. split_and!; [done..|].
  pose proof (ok_vars s Hs) as Hv. rewrite Forall_lookup in Hv. eauto.
Qed.

(** Changes that leave heap and registry alone. *)
Lemma same_vars s s' :
  heap s' = heap s -> datas s' = datas s -> config_ok s -> config_ok s' /\ extends s s'.
Proof.
  intros Hh Hd [H1 H2 H3 H4]. split; [split|split].
  all: rewrite ?Hh, ?Hd; try done. intros p x Hx. by exists x.
Qed.

Lemma safe_log s r : config_ok s -> safe s (log_record r s) (fun _ s' => heap s' = heap s /\ datas s' = datas s).
Proof.
  intros Hs. unfold safe. cbn.
  match goal with |- config_ok ?s' /\ _ => destruct (same_vars s s') as [H1 H2]; [done..|] end.
  by split_and!.
Qed.

(** Replacing the object behind a pointer by one of the same name and type. *)
Lemma put_var_ok s p x x' :
  config_ok s -> heap s !! p = Some x -> var_ok x' -> m_name x' = m_name x ->
  m_description x' = m_description x -> var_type x' = var_type x ->
  config_ok (set_heap (<[p := x']> (heap s)) s) /\ extends s (set_heap (<[p := x']> (heap s)) s).
Proof.
  intros Hs Hx Hok Hn Hd Ht.
  assert (Hl : forall q y, heap s !! q = Some y -> exists y', <[p := x']> (heap s) !! q = Some y' /\
    m_name y' = m_name y /\ m_description y' = m_description y /\ var_type y' = var_type y).
  { intros q y Hy. destruct (decide (q = p)) as [->|Hq].
    - exists x'. rewrite list_lookup_insert_eq by (by eapply lookup_lt_Some). naive_solver.
    - exists y. by rewrite list_lookup_insert_ne. }
  destruct Hs as [H1 H2 H3 H4]. split; [split|split]; cbn; try done.
  - intros name q Hin. destruct (H3 name q Hin) as (y & Hy & <- & Hv).
    destruct (Hl q y Hy) as (y' & ? & ? & _). naive_solver.
  - by apply Forall_insert.
Qed.

Lemma safe_put_var s p x x' :
  config_ok s -> heap s !! p = Some x -> var_ok x' -> m_name x' = m_name x ->
  m_description x' = m_description x -> var_type x' = var_type x ->
  safe s (put_var p x' s) (fun _ s' => s' = set_heap (<[p := x']> (heap s)) s).
Proof.
  intros. unfold safe. cbn. destruct (put_var_ok s p x x') as [? ?]; [done..|]. by split_and!.
Qed.

(** ** [ConfigVar] *)

Lemma safe_toString s p :
  config_ok s -> (p < length (heap s))%nat -> safe s (ConfigVar_toString p s) (fun _ _ => True).
Proof.
  intros Hs Hp. destruct (safe_var s p Hs Hp) as (x & Hv & Hx & Hok). unfold ConfigVar_toString.
  mrun Hv. apply safe_try_std; [by apply safe_lift|]. intros e s' Hs' _.
  eapply safe_bind; [by apply safe_log|]. intros _ s'' Hs'' _ _. by apply safe_return.
Qed.

(** Calling the listeners of a change from [old] to [v] in turn, until one throws. *)
Fixpoint notify (old v : value) (cbs : list (Z * on_change_cb)) (w : World) : World * option exn :=
  match cbs with
  | [] => (w, None)
  | i :: cbs =>
      let (w, e) := call i.2 old v w in
      match e with None => notify old v cbs w | Some e => (w, Some e) end
  end.

Lemma set_world_twice s w w' : set_world w' (set_world w s) = set_world w' s.
Proof. done. Qed.

Lemma notify_spec p x v cbs s :
  heap s !! p = Some x ->
  for_each (fun i => call_listener p v i.2) cbs s =
    let (w, e) := notify (m_val x) v cbs (world s) in
    match e with None => Ok tt (set_world w s) | Some e => Throw e (set_world w s) end.
Proof.
  revert s. induction cbs as [|[k cb] cbs IH]; intros s Hx; cbn [for_each notify].
  - by destruct s.
  - unfold bind at 1. unfold call_listener at 1, bind, var. rewrite Hx. cbn.
    destruct (call cb (m_val x) v (world s)) as [w [e|]]; [done|].
    rewrite (IH (set_world w s)) by done. cbn [world set_world].
    destruct (notify _ _ cbs w) as [w' [e|]]; by rewrite ?set_world_twice.
Qed.

(** What assigning a value does. *)
Lemma setValue_exact s p x v :
  heap s !! p = Some x ->
  ConfigVar_setValue p v s =
    if value_eqb (var_type x) v (m_val x) then Ok tt s else
    let (w, e) := notify (m_val x) v (m_cbs x) (world s) in
    match e with
    | None => Ok tt (set_world w (set_heap (<[p := set_val v x]> (heap s)) s))
    | Some e => Throw e (set_world w s)
    end.
Proof.
  intros Hx. unfold ConfigVar_setValue, bind at 1, var. rewrite Hx. cbn.
  destruct (value_eqb _ _ _); [done|]. unfold bind. rewrite (notify_spec p x) by done.
  by destruct (notify _ _ _ _) as [w [e|]].
Qed.

Lemma safe_setValue s p x v :
  config_ok s -> heap s !! p = Some x -> has_type (var_type x) v ->
  safe s (ConfigVar_setValue p v s) (fun _ _ => True).
Proof.
  intros Hs Hx Hv. rewrite (setValue_exact s p x) by done.
  pose proof (ok_vars s Hs) as Hall. rewrite Forall_lookup in Hall. destruct (Hall p x Hx) as [Hwf Ht Hc].
  destruct (value_eqb _ _ _); [by apply safe_return|].
  destruct (notify _ _ _ _) as [w [e|]]; unfold safe.
  - by apply same_vars.
  - destruct (put_var_ok s p x (set_val v x)) as [H1 H2]; try done.
    destruct (same_vars (set_heap (<[p := set_val v x]> (heap s)) s)
      (set_world w (set_heap (<[p := set_val v x]> (heap s)) s))) as [H3 H4]; try done.
    split_and!; [done|by etrans|done].
Qed.

Lemma safe_fromString s p val :
  config_ok s -> (p < length (heap s))%nat -> safe s (ConfigVar_fromString p val s) (fun b _ => b = false).
Proof.
  intros Hs Hp. destruct (safe_var s p Hs Hp) as (x & Hv & Hx & Hok). unfold ConfigVar_fromString.
  mrun Hv. eapply (safe_bind _ _ _ (fun _ _ => True)); [|by intros; apply safe_return].
  apply safe_try_std.
  - eapply safe_bind; [by eapply (safe_lift _ _ (fun v s' => s' = s /\ has_type (var_type x) v));
      [done|]; intros v Hfr; split; [done|]; eapply FromStr_typed; [apply Hok|done]|].
    intros v s' _ _ [-> Ht]. by eapply safe_setValue.
  - intros e s' Hs' _. eapply safe_weaken; [|by apply safe_log]. done.
Qed.

Lemma cbs_assign_in k cb l i : i ∈ (cbs_assign k cb l).*1 <-> i = k \/ i ∈ l.*1.
Proof.
  induction l as [|[k' c] l IH]; cbn; [set_solver|]. destruct (Z.eqb_spec k' k) as [->|Hk]; [set_solver|].
  destruct (k' <? k); cbn; set_solver.
Qed.

Lemma cbs_assign_sorted k cb l :
  StronglySorted Z.lt l.*1 -> StronglySorted Z.lt (cbs_assign k cb l).*1.
Proof.
  induction l as [|[k' c] l IH]; cbn; [by repeat constructor|]. intros H.
  inversion H as [|? ? Hl Hf]; subst. destruct (Z.eqb_spec k' k) as [->|Hk]; [by constructor|].
  destruct (Z.ltb_spec k' k); cbn.
  - constructor; [by apply IH|]. rewrite Forall_forall in Hf |- *. intros i.
    rewrite cbs_assign_in. intros [->|Hi]; [lia|auto].
  - constructor; [by constructor|]. constructor; [lia|]. eapply Forall_impl; [done|]. cbn. lia.
Qed.

Lemma assoc_cbs_assign k cb l i :
  StronglySorted Z.lt l.*1 ->
  assoc i (cbs_assign k cb l) = if decide (i = k) then Some cb else assoc i l.
Proof.
  induction l as [|[k' c] l IH]; cbn; intros H; [done|]. inversion H as [|? ? Hl Hf]; subst.
  destruct (Z.eqb_spec k' k) as [->|Hk]; cbn; [by repeat case_decide|].
  destruct (Z.ltb_spec k' k); cbn; [rewrite IH by done|]; repeat case_decide; subst; done.
Qed.

Lemma safe_set_cbs s p x cbs (Q : unit -> Config -> Prop) :
  config_ok s -> heap s !! p = Some x -> StronglySorted Z.lt cbs.*1 ->
  Q tt (set_heap (<[p := set_cbs cbs x]> (heap s)) s) ->
  safe s (put_var p (set_cbs cbs x) s) Q.
Proof.
  intros Hs Hx Hc HQ. pose proof (ok_vars s Hs) as Hall. rewrite Forall_lookup in Hall.
  destruct (Hall p x Hx) as [Hwf Ht _].
  eapply safe_weaken; [|by eapply (safe_put_var s p x)]. by intros [] s' ->.
Qed.

Lemma fun_upd_eq f t z : fun_upd f t z t = z.
Proof. unfold fun_upd. by rewrite decide_True. Qed.

(** [addListener] gives the next identity of the variable's type. *)
Lemma addListener_exact s p x cb :
  heap s !! p = Some x ->
  let id := u64 (s_fun_id s (var_type x) + 1) in
  ConfigVar_addListener p cb s =
    Ok id (set_heap (<[p := set_cbs (cbs_assign id cb (m_cbs x)) x]> (heap s))
             (set_fun_id (fun_upd (s_fun_id s) (var_type x) id) s)).
Proof.
  intros Hx id. unfold ConfigVar_addListener, bind at 1, var. rewrite Hx. cbn. by rewrite fun_upd_eq.
Qed.

Lemma safe_addListener s p cb :
  config_ok s -> (p < length (heap s))%nat -> safe s (ConfigVar_addListener p cb s) (fun _ _ => True).
Proof.
  intros Hs Hp. destruct (safe_var s p Hs Hp) as (x & _ & Hx & Hok).
  rewrite (addListener_exact s p x) by done. set (id := u64 _). set (f := fun_upd _ _ _).
  destruct (same_vars s (set_fun_id f s)) as [H1 H2]; [done..|].
  pose proof (safe_set_cbs (set_fun_id f s) p x (cbs_assign id cb (m_cbs x)) (fun _ _ => True) H1 Hx
    (cbs_assign_sorted id cb _ (var_cbs x Hok)) I) as (H3 & H4 & _).
  unfold safe. split_and!; [exact H3|etrans; [exact H2|exact H4]|done].
Qed.

Lemma filter_sorted (P : Z * on_change_cb -> Prop) `{HP : forall i, Decision (P i)} l :
  StronglySorted Z.lt l.*1 -> StronglySorted Z.lt (filter P l).*1.
Proof.
  induction l as [|i l IH]; [done|]. intros H. inversion H as [|? ? Hl Hf]; subst.
  rewrite filter_cons. case_decide; [|auto]. rewrite fmap_cons. constructor; [auto|].
  rewrite Forall_forall in Hf |- *. intros k (j & -> & Hj)%list_elem_of_fmap. apply Hf.
  apply list_elem_of_filter in Hj as [_ Hj]. by apply list_elem_of_fmap_2.
Qed.

(** ** The registry *)

Lemma var_run s p x : heap s !! p = Some x -> var p s = Ok x s.
Proof. intros Hx. unfold var, deref. by rewrite Hx. Qed.

Lemma ok_assoc s name p :
  config_ok s -> assoc name (datas s) = Some p ->
  exists x, heap s !! p = Some x /\ m_name x = name /\ valid_name name = true.
Proof.
  intros Hs Ha. apply (ok_entries s Hs). apply assoc_Some; [apply Hs|done].
Qed.

Lemma cast_run s t p x :
  heap s !! p = Some x ->
  dynamic_pointer_cast t p s = Ok (if decide (var_type x = t) then Some p else None) s.
Proof. intros Hx. unfold dynamic_pointer_cast. by mrun (var_run s p x Hx). Qed.

(** The conversions only throw standard exceptions. *)
Lemma andThen_std {A B} (r : exn + A) (k : A -> exn + B) e :
  andThen r k = inl e -> r = inl e \/ exists a, r = inr a /\ k a = inl e.
Proof. destruct r; cbn; naive_solver. Qed.

Lemma yaml_std {A} (o : option A) e : yaml o = inl e -> e = runtime_error.
Proof. destruct o; cbn; naive_solver. Qed.

Lemma dump_elements_std to l n e :
  (forall v, to v <> inl foreign_exception) -> dump_elements to l n = inl e -> e <> foreign_exception.
Proof.
  intros Hto. revert n. induction l as [|x l IH]; intros n; cbn; [done|].
  intros [H|(str & _ & [H|(m & _ & H)]%andThen_std)]%andThen_std; eauto.
  - intros ->. by destruct (Hto x).
  - apply yaml_std in H. congruence.
Qed.

Lemma dump_entries_std to l n e :
  (forall v, to v <> inl foreign_exception) -> dump_entries to l n = inl e -> e <> foreign_exception.
Proof.
  intros Hto. revert n. induction l as [|[k x] l IH]; intros n; cbn; [done|].
  intros [H|(str & _ & [H|(m & _ & H)]%andThen_std)]%andThen_std; eauto.
  - intros ->. by destruct (Hto x).
  - apply yaml_std in H. congruence.
Qed.

Lemma ToStr_std t v : ToStr t v <> inl foreign_exception.
Proof.
  assert (Hs : forall to l n, (forall v, to v <> inl foreign_exception) ->
    andThen (dump_elements to l n) (fun node => yaml (emit node)) <> inl foreign_exception).
  { intros to l n Hto [H|(m & _ & H)]%andThen_std; [by eapply dump_elements_std|].
    apply yaml_std in H. congruence. }
  assert (Hm : forall to l n, (forall v, to v <> inl foreign_exception) ->
    andThen (dump_entries to l n) (fun node => yaml (emit node)) <> inl foreign_exception).
  { intros to l n Hto [H|(m & _ & H)]%andThen_std; [by eapply dump_entries_std|].
    apply yaml_std in H. congruence. }
  revert v. induction t as [b|t IH|t IH|t IH|t IH|t IH|t IH]; intros [a|l|l]; cbn; try done;
    try by first [apply Hs|apply Hm].
  by destruct (write_base a).
Qed.

(** [toString] always returns, and changes no variable. *)
Lemma toString_returns s p x :
  heap s !! p = Some x ->
  exists str s', ConfigVar_toString p s = Ok str s' /\ heap s' = heap s /\ datas s' = datas s.
Proof.
  intros Hx. unfold ConfigVar_toString. mrun (var_run s p x Hx). unfold try_std.
  pose proof (ToStr_std (var_type x) (m_val x)).
  destruct (ToStr _ _) as [[]|str] eqn:E; cbn; eauto 10. done.
Qed.

(** Registering a new variable. *)
Definition registered s t name d desc : Config :=
  set_datas (umap_insert name (length (heap s)) (datas s))
    (set_heap (heap s ++ [new_ConfigVar t name d desc]) s).

Lemma umap_insert_assoc {A} k (x : A) l i :
  NoDup l.*1 -> k ∉ l.*1 -> assoc i (umap_insert k x l) = if decide (i = k) then Some x else assoc i l.
Proof.
  intros Hnd Hk. assert (assoc k l = None) as Hn by (by apply assoc_None).
  pose proof (umap_insert_nodup k x l Hnd) as Hnd'.
  destruct (umap_insert_perm k x l) as [Hc|[_ Hp]].
  { unfold umap_insert in Hc. rewrite Hn in Hc.
    apply (f_equal length) in Hc. rewrite (insert_at_perm _ _ l) in Hc. cbn in Hc. lia. }
  case_decide as Hi; [subst|].
  - apply assoc_Some; [done|]. rewrite Hp. left.
  - destruct (assoc i l) as [y|] eqn:E.
    + apply assoc_Some in E; [|done]. apply assoc_Some; [done|]. rewrite Hp. by right.
    + apply assoc_None in E. apply assoc_None. rewrite Hp. cbn. set_solver.
Qed.

Lemma registered_ok s t name d desc :
  config_ok s -> assoc name (datas s) = None -> valid_name name = true ->
  well_formed t = true -> has_type t d ->
  config_ok (registered s t name d desc) /\ extends s (registered s t name d desc).
Proof.
  intros Hs Hn Hv Hwf Ht. pose proof Hn as Hn'. apply assoc_None in Hn'.
  assert (Hp : umap_insert name (length (heap s)) (datas s) ≡ₚ (name, length (heap s)) :: datas s).
  { unfold umap_insert. rewrite Hn. apply insert_at_perm. }
  assert (Hlen : forall n q, (n, q) ∈ datas s -> (q < length (heap s))%nat).
  { intros n q Hin. destruct (ok_entries s Hs n q Hin) as (x & Hx & _). by eapply lookup_lt_Some. }
  assert (Hold : forall q x, heap s !! q = Some x ->
    (heap s ++ [new_ConfigVar t name d desc]) !! q = Some x).
  { intros q x Hx. rewrite lookup_app_l by (by eapply lookup_lt_Some). done. }
  split; [split|split]; cbn.
  - rewrite Hp. cbn. constructor; [done|apply Hs].
  - rewrite Hp. cbn. constructor; [|apply Hs]. intros ([n q] & Hq & Hin)%list_elem_of_fmap.
    apply Hlen in Hin. cbn in Hq. lia.
  - intros n q. rewrite Hp, elem_of_cons. intros [[= -> ->]|Hin].
    + exists (new_ConfigVar t name d desc). split_and!; [|by apply lower_valid|done].
      by rewrite lookup_app_r, Nat.sub_diag by done.
    + destruct (ok_entries s Hs n q Hin) as (x & Hx & ?). exists x. split; [by apply Hold|done].
  - apply Forall_app. split; [apply Hs|]. repeat constructor; done.
  - intros q x Hx. exists x. split; [by apply Hold|done].
  - intros e He. rewrite Hp. by right.
Qed.

(** The four outcomes of [Lookup]. *)
Lemma Lookup_cases s t name d desc :
  config_ok s ->
  match assoc name (datas s) with
  | Some p => exists x s', heap s !! p = Some x /\ heap s' = heap s /\ datas s' = datas s /\
      Config_Lookup t name d desc s = Ok (if decide (var_type x = t) then Some p else None) s'
  | None =>
      if valid_name name then
        Config_Lookup t name d desc s = Ok (Some (length (heap s))) (registered s t name d desc)
      else exists s', heap s' = heap s /\ datas s' = datas s /\
        Config_Lookup t name d desc s = Throw invalid_argument s'
  end.
Proof.
  intros Hs. unfold Config_Lookup. cbn.
  destruct (assoc name (datas s)) as [p|] eqn:Ha.
  - destruct (ok_assoc s name p Hs Ha) as (x & Hx & _). exists x.
    mrun (cast_run s t p x Hx). destruct (decide (var_type x = t)) as [Ht|Ht];
      [eexists; split_and!; [..|reflexivity]; done|].
    mrun (var_run s p x Hx).
    destruct (toString_returns s p x Hx) as (str & s' & Hstr & Hh & Hd). mrun Hstr.
    eexists; split_and!; [..|reflexivity]; done.
  - destruct (valid_name name); cbn; [done|]. eexists; split_and!; [..|reflexivity]; done.
Qed.

Lemma safe_Lookup s t name d desc :
  config_ok s -> well_formed t = true -> has_type t d ->
  safe s (Config_Lookup t name d desc s) (fun r s' =>
    match r with
    | Some p => exists x, heap s' !! p = Some x /\ var_type x = t /\ m_name x = name
    | None => True
    end).
Proof.
  intros Hs Hwf Ht. pose proof (Lookup_cases s t name d desc Hs) as H.
  destruct (assoc name (datas s)) as [p|] eqn:Ha.
  - destruct H as (x & s' & Hx & Hh & Hd & ->). destruct (same_vars s s' Hh Hd Hs) as [H1 H2].
    unfold safe. split_and!; [done..|]. case_decide as E; [|done].
    destruct (ok_assoc s name p Hs Ha) as (y & Hy & Hn & _). simplify_eq.
    exists x. by rewrite Hh.
  - destruct (valid_name name) eqn:Hv.
    + rewrite H. destruct (registered_ok s t name d desc) as [H1 H2]; [done..|].
      unfold safe. split_and!; [done..|]. exists (new_ConfigVar t name d desc). cbn.
      rewrite lookup_app_r, Nat.sub_diag by done. split_and!; [done..|by apply lower_valid].
    + destruct H as (s' & Hh & Hd & ->). by apply same_vars.
Qed.

Lemma safe_Lookup_name s t name :
  config_ok s ->
  safe s (Config_Lookup_name t name s) (fun r s' => s' = s /\
    match r with
    | Some p => exists x, heap s' !! p = Some x /\ var_type x = t /\ m_name x = name
    | None => True
    end).
Proof.
  intros Hs. unfold Config_Lookup_name, safe. cbn.
  destruct (assoc name (datas s)) as [p|] eqn:Ha; [|cbn; by split_and!].
  destruct (ok_assoc s name p Hs Ha) as (x & Hx & Hn & _). rewrite (cast_run s t p x Hx).
  split_and!; [done..|]. case_decide; [|done]. by exists x.
Qed.

(** ** Documents *)

(** The members of a document: what is reached from [node], called [prefix],
    through maps, by valid names. *)
Inductive member : list Z -> Node -> list Z -> Node -> Prop :=
| member_here prefix node : valid_name prefix = true -> member prefix node prefix node
| member_entry prefix node k child key name x :
    valid_name prefix = true -> IsMap node = true -> (k, child) ∈ entries node ->
    Scalar k = Some key -> member (join_name prefix key) child name x ->
    member prefix node name x.

(** Documents that can be printed and whose keys are scalars, at every depth. *)
Inductive readable : Node -> Prop :=
| readable_node node :
    is_Some (emit node) ->
    (IsMap node = true -> forall k child, (k, child) ∈ entries node ->
      is_Some (Scalar k) /\ readable child) ->
    readable node.

Definition only_logs s s' : Prop :=
  heap s' = heap s /\ datas s' = datas s /\ world s' = world s /\ s_fun_id s' = s_fun_id s /\
  s_file2modifytime s' = s_file2modifytime s.
#[export] Instance only_logs_preorder : PreOrder only_logs.
Proof.
  split; [done|]. intros s1 s2 s3 (?&?&?&?&?) (?&?&?&?&?). repeat split; congruence.
Qed.
Lemma only_logs_log s r : exists s', log_record r s = Ok tt s' /\ only_logs s s'.
Proof. by eexists. Qed.

(** [ListAllMember] lists exactly the members, and ends. *)
Lemma ListAllMember_spec fuel prefix node out s :
  readable node -> (height node < fuel)%nat ->
  exists l s', ListAllMember fuel prefix node out s = Ok (out ++ l) s' /\ only_logs s s' /\
    forall name x, (name, x) ∈ l <-> member prefix node name x.
Proof.
  revert prefix node out s. induction fuel as [|fuel IH]; intros prefix node out s Hr Hf; [lia|].
  inversion Hr as [? [str Hstr] Hmap]; subst. cbn [ListAllMember].
  destruct (valid_name prefix) eqn:Hv; cbn [negb].
  2: { unfold yaml_call. rewrite Hstr. cbn. eexists [], _. rewrite app_nil_r. split_and!; [done|done|].
       intros name x. split; [set_solver|]. inversion 1; congruence. }
  destruct (IsMap node) eqn:Hm.
  2: { eexists [_], _. split_and!; [done|done|]. intros name x. rewrite list_elem_of_singleton.
       split; [intros [= -> ->]; by constructor|]. inversion 1; congruence. }
  specialize (Hmap eq_refl).
  enough (Hloop : forall es out s, (forall k c, (k, c) ∈ es -> (k, c) ∈ entries node) ->
    exists l s', fold_each (fun output it => key <-- yaml_call (Scalar it.1) ;;
        ListAllMember fuel (join_name prefix key) it.2 output) es out s = Ok (out ++ l) s' /\
      only_logs s s' /\
      forall name x, (name, x) ∈ l <-> exists k c key, (k, c) ∈ es /\ Scalar k = Some key /\
        member (join_name prefix key) c name x).
  { destruct (Hloop (entries node) (out ++ [(prefix, node)]) s) as (l & s' & Hl & Hlog & Hmem); [done|].
    exists ((prefix, node) :: l), s'. split_and!; [by rewrite Hl, <- app_assoc|done|].
    intros name x. rewrite elem_of_cons, Hmem. split.
    - intros [[= -> ->]|(k & c & key & Hin & Hk & Hmb)]; [by constructor|]. by eapply member_entry.
    - inversion 1; subst; [by left|]. right. eauto 10. }
  clear out s. induction es as [|[k c] es IHes]; intros out s Hin.
  { exists [], s. rewrite app_nil_r. split_and!; [done|done|]. intros name x.
    split; [set_solver|]. intros (? & ? & ? & ? & _). set_solver. }
  destruct (Hmap k c) as [[key Hkey] Hrc]; [apply Hin; left|].
  assert (height c < fuel)%nat as Hh by (pose proof (height_entries node k c (Hin k c (list_elem_of_here _ _))); lia).
  destruct (IH (join_name prefix key) c out s Hrc Hh) as (l1 & s1 & H1 & Hlog1 & Hm1).
  destruct (IHes (out ++ l1) s1) as (l2 & s2 & H2 & Hlog2 & Hm2); [intros; apply Hin; by right|].
  exists (l1 ++ l2), s2. rewrite app_assoc. split_and!; [|by etrans|].
  - cbn [fold_each fst snd]. unfold yaml_call at 1. rewrite Hkey.
    unfold bind at 1. cbn [yaml lift]. unfold bind at 1, mreturn at 1. rewrite H1. exact H2.
  - intros name x. rewrite elem_of_app, Hm1, Hm2. split.
    + intros [Hmb|(k' & c' & key' & Hin' & ? & ?)]; [exists k, c, key; set_solver|].
      exists k', c', key'. set_solver.
    + intros (k' & c' & key' & [[= -> ->]|Hin']%elem_of_cons & Hk' & Hmb); [left; congruence|right; eauto 10].
Qed.

(** On any document the listing ends, with a result or with an exception. *)
Lemma ListAllMember_ends fuel prefix node out s :
  (height node < fuel)%nat ->
  match ListAllMember fuel prefix node out s with
  | Ok _ s' | Throw _ s' => only_logs s s'
  | _ => False
  end.
Proof.
  revert prefix node out s. induction fuel as [|fuel IH]; intros prefix node out s Hf; [lia|].
  cbn [ListAllMember]. destruct (negb (valid_name prefix)).
  { unfold yaml_call. by destruct (emit node). }
  destruct (IsMap node); [|done]. generalize (out ++ [(prefix, node)]). clear out. intros out.
  assert (Hin : forall k c, (k, c) ∈ entries node -> (height c < fuel)%nat)
    by (intros k c Hin; pose proof (height_entries node k c Hin); lia).
  revert out s Hin. generalize (entries node). intros es.
  induction es as [|[k c] es IHes]; intros out s Hin; [done|]. cbn [fold_each].
  unfold yaml_call. unfold bind at 1. cbn [fst snd]. destruct (Scalar k) as [key|]; [|done]. cbn.
  pose proof (IH (join_name prefix key) c out s (Hin k c (list_elem_of_here _ _))) as Hc.
  unfold bind, mreturn. destruct (ListAllMember fuel _ c out s) as [out' s'|e s'| | | |]; try done.
  specialize (IHes out' s'). destruct (fold_each _ es out' s');
    (etrans; [exact Hc|]) || idtac; apply IHes; intros; eapply Hin; by right.
Qed.

Lemma member_readable prefix node name x : readable node -> member prefix node name x -> readable x.
Proof.
  intros Hr Hm. induction Hm as [|prefix node k child key name x Hv Hmap Hin Hk Hm IH]; [done|].
  apply IH. inversion Hr as [? _ Hall]; subst. by eapply Hall.
Qed.
Lemma member_valid prefix node name x : member prefix node name x -> valid_name name = true.
Proof. by induction 1. Qed.

(** The conversions from text only throw standard exceptions. *)
Lemma load_elements_std from add n i m vec e :
  (forall str, from str <> inl foreign_exception) ->
  load_elements from add n i m vec = inl e -> e <> foreign_exception.
Proof.
  intros Hf. revert i vec. induction m as [|m IH]; intros i vec; cbn; [done|].
  intros [H|(x & _ & H)]%andThen_std; [|eauto].
  apply andThen_std in H as [H|(a & _ & H)]; [apply yaml_std in H; congruence|].
  apply andThen_std in H as [H|(str & _ & H)]; [apply yaml_std in H; congruence|].
  intros ->. by destruct (Hf str).
Qed.
Lemma load_entries_std from add es vec e :
  (forall str, from str <> inl foreign_exception) ->
  load_entries from add es vec = inl e -> e <> foreign_exception.
Proof.
  intros Hf. revert vec. induction es as [|[k n] es IH]; intros vec; cbn; [done|].
  intros [H|(x & _ & [H|(key & _ & H)]%andThen_std)]%andThen_std; [| |eauto].
  - apply andThen_std in H as [H|(str & _ & H)]; [apply yaml_std in H; congruence|].
    intros ->. by destruct (Hf str).
  - apply yaml_std in H. congruence.
Qed.

Lemma FromStr_std t str : FromStr t str <> inl foreign_exception.
Proof.
  revert str. induction t as [b|t IH|t IH|t IH|t IH|t IH|t IH]; intros str; cbn;
    [by destruct (read_base b str)|..];
    intros [H|(n & _ & [H|(u & _ & H)]%andThen_std)]%andThen_std; try done;
    try (apply yaml_std in H; congruence);
    by first [eapply load_elements_std in H|eapply load_entries_std in H].
Qed.

(** ** Loading a document *)

(** What assigning a text to a variable of type [t] that holds [w] leaves in it. *)
Definition assigned t (w : value) (str : list Z) : value :=
  match FromStr t str with
  | inr v => if value_eqb t v w then w else v
  | inl _ => w
  end.

Definition quiet : Prop := forall cb v v' w, (call cb v v' w).2 = None.

Lemma notify_quiet old v cbs w : quiet -> (notify old v cbs w).2 = None.
Proof.
  intros Hq. revert w. induction cbs as [|i cbs IH]; intros w; cbn; [done|].
  pose proof (Hq i.2 old v w) as H. destruct (call i.2 old v w) as [w' [e|]]; [done|]. apply IH.
Qed.

Lemma set_val_same x : set_val (m_val x) x = x.
Proof. by destruct x. Qed.

(** Without exceptions from listeners, [fromString] assigns, and still answers [false]. *)
Lemma fromString_assigns s p x str :
  quiet -> heap s !! p = Some x ->
  exists s', ConfigVar_fromString p str s = Ok false s' /\ datas s' = datas s /\
    heap s' = <[p := set_val (assigned (var_type x) (m_val x) str) x]> (heap s).
Proof.
  intros Hq Hx. unfold ConfigVar_fromString. mrun (var_run s p x Hx). unfold assigned.
  assert (Hsame : heap s = <[p := set_val (m_val x) x]> (heap s))
    by (by rewrite set_val_same, list_insert_id).
  unfold bind at 1, try_std. destruct (FromStr (var_type x) str) as [e|v] eqn:E.
  - cbn. pose proof (FromStr_std (var_type x) str).
    destruct e; try done; eexists; (split_and!; [reflexivity|done|done]).
  - unfold bind at 1. cbn [lift]. unfold mreturn at 1. rewrite (setValue_exact s p x) by done.
    destruct (value_eqb _ _ _); [eexists; split_and!; [reflexivity|done|done]|].
    pose proof (notify_quiet (m_val x) v (m_cbs x) (world s) Hq) as Hn.
    destruct (notify _ _ _ _) as [w [e|]]; [done|]. eexists; split_and!; [reflexivity|done|done].
Qed.

Lemma assigned_typed t w str :
  well_formed t = true -> has_type t w -> has_type t (assigned t w str).
Proof.
  intros Hw Ht. unfold assigned. destruct (FromStr t str) eqn:E; [done|].
  case_match; [done|]. by eapply FromStr_typed.
Qed.

(** Assigning the same text again changes nothing. *)
Lemma assigned_idem t w str :
  well_formed t = true -> has_type t w -> assigned t (assigned t w str) str = assigned t w str.
Proof.
  intros Hw Ht. unfold assigned. destruct (FromStr t str) as [e|v] eqn:E; [done|].
  destruct (value_eqb t v w) eqn:Ew; [by rewrite Ew|].
  rewrite value_eqb_refl; [done|done|by eapply FromStr_typed].
Qed.

(** The text of a node. *)
Definition node_text (n : Node) : option (list Z) := if IsScalar n then Scalar n else emit n.

(** What the members of a list, in turn, leave in the variable [name]. *)
Definition loaded t name (w : value) (l : list (list Z * Node)) : value :=
  fold_left (fun w i =>
    if bool_decide (i.1 = name /\ i.1 <> []) then
      match node_text i.2 with Some str => assigned t w str | None => w end
    else w) l w.

Lemma loaded_cons t name w i l : loaded t name w (i :: l) = loaded t name (loaded t name w [i]) l.
Proof. done. Qed.

Lemma load_member_assigns s i :
  quiet -> config_ok s -> valid_name i.1 = true -> is_Some (node_text i.2) ->
  exists s', load_member i s = Ok tt s' /\ datas s' = datas s /\
    forall name p x, assoc name (datas s) = Some p -> heap s !! p = Some x ->
      heap s' !! p = Some (set_val (loaded (var_type x) name (m_val x) [i]) x).
Proof.
  intros Hq Hs Hv [str Hstr]. destruct i as [key node]. cbn [fst snd] in *.
  unfold load_member. cbn [fst snd]. unfold loaded. cbn [fold_left fst snd]. rewrite Hstr.
  case_bool_decide as Hk.
  { eexists. split_and!; [reflexivity|done|]. intros name p x _ Hx.
    rewrite bool_decide_eq_false_2 by naive_solver. by rewrite set_val_same. }
  rewrite lower_valid by done. unfold Config_LookupBase. unfold bind at 1, gets at 1.
  destruct (assoc key (datas s)) as [p|] eqn:Ha.
  2: { eexists. split_and!; [reflexivity|done|]. intros name q x Hq' Hx.
       rewrite bool_decide_eq_false_2 by (intros [-> _]; congruence). by rewrite set_val_same. }
  destruct (ok_assoc s key p Hs Ha) as (x & Hx & Hn & _).
  destruct (fromString_assigns s p x str Hq Hx) as (s' & Hf & Hd & Hh).
  exists s'. split_and!; [|done|].
  - unfold node_text in Hstr. unfold bind, yaml_call.
    destruct (IsScalar node); rewrite Hstr; cbn [yaml lift mreturn]; unfold mreturn; by rewrite Hf.
  - intros name q y Hq' Hy. rewrite Hh. destruct (decide (key = name)) as [->|Hne].
    + rewrite bool_decide_eq_true_2 by done. simplify_eq.
      by rewrite list_lookup_insert_eq by (by eapply lookup_lt_Some).
    + rewrite bool_decide_eq_false_2 by naive_solver. rewrite set_val_same.
      rewrite list_lookup_insert_ne; [done|]. intros <-. destruct Hne.
      destruct (ok_assoc s name p Hs Hq') as (z & Hz & Hnz & _). congruence.
Qed.

(** Any listing of members. *)
Lemma load_members_assign l s :
  quiet -> config_ok s -> Forall (fun i => valid_name i.1 = true /\ is_Some (node_text i.2)) l ->
  (forall s i, config_ok s -> safe s (load_member i s) (fun _ _ => True)) ->
  exists s', for_each load_member l s = Ok tt s' /\ datas s' = datas s /\
    forall name p x, assoc name (datas s) = Some p -> heap s !! p = Some x ->
      heap s' !! p = Some (set_val (loaded (var_type x) name (m_val x) l) x).
Proof.
  intros Hq Hs Hl Hsafe. revert s Hs. induction Hl as [|i l [Hv Ht] Hl IH]; intros s Hs.
  { exists s. split_and!; [done|done|]. intros name p x _ Hx. cbn. by rewrite set_val_same. }
  destruct (load_member_assigns s i Hq Hs Hv Ht) as (s1 & H1 & Hd1 & Hh1).
  pose proof (Hsafe s i Hs) as Hok. rewrite H1 in Hok. destruct Hok as (Hs1 & _ & _).
  destruct (IH s1 Hs1) as (s2 & H2 & Hd2 & Hh2). exists s2.
  split_and!; [|congruence|].
  - cbn [for_each]. by mrun H1.
  - intros name p x Ha Hx. rewrite loaded_cons.
    rewrite <- Hd1 in Ha. rewrite (Hh2 name p _ Ha (Hh1 name p x ltac:(by rewrite <- Hd1) Hx)).
    done.
Qed.

Lemma safe_load_member s i : config_ok s -> safe s (load_member i s) (fun _ _ => True).
Proof.
  intros Hs. unfold load_member. case_bool_decide; [by apply safe_return|].
  unfold Config_LookupBase, bind at 1, gets at 1.
  destruct (assoc _ (datas s)) as [p|] eqn:Ha; [|by apply safe_return].
  destruct (ok_assoc s _ p Hs Ha) as (x & Hx & _). pose proof (lookup_lt_Some _ _ _ Hx) as Hp.
  destruct (IsScalar i.2); (eapply (safe_bind _ _ _ (fun _ s' => s' = s)); [by apply safe_lift|];
    intros str s' _ _ ->; eapply safe_bind; [by apply safe_fromString|]; intros; by apply safe_return).
Qed.

Lemma safe_LoadFromYaml s root :
  config_ok s -> safe s (Config_LoadFromYaml root s) (fun _ _ => True).
Proof.
  intros Hs. unfold Config_LoadFromYaml.
  assert (height root < S (height root))%nat as Hh by lia.
  pose proof (ListAllMember_ends (S (height root)) [] root [] s Hh) as He.
  eapply (safe_bind _ _ _ (fun _ _ => True)).
  - unfold safe. destruct (ListAllMember _ _ _ _ _) as [l s'|e s'| | | |]; try done;
      destruct He as (H1 & H2 & _); destruct (same_vars s s' H1 H2 Hs); done.
  - intros l s' Hs' _ _. apply (safe_for_each (fun _ _ => True)); try done.
    + by apply Forall_forall.
    + intros. by apply safe_load_member.
Qed.

Lemma readable_text node : readable node -> is_Some (node_text node).
Proof.
  intros Hr. inversion Hr as [? He _]; subst. unfold node_text.
  destruct (IsScalar node) eqn:E; [by apply scalar_text|done].
Qed.

Lemma loaded_none t name w l : Forall (fun i => i.1 <> name) l -> loaded t name w l = w.
Proof.
  intros Hl. revert w. induction Hl as [|i l Hi Hl IH]; intros w; [done|].
  rewrite loaded_cons. unfold loaded at 2. cbn. rewrite bool_decide_eq_false_2 by naive_solver. apply IH.
Qed.

Lemma loaded_unique t name w n str l :
  well_formed t = true -> has_type t w -> name <> [] -> node_text n = Some str ->
  Forall (fun i => i.1 = name -> i.2 = n) l -> (name, n) ∈ l -> loaded t name w l = assigned t w str.
Proof.
  intros Hwf Hty Hne Htext Hl.
  assert (Hstep : forall w i, (i.1 = name -> i.2 = n) ->
    loaded t name w [i] = if decide (i.1 = name) then assigned t w str else w).
  { intros w' [n' y] Hi. unfold loaded. cbn in *. case_decide as E'; subst.
    - rewrite bool_decide_eq_true_2 by done. by rewrite Hi, Htext.
    - by rewrite bool_decide_eq_false_2 by naive_solver. }
  induction Hl as [|i l Hi Hl IH]; intros Hin; [by apply not_elem_of_nil in Hin|].
  rewrite loaded_cons, Hstep by done. case_decide as E.
  - clear IH Hin. induction Hl as [|j l Hj Hl IH]; [done|].
    rewrite loaded_cons, Hstep by done. case_decide; [by rewrite assigned_idem|done].
  - apply elem_of_cons in Hin as [<-|Hin]; [done|]. by apply IH.
Qed.

(** C24 (loading a document): loading a readable document returns when no listener
    throws; a variable whose name no member of the document has keeps its value,
    and one whose name exactly one member has is assigned that member's text: it
    holds the converted value, or its old value when the text cannot be
    converted or converts to an equal value.  Names that are not registered are
    ignored: the registry does not change. *)
Theorem load_from_yaml_spec s root :
  config_ok s -> quiet -> readable root ->
  exists s', Config_LoadFromYaml root s = Ok tt s' /\ config_ok s' /\ datas s' = datas s /\
    forall name p x, assoc name (datas s) = Some p -> heap s !! p = Some x ->
      ((forall n, ~ member [] root name n) -> heap s' !! p = Some x) /\
      (forall n str, name <> [] -> member [] root name n -> (forall n', member [] root name n' -> n' = n) ->
        node_text n = Some str ->
        heap s' !! p = Some (set_val (assigned (var_type x) (m_val x) str) x)).
Proof.
  intros Hs Hq Hr. pose proof (safe_LoadFromYaml s root Hs) as Hsafe.
  destruct (ListAllMember_spec (S (height root)) [] root [] s Hr) as (l & s1 & Hl & Hlog & Hm); [lia|].
  cbn [app] in Hl. destruct Hlog as (Hh & Hd & _). destruct (same_vars s s1 Hh Hd Hs) as [Hs1 _].
  destruct (load_members_assign l s1 Hq Hs1) as (s2 & H2 & Hd2 & Hh2).
  { apply Forall_forall. intros [name x] Hin. apply Hm in Hin. split; [by eapply member_valid|].
    eapply readable_text, member_readable; done. }
  { intros. by apply safe_load_member. }
  assert (Config_LoadFromYaml root s = Ok tt s2) as E by (unfold Config_LoadFromYaml; by mrun Hl).
  rewrite E in Hsafe. exists s2. split_and!; [done|apply Hsafe|congruence|].
  intros name p x Ha Hx. rewrite <- Hd in Ha. rewrite <- Hh in Hx.
  specialize (Hh2 name p x Ha Hx). rewrite Hd in Ha. rewrite Hh in Hx. rewrite Hh2.
  assert (var_ok x) as Hok by (pose proof (ok_vars s Hs) as Hv; rewrite Forall_lookup in Hv; eauto).
  destruct Hok as [Hwf Hty _]. split.
  - intros Hno. rewrite loaded_none; [by rewrite set_val_same|].
    apply Forall_forall. intros [n' y] Hin <-. apply Hm in Hin. by eapply Hno.
  - intros n str Hne Hmem Huniq Htext. do 2 f_equal. apply (loaded_unique _ _ _ n); try done.
    + apply Forall_forall. intros [n' y] Hin. cbn. intros <-. apply Huniq. by apply Hm.
    + by apply Hm.
Qed.

(** ** Theorems *)

(** The operations of the module, on the pointers it has handed out. *)
Inductive config_op :=
| OpLookup t name (default_value : value) (description : list Z)
| OpLookupName t name
| OpLookupBase name
| OpToString p
| OpFromString p (str : list Z)
| OpGetValue p
| OpSetValue p v
| OpAddListener p (cb : on_change_cb)
| OpDelListener p (key : Z)
| OpGetListener p (key : Z)
| OpClearListener p
| OpLoadFromYaml (root : Node)
| OpVisit (cb : nat -> M Config unit).

Definition run_op (op : config_op) : M Config unit :=
  match op with
  | OpLookup t name d desc => Config_Lookup t name d desc ;;; mreturn tt
  | OpLookupName t name => Config_Lookup_name t name ;;; mreturn tt
  | OpLookupBase name => Config_LookupBase name ;;; mreturn tt
  | OpToString p => ConfigVar_toString p ;;; mreturn tt
  | OpFromString p str => ConfigVar_fromString p str ;;; mreturn tt
  | OpGetValue p => ConfigVar_getValue p ;;; mreturn tt
  | OpSetValue p v => ConfigVar_setValue p v
  | OpAddListener p cb => ConfigVar_addListener p cb ;;; mreturn tt
  | OpDelListener p key => ConfigVar_delListener p key
  | OpGetListener p key => ConfigVar_getListener p key ;;; mreturn tt
  | OpClearListener p => ConfigVar_clearListener p
  | OpLoadFromYaml root => Config_LoadFromYaml root
  | OpVisit cb => Config_Visit cb
  end.

(** What the type checker guarantees of a call, and that pointers come from lookups;
    and that the callback of [Visit] registers no variable. *)
Definition op_pre s (op : config_op) : Prop :=
  match op with
  | OpLookup t _ d _ => well_formed t = true /\ has_type t d
  | OpLookupName _ _ | OpLookupBase _ | OpLoadFromYaml _ => True
  | OpToString p | OpFromString p _ | OpGetValue p | OpAddListener p _ | OpDelListener p _
  | OpGetListener p _ | OpClearListener p => (p < length (heap s))%nat
  | OpSetValue p v => exists x, heap s !! p = Some x /\ has_type (var_type x) v
  | OpVisit cb => forall s p, config_ok s -> (p < length (heap s))%nat ->
      safe s (cb p s) (fun _ s' => length (datas s') = length (datas s))
  end.

Inductive reached : Config -> Prop :=
| reached_start s : heap s = [] -> datas s = [] -> reached s
| reached_step s op s' :
    reached s -> op_pre s op -> run_op op s = Ok tt s' \/ (exists e, run_op op s = Throw e s') ->
    reached s'.

Lemma safe_ignore {A} s (m : M Config A) Q : safe s (m s) Q -> safe s ((m ;;; mreturn tt) s) (fun _ _ => True).
Proof. intros H. eapply safe_bind; [done|]. intros. by apply safe_return. Qed.

Lemma extends_length s s' p : extends s s' -> (p < length (heap s))%nat -> (p < length (heap s'))%nat.
Proof.
  intros He Hp. destruct (lookup_lt_is_Some_2 _ _ Hp) as [x Hx].
  destruct (ext_heap _ _ He p x Hx) as (x' & Hx' & _). by eapply lookup_lt_Some.
Qed.

Lemma safe_Visit s cb : config_ok s -> op_pre s (OpVisit cb) -> safe s (Config_Visit cb s) (fun _ _ => True).
Proof.
  intros Hs Hcb. unfold Config_Visit, bind, gets.
  apply (safe_for_each (fun it s => (it.2 < length (heap s))%nat)); [done| | |].
  - apply Forall_forall. intros [n p] Hin. cbn.
    destruct (ok_entries s Hs n p Hin) as (x & Hx & _). by eapply lookup_lt_Some.
  - intros a s1 s2 Ha He. by eapply extends_length.
  - intros it s' Hs' Hp. unfold visit_one, bind at 1, gets at 1.
    eapply safe_bind; [by apply Hcb|]. cbn. intros _ s1 Hs1 _ Hn. unfold bind, gets. rewrite Hn, Nat.eqb_refl.
    by apply safe_return.
Qed.

(** A callback that registers a variable ends in undefined behaviour. *)
Lemma visit_registering s cb n p l s' :
  datas s = (n, p) :: l -> cb p s = Ok tt s' -> length (datas s') <> length (datas s) -> Config_Visit cb s = Ub.
Proof.
  intros Hd Hcb Hn. unfold Config_Visit. unfold bind at 1, gets at 1. rewrite Hd. cbn [for_each].
  unfold bind at 1, visit_one. unfold bind at 1, gets at 1. cbn [snd]. rewrite (bind_Ok _ _ _ _ _ Hcb).
  unfold bind, gets. by rewrite (proj2 (Nat.eqb_neq _ _) Hn).
Qed.

Lemma run_op_safe s op : config_ok s -> op_pre s op -> safe s (run_op op s) (fun _ _ => True).
Proof.
  intros Hs Hpre. destruct op; cbn [run_op op_pre] in *; try eapply safe_ignore.
  - destruct Hpre. by apply safe_Lookup.
  - by apply safe_Lookup_name.
  - by apply (safe_gets _ _ (fun _ _ => True)).
  - by apply safe_toString.
  - by apply safe_fromString.
  - destruct (safe_var s p Hs Hpre) as (x & Hv & _). unfold ConfigVar_getValue. mrun Hv.
    by apply (safe_return _ _ (fun _ _ => True)).
  - destruct Hpre as (x & Hx & Ht). by eapply safe_setValue.
  - by apply safe_addListener.
  - destruct (safe_var s p Hs Hpre) as (x & Hv & Hx & Hok). unfold ConfigVar_delListener. mrun Hv.
    apply safe_set_cbs; try done. apply filter_sorted, Hok.
  - destruct (safe_var s p Hs Hpre) as (x & Hv & _). unfold ConfigVar_getListener. mrun Hv.
    by apply (safe_return _ _ (fun _ _ => True)).
  - destruct (safe_var s p Hs Hpre) as (x & Hv & Hx & Hok). unfold ConfigVar_clearListener. mrun Hv.
    apply safe_set_cbs; try done. constructor.
  - by apply safe_LoadFromYaml.
  - by apply safe_Visit.
Qed.

(** C23 (typing of the registry): after any sequence of operations every
    registered name is valid and names the variable it is bound to, names and
    variables correspond one to one, and every variable holds a value of its
    type; any further operation returns or throws, is defined, keeps all this,
    and keeps the name and the type of every variable handed out.  For [Visit] its
    callback must do the same and register no variable: the loop walks the
    registry itself, and one that does is undefined. *)
Theorem config_well_typed s op :
  reached s -> op_pre s op ->
  config_ok s /\
  match run_op op s with
  | Ok _ s' | Throw _ s' => config_ok s' /\ extends s s'
  | _ => False
  end /\
  forall cb n p l s', datas s = (n, p) :: l -> cb p s = Ok tt s' -> length (datas s') <> length (datas s) ->
    run_op (OpVisit cb) s = Ub.
Proof.
  intros Hr Hpre. assert (config_ok s) as Hs.
  { clear op Hpre. induction Hr as [s Hh Hd|s op s' Hr IH Hpre Hs'].
    - split; rewrite ?Hh, ?Hd; try constructor. intros n p Hin. set_solver.
    - pose proof (run_op_safe s op IH Hpre) as H. unfold safe in H.
      destruct Hs' as [E|[e E]]; rewrite E in H; apply H. }
  split; [done|]. split; [|intros; by eapply visit_registering].
  pose proof (run_op_safe s op Hs Hpre) as H. unfold safe in H.
  destruct (run_op op s); tauto.
Qed.

(** Lookup: [Lookup] of a registered name returns its variable when the
    types agree and null when they do not; of an unknown valid name it creates
    the variable with the default value, and later lookups find it; of an
    unknown invalid name it throws [invalid_argument].  Nothing else in the
    registry changes. *)
Theorem lookup_spec s t name d desc :
  config_ok s -> well_formed t = true -> has_type t d ->
  match Config_Lookup t name d desc s with
  | Ok (Some p) s' =>
      Config_Lookup_name t name s' = Ok (Some p) s' /\
      (forall q, assoc name (datas s) = Some q -> q = p /\ heap s' = heap s) /\
      (assoc name (datas s) = None ->
        valid_name name = true /\ heap s !! p = None /\ ConfigVar_getValue p s' = Ok d s') /\
      (forall n, n <> name -> assoc n (datas s') = assoc n (datas s))
  | Ok None s' =>
      heap s' = heap s /\ datas s' = datas s /\
      exists p x, assoc name (datas s) = Some p /\ heap s !! p = Some x /\ var_type x <> t
  | Throw e s' =>
      e = invalid_argument /\ heap s' = heap s /\ datas s' = datas s /\
      assoc name (datas s) = None /\ valid_name name = false
  | _ => False
  end.
Proof.
  intros Hs Hwf Ht. pose proof (Lookup_cases s t name d desc Hs) as H. unfold Config_Lookup_name.
  destruct (assoc name (datas s)) as [p|] eqn:Ha.
  - destruct H as (x & s' & Hx & Hh & Hd & ->). case_decide as E.
    + unfold bind, gets. rewrite Hd, Ha. rewrite (cast_run s' t p x) by (by rewrite Hh).
      rewrite decide_True by done. split_and!; [done|naive_solver|done|done].
    + split_and!; [done..|]. by exists p, x.
  - destruct (valid_name name) eqn:Hv; [|destruct H as (s' & Hh & Hd & ->); by split_and!].
    assert (Hnd := ok_names s Hs). assert (Hn := Ha). apply assoc_None in Hn.
    rewrite H. set (s' := registered s t name d desc).
    assert (Hx : heap s' !! length (heap s) = Some (new_ConfigVar t name d desc))
      by (cbn; by rewrite lookup_app_r, Nat.sub_diag by done).
    assert (Ha' : forall n, assoc n (datas s') = if decide (n = name) then Some (length (heap s)) else assoc n (datas s))
      by (intros n; by apply umap_insert_assoc).
    unfold bind, gets. rewrite Ha', decide_True by done. rewrite (cast_run s' t _ _ Hx).
    rewrite decide_True by done. split_and!; [done|done| |].
    + intros _. split_and!; [done|by apply lookup_ge_None_2|]. unfold ConfigVar_getValue. by mrun (var_run s' _ _ Hx).
    + intros n Hne. by rewrite Ha', decide_False.
Qed.

(** Assignment from text: [fromString] never answers [true]; it returns
    [false] with the converted value assigned, or with everything but the log
    unchanged when the text does not convert, or after a standard exception of
    a listener; only an exception of a listener that is not standard escapes.
    An assignment that throws stores nothing, whichever listeners have run. *)
Theorem fromString_spec s p x str :
  heap s !! p = Some x ->
  match ConfigVar_fromString p str s with
  | Ok b s' => b = false /\
      ((exists v, FromStr (var_type x) str = inr v /\ ConfigVar_setValue p v s = Ok tt s') \/
       (heap s' = heap s /\ datas s' = datas s /\ logs s' = logs s ++ [LFromString (m_name x) str] /\
        ((exists e, FromStr (var_type x) str = inl e /\ world s' = world s) \/
         (exists v e, FromStr (var_type x) str = inr v /\ e <> foreign_exception /\
           notify (m_val x) v (m_cbs x) (world s) = (world s', Some e)))))
  | Throw e s' => e = foreign_exception /\ heap s' = heap s /\ datas s' = datas s /\
      exists v, FromStr (var_type x) str = inr v /\
        notify (m_val x) v (m_cbs x) (world s) = (world s', Some foreign_exception)
  | _ => False
  end.
Proof.
  intros Hx. unfold ConfigVar_fromString. mrun (var_run s p x Hx). unfold bind, try_std.
  pose proof (FromStr_std (var_type x) str) as Hstd.
  destruct (FromStr (var_type x) str) as [e|v] eqn:E; cbn [lift].
  - cbn. assert (e <> foreign_exception) by congruence.
    destruct e; try done; (split; [done|right]); split_and!; try done; left; by eexists.
  - unfold mreturn at 1. pose proof (setValue_exact s p x v Hx) as Hset. rewrite Hset.
    destruct (value_eqb _ _ _); [split; [done|]; left; by exists v|].
    destruct (notify _ _ _ _) as [w [e|]] eqn:En.
    + cbn. destruct e; try (split; [done|right]; split_and!; try done; right;
        eexists v, _; split_and!; [done| |exact En]; done).
      split_and!; [done..|]. exists v. by split.
    + split; [done|]. left. by exists v.
Qed.
End config_facts.

(** ** A concrete registry *)

(** Listeners that record what they are told. *)
Definition TraceListeners : Listeners := {|
  World := list (Z * value * value);
  on_change_cb := Z;
  call cb old v w := (w ++ [(cb, old, v)], None)
|}.
#[local] Existing Instance FrontOrder.
#[local] Existing Instance TraceListeners.

Definition int_type : cty := Base BInt.
Definition string_type : cty := Base BString.
Definition int (z : Z) : value := VBase (inr z).

(** One variable [a.b], an [int] that holds 1, with one listener. *)
Definition example_var : ConfigVar := mkConfigVar (text "a.b") [] int_type (int 1) [(7, 42)].
Definition example_config : Config :=
  mkConfig [example_var] [(text "a.b", O)] (fun _ => 7) [] [] [].
Definition empty_config : Config := mkConfig [] [] (fun _ => 6) [] [] [].

(** The document  a: {b: 5, c9: 6} *)
Definition example_document : Node :=
  mapping [(text "a", mapping [(text "b", GenLeaf (text "5")); (text "c9", GenLeaf (text "6"))])].

Lemma example_config_ok : config_ok example_config.
Proof.
  split; cbn.
  - repeat constructor. set_solver.
  - repeat constructor. set_solver.
  - intros name p [= -> ->]%list_elem_of_singleton. by eexists.
  - repeat constructor.
Qed.

Lemma example_document_readable : readable example_document.
Proof.
  repeat (constructor; [by eexists|]; intros _; cbn; intros k child;
    rewrite ?elem_of_cons, ?list_elem_of_singleton; intros H;
    repeat match goal with
    | H : _ \/ _ |- _ => destruct H as [H|H]
    | H : (_, _) = (_, _) |- _ => injection H as -> ->
    | H : _ ∈ [] |- _ => by apply not_elem_of_nil in H
    end; (split; [by eexists|])).
Qed.

Lemma config_well_typed_witness :
  let op := OpLoadFromYaml example_document in
  let s := registered empty_config int_type (text "a.b") (int 1) [] in
  let registering := fun _ => Config_Lookup int_type (text "c.d") (int 2) [] ;;; mreturn tt in
  config_ok s /\
  match run_op op s with
  | Ok _ s' | Throw _ s' => config_ok s' /\ extends s s'
  | _ => False
  end /\ run_op (OpVisit registering) s = Ub.
Proof.
  intros op s registering. destruct (config_well_typed s op) as (H1 & H2 & H3); [|exact I|].
  2: { split; [exact H1|]. split; [exact H2|]. eapply H3; [reflexivity|reflexivity|]. by vm_compute. }
  eapply (reached_step empty_config (OpLookup int_type (text "a.b") (int 1) [])).
  - by apply reached_start.
  - done.
  - left. reflexivity.
Defined.

Lemma lookup_spec_witness :
  exists s', Config_Lookup string_type (text "a.b") (VBase (inl [])) [] example_config = Ok None s' /\
    heap s' = heap example_config /\ datas s' = datas example_config.
Proof.
  pose proof (lookup_spec example_config string_type (text "a.b") (VBase (inl [])) []
    example_config_ok eq_refl eq_refl) as H.
  destruct (Config_Lookup _ _ _ _ _) as [[p|] s'|e s'| | | |] eqn:E; try done.
  exists s'. split; [done|]. exact (conj (proj1 H) (proj1 (proj2 H))).
Defined.

Lemma fromString_spec_witness :
  exists s', ConfigVar_fromString O (text "x") example_config = Ok false s' /\
    logs s' = [LFromString (text "a.b") (text "x")].
Proof.
  pose proof (fromString_spec example_config O example_var (text "x") eq_refl) as H.
  destruct (ConfigVar_fromString O (text "x") example_config) as [b s'|e s'| | | |] eqn:E; try done.
  destruct H as [-> [(v & Hv & _)|(_ & _ & Hl & _)]]; [done|]. by exists s'.
Defined.

Lemma load_from_yaml_spec_witness :
  exists s', Config_LoadFromYaml example_document example_config = Ok tt s' /\
    m_val <$> heap s' !! O = Some (int 5).
Proof.
  destruct (load_from_yaml_spec example_config example_document) as (s' & H & _ & _ & Hv).
  - apply example_config_ok.
  - done.
  - apply example_document_readable.
  - exists s'. split; [exact H|].
    assert (Hv' : match Config_LoadFromYaml example_document example_config with
      | Ok _ s => m_val <$> heap s !! O | _ => None end = Some (int 5)) by (vm_compute; reflexivity).
    by rewrite H in Hv'.
Defined.
