(* ===== verification/FSUtil.v ===== *)
(** * Files and paths (util/util.h, util.cpp)

    The class [FSUtil] over a file system that is a parameter: [Files] is what it
    calls of POSIX and of the file streams, [FilesLaws] what is documented of
    them.  A call that changes the file system is in the monad over [FS]. *)
From S2P Require Import Prelude.
From S2P Require Import Text.

(** The type in a directory entry, [d_type]. *)
Inductive dtype := DT_DIR | DT_REG | DT_OTHER.
#[export] Instance dtype_eq_dec : EqDecision dtype.
Proof. solve_decision. Defined.

(** The fields of [struct stat] that are used. *)
Record Stat := mkStat { st_mode : Z; st_mtime : Z }.
Definition S_IFDIR : Z := 16384.

(** The calls return [true] for 0; [None] is a failure. *)
Class Files := {
  FS : Type;
  access : FS -> list Z -> bool;
  lstat : FS -> list Z -> option Stat;
  (** [opendir], then [readdir] until it returns null, [.] and [..] included *)
  readdir : FS -> list Z -> option (list (list Z * dtype));
  mkdir : FS -> list Z -> bool * FS;
  unlink : FS -> list Z -> bool * FS;
  rmdir : FS -> list Z -> bool * FS;
  rename : FS -> list Z -> list Z -> bool * FS;
  symlink : FS -> list Z -> list Z -> bool * FS;
  realpath : FS -> list Z -> option (list Z);
  (** opening a file stream, and [std::getline] on a fresh one *)
  open_read : FS -> list Z -> bool;
  open_write : FS -> list Z -> bool * FS;
  first_line : FS -> list Z -> option (list Z);
  (** [kill(pid, 0) == 0] *)
  kill : Z -> bool;
  (** how deep the directory tree is below a path *)
  depth : FS -> list Z -> nat
}.

Definition slash : Z := 47.
(** [path + "/" + name] *)
Definition sub_path (path name : list Z) : list Z := path ++ slash :: name.
(** [!strcmp(name, ".") || !strcmp(name, "..")] *)
Definition is_dot (name : list Z) : bool :=
  bool_decide (name = text ".") || bool_decide (name = text "..").

Class FilesLaws (F : Files) : Prop := {
  (** a directory tree is finite, and is not made deeper by removals *)
  depth_entry fs path es name t : readdir fs path = Some es -> (name, t) ∈ es -> is_dot name = false ->
    (depth fs (sub_path path name) < depth fs path)%nat;
  unlink_depth fs p q : (depth (unlink fs p).2 q <= depth fs q)%nat;
  rmdir_depth fs p q : (depth (rmdir fs p).2 q <= depth fs q)%nat;
  (** what is removed is gone, and nothing appears *)
  unlink_gone fs p fs' : unlink fs p = (true, fs') -> lstat fs' p = None;
  rmdir_gone fs p fs' : rmdir fs p = (true, fs') -> lstat fs' p = None;
  unlink_none fs p q : lstat fs q = None -> lstat (unlink fs p).2 q = None;
  rmdir_none fs p q : lstat fs q = None -> lstat (rmdir fs p).2 q = None;
  (** what is made is there, and nothing disappears *)
  mkdir_made fs p fs' : mkdir fs p = (true, fs') -> is_Some (lstat fs' p);
  mkdir_keeps fs p q : is_Some (lstat fs q) -> is_Some (lstat (mkdir fs p).2 q);
  access_exists fs p : access fs p = true -> is_Some (lstat fs p);
  lstat_empty fs : lstat fs [] = None
}.

(** A call that returns a success and the new file system. *)
Definition syscall {S} (f : S -> bool * S) : M S bool := fun s => let (b, s') := f s in Ok b s'.

(** [s.rfind(c)], npos being [None] *)
Fixpoint rfind (c : Z) (s : list Z) : option nat :=
  match s with
  | [] => None
  | x :: s => match rfind c s with Some i => Some (S i) | None => if x =? c then Some O else None end
  end.
Definition FSUtil_Dirname (filename : list Z) : list Z :=
  if bool_decide (filename = []) then text "." else
  match rfind slash filename with
  | Some O => text "/"
  | None => text "."
  | Some pos => take pos filename
  end.
Definition FSUtil_Basename (filename : list Z) : list Z :=
  if bool_decide (filename = []) then filename else
  match rfind slash filename with
  | None => filename
  | Some pos => drop (S pos) filename
  end.

(** *** Paths of [std::filesystem] *)

(** [lhs / rhs] *)
Definition path_append (lhs rhs : list Z) : list Z :=
  match rhs with
  | c :: _ => if c =? slash then rhs
      else match last lhs with Some d => if d =? slash then lhs ++ rhs else sub_path lhs rhs | None => rhs end
  | [] => match last lhs with Some d => if d =? slash then lhs else sub_path lhs [] | None => [] end
  end.
Fixpoint drop_while (f : Z -> bool) (s : list Z) : list Z :=
  match s with c :: s' => if f c then drop_while f s' else s | [] => [] end.
(** [p.parent_path()]: without the last name and the slashes before it, and the
    root for a name in the root. *)
Definition parent_path (p : list Z) : list Z :=
  match drop_while (fun c => c =? slash) (drop_while (fun c => negb (c =? slash)) (reverse p)) with
  | [] => match p with c :: _ => if c =? slash then [slash] else [] | [] => [] end
  | r => reverse r
  end.

(** [atoi]: [strtol] in base 10, which saturates, converted to [int]. *)
Definition is_space (c : Z) : bool := (c =? 32) || ((9 <=? c) && (c <=? 13)).
Fixpoint digits (acc : Z) (s : list Z) : Z :=
  match s with
  | c :: s => if (48 <=? c) && (c <=? 57) then digits (10 * acc + (c - 48)) s else acc
  | [] => acc
  end.
Fixpoint strtol (s : list Z) : Z :=
  match s with
  | [] => 0
  | c :: s' =>
      if is_space c then strtol s'
      else if c =? 45 then Z.max (- 2 ^ 63) (- digits 0 s')
      else if c =? 43 then Z.min (2 ^ 63 - 1) (digits 0 s')
      else Z.min (2 ^ 63 - 1) (digits 0 s)
  end.
Definition atoi (s : list Z) : Z := i32 (strtol s).

Section fsutil.
Context `{F : Files}.

(** [ListAllFile(files, path, subfix)] *)
Definition keeps_file (subfix filename : list Z) : bool :=
  if bool_decide (subfix = []) then true
  else if (length filename <? length subfix)%nat then false
  else bool_decide (drop (length filename - length subfix) filename = subfix).
Fixpoint FSUtil_ListAllFile (fuel : nat) (path subfix : list Z) (files : list (list Z))
    : M FS (list (list Z)) :=
  match fuel with
  | O => nofuel
  | S fuel => fun fs =>
      if negb (access fs path) then Ok files fs else
      match readdir fs path with
      | None => Ok files fs
      | Some es =>
          fold_each (fun files dp =>
            match dp.2 with
            | DT_DIR =>
                if is_dot dp.1 then mreturn files
                else FSUtil_ListAllFile fuel (sub_path path dp.1) subfix files
            | DT_REG =>
                mreturn (if keeps_file subfix dp.1 then files ++ [sub_path path dp.1] else files)
            | DT_OTHER => mreturn files
            end) es files fs
      end
  end.

(** [__mkdir(dirname) == 0] *)
Definition mkdir_once (dirname : list Z) : M FS bool := fun fs =>
  if access fs dirname then Ok true fs else syscall (fun fs => mkdir fs dirname) fs.
(** The loop over the slashes after the first character: [pre] is what is before
    [ptr]; [false] when it is left by [break]. *)
Fixpoint mkdir_prefixes (pre rest : list Z) : M FS bool :=
  match rest with
  | [] => mreturn true
  | c :: rest =>
      if c =? slash then
        r <-- mkdir_once pre ;;
        if r then mkdir_prefixes (pre ++ [c]) rest else mreturn false
      else mkdir_prefixes (pre ++ [c]) rest
  end.
Definition FSUtil_Mkdir (dirname : list Z) : M FS bool := fun fs =>
  match lstat fs dirname with
  | Some _ => Ok true fs
  | None =>
      match dirname with
      | [] => Ub (* strchr(path + 1, '/') starts after the terminator *)
      | c :: rest =>
          bind (mkdir_prefixes [c] rest) (fun r =>
          if r then mkdir_once dirname else mreturn false) fs
      end
  end.

(** [std::filesystem::create_directories(p)]: the missing parents first; it throws
    a [filesystem_error], which is a [runtime_error]. *)
Fixpoint create_directories (fuel : nat) (p : list Z) : M FS unit :=
  match fuel with
  | O => nofuel
  | S fuel => fun fs =>
      if access fs p then Ok tt fs else
      bind (create_directories fuel (parent_path p)) (fun _ =>
      bind (syscall (fun fs => mkdir fs p)) (fun r =>
      if r then mreturn tt else throw runtime_error)) fs
  end.
(** [void filePathCheck(const std::string& filePath)] *)
Definition filePathCheck (current filePath : list Z) : M FS unit := fun fs =>
  let parentPath := parent_path (path_append current filePath) in
  if negb (access fs parentPath) then create_directories (length parentPath) parentPath fs else Ok tt fs.

Definition FSUtil_IsRunningPidfile (pidfile : list Z) : M FS bool := gets (fun fs =>
  match lstat fs pidfile with
  | None => false
  | Some _ =>
      match first_line fs pidfile with
      | None => false
      | Some line =>
          if bool_decide (line = []) then false
          else if atoi line <=? 1 then false
          else kill (atoi line)
      end
  end).

(** [Unlink(filename, exist)] *)
Definition FSUtil_Unlink (filename : list Z) (exist : bool) : M FS bool := fun fs =>
  if negb exist && negb (bool_decide (is_Some (lstat fs filename))) then Ok true fs
  else syscall (fun fs => unlink fs filename) fs.

Fixpoint FSUtil_Rm (fuel : nat) (path : list Z) : M FS bool :=
  match fuel with
  | O => nofuel
  | S fuel => fun fs =>
      match lstat fs path with
      | None => Ok true fs
      | Some st =>
          if Z.land (st_mode st) S_IFDIR =? 0 then FSUtil_Unlink path false fs else
          match readdir fs path with
          | None => Ok false fs
          | Some es =>
              bind (fold_each (fun ret dp =>
                if is_dot dp.1 then mreturn ret else FSUtil_Rm fuel (sub_path path dp.1)) es true)
              (fun ret => bind (syscall (fun fs => rmdir fs path))
              (fun r => mreturn (if r then ret else false))) fs
          end
      end
  end.
(** [Rm(path)], with the depth of the tree as the bound of the recursion. *)
Definition FSUtil_Remove (path : list Z) : M FS bool := fun fs => FSUtil_Rm (S (depth fs path)) path fs.

Definition FSUtil_Mv (from to : list Z) : M FS bool :=
  r <-- FSUtil_Remove to ;;
  if negb r then mreturn false else syscall (fun fs => rename fs from to).
Definition FSUtil_Symlink (from to : list Z) : M FS bool :=
  r <-- FSUtil_Remove to ;;
  if negb r then mreturn false else syscall (fun fs => symlink fs from to).

(** [Realpath(path, rpath)]: the result and the new value of [rpath]. *)
Definition FSUtil_Realpath (path rpath : list Z) : M FS (bool * list Z) := gets (fun fs =>
  match lstat fs path with
  | None => (false, rpath)
  | Some _ => match realpath fs path with None => (false, rpath) | Some p => (true, p) end
  end).

Definition FSUtil_OpenForRead (filename : list Z) : M FS bool := gets (fun fs => open_read fs filename).
Definition FSUtil_OpenForWrite (filename : list Z) : M FS bool :=
  r <-- syscall (fun fs => open_write fs filename) ;;
  if r then mreturn true else
  FSUtil_Mkdir (FSUtil_Dirname filename) ;;;
  syscall (fun fs => open_write fs filename).
End fsutil.

(** [getCurrentMS()] of a [struct timeval] *)
Definition getCurrentMS (tv_sec tv_usec : Z) : Z := u64 (tv_sec * 1000 + tv_usec / 1000).
