(* ===== verification/FSUtilFacts.v ===== *)
(** * Facts about files and paths

    Splitting a path, which files a walk lists, and what success of the
    functions that change the file system means; with a small file system to run
    them on. *)
From S2P Require Import Prelude.
From S2P Require Import Text.
From S2P Require Import LexicalCast.
From S2P Require Import FSUtil.

(** ** Paths *)

Lemma rfind_spec c s :
  match rfind c s with
  | Some i => exists a b, s = a ++ c :: b /\ (c ∉ b) /\ length a = i
  | None => c ∉ s
  end.
Proof.
  induction s as [|x s IH]; cbn; [apply not_elem_of_nil|]. destruct (rfind c s) as [i|].
  - destruct IH as (a & b & -> & Hb & <-). by exists (x :: a), b.
  - destruct (Z.eqb_spec x c) as [->|Hx]; [by exists [], s|set_solver].
Qed.

(** Splitting a path: it is its directory, a slash and its last part,
    with "." for the directory of a path without a slash and "/" for a path with
    only a leading one; the last part has no slash, and is empty for a path that
    ends in one. *)
Lemma path_split f :
  f <> [] -> (slash ∉ FSUtil_Basename f) /\
  ((slash ∉ f) /\ FSUtil_Dirname f = text "." /\ FSUtil_Basename f = f \/
   FSUtil_Dirname f = text "/" /\ f = FSUtil_Dirname f ++ FSUtil_Basename f \/
   FSUtil_Dirname f <> [] /\ f = sub_path (FSUtil_Dirname f) (FSUtil_Basename f)).
Proof.
  intros Hf. unfold FSUtil_Basename, FSUtil_Dirname. rewrite !bool_decide_eq_false_2 by done.
  pose proof (rfind_spec slash f) as Hr. destruct (rfind slash f) as [i|].
  - destruct Hr as (a & b & -> & Hb & <-).
    assert (drop (S (length a)) (a ++ slash :: b) = b) as ->
      by (rewrite drop_app_ge by lia; by replace (S (length a) - length a)%nat with 1%nat by lia).
    split; [done|]. right. destruct a as [|x a]; [by left|]. right.
    replace (take (length (x :: a)) ((x :: a) ++ slash :: b)) with (x :: a) by (by rewrite take_app_length).
    done.
  - split; [done|]. by left.
Qed.

Lemma keeps_file_spec subfix name : keeps_file subfix name = true <-> exists pre, name = pre ++ subfix.
Proof.
  unfold keeps_file. case_bool_decide as E; [subst; split; [by exists name; rewrite app_nil_r|done]|].
  destruct (Nat.ltb_spec (length name) (length subfix)) as [Hl|Hl].
  - split; [done|]. intros [pre ->]. rewrite length_app in Hl. lia.
  - rewrite bool_decide_eq_true. split.
    + intros Hd. exists (take (length name - length subfix) name). by rewrite <- Hd at 2; rewrite take_drop.
    + intros [pre ->]. rewrite length_app. replace (_ + _ - _)%nat with (length pre) by lia. apply drop_app_length.
Qed.

Section fsutil_facts.
Context `{F : Files, FL : !FilesLaws F}.

(** ** Walks *)

(** The files that a walk from [path] finds: reached through directories that
    can be read, with names that end in [subfix]. *)
Inductive below (fs : FS) (subfix : list Z) : list Z -> list Z -> Prop :=
| below_file path es name :
    access fs path = true -> readdir fs path = Some es -> (name, DT_REG) ∈ es ->
    (exists pre, name = pre ++ subfix) -> below fs subfix path (sub_path path name)
| below_dir path es name x :
    access fs path = true -> readdir fs path = Some es -> (name, DT_DIR) ∈ es ->
    is_dot name = false -> below fs subfix (sub_path path name) x -> below fs subfix path x.

(** What one directory entry contributes. *)
Definition entry_below (fs : FS) (subfix path : list Z) (dp : list Z * dtype) (x : list Z) : Prop :=
  match dp.2 with
  | DT_DIR => is_dot dp.1 = false /\ below fs subfix (sub_path path dp.1) x
  | DT_REG => (exists pre, dp.1 = pre ++ subfix) /\ x = sub_path path dp.1
  | DT_OTHER => False
  end.

Lemma below_entries fs subfix path es x :
  access fs path = true -> readdir fs path = Some es ->
  below fs subfix path x <-> exists e, e ∈ es /\ entry_below fs subfix path e x.
Proof.
  intros Ha Hr. split.
  - inversion 1; subst; simplify_eq; eexists; (split; [done|]); by split.
  - intros ([name []] & Hin & He); cbn in He; [destruct He as [? ?]|destruct He as [? ->]|done].
    + by eapply below_dir.
    + by eapply below_file.
Qed.

Lemma fold_each_lists {S A B} (body : list A -> B -> M S (list A)) (R : B -> A -> Prop) s es :
  (forall e files, e ∈ es -> exists l, body files e s = Ok (files ++ l) s /\ forall x, x ∈ l <-> R e x) ->
  forall files, exists l, fold_each body es files s = Ok (files ++ l) s /\
    forall x, x ∈ l <-> exists e, e ∈ es /\ R e x.
Proof.
  intros Hb. induction es as [|e es IH]; intros files.
  - exists []. rewrite app_nil_r. split; [done|]. set_solver.
  - destruct (Hb e files) as (l1 & H1 & Hx1); [left|].
    destruct (IH ltac:(intros; apply Hb; by right) (files ++ l1)) as (l2 & H2 & Hx2).
    exists (l1 ++ l2). split; [|set_solver]. cbn [fold_each]. unfold bind. by rewrite H1, H2, app_assoc.
Qed.

(** Listing files: [ListAllFile] ends, changes nothing, and adds exactly the
    files below the path whose names end in the suffix. *)
Lemma ListAllFile_spec fuel fs path subfix files :
  (depth fs path < fuel)%nat ->
  exists l, FSUtil_ListAllFile fuel path subfix files fs = Ok (files ++ l) fs /\
    forall x, x ∈ l <-> below fs subfix path x.
Proof.
  revert path files. induction fuel as [|fuel IH]; intros path files Hf; [lia|].
  cbn [FSUtil_ListAllFile].
  assert (Hnone : (forall es, access fs path = true -> readdir fs path <> Some es) ->
    exists l, Ok files fs = Ok (files ++ l) fs /\ forall x, x ∈ l <-> below fs subfix path x).
  { intros Hno. exists []. rewrite app_nil_r. split; [done|]. intros x. split; [set_solver|].
    inversion 1; subst; by edestruct Hno. }
  destruct (access fs path) eqn:Ha; cbn [negb]; [|by apply Hnone].
  destruct (readdir fs path) as [es|] eqn:Hr; [|by apply Hnone]. clear Hnone.
  setoid_rewrite (below_entries fs subfix path es); [|done..].
  apply fold_each_lists. intros [name t] files' Hin. unfold entry_below. cbn [fst snd]. destruct t.
  - destruct (is_dot name) eqn:Hn; [exists []; rewrite app_nil_r; split; [done|set_solver]|].
    pose proof (depth_entry fs path es name DT_DIR Hr Hin Hn).
    destruct (IH (sub_path path name) files') as (l & Hl & Hx); [lia|].
    exists l. split; [done|]. intros x. rewrite Hx. naive_solver.
  - pose proof (keeps_file_spec subfix name) as Hk. destruct (keeps_file subfix name).
    + exists [sub_path path name]. split; [done|]. intros x. rewrite list_elem_of_singleton. naive_solver.
    + exists []. rewrite app_nil_r. split; [done|]. intros x. split; [set_solver|]. intros [Hs _].
      by apply Hk in Hs.
  - exists []. rewrite app_nil_r. split; [done|set_solver].
Qed.

(** ** Making directories *)

Lemma mkdir_once_spec fs p :
  exists b fs', mkdir_once p fs = Ok b fs' /\ (b = true -> is_Some (lstat fs' p)) /\
    (b = false -> access fs p = false /\ (mkdir fs p).1 = false) /\
    forall q, is_Some (lstat fs q) -> is_Some (lstat fs' q).
Proof.
  unfold mkdir_once. destruct (access fs p) eqn:Ha.
  - exists true, fs. split_and!; [done| |done|done]. intros _. by apply access_exists.
  - unfold syscall. destruct (mkdir fs p) as [b fs'] eqn:Hm. exists b, fs'. split_and!; [done| | |].
    + intros ->. by eapply mkdir_made.
    + by intros ->.
    + intros q Hq. pose proof (mkdir_keeps fs p q Hq) as H. by rewrite Hm in H.
Qed.

Lemma mkdir_prefixes_spec pre rest fs :
  exists b fs', mkdir_prefixes pre rest fs = Ok b fs' /\
    (b = false -> exists fs1 a c, rest = a ++ slash :: c /\ access fs1 (pre ++ a) = false /\
      (mkdir fs1 (pre ++ a)).1 = false) /\
    (b = true -> forall a c, rest = a ++ slash :: c -> is_Some (lstat fs' (pre ++ a))) /\
    forall q, is_Some (lstat fs q) -> is_Some (lstat fs' q).
Proof.
  revert pre fs. induction rest as [|x rest IH]; intros pre fs; cbn [mkdir_prefixes].
  { exists true, fs. split_and!; [done|done| |done]. intros _ [|? a] c; done. }
  destruct (Z.eqb_spec x slash) as [->|Hx].
  - destruct (mkdir_once_spec fs pre) as (b & fs1 & Hr & Ht & Hfl & Hk).
    unfold bind. rewrite Hr. destruct b.
    + destruct (IH (pre ++ [slash]) fs1) as (b2 & fs2 & -> & Hf2 & Ht2 & Hk2).
      exists b2, fs2. split_and!; [done| | |auto].
      * intros ->. destruct Hf2 as (fs3 & a & c & -> & Ha & Hm); [done|]. exists fs3, (slash :: a), c.
        rewrite <- app_assoc in Ha, Hm. done.
      * intros Hb a c Heq. destruct a as [|y a]; [rewrite app_nil_r; by apply Hk2, Ht|].
        injection Heq as <- ->. specialize (Ht2 Hb a c eq_refl). by rewrite <- app_assoc in Ht2.
    + exists false, fs1. split_and!; [done| |done|done]. intros _. exists fs, [], rest.
      rewrite app_nil_r. split; [done|]. by apply Hfl.
  - destruct (IH (pre ++ [x]) fs) as (b & fs' & -> & Hf & Ht & Hk). exists b, fs'. split_and!; [done| | |done].
    + intros ->. destruct Hf as (fs3 & a & c & -> & Ha & Hm); [done|]. exists fs3, (x :: a), c.
      rewrite <- app_assoc in Ha, Hm. done.
    + intros Hb a c Heq. destruct a as [|y a]; [by injection Heq|].
      injection Heq as <- ->. specialize (Ht Hb a c eq_refl). by rewrite <- app_assoc in Ht.
Qed.

(** Making directories: for a path that is not empty [Mkdir] returns; when
    it answers [true] the path exists afterwards, and unless it existed before
    so does every directory above it; when it answers [false] some directory on
    the way could not be made; nothing that existed disappears.  The empty path
    is undefined behaviour. *)
Theorem Mkdir_spec fs dirname :
  match FSUtil_Mkdir dirname fs with
  | Ok b fs' =>
      dirname <> [] /\ (forall q, is_Some (lstat fs q) -> is_Some (lstat fs' q)) /\
      (b = true -> is_Some (lstat fs' dirname) /\
        (fs' = fs /\ is_Some (lstat fs dirname) \/
         forall a c, a <> [] -> dirname = sub_path a c -> is_Some (lstat fs' a))) /\
      (b = false -> exists fs1 q, (q = dirname \/ exists c, dirname = sub_path q c) /\
        access fs1 q = false /\ (mkdir fs1 q).1 = false)
  | Ub => dirname = []
  | _ => False
  end.
Proof.
  unfold FSUtil_Mkdir. destruct (lstat fs dirname) eqn:Hl.
  { split_and!; [|done| |done]; [intros ->; by rewrite lstat_empty in Hl|]. intros _. rewrite Hl.
    split; [done|]. by left. }
  destruct dirname as [|x rest]; [done|].
  destruct (mkdir_prefixes_spec [x] rest fs) as (b & fs1 & Hr & Hf & Ht & Hk). unfold bind. rewrite Hr.
  destruct b; cbn.
  - destruct (mkdir_once_spec fs1 (x :: rest)) as (b2 & fs2 & -> & Ht2 & Hf2 & Hk2).
    split_and!; [done|auto| |].
    + intros ->. split; [by apply Ht2|]. right. intros a c Ha Heq. apply Hk2.
      destruct a as [|y a]; [done|]. injection Heq as <- ->. by apply (Ht eq_refl a c).
    + intros ->. exists fs1, (x :: rest). split; [by left|]. by apply Hf2.
  - split_and!; [done|done|done|]. intros _. destruct Hf as (fs3 & a & c & -> & Ha & Hm); [done|].
    exists fs3, (x :: a). split; [|done]. right. by exists c.
Qed.

(** ** The directories of a file *)

Lemma drop_while_suffix f s : exists l, s = l ++ drop_while f s.
Proof.
  induction s as [|c s [l IH]]; [by exists []|]. cbn. destruct (f c); [exists (c :: l); by rewrite IH at 1|by exists []].
Qed.

Lemma drop_while_length f s : (length (drop_while f s) <= length s)%nat.
Proof. destruct (drop_while_suffix f s) as [l E]. rewrite E at 2. rewrite length_app. lia. Qed.

(** The parent of an absolute path is the root or a proper prefix. *)
Lemma parent_path_absolute p : head p = Some slash ->
  parent_path p = [slash] \/ (head (parent_path p) = Some slash /\ (length (parent_path p) < length p)%nat).
Proof.
  intros Hp. unfold parent_path. set (f := fun c => negb (c =? slash)). set (g := fun c => c =? slash).
  destruct (drop_while_suffix f (reverse p)) as [l1 H1].
  destruct (drop_while_suffix g (drop_while f (reverse p))) as [l2 H2].
  destruct (drop_while g (drop_while f (reverse p))) as [|r rs] eqn:Er.
  { destruct p as [|c p]; [done|]. injection Hp as ->. by left. }
  right. assert (Hrev : p = reverse (r :: rs) ++ reverse (l1 ++ l2)).
  { rewrite <- reverse_app, <- app_assoc, <- H2, <- H1. by rewrite reverse_involutive. }
  assert (Hne : l1 ++ l2 <> []).
  { intros E. apply app_nil in E as [-> ->]. cbn [app] in H1, H2.
    rewrite <- H1 in H2, Er. rewrite H2 in H1, Er. subst f g. cbn in H1, Er.
    destruct (r =? slash); cbn in H1, Er.
    - by apply (f_equal length) in Er; pose proof (drop_while_length (fun c => c =? slash) rs); cbn in Er; lia.
    - by apply (f_equal length) in H1; pose proof (drop_while_length (fun c => negb (c =? slash)) rs); cbn in H1; lia. }
  split.
  - rewrite Hrev in Hp. destruct (reverse (r :: rs)) eqn:E; [|done]. by apply (f_equal reverse) in E; rewrite reverse_involutive in E.
  - apply (f_equal length) in Hrev. rewrite length_app, !length_reverse in Hrev. rewrite length_reverse.
    destruct (l1 ++ l2); [done|cbn in *; lia].
Qed.

Example parent_path_example :
  parent_path (text "/var/log//app.log") = text "/var/log" /\ parent_path (text "/app.log") = text "/"
  /\ parent_path (path_append (text "/srv") (text "logs/app.log")) = text "/srv/logs"
  /\ parent_path (path_append (text "/srv") (text "/tmp/app.log")) = text "/tmp" /\ parent_path (text "app.log") = [].
Proof. by vm_compute. Qed.

(** What exists after a call, which ended or threw. *)
Definition made (p : list Z) (fs : FS) (r : res FS unit) : Prop := exists fs',
  (r = Ok tt fs' /\ is_Some (lstat fs' p) \/ r = Throw runtime_error fs')
  /\ forall q, is_Some (lstat fs q) -> is_Some (lstat fs' q).

Lemma create_directories_spec fuel p fs :
  access fs [slash] = true -> head p = Some slash -> (length p <= fuel)%nat -> made p fs (create_directories fuel p fs).
Proof.
  intros Hroot. revert p. induction fuel as [|fuel IH]; intros p Hp Hlen; [by destruct p; cbn in *; [|lia]|].
  cbn [create_directories]. destruct (access fs p) eqn:Ea.
  { exists fs. split; [left; split; [done|by apply access_exists]|done]. }
  assert (Hparent : made (parent_path p) fs (create_directories fuel (parent_path p) fs)).
  { destruct (parent_path_absolute p Hp) as [E|[Hh Hl]]; [|apply IH; [done|lia]]. rewrite E in *.
    destruct fuel as [|fuel]; [destruct p as [|c [|d p]]; cbn in *; [done| |lia]; congruence|].
    cbn. rewrite Hroot. exists fs. split; [left; split; [done|by apply access_exists]|done]. }
  unfold syscall, bind. destruct Hparent as (fs1 & [[-> _]| ->] & Hk); [|exists fs1; split; [by right|done]].
  destruct (mkdir fs1 p) as [b fs2] eqn:Em. pose proof (mkdir_keeps fs1 p) as Hkeep. rewrite Em in Hkeep.
  exists fs2. split; [|auto]. destruct b; [left|by right]. split; [done|by eapply mkdir_made].
Qed.

(** Note: from an absolute working directory [filePathCheck] always ends; when it
    returns, the directory of the file exists, and it never removes anything. *)
Theorem filePathCheck_spec fs current filePath :
  access fs [slash] = true -> head current = Some slash ->
  made (parent_path (path_append current filePath)) fs (filePathCheck current filePath fs).
Proof.
  intros Hroot Hc. unfold filePathCheck. destruct (access fs (parent_path _)) eqn:Ea; cbn [negb].
  { exists fs. split; [left; split; [done|by apply access_exists]|done]. }
  apply create_directories_spec; [done| |done].
  destruct (parent_path_absolute (path_append current filePath)) as [->|[? _]]; [|done|done].
  destruct current as [|c current]; [done|]. unfold path_append. destruct filePath as [|d filePath].
  - destruct (last (c :: current)) as [e|] eqn:El; [by case_match|by apply last_None in El].
  - destruct (Z.eqb_spec d slash) as [->|]; [done|].
    destruct (last (c :: current)) as [e|] eqn:El; [by case_match|by apply last_None in El].
Qed.

(** ** Removing *)

Lemma unlink_call fs p :
  exists b fs', FSUtil_Unlink p false fs = Ok b fs' /\ (b = true -> lstat fs' p = None) /\
    (forall q, lstat fs q = None -> lstat fs' q = None) /\ (forall q, depth fs' q <= depth fs q)%nat.
Proof.
  unfold FSUtil_Unlink. cbn [negb]. case_bool_decide as E; cbn.
  - unfold syscall. destruct (unlink fs p) as [b fs'] eqn:Hu. exists b, fs'. split_and!; [done| | |].
    + intros ->. by eapply unlink_gone.
    + intros q Hq. pose proof (unlink_none fs p q Hq) as H. by rewrite Hu in H.
    + intros q. pose proof (unlink_depth fs p q) as H. by rewrite Hu in H.
  - exists true, fs. split_and!; [done|by intros _; apply eq_None_not_Some|done|done].
Qed.

(** What a recursive removal promises. *)
Definition removes (m : M FS bool) (p : list Z) (fs : FS) : Prop :=
  exists b fs', m fs = Ok b fs' /\ (b = true -> lstat fs' p = None) /\
    (forall q, lstat fs q = None -> lstat fs' q = None) /\ (forall q, depth fs' q <= depth fs q)%nat.

Lemma remove_entries fuel path (es : list (list Z * dtype)) ret fs :
  (forall q fs, (depth fs q < fuel)%nat -> removes (FSUtil_Rm fuel q) q fs) ->
  (forall name t, (name, t) ∈ es -> is_dot name = false -> (depth fs (sub_path path name) < fuel)%nat) ->
  exists b fs', fold_each (fun ret dp =>
      if is_dot dp.1 then mreturn ret else FSUtil_Rm fuel (sub_path path dp.1)) es ret fs = Ok b fs' /\
    (forall q, lstat fs q = None -> lstat fs' q = None) /\ (forall q, depth fs' q <= depth fs q)%nat.
Proof.
  intros Hrec. revert ret fs. induction es as [|[name t] es IH]; intros ret fs Hd; [by exists ret, fs|].
  cbn [fold_each fst]. destruct (is_dot name) eqn:Hn.
  - unfold bind, mreturn at 1. apply IH. intros; eapply Hd; [by right|done].
  - destruct (Hrec (sub_path path name) fs) as (b & fs1 & Hr & _ & Hk & Hdep); [eapply Hd; [left|done]|].
    destruct (IH b fs1) as (b2 & fs2 & H2 & Hk2 & Hd2).
    { intros n' t' Hin Hn'. pose proof (Hd n' t' ltac:(by right) Hn'). specialize (Hdep (sub_path path n')). lia. }
    exists b2, fs2. unfold bind at 1. rewrite Hr. split_and!; [done|auto|].
    intros q. specialize (Hdep q). specialize (Hd2 q). lia.
Qed.

Lemma Rm_removes fuel path fs : (depth fs path < fuel)%nat -> removes (FSUtil_Rm fuel path) path fs.
Proof.
  revert path fs. induction fuel as [|fuel IH]; intros path fs Hf; [lia|]. unfold removes. cbn [FSUtil_Rm].
  destruct (lstat fs path) as [st|] eqn:Hl; [|by exists true, fs].
  destruct (_ =? 0); [apply unlink_call|].
  destruct (readdir fs path) as [es|] eqn:Hr; [|by exists false, fs].
  destruct (remove_entries fuel path es true fs IH) as (b & fs1 & H1 & Hk1 & Hd1).
  { intros name t Hin Hn. pose proof (depth_entry fs path es name t Hr Hin Hn). lia. }
  unfold bind at 1. rewrite H1. unfold bind at 1, syscall. destruct (rmdir fs1 path) as [r fs2] eqn:Hrm.
  exists (if r then b else false), fs2. split_and!; [done| | |].
  - intros Hb. destruct r; [|done]. by eapply rmdir_gone.
  - intros q Hq. pose proof (rmdir_none fs1 path q (Hk1 q Hq)) as H. by rewrite Hrm in H.
  - intros q. pose proof (rmdir_depth fs1 path q) as H. rewrite Hrm in H. cbn in H. specialize (Hd1 q). lia.
Qed.

(** Removing and moving: [Rm] always returns; when it answers [true] the
    path is gone, and nothing appears.  [Mv] and [Symlink] remove the target
    before they try: when the rename or the link then fails, the answer is
    [false] and the target is lost. *)
Theorem Remove_spec fs path :
  (exists b fs', FSUtil_Remove path fs = Ok b fs' /\ (b = true -> lstat fs' path = None) /\
    forall q, lstat fs q = None -> lstat fs' q = None) /\
  forall from,
    match FSUtil_Mv from path fs with
    | Ok true fs' => exists fs1, lstat fs1 path = None /\ rename fs1 from path = (true, fs')
    | Ok false fs' => (exists fs1, lstat fs1 path = None /\ rename fs1 from path = (false, fs')) \/
        FSUtil_Remove path fs = Ok false fs'
    | _ => False
    end.
Proof.
  destruct (Rm_removes (S (depth fs path)) path fs) as (b & fs' & Hr & Hg & Hk & _); [lia|].
  split; [by exists b, fs'|]. intros from. unfold FSUtil_Mv, bind. unfold FSUtil_Remove at 1. rewrite Hr.
  destruct b; cbn.
  - unfold syscall. destruct (rename fs' from path) as [[] fs2] eqn:E; [|left]; exists fs'; auto.
  - by right.
Qed.
End fsutil_facts.

(** The test for a directory also takes sockets and block devices, whose modes
    contain its bit: they cannot be opened as directories, and stay. *)
Definition S_IFSOCK : Z := 49152.
Lemma Rm_leaves_socket `{F : Files} fs path st :
  lstat fs path = Some st -> st_mode st = Z.lor S_IFSOCK 511 -> readdir fs path = None ->
  FSUtil_Remove path fs = Ok false fs.
Proof.
  intros Hl Hm Hr. unfold FSUtil_Remove. cbn [FSUtil_Rm]. rewrite Hl, Hm, Hr. done.
Qed.

(** ** A small file system *)

(** Paths with their types; the directory of a file is its [Dirname]. *)
Definition flat := list (list Z * dtype).
Definition flat_lstat (fs : flat) (p : list Z) : option Stat :=
  if bool_decide (p = []) then None else
  match assoc p fs with
  | Some DT_DIR => Some (mkStat (S_IFDIR + 493) 1)
  | Some _ => Some (mkStat (32768 + 420) 1)
  | None => None
  end.
Fixpoint strip (pre s : list Z) : option (list Z) :=
  match pre, s with
  | [], s => Some s
  | x :: pre, y :: s => if x =? y then strip pre s else None
  | _ :: _, [] => None
  end.
Definition child_name (p : list Z) (e : list Z * dtype) : option (list Z * dtype) :=
  match strip (p ++ [slash]) e.1 with
  | Some r => if bool_decide (slash ∈ r) then None else Some (r, e.2)
  | None => None
  end.
Definition flat_children (fs : flat) (p : list Z) : list (list Z * dtype) := omap (child_name p) fs.
Definition flat_remove (fs : flat) (p : list Z) : flat := List.filter (fun e => negb (bool_decide (e.1 = p))) fs.
Definition longest (fs : flat) : nat := foldr (fun e n => Nat.max (length e.1) n) O fs.

#[export] Instance FlatFiles : Files := {
  FS := flat;
  access fs p := bool_decide (is_Some (flat_lstat fs p));
  lstat := flat_lstat;
  readdir fs p :=
    match assoc p fs with
    | Some DT_DIR => Some ((text ".", DT_DIR) :: (text "..", DT_DIR) :: flat_children fs p)
    | _ => None
    end;
  mkdir fs p :=
    if bool_decide (p <> [] /\ flat_lstat fs p = None) then (true, (p, DT_DIR) :: fs) else (false, fs);
  unlink fs p :=
    match assoc p fs with
    | Some DT_REG | Some DT_OTHER => (true, flat_remove fs p)
    | _ => (false, fs)
    end;
  rmdir fs p :=
    if bool_decide (assoc p fs = Some DT_DIR /\ flat_children fs p = []) then (true, flat_remove fs p)
    else (false, fs);
  rename fs a b :=
    match assoc a fs with Some t => (true, (b, t) :: flat_remove fs a) | None => (false, fs) end;
  symlink fs a b := (true, (b, DT_OTHER) :: fs);
  realpath fs p := Some p;
  open_read fs p := bool_decide (is_Some (assoc p fs));
  open_write fs p := (true, (p, DT_REG) :: fs);
  first_line fs p := None;
  kill pid := false;
  depth fs p := (S (longest fs) - length p)%nat
}.

Lemma strip_app pre s r : strip pre s = Some r -> s = pre ++ r.
Proof.
  revert s. induction pre as [|x pre IH]; intros s H; cbn in *; [by injection H as ->|].
  destruct s as [|y s]; [done|]. destruct (Z.eqb_spec x y) as [->|]; [|done]. by rewrite (IH s H).
Qed.

Lemma longest_elem (fs : flat) e : e ∈ fs -> (length e.1 <= longest fs)%nat.
Proof. unfold longest. induction 1; cbn; lia. Qed.

Lemma flat_remove_longest fs p : (longest (flat_remove fs p) <= longest fs)%nat.
Proof.
  unfold longest, flat_remove. induction fs as [|e fs IH]; cbn; [done|].
  case_bool_decide; cbn; lia.
Qed.

Lemma assoc_remove (fs : flat) p q : assoc q (flat_remove fs p) = if decide (q = p) then None else assoc q fs.
Proof.
  unfold flat_remove. induction fs as [|[k t] fs IH]; cbn; [by case_decide|].
  case_bool_decide; cbn; rewrite IH; repeat case_decide; subst; done.
Qed.

Lemma flat_remove_gone fs p : flat_lstat (flat_remove fs p) p = None.
Proof. unfold flat_lstat. case_bool_decide; [done|]. by rewrite assoc_remove, decide_True. Qed.
Lemma flat_remove_none fs p q : flat_lstat fs q = None -> flat_lstat (flat_remove fs p) q = None.
Proof.
  unfold flat_lstat. case_bool_decide; [done|]. rewrite assoc_remove. case_decide; [done|].
  by destruct (assoc q fs) as [[]|].
Qed.

#[export] Instance FlatFilesLaws : FilesLaws FlatFiles.
Proof.
  split; cbn.
  - intros fs p es name t Hr Hin Hn. destruct (assoc p fs) as [[]|]; try done. injection Hr as <-.
    rewrite !elem_of_cons in Hin. destruct Hin as [[= -> ->]|[[= -> ->]|Hin]]; [done..|].
    apply list_elem_of_omap in Hin as ([q t'] & Hq & Hc). unfold child_name in Hc. cbn in Hc.
    destruct (strip _ q) as [r|] eqn:Es; [|done]. case_bool_decide; [done|]. injection Hc as -> ->.
    apply strip_app in Es. apply longest_elem in Hq. subst q. unfold sub_path.
    cbn in Hq. rewrite !length_app in *. cbn in *. lia.
  - intros fs p q. pose proof (flat_remove_longest fs p).
    destruct (assoc p fs) as [[]|]; cbn [snd]; lia.
  - intros fs p q. pose proof (flat_remove_longest fs p). case_bool_decide; cbn [snd]; lia.
  - intros fs p fs' H. destruct (assoc p fs) as [[]|]; try done; injection H as <-; apply flat_remove_gone.
  - intros fs p fs' H. case_bool_decide; [|done]. injection H as <-. apply flat_remove_gone.
  - intros fs p q H. destruct (assoc p fs) as [[]|]; cbn; auto using flat_remove_none.
  - intros fs p q H. case_bool_decide; cbn; auto using flat_remove_none.
  - intros fs p fs' H. case_bool_decide as E; [|done]. injection H as <-. destruct E as [Hp _].
    unfold flat_lstat. rewrite bool_decide_eq_false_2 by done. cbn. rewrite decide_True by done. by eexists.
  - intros fs p q H. case_bool_decide; [|done]. cbn. unfold flat_lstat in *. destruct (bool_decide (q = [])); [by destruct H|].
    cbn. case_decide; [by eexists|done].
  - intros fs p H. by apply bool_decide_eq_true in H.
  - done.
Qed.

Definition example_files : FS :=
  [(text "/c", DT_DIR); (text "/c/a.yml", DT_REG); (text "/c/d", DT_DIR); (text "/c/d/b.yml", DT_REG);
   (text "/c/readme", DT_REG)].

Lemma ListAllFile_example :
  exists l, FSUtil_ListAllFile 20 (text "/c") (text ".yml") [] example_files = Ok ([] ++ l) example_files /\
    l = [text "/c/a.yml"; text "/c/d/b.yml"].
Proof.
  destruct (ListAllFile_spec 20 example_files (text "/c") (text ".yml") []) as (l & Hl & _).
  - vm_compute. lia.
  - exists l. split; [exact Hl|]. revert Hl. vm_compute. by intros [= <-].
Defined.

Lemma Mkdir_spec_witness :
  exists fs', FSUtil_Mkdir (text "/c/x/y") example_files = Ok true fs' /\ is_Some (lstat fs' (text "/c/x")).
Proof.
  pose proof (Mkdir_spec example_files (text "/c/x/y")) as H.
  destruct (FSUtil_Mkdir (text "/c/x/y") example_files) as [[] fs'| | | | |] eqn:E; try done.
  exists fs'. split; [done|]. destruct H as (_ & _ & Ht & _).
  destruct (proj2 (Ht eq_refl)) as [[_ []]|Ha]; [done|]. by apply (Ha (text "/c/x") (text "y")).
Defined.

Lemma Remove_spec_witness :
  exists fs1 fs', lstat fs1 (text "/c/d") = None /\ rename fs1 (text "/nothing") (text "/c/d") = (false, fs').
Proof.
  destruct (Remove_spec example_files (text "/c/d")) as [_ Hmv]. specialize (Hmv (text "/nothing")).
  destruct (FSUtil_Mv (text "/nothing") (text "/c/d") example_files) as [[] fs'| | | | |] eqn:E; try done.
  destruct Hmv as [(fs1 & H1 & H2)|H].
  - by exists fs1, fs'.
  - exfalso. revert H. vm_compute. done.
Defined.
