(* ===== verification/Env.v ===== *)
(** * The environment and configuration directories (util/env.h, env.cc, config/config.cc)

    The class [Env]: the arguments of the program, its help texts and its paths;
    and [Config::LoadFromConfDir], which finds the files of a directory and loads
    those that have changed.  What [readlink] says of /proc/<pid>/exe, the
    environment and the files are parameters. *)
From S2P Require Import Prelude.
From S2P Require Import Text.
From S2P Require Import Yaml.
From S2P Require Import LexicalCast.
From S2P Require Import Config.
From S2P Require Import FSUtil.

(** ** [Env] *)

Record Env := mkEnv {
  m_args : gmap (list Z) (list Z);
  m_helps : list (list Z * list Z);
  m_program : list Z;
  m_exe : list Z;
  m_cwd : list Z
}.
Definition set_args (a : gmap (list Z) (list Z)) (e : Env) : Env :=
  mkEnv a (m_helps e) (m_program e) (m_exe e) (m_cwd e).
Definition set_helps (h : list (list Z * list Z)) (e : Env) : Env :=
  mkEnv (m_args e) h (m_program e) (m_exe e) (m_cwd e).

Definition Env_add (key val : list Z) : M Env unit := modify (fun e => set_args (<[key := val]> (m_args e)) e).
Definition Env_has (key : list Z) : M Env bool := gets (fun e => bool_decide (is_Some (m_args e !! key))).
Definition Env_del (key : list Z) : M Env unit := modify (fun e => set_args (delete key (m_args e)) e).
Definition Env_get (key default_value : list Z) : M Env (list Z) :=
  gets (fun e => default default_value (m_args e !! key)).

(** [if(now_key) add(now_key, "")] *)
Definition add_key (now_key : option (list Z)) : M Env unit :=
  match now_key with Some k => Env_add k [] | None => mreturn tt end.

(** The loop over [argv[1]], [argv[2]], ...; the character at index 0 of an
    empty argument is its terminator. *)
Fixpoint parse_args (now_key : option (list Z)) (argv : list (list Z)) : M Env bool :=
  match argv with
  | [] => add_key now_key ;;; mreturn true
  | arg :: argv =>
      if bool_decide (head arg = Some 45) then
        if (1 <? length arg)%nat then
          add_key now_key ;;; parse_args (Some (tail arg)) argv
        else mreturn false
      else
        match now_key with
        | Some k => Env_add k arg ;;; parse_args None argv
        | None => mreturn false
        end
  end.

(** [path], the buffer of 1024 zeros filled by [readlink], as a C string: a
    longer target leaves it without a terminator. *)
Definition exe_path (link : option (list Z)) : M Env (list Z) :=
  match link with
  | None => mreturn []
  | Some target => if (length target <? 1024)%nat then mreturn (c_str target) else ub
  end.
(** [exe.substr(0, exe.find_last_of("/")) + "/"] *)
Definition dir_of (exe : list Z) : list Z :=
  match rfind slash exe with Some pos => take pos exe | None => exe end ++ [slash].

(** [init(argc, argv)] *)
Definition Env_init (link : option (list Z)) (argv : list (list Z)) : M Env bool :=
  exe <-- exe_path link ;;
  modify (fun e => mkEnv (m_args e) (m_helps e) (m_program e) exe (dir_of exe)) ;;;
  program <-- deref (head argv) ;;
  modify (fun e => mkEnv (m_args e) (m_helps e) program (m_exe e) (m_cwd e)) ;;;
  parse_args None (tail argv).

Definition Env_removeHelp (key : list Z) : M Env unit :=
  modify (fun e => set_helps (filter (fun i => i.1 <> key) (m_helps e)) e).
Definition Env_addHelp (key desc : list Z) : M Env unit :=
  Env_removeHelp key ;;; modify (fun e => set_helps (m_helps e ++ [(key, desc)]) e).
(** What [printHelp] writes. *)
Definition Env_printHelp : M Env (list Z) := gets (fun e =>
  text "Usage: " ++ m_program e ++ text " [options]" ++ [10] ++
  concat (map (fun i => text "    -" ++ i.1 ++ text " : " ++ i.2 ++ [10]) (m_helps e))).

(** [getEnv] over what [getenv] answers. *)
Definition Env_getEnv (getenv : list Z -> option (list Z)) (key default_value : list Z) : list Z :=
  match getenv key with None => default_value | Some v => v end.

(** [bool Env::setEnv(key, val)]; [setenv] replaces the value and returns 0, or
    another number. *)
Definition Env_setEnv {E} (setenv : list Z -> list Z -> E -> Z * E) (key val : list Z) : M E bool := fun e =>
  let '(r, e) := setenv (c_str key) (c_str val) e in Ok (r =? 0) e.

Definition Env_getAbsolutePath (e : Env) (path : list Z) : list Z :=
  match path with
  | [] => text "/"
  | c :: _ => if c =? slash then path else m_cwd e ++ path
  end.
Definition Env_getConfigPath : M Env (list Z) :=
  p <-- Env_get (text "c") (text "conf") ;; gets (fun e => Env_getAbsolutePath e p).

(** [getAbsoluteWorkPath]: [cached] is the static [g_server_work_path], unset
    before the first call; [string_base] is [std::string] among the base types
    and [get_string] its values. *)
Section work_path.
Context `{Y : Yaml, L : Lexical, HO : !HashOrder, CB : !Listeners}.
Context (string_base : base) (get_string : value -> list Z).
Definition Env_getAbsoluteWorkPath (cached : option (option nat)) (path : list Z)
    : M Config (list Z * option (option nat)) :=
  match path with
  | [] => mreturn (text "/", cached)
  | c :: _ =>
      if c =? slash then mreturn (path, cached) else
      g <-- match cached with
            | Some g => mreturn g
            | None => Config_Lookup_name (Base string_base) (text "server.work_path")
            end ;;
      p <-- deref g ;;
      v <-- ConfigVar_getValue p ;;
      mreturn (get_string v ++ [slash] ++ path, Some g)
  end.
End work_path.

(** ** [Config::LoadFromConfDir] *)

Section confdir.
Context `{Y : Yaml, L : Lexical, HO : !HashOrder, CB : !Listeners, F : Files}.
(** [YAML::LoadFile] *)
Context (LoadFile : FS -> list Z -> option Node).

(** [s_file2modifytime[i]] and the assignment to it *)
Fixpoint mtime_assign (i : list Z) (t : Z) (l : list (list Z * Z)) : list (list Z * Z) :=
  match l with
  | [] => [(i, t)]
  | (k, x) :: l => if decide (i = k) then (i, t) :: l else (k, x) :: mtime_assign i t l
  end.
Definition mtime_get (i : list Z) : M Config Z := fun s =>
  match assoc i (s_file2modifytime s) with
  | Some t => Ok t s
  | None => Ok 0 (set_mtimes (mtime_assign i 0 (s_file2modifytime s)) s)
  end.

(** The load of a file that has changed *)
Definition load_changed (fs : FS) (i : list Z) (st : Stat) : M Config unit :=
  modify (fun s => set_mtimes (mtime_assign i (u64 (st_mtime st)) (s_file2modifytime s)) s) ;;;
  try_any
    (root <-- yaml_call (LoadFile fs i) ;;
     Config_LoadFromYaml root ;;;
     log_record (LLoadOk i))
    (log_record (LLoadFailed i)).
(** The body of the loop over the files *)
Definition load_file (fs : FS) (force : bool) (i : list Z) : M Config unit :=
  st <-- deref (lstat fs i) ;;
  skip <-- (if force then mreturn false else
            t <-- mtime_get i ;; mreturn (t =? u64 (st_mtime st))) ;;
  if skip : bool then mreturn tt else load_changed fs i st.

Definition Config_LoadFromConfDir (e : Env) (fs : FS) (path : list Z) (force : bool) : M Config unit :=
  fun s =>
  let absoulte_path := Env_getAbsolutePath e path in
  match FSUtil_ListAllFile (S (depth fs absoulte_path)) absoulte_path (text ".yml") [] fs with
  | Ok files _ => for_each (load_file fs force) files s
  | _ => NoFuel
  end.
End confdir.
