(* ===== verification/EnvFacts.v ===== *)
(** * Facts about the environment and configuration directories

    The argument parser accepts exactly the sequences of options and stores
    their values; a directory that has not changed is not loaded again. *)
From S2P Require Import Prelude.
From S2P Require Import Text.
From S2P Require Import Yaml.
From S2P Require Import LexicalCast.
From S2P Require Import LexicalCastFacts.
From S2P Require Import Config.
From S2P Require Import ConfigFacts.
From S2P Require Import FSUtil.
From S2P Require Import FSUtilFacts.
From S2P Require Import Env.

(** ** Arguments *)

(** An option: a key and perhaps a value.  On the command line the key follows a
    minus sign and a value does not start with one. *)
Definition opt := (list Z * option (list Z))%type.
Definition opt_ok (o : opt) : Prop :=
  o.1 <> [] /\ forall v, o.2 = Some v -> head v <> Some 45.
Definition write_opt (o : opt) : list (list Z) :=
  (45 :: o.1) :: match o.2 with Some v => [v] | None => [] end.
Definition write_opts (os : list opt) : list (list Z) := concat (map write_opt os).
Definition store_opt (a : gmap (list Z) (list Z)) (o : opt) : gmap (list Z) (list Z) :=
  <[o.1 := default [] o.2]> a.
Definition store_opts (os : list opt) (a : gmap (list Z) (list Z)) : gmap (list Z) (list Z) :=
  fold_left store_opt os a.

Lemma set_args_twice a b e : set_args a (set_args b e) = set_args a e.
Proof. done. Qed.
Lemma set_args_same e : set_args (m_args e) e = e.
Proof. by destruct e. Qed.

(** A key that waits for its value gets the empty one before the next option. *)
Lemma parse_pending k os e :
  Forall opt_ok os ->
  parse_args (Some k) (write_opts os) e = parse_args None (write_opts os) (set_args (<[k := []]> (m_args e)) e).
Proof.
  intros H. destruct H as [|[key v] os [Hk Hv] Hos]; [done|]. cbn in *.
  by destruct key as [|c key].
Qed.

Lemma parse_write os e :
  Forall opt_ok os -> parse_args None (write_opts os) e = Ok true (set_args (store_opts os (m_args e)) e).
Proof.
  intros H. revert e. induction H as [|[key v] os [Hk Hv] Hos IH]; intros e; [by destruct e|].
  cbn in Hk, Hv. destruct key as [|c key]; [done|]. destruct v as [v|].
  - change (write_opts _) with ((45 :: c :: key) :: v :: write_opts os). cbn [parse_args].
    rewrite bool_decide_eq_true_2 by done. cbn [length Nat.ltb Nat.leb tail add_key].
    unfold bind at 1, mreturn at 1. rewrite bool_decide_eq_false_2 by (by apply Hv).
    unfold bind at 1, Env_add at 1, modify at 1. by rewrite IH.
  - change (write_opts _) with ((45 :: c :: key) :: write_opts os). cbn [parse_args].
    rewrite bool_decide_eq_true_2 by done. cbn [length Nat.ltb Nat.leb tail add_key].
    unfold bind at 1, mreturn at 1. rewrite parse_pending by done. by rewrite IH.
Qed.

(** What is accepted is a sequence of options. *)
Lemma parse_accepts nk args e e' :
  (forall k, nk = Some k -> k <> []) -> parse_args nk args e = Ok true e' ->
  exists os, Forall opt_ok os /\ (match nk with None => args | Some k => (45 :: k) :: args end) = write_opts os.
Proof.
  revert nk e. induction args as [|arg args IH]; intros nk e Hk H.
  - destruct nk as [k|]; [|by exists []]. exists [(k, None)]. split; [|done].
    constructor; [|done]. split; [by apply Hk|done].
  - cbn [parse_args] in H. case_bool_decide as Ha.
    + destruct arg as [|c arg]; [done|]. injection Ha as ->. cbn [length tail] in H.
      destruct (Nat.ltb_spec 1 (S (length arg))) as [Hl|Hl]; [|done].
      assert (arg <> []) by (intros ->; cbn in Hl; lia).
      apply bind_Ok_inv in H as ([] & e1 & _ & H).
      apply IH in H as (os & Hos & Heq); [|by intros k [= <-]].
      destruct nk as [k|]; [|by exists os]. exists ((k, None) :: os). split.
      * constructor; [|done]. split; [by apply Hk|done].
      * cbn. by rewrite Heq.
    + destruct nk as [k|]; [|done]. apply bind_Ok_inv in H as ([] & e1 & _ & H).
      apply IH in H as (os & Hos & Heq); [|done]. exists ((k, Some arg) :: os). split.
      * constructor; [|done]. split; [by apply Hk|]. by intros v [= <-].
      * cbn. by rewrite Heq.
Qed.

Lemma parse_total nk args e : exists b e', parse_args nk args e = Ok b e' /\
  m_program e' = m_program e /\ m_exe e' = m_exe e /\ m_cwd e' = m_cwd e /\ m_helps e' = m_helps e.
Proof.
  revert nk e. induction args as [|arg args IH]; intros nk e; cbn [parse_args].
  - destruct nk; cbn; by eexists _, _.
  - assert (Hadd : forall nk, exists e1, add_key nk e = Ok tt e1 /\ m_program e1 = m_program e /\
      m_exe e1 = m_exe e /\ m_cwd e1 = m_cwd e /\ m_helps e1 = m_helps e) by (intros []; by eexists).
    case_bool_decide.
    + destruct (_ <? _)%nat; [|by eexists _, _]. destruct (Hadd nk) as (e1 & Ha & ? & ? & ? & ?).
      destruct (IH (Some (tail arg)) e1) as (b & e' & Hp & ? & ? & ? & ?). exists b, e'.
      mrun Ha. split_and!; congruence.
    + destruct nk as [k|]; [|by eexists _, _].
      destruct (IH None (set_args (<[k := arg]> (m_args e)) e)) as (b & e' & Hp & ? & ? & ? & ?).
      exists b, e'. split_and!; [exact Hp|done..].
Qed.

(** C40 (program arguments): [init] returns whenever the path of the executable
    fits its buffer; it accepts the arguments exactly when they are a sequence of
    options, each a minus sign with a key and perhaps a value without one, and
    then each key is stored with its value, the last one counting, or with the
    empty text. *)
Theorem init_parses_options target prog args e :
  (length target < 1024)%nat ->
  exists b e', Env_init (Some target) (prog :: args) e = Ok b e' /\
    m_program e' = prog /\ m_exe e' = c_str target /\ m_cwd e' = dir_of (c_str target) /\
    (b = true <-> exists os, Forall opt_ok os /\ args = write_opts os) /\
    (forall os, Forall opt_ok os -> args = write_opts os -> m_args e' = store_opts os (m_args e)).
Proof.
  intros Ht. unfold Env_init, exe_path. apply Nat.ltb_lt in Ht. rewrite Ht. cbn [head tail].
  set (e1 := mkEnv (m_args e) (m_helps e) prog (c_str target) (dir_of (c_str target))).
  destruct (parse_total None args e1) as (b & e' & H & Hp & He & Hc & _).
  exists b, e'. split_and!; [exact H|done..| |].
  - split.
    + intros ->. by apply parse_accepts in H.
    + intros (os & Hos & ->). rewrite parse_write in H by done. by injection H.
  - intros os Hos ->. rewrite parse_write in H by done. injection H as _ <-. done.
Qed.

Definition empty_env : Env := mkEnv ∅ [] [] [] [].

Lemma init_parses_options_witness :
  exists e', Env_init (Some (text "/opt/srv/server")) [text "server"; text "-c"; text "conf"; text "-d"] empty_env
    = Ok true e' /\ m_args e' !! text "c" = Some (text "conf") /\ m_args e' !! text "d" = Some [].
Proof.
  destruct (init_parses_options (text "/opt/srv/server") (text "server") [text "-c"; text "conf"; text "-d"]
    empty_env) as (b & e' & H & _ & _ & _ & Hb & Ha); [vm_compute; lia|].
  assert (Hos : Forall opt_ok [(text "c", Some (text "conf")); (text "d", None)]).
  { repeat constructor; try done; by intros v [= <-]. }
  exists e'. rewrite (Ha _ Hos eq_refl). split; [|done].
  rewrite H. f_equal. apply Hb. by eexists.
Defined.

(** Relative paths are taken from the directory of the executable; absolute ones
    are kept. *)
Lemma absolute_path e path :
  head (m_cwd e) = Some slash ->
  head (Env_getAbsolutePath e path) = Some slash /\
  Env_getAbsolutePath e (Env_getAbsolutePath e path) = Env_getAbsolutePath e path.
Proof.
  intros Hc. assert (Hs : head (Env_getAbsolutePath e path) = Some slash).
  { unfold Env_getAbsolutePath. destruct path as [|c path]; [done|].
    destruct (Z.eqb_spec c slash) as [->|]; [done|]. by destruct (m_cwd e). }
  split; [done|]. destruct (Env_getAbsolutePath e path) as [|c q] eqn:E; [done|].
  injection Hs as ->. done.
Qed.

(** [addHelp] leaves one text for its key, at the end. *)
Lemma addHelp_spec key desc e :
  exists e', Env_addHelp key desc e = Ok tt e' /\
    m_helps e' = filter (fun i => i.1 <> key) (m_helps e) ++ [(key, desc)].
Proof. by eexists. Qed.

(** ** Configuration directories *)

Section confdir_facts.
Context `{Y : Yaml, L : Lexical, HO : !HashOrder, CB : !Listeners, F : Files}.
Context `{LL : !LexicalLaws L, YL : !YamlLaws Y, FL : !FilesLaws F}.
Context (LoadFile : FS -> list Z -> option Node).
Implicit Types (s : Config) (i : list Z).

(** Computations that leave [s_file2modifytime] alone. *)
Definition keeps_mtimes {A} (m : M Config A) : Prop := forall s,
  match m s with
  | Ok _ s' | Throw _ s' => s_file2modifytime s' = s_file2modifytime s
  | _ => True
  end.

Lemma mtimes_bind {A B} (m : M Config A) (k : A -> M Config B) :
  keeps_mtimes m -> (forall a, keeps_mtimes (k a)) -> keeps_mtimes (bind m k).
Proof.
  intros Hm Hk s. specialize (Hm s). unfold bind. destruct (m s) as [a s'|e s'| | | |]; try done.
  specialize (Hk a s'). destruct (k a s'); congruence.
Qed.
Lemma mtimes_lift {A} (r : exn + A) : keeps_mtimes (lift r).
Proof. intros s. by destruct r. Qed.
Lemma mtimes_return {A} (a : A) : keeps_mtimes (mreturn a).
Proof. done. Qed.
Lemma mtimes_var p : keeps_mtimes (var p).
Proof. intros s. unfold var, deref. by destruct (heap s !! p). Qed.
Lemma mtimes_try_std {A} (m : M Config A) h :
  keeps_mtimes m -> (forall e, keeps_mtimes (h e)) -> keeps_mtimes (try_std m h).
Proof.
  intros Hm Hh s. specialize (Hm s). unfold try_std. destruct (m s) as [a s'|e s'| | | |]; try done.
  destruct e; try done; match goal with |- context[h ?e s'] => specialize (Hh e s'); destruct (h e s') end;
    congruence.
Qed.
Lemma mtimes_for_each {A} (body : A -> M Config unit) l :
  (forall a, keeps_mtimes (body a)) -> keeps_mtimes (for_each body l).
Proof.
  intros Hb. induction l as [|x l IH]; [done|]. intros s. cbn [for_each]. by apply mtimes_bind.
Qed.
Lemma mtimes_fold_each {A B} (body : A -> B -> M Config A) l a :
  (forall a b, keeps_mtimes (body a b)) -> keeps_mtimes (fold_each body l a).
Proof.
  intros Hb. revert a. induction l as [|x l IH]; intros a; [done|]. intros s. cbn [fold_each].
  by apply mtimes_bind.
Qed.

Lemma mtimes_setValue p v : keeps_mtimes (ConfigVar_setValue p v).
Proof.
  apply mtimes_bind; [apply mtimes_var|]. intros x. destruct (value_eqb _ _ _); [done|].
  apply mtimes_bind; [|done]. apply mtimes_for_each. intros i. apply mtimes_bind; [apply mtimes_var|].
  intros y s. by destruct (call i.2 (m_val y) v (world s)) as [w [e|]].
Qed.
Lemma mtimes_fromString p str : keeps_mtimes (ConfigVar_fromString p str).
Proof.
  apply mtimes_bind; [apply mtimes_var|]. intros x. apply mtimes_bind; [|done].
  apply mtimes_try_std; [|done]. apply mtimes_bind; [apply mtimes_lift|]. intros v. apply mtimes_setValue.
Qed.
Lemma mtimes_ListAllMember fuel prefix node out : keeps_mtimes (ListAllMember fuel prefix node out).
Proof.
  revert prefix node out. induction fuel as [|fuel IH]; intros prefix node out; [done|].
  cbn [ListAllMember]. destruct (negb (valid_name prefix)).
  - apply mtimes_bind; [apply mtimes_lift|done].
  - destruct (IsMap node); [|done]. apply mtimes_fold_each. intros a b.
    apply mtimes_bind; [apply mtimes_lift|auto].
Qed.
Lemma mtimes_LoadFromYaml root : keeps_mtimes (Config_LoadFromYaml root).
Proof.
  apply mtimes_bind; [apply mtimes_ListAllMember|]. intros l. apply mtimes_for_each. intros i.
  unfold load_member. case_bool_decide; [done|]. apply mtimes_bind; [done|]. intros [p|]; [|done].
  destruct (IsScalar i.2); (apply mtimes_bind; [apply mtimes_lift|]; intros str;
    apply mtimes_bind; [apply mtimes_fromString|done]).
Qed.

(** ** The cache of modification times *)

Lemma assoc_mtime_assign i t l j :
  assoc j (mtime_assign i t l) = if decide (j = i) then Some t else assoc j l.
Proof.
  induction l as [|[k x] l IH]; cbn; [done|].
  destruct (decide (i = k)) as [->|Hk]; cbn; rewrite ?IH; repeat case_decide; subst; done.
Qed.

(** A file is up to date when its recorded time is its modification time. *)
Definition up_to_date (fs : FS) s i : Prop :=
  exists st, lstat fs i = Some st /\ assoc i (s_file2modifytime s) = Some (u64 (st_mtime st)).

Lemma mtime_get_spec s i :
  exists t s', mtime_get i s = Ok t s' /\ heap s' = heap s /\ datas s' = datas s /\
    assoc i (s_file2modifytime s') = Some t /\
    (forall t', assoc i (s_file2modifytime s) = Some t' -> t = t' /\ s' = s) /\
    forall j, j <> i -> assoc j (s_file2modifytime s') = assoc j (s_file2modifytime s).
Proof.
  unfold mtime_get. destruct (assoc i (s_file2modifytime s)) as [t|] eqn:E.
  - exists t, s. split_and!; [done..| |done]. by intros t' [= ->].
  - eexists 0, _. split_and!; [reflexivity|done|done| |done|]; cbn.
    + by rewrite assoc_mtime_assign, decide_True.
    + intros j Hj. by rewrite assoc_mtime_assign, decide_False.
Qed.

(** What holds of a file that was loaded from [s]. *)
Definition file_loaded (fs : FS) i s s' : Prop :=
  config_ok s' /\ up_to_date fs s' i /\
  forall j, j <> i -> assoc j (s_file2modifytime s') = assoc j (s_file2modifytime s).

Lemma load_changed_spec fs i st s :
  config_ok s -> lstat fs i = Some st ->
  exists s', load_changed LoadFile fs i st s = Ok tt s' /\ file_loaded fs i s s'.
Proof.
  intros Hs Hst. unfold load_changed, bind at 1, modify at 1. set (s2 := set_mtimes _ s).
  destruct (same_vars s s2) as [Hs2 _]; [done..|].
  assert (Hend : forall s3 r, config_ok s3 -> s_file2modifytime s3 = s_file2modifytime s2 ->
    exists s', log_record r s3 = Ok tt s' /\ file_loaded fs i s s').
  { intros s3 r Hs3 Hk. eexists. split; [reflexivity|].
    match goal with |- file_loaded _ _ _ ?s' => destruct (same_vars s3 s') as [H3 _]; [done..|] end.
    split_and!; [done| |].
    - exists st. split; [done|]. cbn. by rewrite Hk; cbn; rewrite assoc_mtime_assign, decide_True.
    - intros j Hne. cbn. by rewrite Hk; cbn; rewrite assoc_mtime_assign, decide_False. }
  unfold try_any, bind at 1, yaml_call. destruct (LoadFile fs i) as [root|]; cbn [yaml lift]; [|by apply Hend].
  unfold mreturn, bind. pose proof (safe_LoadFromYaml s2 root Hs2) as Hsafe.
  pose proof (mtimes_LoadFromYaml root s2) as Hk. unfold safe in Hsafe.
  destruct (Config_LoadFromYaml root s2) as [[] s3|e s3| | | |]; try done.
  - destruct (Hend s3 (LLoadOk i)) as (s' & -> & ?); [apply Hsafe|done|]. by exists s'.
  - apply Hend; [apply Hsafe|done].
Qed.

(** One file: it is up to date afterwards, and nothing happens when it was. *)
Lemma load_file_spec fs force s i :
  config_ok s -> is_Some (lstat fs i) ->
  exists s', load_file LoadFile fs force i s = Ok tt s' /\ file_loaded fs i s s' /\
    (force = false -> up_to_date fs s i -> s' = s).
Proof.
  intros Hs [st Hst]. unfold load_file. rewrite Hst. unfold bind, deref. destruct force; cbn.
  - destruct (load_changed_spec fs i st s Hs Hst) as (s' & H & Hl). by exists s'.
  - destruct (mtime_get_spec s i) as (t & s1 & -> & Hh & Hd & Ht & Hsame & Hj). cbn.
    destruct (same_vars s s1 Hh Hd Hs) as [Hs1 _].
    destruct (Z.eqb_spec t (u64 (st_mtime st))) as [->|Hne].
    + exists s1. split_and!; [done|split_and!; [done|by exists st|done]|].
      intros _ (st' & Hst' & Hu). simplify_eq. by destruct (Hsame _ Hu).
    + destruct (load_changed_spec fs i st s1 Hs1 Hst) as (s' & H & H1 & H2 & H3). exists s'.
      split_and!; [done|split_and!; [done|done|]|].
      * intros j Hne'. by rewrite H3, Hj.
      * intros _ (st' & Hst' & Hu). simplify_eq. by destruct (Hsame _ Hu).
Qed.

Lemma load_files_spec fs force files s :
  config_ok s -> (forall i, i ∈ files -> is_Some (lstat fs i)) ->
  exists s', for_each (load_file LoadFile fs force) files s = Ok tt s' /\ config_ok s' /\
    (forall i, i ∈ files \/ up_to_date fs s i -> up_to_date fs s' i) /\
    (force = false -> (forall i, i ∈ files -> up_to_date fs s i) -> s' = s).
Proof.
  revert s. induction files as [|i files IH]; intros s Hs Hex.
  { exists s. split_and!; [done|done| |done]. intros i [Hi|Hi]; [by apply not_elem_of_nil in Hi|done]. }
  destruct (load_file_spec fs force s i Hs) as (s1 & H1 & (Hs1 & Hu1 & Hj1) & Hsame1); [apply Hex; left|].
  destruct (IH s1 Hs1) as (s2 & H2 & Hs2 & Hu2 & Hsame2); [intros; apply Hex; by right|].
  exists s2. split_and!; [|done| |].
  - cbn [for_each]. by mrun H1.
  - intros j Hj. apply Hu2. destruct (decide (j = i)) as [->|Hne]; [by right|].
    destruct Hj as [Hj|(st & Hst & Ha)]; [left; set_solver|]. right. exists st. by rewrite Hj1.
  - intros Hf Hall. assert (s1 = s) as -> by (apply Hsame1; [done|apply Hall; left]).
    apply Hsame2; [done|]. intros j Hj. apply Hall. by right.
Qed.

(** Configuration directories: loading a directory always returns, whatever
    its files hold, and keeps the registry well typed; afterwards the recorded
    time of every file found is its modification time, so that loading the
    directory again without force changes nothing at all: even a file that
    could not be parsed is not tried again before it changes. *)
Theorem reload_unchanged e fs path force s :
  config_ok s ->
  (forall i, below fs (text ".yml") (Env_getAbsolutePath e path) i -> is_Some (lstat fs i)) ->
  exists s', Config_LoadFromConfDir LoadFile e fs path force s = Ok tt s' /\ config_ok s' /\
    (forall i, below fs (text ".yml") (Env_getAbsolutePath e path) i -> up_to_date fs s' i) /\
    Config_LoadFromConfDir LoadFile e fs path false s' = Ok tt s'.
Proof.
  intros Hs Hex. unfold Config_LoadFromConfDir. set (p := Env_getAbsolutePath e path) in *.
  destruct (ListAllFile_spec (S (depth fs p)) fs p (text ".yml") []) as (files & -> & Hf); [lia|].
  cbn [app]. assert (Hex' : forall i, i ∈ files -> is_Some (lstat fs i)) by (intros i Hi; by apply Hex, Hf).
  destruct (load_files_spec fs force files s Hs Hex') as (s1 & H1 & Hs1 & Hu1 & _).
  destruct (load_files_spec fs false files s1 Hs1 Hex') as (s2 & H2 & _ & _ & Hsame).
  exists s1. split_and!; [done|done| |].
  - intros i Hi. apply Hu1. left. by apply Hf.
  - rewrite H2. f_equal. apply Hsame; [done|]. intros i Hi. apply Hu1. by left.
Qed.
End confdir_facts.

(** ** A concrete directory *)

#[local] Existing Instance FrontOrder.
#[local] Existing Instance TraceListeners.

Definition conf_env : Env := mkEnv ∅ [] [] [] (text "/").
Definition conf_LoadFile (fs : FS) (i : list Z) : option Node :=
  if bool_decide (i = text "/c/a.yml") then Some example_document else None.

Lemma reload_unchanged_witness :
  exists s', Config_LoadFromConfDir conf_LoadFile conf_env example_files (text "c") false example_config = Ok tt s' /\
    Config_LoadFromConfDir conf_LoadFile conf_env example_files (text "c") false s' = Ok tt s' /\
    m_val <$> heap s' !! O = Some (int 5).
Proof.
  destruct (reload_unchanged conf_LoadFile conf_env example_files (text "c") false example_config)
    as (s' & H & _ & _ & H').
  - apply example_config_ok.
  - destruct (ListAllFile_spec 30 example_files (text "/c") (text ".yml") []) as (l & Hl & Hb); [vm_compute; lia|].
    intros i Hi. apply Hb in Hi. assert (l = [text "/c/a.yml"; text "/c/d/b.yml"]) as ->
      by (revert Hl; vm_compute; by intros [= <-]).
    repeat (apply elem_of_cons in Hi as [->|Hi]; [by eexists|]). by apply not_elem_of_nil in Hi.
  - exists s'. split; [exact H|]. split; [exact H'|].
    assert (Hv : match Config_LoadFromConfDir conf_LoadFile conf_env example_files (text "c") false example_config with
      | Ok _ s => m_val <$> heap s !! O | _ => None end = Some (int 5)) by (vm_compute; reflexivity).
    by rewrite H in Hv.
Defined.
