(* ===== verification/Address.v ===== *)
(** * Socket addresses (src/src/socket/address.h, address.cpp)

    The [sockaddr] structures field by field with their object representation,
    the four classes of addresses as constructors of [Address], and every
    operation of the file.  [getaddrinfo], [inet_pton] and [getifaddrs] are
    parameters.  An operation that cannot change its object returns a value in
    the monad over [unit]; [setPort] and [setAddrLen] return the new object. *)
From S2P Require Import Prelude.
From S2P Require Import Endian Text.

(** Constants of <sys/socket.h> on Linux. *)
Definition AF_UNSPEC : Z := 0.
Definition AF_UNIX : Z := 1.
Definition AF_INET : Z := 2.
Definition AF_INET6 : Z := 10.

Abbreviation AM := (M unit).

(** ** Masks *)

(** [template<class T> T CreateMask(uint32_t bits)]: [1] is an [int], so a shift
    by 32 or more is undefined, and so is subtracting 1 from [1 << 31]. *)
Definition CreateMask (T : ctype) (bits : Z) : AM Z :=
  let count := u64 (ct_width T - bits) in
  if 31 <=? count then ub else mreturn (cast T (2 ^ count - 1)).

(** [template<class T> uint32_t CountBytes(T value)]; [fuel] bounds the loop. *)
Fixpoint CountBytes_loop (fuel : nat) (value result : Z) : AM Z :=
  match fuel with
  | O => nofuel
  | S fuel =>
      if value =? 0 then mreturn result
      else CountBytes_loop fuel (Z.land value (value - 1)) (result + 1)
  end.
Definition CountBytes (T : ctype) (value : Z) : AM Z :=
  CountBytes_loop (S (8 * ct_size T)) value 0.

(** ** The structures *)

Record sockaddr := mkSockaddr { sa_family : Z; sa_data : list Z (* 14 bytes *) }.
Record sockaddr_in := mkIn {
  sin_family : Z; sin_port : Z; s_addr : Z; sin_zero : list Z (* 8 bytes *)
}.
Record sockaddr_in6 := mkIn6 {
  sin6_family : Z; sin6_port : Z; sin6_flowinfo : Z; s6_addr : list Z (* 16 bytes *);
  sin6_scope_id : Z
}.
Record sockaddr_un := mkUn { sun_family : Z; sun_path : list Z (* 108 bytes *) }.

(** The classes derived from [Address]; a Unix address also has its length. *)
Inductive Address :=
| IPv4Address (m_addr : sockaddr_in)
| IPv6Address (m_addr : sockaddr_in6)
| UnixAddress (m_addr : sockaddr_un) (m_length : Z)
| UnknownAddress (m_addr : sockaddr).

Section address.
Context `{Target}.

(** [template byteswapOnLittleEndian] at the types of the file *)
Abbreviation swap16 := (byteswapOnLittleEndian uint16_t).
Abbreviation swap32 := (byteswapOnLittleEndian uint32_t).

(** ** Object representation *)

Definition in_bytes (a : sockaddr_in) : list Z :=
  obj_bytes uint16_t (sin_family a) ++ obj_bytes uint16_t (sin_port a)
  ++ obj_bytes uint32_t (s_addr a) ++ sin_zero a.
Definition in6_bytes (a : sockaddr_in6) : list Z :=
  obj_bytes uint16_t (sin6_family a) ++ obj_bytes uint16_t (sin6_port a)
  ++ obj_bytes uint32_t (sin6_flowinfo a) ++ s6_addr a ++ obj_bytes uint32_t (sin6_scope_id a).
Definition un_bytes (a : sockaddr_un) : list Z := obj_bytes uint16_t (sun_family a) ++ sun_path a.
Definition sa_bytes (a : sockaddr) : list Z := obj_bytes uint16_t (sa_family a) ++ sa_data a.

(** Reading a structure through a pointer to its bytes. *)
Definition as_sockaddr (b : list Z) : sockaddr := mkSockaddr (obj_value uint16_t (slice b 0 2)) (slice b 2 14).
Definition as_in (b : list Z) : sockaddr_in :=
  mkIn (obj_value uint16_t (slice b 0 2)) (obj_value uint16_t (slice b 2 2))
    (obj_value uint32_t (slice b 4 4)) (slice b 8 8).
Definition as_in6 (b : list Z) : sockaddr_in6 :=
  mkIn6 (obj_value uint16_t (slice b 0 2)) (obj_value uint16_t (slice b 2 2))
    (obj_value uint32_t (slice b 4 4)) (slice b 8 16) (obj_value uint32_t (slice b 24 4)).

(** [getAddr()]: the bytes of the object; [getAddrLen()]. *)
Definition getAddr (a : Address) : list Z :=
  match a with
  | IPv4Address m => in_bytes m
  | IPv6Address m => in6_bytes m
  | UnixAddress m _ => un_bytes m
  | UnknownAddress m => sa_bytes m
  end.
Definition getAddrLen (a : Address) : Z :=
  match a with
  | IPv4Address _ => 16
  | IPv6Address _ => 28
  | UnixAddress _ n => n
  | UnknownAddress _ => 16
  end.

(** [int getFamily()] *)
Definition getFamily (a : Address) : Z :=
  match a with
  | IPv4Address m => sin_family m
  | IPv6Address m => sin6_family m
  | UnixAddress m _ => sun_family m
  | UnknownAddress m => sa_family m
  end.

(** [memcmp(a, b, n)]: its sign; reading beyond an object is undefined. *)
Definition memcmp (a b : list Z) (n : Z) : AM comparison :=
  if (Z.of_nat (length a) <? n) || (Z.of_nat (length b) <? n) then ub
  else mreturn (bytes_cmp (take (Z.to_nat n) a) (take (Z.to_nat n) b)).

(** [bool operator<(const Address& rhs)] *)
Definition Address_lt (a rhs : Address) : AM bool :=
  let mn := Z.min (getAddrLen a) (getAddrLen rhs) in
  result <-- memcmp (getAddr a) (getAddr rhs) mn ;;
  mreturn (match result with
           | Lt => true
           | Gt => false
           | Eq => if getAddrLen a <? getAddrLen rhs then true else false
           end).
(** [operator==], [operator!=] *)
Definition Address_eq (a rhs : Address) : AM bool :=
  if negb (getAddrLen a =? getAddrLen rhs) then mreturn false else
  result <-- memcmp (getAddr a) (getAddr rhs) (getAddrLen a) ;;
  mreturn (match result with Eq => true | _ => false end).
Definition Address_ne (a rhs : Address) : AM bool := b <-- Address_eq a rhs ;; mreturn (negb b).

(** [Address::Create(const sockaddr* addr, socklen_t addrlen)]: [addr] points to
    the given bytes. *)
Definition Address_Create (addr : option (list Z)) : AM (option Address) :=
  match addr with
  | None => mreturn None
  | Some b =>
      if (length b <? 16)%nat then ub else
      let result := UnknownAddress (as_sockaddr b) in
      let family := obj_value uint16_t (slice b 0 2) in
      if family =? AF_INET then mreturn (Some (IPv4Address (as_in b)))
      else if family =? AF_INET6 then
        if (length b <? 28)%nat then ub else mreturn (Some (IPv6Address (as_in6 b)))
      else mreturn (Some result)
  end.

(** ** IPv4 *)

(** [IPv4Address(uint32_t address, uint16_t port)] *)
Definition new_IPv4Address (address port : Z) : sockaddr_in :=
  mkIn AF_INET (swap16 port) (swap32 address) (replicate 8 0).

Definition IPv4Address_getPort (m : sockaddr_in) : Z := swap16 (sin_port m).
Definition IPv4Address_setPort (v : Z) (m : sockaddr_in) : sockaddr_in :=
  mkIn (sin_family m) (swap16 v) (s_addr m) (sin_zero m).
Definition set_s_addr (v : Z) (m : sockaddr_in) : sockaddr_in :=
  mkIn (sin_family m) (sin_port m) v (sin_zero m).

(** [print]; the arguments of the shifts and masks as in the code *)
Definition IPv4Address_print (m : sockaddr_in) : list Z :=
  let addr := swap32 (s_addr m) in
  dec (Z.land (Z.shiftr addr 24) 255) ++ text "."
  ++ dec (Z.land (Z.shiftr addr 16) 255) ++ text "."
  ++ dec (Z.land (Z.shiftr addr 8) 255) ++ text "."
  ++ dec (Z.land addr 255) ++ text ":" ++ dec (swap16 (sin_port m)).

Definition IPv4Address_broadcastAddress (prefix_len : Z) (m : sockaddr_in) : AM (option sockaddr_in) :=
  if 32 <? prefix_len then mreturn None else
  mask <-- CreateMask uint32_t prefix_len ;;
  mreturn (Some (set_s_addr (Z.lor (s_addr m) (swap32 mask)) m)).
Definition IPv4Address_networkAddress (prefix_len : Z) (m : sockaddr_in) : AM (option sockaddr_in) :=
  if 32 <? prefix_len then mreturn None else
  mask <-- CreateMask uint32_t prefix_len ;;
  mreturn (Some (set_s_addr (Z.land (s_addr m) (swap32 mask)) m)).
Definition IPv4Address_subnetMask (prefix_len : Z) : AM sockaddr_in :=
  mask <-- CreateMask uint32_t prefix_len ;;
  mreturn (mkIn AF_INET 0 (u32 (Z.lnot (swap32 mask))) (replicate 8 0)).

(** ** IPv6 *)

(** [IPv6Address()] and [IPv6Address(const uint8_t address\[16\], uint16_t port)] *)
Definition new_IPv6Address : sockaddr_in6 := mkIn6 AF_INET6 0 0 (replicate 16 0) 0.
Definition new_IPv6Address_bytes (address : list Z) (port : Z) : sockaddr_in6 :=
  mkIn6 AF_INET6 (swap16 port) 0 address 0.

Definition IPv6Address_getPort (m : sockaddr_in6) : Z := swap16 (sin6_port m).
Definition IPv6Address_setPort (v : Z) (m : sockaddr_in6) : sockaddr_in6 :=
  mkIn6 (sin6_family m) (swap16 v) (sin6_flowinfo m) (s6_addr m) (sin6_scope_id m).
Definition set_s6_addr (v : list Z) (m : sockaddr_in6) : sockaddr_in6 :=
  mkIn6 (sin6_family m) (sin6_port m) (sin6_flowinfo m) v (sin6_scope_id m).

(** [(uint16_t* )s6_addr]: the address as eight words in memory *)
Fixpoint words16 (b : list Z) : list Z :=
  match b with
  | x :: y :: b => obj_value uint16_t [x; y] :: words16 b
  | _ => []
  end.

(** The loop of [print]: [i = 0] is [first], [prev] is [addr\[i - 1\]]. *)
Fixpoint print6_loop (first : bool) (prev : Z) (used_zeros : bool) (addr : list Z) (os : list Z)
  : bool * list Z :=
  match addr with
  | [] => (used_zeros, os)
  | w :: addr =>
      if (w =? 0) && negb used_zeros then print6_loop false w used_zeros addr os else
      let '(used_zeros, os) :=
        if negb first && (prev =? 0) && negb used_zeros then (true, os ++ text ":")
        else (used_zeros, os) in
      let os := if negb first then os ++ text ":" else os in
      print6_loop false w used_zeros addr (os ++ hex (swap16 w))
  end.
Definition IPv6Address_print (m : sockaddr_in6) : list Z :=
  let addr := words16 (s6_addr m) in
  let '(used_zeros, os) := print6_loop true 0 false addr (text "[") in
  let os := if negb used_zeros && (nth 7 addr 0 =? 0) then os ++ text "::" else os in
  os ++ text "]:" ++ dec (swap16 (sin6_port m)).

(** [for(int i = k + 1; i < 16; ++i) s6_addr\[i\] = v] and
    [for(i = 0; i < k; ++i) s6_addr\[i\] = v] *)
Definition store_all (ix : list nat) (v : Z) (l : list Z) : list Z :=
  foldl (fun l i => <[i := v]> l) l ix.

Definition IPv6Address_broadcastAddress (prefix_len : Z) (m : sockaddr_in6) : AM sockaddr_in6 :=
  let k := Z.to_nat (prefix_len / 8) in
  mask <-- CreateMask uint8_t (prefix_len mod 8) ;;
  b <-- deref (s6_addr m !! k) ;;
  let l := <[k := Z.lor b mask]> (s6_addr m) in
  mreturn (set_s6_addr (store_all (seq (k + 1) (16 - (k + 1))) 255 l) m).
Definition IPv6Address_networkAddress (prefix_len : Z) (m : sockaddr_in6) : AM (option sockaddr_in6) :=
  if 32 <? prefix_len then mreturn None else
  let k := Z.to_nat (prefix_len / 8) in
  mask <-- CreateMask uint8_t (prefix_len mod 8) ;;
  b <-- deref (s6_addr m !! k) ;;
  let l := <[k := Z.land b mask]> (s6_addr m) in
  mreturn (Some (set_s6_addr (store_all (seq (k + 1) (16 - (k + 1))) 0 l) m)).
Definition IPv6Address_subnetMask (prefix_len : Z) : AM sockaddr_in6 :=
  let k := Z.to_nat (prefix_len / 8) in
  mask <-- CreateMask uint8_t (prefix_len mod 8) ;;
  _ <-- deref (replicate 16 0 !! k) ;;
  let l := <[k := u8 (Z.lnot mask)]> (replicate 16 0) in
  mreturn (set_s6_addr (store_all (seq 0 k) 255 l) new_IPv6Address).

(** ** Unix and unknown addresses *)

(** [offsetof(sockaddr_un, sun_path)], [sizeof(sun_path)], [MAX_PATH_LEN] *)
Definition sun_offset : Z := 2.
Definition sun_path_size : Z := 108.
Definition MAX_PATH_LEN : Z := sun_path_size - 1.

Definition new_UnixAddress : Address :=
  UnixAddress (mkUn AF_UNIX (replicate 108 0)) (u32 (sun_offset + MAX_PATH_LEN)).

(** [UnixAddress(const std::string& path)]; the string is followed by a NUL. *)
Definition new_UnixAddress_path (path : list Z) : AM Address :=
  let m_length := u32 (Z.of_nat (length path) + 1) in
  let m_length := match path with 0 :: _ => u32 (m_length - 1) | _ => m_length end in
  if sun_path_size <? m_length then throw logic_error else
  mreturn (UnixAddress
    (mkUn AF_UNIX (splice (replicate 108 0) 0 (take (Z.to_nat m_length) (path ++ [0]))))
    (u32 (m_length + sun_offset))).

(** [setAddrLen(uint32_t v)] *)
Definition UnixAddress_setAddrLen (v : Z) (a : Address) : Address :=
  match a with UnixAddress m _ => UnixAddress m v | _ => a end.

(** [std::string(sun_path + 1, n)] and [os << sun_path]; both undefined beyond
    the array. *)
Definition path_string (m : sockaddr_un) (n : Z) : AM (list Z) :=
  if sun_path_size - 1 <? n then ub else mreturn (take (Z.to_nat n) (drop 1 (sun_path m))).
Definition path_c_str (m : sockaddr_un) : AM (list Z) :=
  match find_char 0 (sun_path m) with
  | None => ub
  | Some i => mreturn (take i (sun_path m))
  end.

(** [std::string getPath()] and [print]: the same text *)
Definition UnixAddress_getPath (m : sockaddr_un) (m_length : Z) : AM (list Z) :=
  if (sun_offset <? m_length) && (nth 0 (sun_path m) 0 =? 0) then
    s <-- path_string m (m_length - sun_offset - 1) ;;
    mreturn (text "\0" ++ s)
  else path_c_str m.
Definition UnixAddress_print (m : sockaddr_un) (m_length : Z) : AM (list Z) :=
  if (sun_offset <? m_length) && (nth 0 (sun_path m) 0 =? 0) then
    s <-- path_string m (m_length - sun_offset - 1) ;;
    mreturn (text "\0" ++ s)
  else path_c_str m.

(** [UnknownAddress(int family)] *)
Definition new_UnknownAddress (family : Z) : Address :=
  UnknownAddress (mkSockaddr (u16 family) (replicate 14 0)).
Definition UnknownAddress_print (m : sockaddr) : list Z :=
  text "[UnknownAddress family=" ++ dec (sa_family m) ++ text "]".

(** [toString()] and [operator<<] *)
Definition Address_toString (a : Address) : AM (list Z) :=
  match a with
  | IPv4Address m => mreturn (IPv4Address_print m)
  | IPv6Address m => mreturn (IPv6Address_print m)
  | UnixAddress m n => UnixAddress_print m n
  | UnknownAddress m => mreturn (UnknownAddress_print m)
  end.

(** ** Names *)

(** What [Lookup] passes to [getaddrinfo]: the node and the service. *)
Definition Lookup_split (host : list Z) : list Z * option (list Z) :=
  let '(node, service) :=
    match host with
    | 91 (* '[' *) :: rest =>
        match find_char 93 (* ']' *) rest with
        | Some i =>
            (take i rest,
             match drop (S i) rest with
             | 58 (* ':' *) :: s => Some s
             | _ => None
             end)
        | None => ([], None)
        end
    | _ => ([], None)
    end in
  let '(node, service) :=
    match node with
    | [] =>
        match find_char 58 host with
        | Some i => (take i host, Some (drop (S i) host))
        | None => ([], None)
        end
    | _ => (node, service)
    end in
  match node with
  | [] => (host, service)
  | _ => (node, service)
  end.

(** [getaddrinfo(node, service, {flags, family, type, protocol})]: the error and
    the list of addresses, each the bytes it points to. *)
Context (getaddrinfo : list Z -> option (list Z) -> Z * Z * Z * Z -> Z * list (option (list Z))).
Definition AI_NUMERICHOST : Z := 4.

Fixpoint Create_all (l : list (option (list Z))) (result : list (option Address))
  : AM (list (option Address)) :=
  match l with
  | [] => mreturn result
  | x :: l => a <-- Address_Create x ;; Create_all l (result ++ [a])
  end.

(** [bool Lookup(result, host, family, type, protocol)] *)
Definition Address_Lookup (result : list (option Address)) (host : list Z) (family type protocol : Z)
  : AM (bool * list (option Address)) :=
  let '(node, service) := Lookup_split host in
  let '(error, results) := getaddrinfo (c_str node) (c_str <$> service) (0, family, type, protocol) in
  if negb (error =? 0) then mreturn (false, result) else
  result <-- Create_all results result ;;
  mreturn (true, result).

Definition Address_LookupAny (host : list Z) (family type protocol : Z) : AM (option Address) :=
  r <-- Address_Lookup [] host family type protocol ;;
  if (r : bool * _).1 then a <-- deref (r.2 !! O) ;; mreturn a else mreturn None.

(** [std::dynamic_pointer_cast<IPAddress>] *)
Definition is_IPAddress (a : option Address) : bool :=
  match a with Some (IPv4Address _) | Some (IPv6Address _) => true | _ => false end.

(** [LookupAnyIPAddress]: without an IP address it ends without returning. *)
Definition Address_LookupAnyIPAddress (host : list Z) (family type protocol : Z) : AM (option Address) :=
  r <-- Address_Lookup [] host family type protocol ;;
  if (r : bool * _).1 then
    match List.find is_IPAddress r.2 with Some v => mreturn v | None => ub end
  else ub.

Definition IPAddress_getPort (a : Address) : Z :=
  match a with
  | IPv4Address m => IPv4Address_getPort m
  | IPv6Address m => IPv6Address_getPort m
  | _ => 0
  end.
Definition IPAddress_setPort (v : Z) (a : Address) : Address :=
  match a with
  | IPv4Address m => IPv4Address (IPv4Address_setPort v m)
  | IPv6Address m => IPv6Address (IPv6Address_setPort v m)
  | _ => a
  end.

(** [IPAddress::Create(const char* address, uint16_t port)]; [getaddrinfo]
    succeeds with at least one result, whose pointer is dereferenced. *)
Definition IPAddress_Create (address : list Z) (port : Z) : AM (option Address) :=
  let '(error, results) := getaddrinfo address None (AI_NUMERICHOST, AF_UNSPEC, 0, 0) in
  if negb (error =? 0) then mreturn None else
  x <-- deref (results !! O) ;;
  result <-- Address_Create x ;;
  mreturn (if is_IPAddress result then IPAddress_setPort port <$> result else None).

(** [inet_pton(family, address, dst)]: its return value and the bytes stored. *)
Context (inet_pton : Z -> list Z -> Z * list Z).

Definition IPv4Address_Create (address : list Z) (port : Z) : option sockaddr_in :=
  let rt := new_IPv4Address 0 0 in
  let rt := mkIn (sin_family rt) (swap16 port) (s_addr rt) (sin_zero rt) in
  let '(result, b) := inet_pton AF_INET address in
  if result <=? 0 then None else Some (set_s_addr (obj_value uint32_t b) rt).
Definition IPv6Address_Create (address : list Z) (port : Z) : option sockaddr_in6 :=
  let rt := IPv6Address_setPort port new_IPv6Address in
  let '(result, b) := inet_pton AF_INET6 address in
  if result <=? 0 then None else Some (set_s6_addr b rt).

(** ** Network interfaces *)

(** [struct ifaddrs] as [getifaddrs] gives it *)
Record ifaddrs := mkIfaddrs {
  ifa_name : list Z; ifa_addr : option (list Z); ifa_netmask : option (list Z)
}.
Abbreviation entry := (list Z * (option Address * Z))%type.

(** [std::multimap::insert]: behind the entries with the same key. *)
Fixpoint multimap_insert (e : entry) (l : list entry) : list entry :=
  match l with
  | [] => [e]
  | x :: l => if byte_lt e.1 x.1 then e :: x :: l else x :: multimap_insert e l
  end.

(** The sum of [CountBytes] over the sixteen bytes of a mask. *)
Fixpoint CountBytes_all (l : list Z) (acc : Z) : AM Z :=
  match l with
  | [] => mreturn acc
  | b :: l => n <-- CountBytes uint8_t b ;; CountBytes_all l (u32 (acc + n))
  end.

(** The body of the loop: the entry for one interface address, if any. *)
Definition interface_entry (family : Z) (it : ifaddrs) : AM (option entry) :=
  b <-- deref (ifa_addr it) ;;
  let fam := sa_family (as_sockaddr b) in
  if negb (family =? AF_UNSPEC) && negb (family =? fam) then mreturn None
  else if fam =? AF_INET then
    _addr <-- Address_Create (Some b) ;;
    nm <-- deref (ifa_netmask it) ;;
    prefix_len <-- CountBytes uint32_t (s_addr (as_in nm)) ;;
    mreturn (match _addr with Some _ => Some (ifa_name it, (_addr, prefix_len)) | None => None end)
  else if fam =? AF_INET6 then
    _addr <-- Address_Create (Some b) ;;
    nm <-- deref (ifa_netmask it) ;;
    prefix_len <-- CountBytes_all (s6_addr (as_in6 nm)) 0 ;;
    mreturn (match _addr with Some _ => Some (ifa_name it, (_addr, prefix_len)) | None => None end)
  else mreturn None.

Fixpoint interfaces_loop (family : Z) (l : list ifaddrs) (result : list entry) : AM (list entry) :=
  match l with
  | [] => mreturn result
  | it :: l =>
      e <-- interface_entry family it ;;
      interfaces_loop family l (match e with Some e => multimap_insert e result | None => result end)
  end.

(** [getifaddrs]: its return value and the interfaces. *)
Context (getifaddrs : Z * list ifaddrs).

Definition Address_GetInterfaceAddresses (result : list entry) (family : Z) : AM (bool * list entry) :=
  if negb (getifaddrs.1 =? 0) then mreturn (false, result) else
  result <-- interfaces_loop family getifaddrs.2 result ;;
  mreturn (true, result).

Definition Address_GetInterfaceByName (result : list (option Address * Z)) (iface : list Z) (family : Z)
  : AM (bool * list (option Address * Z)) :=
  if bool_decide (iface = []) || bool_decide (iface = text "*") then
    let result := if (family =? AF_INET) || (family =? AF_UNSPEC)
      then result ++ [(Some (IPv4Address (new_IPv4Address 0 0)), 0)] else result in
    let result := if (family =? AF_INET6) || (family =? AF_UNSPEC)
      then result ++ [(Some (IPv6Address new_IPv6Address), 0)] else result in
    mreturn (true, result)
  else
    r <-- Address_GetInterfaceAddresses [] family ;;
    if negb (r : bool * _).1 then mreturn (false, result) else
    mreturn (true, result ++ (snd <$> List.filter (fun e => bool_decide (e.1 = iface)) r.2)).
End address.
