(* ===== verification/AddressFacts.v ===== *)
(** * Facts about socket addresses

    The prefix operations bit by bit, the order of addresses, the text of an
    address, and how names, interfaces and raw bytes become addresses. *)
From S2P Require Import Prelude.
From S2P Require Import Endian StdSet Text Address.

(** [lia] knows quotients and remainders in this file. *)
#[local] Ltac Zify.zify_post_hook ::= Z.div_mod_to_equations.

(** ** Bits of swapped integers *)

Lemma testbit_cons b z i :
  is_byte b -> 0 <= i ->
  Z.testbit (b + 256 * z) i = if i <? 8 then Z.testbit b i else Z.testbit z (i - 8).
Proof.
  intros Hb Hi. red in Hb. destruct (Z.ltb_spec i 8).
  - rewrite <- (Z.mod_pow2_bits_low (b + 256 * z) 8) by lia.
    change (2 ^ 8) with 256. rewrite Z.mul_comm, Z_mod_plus_full, Z.mod_small by lia. done.
  - replace i with (i - 8 + 8) at 1 by lia. rewrite <- Z.div_pow2_bits by lia.
    change (2 ^ 8) with 256. rewrite Z.mul_comm, Z.div_add, Z.div_small by lia. done.
Qed.

Lemma testbit_le_join l i :
  Forall is_byte l -> 0 <= i ->
  Z.testbit (le_join l) i = Z.testbit (nth (Z.to_nat (i / 8)) l 0) (i mod 8).
Proof.
  intros Hl. revert i. induction Hl as [|b l Hb Hl IH]; intros i Hi; cbn [le_join].
  - destruct (Z.to_nat _); by rewrite !Z.testbit_0_l.
  - rewrite testbit_cons by done. destruct (Z.ltb_spec i 8).
    + rewrite Z.div_small, Z.mod_small by lia. done.
    + rewrite IH by lia. replace (i / 8) with (1 + (i - 8) / 8) by lia.
      rewrite Z2Nat.inj_add by lia. replace (i mod 8) with ((i - 8) mod 8) by lia. done.
Qed.

Lemma testbit_le_split n z k r :
  (k < n)%nat -> 0 <= r < 8 ->
  Z.testbit (nth k (le_split n z) 0) r = Z.testbit z (8 * Z.of_nat k + r).
Proof.
  revert z k. induction n as [|n IH]; intros z [|k] Hk Hr; try lia; cbn [le_split nth].
  - change 256 with (2 ^ 8). rewrite Z.mod_pow2_bits_low by lia. done.
  - rewrite IH by lia. change 256 with (2 ^ 8). rewrite Z.div_pow2_bits by lia.
    f_equal. lia.
Qed.

Lemma testbit_bswap n z i :
  0 <= i < 8 * Z.of_nat n ->
  Z.testbit (bswap n z) i = Z.testbit z (8 * (Z.of_nat n - 1 - i / 8) + i mod 8).
Proof.
  intros Hi. unfold bswap.
  rewrite testbit_le_join by first [lia | apply Forall_reverse_bytes, le_split_bytes].
  assert ((Z.to_nat (i / 8) < n)%nat) as Hk by lia.
  unfold reverse. rewrite <- rev_alt, rev_nth by (rewrite length_le_split; lia).
  rewrite length_le_split, testbit_le_split by lia. f_equal. lia.
Qed.

Lemma testbit_wrap w z i : 0 <= w -> 0 <= i ->
  Z.testbit (wrap w z) i = (i <? w) && Z.testbit z i.
Proof.
  intros Hw Hi. unfold wrap. case_bool; cbn.
  destruct (Z.ltb_spec i w); cbn; [by rewrite Z.mod_pow2_bits_low by lia|].
  by rewrite Z.mod_pow2_bits_high by lia.
Qed.

(** Bit [i] of a swapped word is the bit of the mirrored byte. *)
Definition mirror `{Target} (i : Z) : Z :=
  if target_big_endian then i else 8 * (3 - i / 8) + i mod 8.

Section addresses.
Context `{Target}.
Abbreviation swap32 := (byteswapOnLittleEndian uint32_t).

Lemma mirror_range i : 0 <= i < 32 -> 0 <= mirror i < 32.
Proof. unfold mirror. destruct target_big_endian; lia. Qed.

Lemma testbit_swap32 z i :
  0 <= i < 32 -> Z.testbit (swap32 z) i = Z.testbit z (mirror i).
Proof.
  intros Hi. unfold byteswapOnLittleEndian, mirror. destruct target_big_endian; [done|].
  unfold byteswap. change (cast uint32_t) with (wrap 32).
  change (ct_width uint32_t) with 32. change (ct_size uint32_t) with 4%nat. rewrite testbit_wrap by lia.
  assert ((i <? 32) = true) as -> by lia. cbn [andb].
  rewrite testbit_bswap by lia. rewrite testbit_wrap by lia.
  assert (8 * (Z.of_nat 4 - 1 - i / 8) + i mod 8 < 32) as Hlt by lia.
  by apply Z.ltb_lt in Hlt as ->.
Qed.

Lemma mirror_involutive i : 0 <= i < 32 -> mirror (mirror i) = i.
Proof. unfold mirror. destruct target_big_endian; lia. Qed.

Lemma swap32_range z : 0 <= z < 2 ^ 32 -> 0 <= swap32 z < 2 ^ 32.
Proof.
  intros Hz. unfold byteswapOnLittleEndian. destruct target_big_endian; [done|].
  apply (wrap_range 32). lia.
Qed.
End addresses.

Lemma word_bits n x y :
  0 <= n -> 0 <= x < 2 ^ n -> 0 <= y < 2 ^ n ->
  (forall i, 0 <= i < n -> Z.testbit x i = Z.testbit y i) -> x = y.
Proof.
  intros Hn Hx Hy Hb. rewrite <- (wrap_id n x), <- (wrap_id n y) by done.
  apply Z.bits_inj'. intros i Hi. rewrite !testbit_wrap by done.
  destruct (Z.ltb_spec i n); cbn; [apply Hb; lia|done].
Qed.

Lemma lor_range n x y : 0 <= n -> 0 <= x < 2 ^ n -> 0 <= y < 2 ^ n -> 0 <= Z.lor x y < 2 ^ n.
Proof.
  intros Hn Hx Hy. assert (Z.lor x y = wrap n (Z.lor x y)) as ->; [|by apply wrap_range].
  apply Z.bits_inj'. intros i Hi. rewrite testbit_wrap by lia.
  destruct (Z.ltb_spec i n); cbn; [done|]. rewrite Z.lor_spec.
  rewrite <- (wrap_id n x), <- (wrap_id n y), !testbit_wrap by lia.
  by assert ((i <? n) = false) as -> by lia.
Qed.

Lemma land_range n x y : 0 <= n -> 0 <= x < 2 ^ n -> 0 <= y -> 0 <= Z.land x y < 2 ^ n.
Proof.
  intros Hn Hx Hy. assert (Z.land x y = wrap n (Z.land x y)) as ->; [|by apply wrap_range].
  apply Z.bits_inj'. intros i Hi. rewrite testbit_wrap by lia.
  destruct (Z.ltb_spec i n); cbn; [done|]. rewrite Z.land_spec.
  rewrite <- (wrap_id n x), !testbit_wrap by lia.
  by assert ((i <? n) = false) as -> by lia.
Qed.

(** ** Counting the bits of a mask *)

Fixpoint pop (p : positive) : Z :=
  match p with xH => 1 | xO p => pop p | xI p => 1 + pop p end.
(** The number of bits set in a non-negative number. *)
Definition popcount (z : Z) : Z := match z with Zpos p => pop p | _ => 0 end.

(** [x & (x - 1)] clears the lowest bit set. *)
Lemma popcount_clear p : popcount (Z.land (Zpos p) (Zpos p - 1)) = pop p - 1
  /\ 0 <= Z.land (Zpos p) (Zpos p - 1).
Proof.
  split; [|apply Z.land_nonneg; lia].
  induction p as [p _|p IH|]; [| |done].
  - replace (Zpos p~1 - 1) with (Zpos p~0) by lia.
    change (pop p~1 - 1) with (1 + pop p - 1). replace (1 + pop p - 1) with (pop p) by lia.
    replace (Z.land (Zpos p~1) (Zpos p~0)) with (Zpos p~0); [done|].
    change (Zpos p~0) with (2 * Zpos p). change (Zpos p~1) with (2 * Zpos p + 1).
    apply Z.bits_inj'. intros i Hi. destruct (decide (i = 0)) as [->|].
    + by rewrite Z.land_spec, !Z.testbit_even_0, andb_false_r.
    + replace i with (Z.succ (i - 1)) by lia.
      rewrite Z.land_spec, !Z.testbit_even_succ, Z.testbit_odd_succ by lia.
      by rewrite andb_diag.
  - replace (Zpos p~0 - 1) with (2 * (Zpos p - 1) + 1) by lia.
    replace (Z.land (Zpos p~0) (2 * (Zpos p - 1) + 1)) with (2 * Z.land (Zpos p) (Zpos p - 1)).
    + cbn [pop]. rewrite <- IH. by destruct (Z.land (Zpos p) (Zpos p - 1)).
    + change (Zpos p~0) with (2 * Zpos p). apply Z.bits_inj'. intros i Hi.
      destruct (decide (i = 0)) as [->|].
      * rewrite Z.land_spec, !Z.testbit_even_0. done.
      * replace i with (Z.succ (i - 1)) by lia.
        by rewrite Z.land_spec, !Z.testbit_even_succ, Z.testbit_odd_succ, Z.land_spec by lia.
Qed.

Lemma pop_positive p : 1 <= pop p.
Proof. induction p; cbn; lia. Qed.

Lemma pop_size n p : Zpos p < 2 ^ Z.of_nat n -> pop p <= Z.of_nat n.
Proof.
  revert n. induction p as [p IH|p IH|]; intros [|n] Hn; cbn in Hn; try lia.
  - cbn [pop]. rewrite Nat2Z.inj_succ, Z.pow_succ_r in Hn by lia.
    assert (Zpos p < 2 ^ Z.of_nat n) as ?%IH by lia. lia.
  - cbn [pop]. rewrite Nat2Z.inj_succ, Z.pow_succ_r in Hn by lia.
    assert (Zpos p < 2 ^ Z.of_nat n) as ?%IH by lia. lia.
  - cbn. lia.
Qed.

Lemma CountBytes_loop_spec fuel v r u :
  0 <= v -> popcount v < Z.of_nat fuel -> CountBytes_loop fuel v r u = Ok (r + popcount v) u.
Proof.
  revert v r. induction fuel as [|fuel IH]; intros v r Hv Hf; cbn [CountBytes_loop].
  { destruct v as [|p|p]; cbn in Hf; [lia|pose proof (pop_positive p); lia|lia]. }
  destruct (Z.eqb_spec v 0) as [->|].
  - cbn. by rewrite Z.add_0_r.
  - destruct v as [|p|p]; try lia. destruct (popcount_clear p) as [Hp Hnn].
    rewrite IH; [rewrite Hp; f_equal; cbn; lia|done|rewrite Hp; cbn in Hf; lia].
Qed.

(** The loop of [CountBytes] ends and counts the bits set. *)
Lemma CountBytes_spec n v u :
  0 <= v < 2 ^ Z.of_nat (8 * n) -> CountBytes (CType n false) v u = Ok (popcount v) u.
Proof.
  intros Hv. unfold CountBytes. rewrite CountBytes_loop_spec; [done|lia|].
  cbn [ct_size]. destruct v as [|p|p]; cbn [popcount]; try lia.
  pose proof (pop_size (8 * n) p). lia.
Qed.

(** ** Prefixes *)

Lemma CreateMask_32 bits u :
  0 <= bits < 2 ^ 32 ->
  CreateMask uint32_t bits u = if (2 <=? bits) && (bits <=? 32) then Ok (2 ^ (32 - bits) - 1) u else Ub.
Proof.
  intros Hb. unfold CreateMask. change (ct_width uint32_t) with 32.
  destruct (Z.leb_spec bits 32).
  - rewrite (wrap_id 64) by lia. rewrite andb_true_r.
    destruct (Z.leb_spec 2 bits).
    + assert ((31 <=? 32 - bits) = false) as -> by lia. unfold mreturn. f_equal.
      change (cast uint32_t) with (wrap 32). apply wrap_id.
      pose proof (Z.pow_le_mono_r 2 (32 - bits) 31). pose proof (Z.pow_pos_nonneg 2 (32 - bits)). lia.
    + by assert ((31 <=? 32 - bits) = true) as -> by lia.
  - rewrite andb_false_r. assert (31 <= u64 (32 - bits)) as Hw by (unfold wrap; lia).
    by apply Z.leb_le in Hw as ->.
Qed.

Lemma CreateMask_8 bits u : 0 <= bits < 8 -> CreateMask uint8_t bits u = Ok (2 ^ (8 - bits) - 1) u.
Proof.
  intros Hb. assert (bits ∈ seqZ 0 8) as Hin by (apply elem_of_seqZ; lia).
  clear Hb. revert bits Hin. apply Forall_forall. repeat constructor; by destruct u.
Qed.

Lemma ones_bit n i : 0 <= n -> 0 <= i -> Z.testbit (2 ^ n - 1) i = (i <? n).
Proof.
  intros Hn Hi. rewrite Z.sub_1_r, <- Z.ones_equiv.
  destruct (Z.ltb_spec i n); [apply Z.ones_spec_low|apply Z.ones_spec_high]; lia.
Qed.

Section ipv4.
Context `{Target}.
Abbreviation swap32 := (byteswapOnLittleEndian uint32_t).

(** The address as a number, its first byte most significant. *)
Definition ip4 (m : sockaddr_in) : Z := swap32 (s_addr m).

Lemma ip4_lor m x :
  0 <= s_addr m < 2 ^ 32 -> 0 <= x < 2 ^ 32 ->
  ip4 (set_s_addr (Z.lor (s_addr m) (swap32 x)) m) = Z.lor (ip4 m) x.
Proof.
  intros Hm Hx. pose proof (swap32_range x Hx). pose proof (swap32_range _ Hm). unfold ip4.
  apply (word_bits 32); [lia|apply swap32_range, lor_range; lia|apply lor_range; lia|].
  intros i Hi. cbn [s_addr set_s_addr]. pose proof (mirror_range i Hi).
  by rewrite testbit_swap32, !Z.lor_spec, !testbit_swap32, mirror_involutive by done.
Qed.

Lemma ip4_land m x :
  0 <= s_addr m < 2 ^ 32 -> 0 <= x < 2 ^ 32 ->
  ip4 (set_s_addr (Z.land (s_addr m) (swap32 x)) m) = Z.land (ip4 m) x.
Proof.
  intros Hm Hx. pose proof (swap32_range x Hx). pose proof (swap32_range _ Hm). unfold ip4.
  apply (word_bits 32); [lia|apply swap32_range, land_range; lia|apply land_range; lia|].
  intros i Hi. cbn [s_addr set_s_addr]. pose proof (mirror_range i Hi).
  by rewrite testbit_swap32, !Z.land_spec, !testbit_swap32, mirror_involutive by done.
Qed.

(** The host part of an address under a prefix of [p] bits, and its network part. *)
Definition host_part (p a : Z) : Z := a mod 2 ^ (32 - p).
Definition network_part (p a : Z) : Z := a - host_part p a.

Lemma land_host p a : 0 <= p <= 32 -> Z.land a (2 ^ (32 - p) - 1) = host_part p a.
Proof. intros Hp. rewrite Z.sub_1_r, <- Z.ones_equiv. apply Z.land_ones. lia. Qed.

Lemma lor_host p a :
  0 <= p <= 32 -> Z.lor a (2 ^ (32 - p) - 1) = network_part p a + (2 ^ (32 - p) - 1).
Proof.
  intros Hp. unfold network_part, host_part. set (n := 32 - p). assert (0 <= n) by lia.
  assert (a - a mod 2 ^ n = Z.shiftl (a / 2 ^ n) n) as ->.
  { rewrite Z.shiftl_mul_pow2 by lia. pose proof (Z.div_mod a (2 ^ n)). lia. }
  rewrite <- (Z.add_lor_land (Z.shiftl _ _)).
  assert (Z.land (Z.shiftl (a / 2 ^ n) n) (2 ^ n - 1) = 0) as ->.
  { rewrite Z.sub_1_r, <- Z.ones_equiv, Z.land_ones by lia.
    rewrite Z.shiftl_mul_pow2 by lia. apply Z.mod_mul. lia. }
  rewrite Z.add_0_r. apply Z.bits_inj'. intros i Hi.
  rewrite !Z.lor_spec, ones_bit, Z.shiftl_spec by lia.
  destruct (Z.ltb_spec i n); [by rewrite !orb_true_r|]. rewrite !orb_false_r.
  rewrite Z.div_pow2_bits by lia. f_equal. lia.
Qed.

(** What [subnetMask] gives for one prefix, checked by evaluation for all. *)
Definition subnet_ok (p : Z) : bool :=
  match IPv4Address_subnetMask p tt with
  | Ok s _ =>
      (ip4 s =? 2 ^ 32 - 2 ^ (32 - p)) && (sin_family s =? AF_INET) && (sin_port s =? 0)
      && match CountBytes uint32_t (s_addr s) tt with Ok n _ => n =? p | _ => false end
  | _ => false
  end.
End ipv4.

Lemma subnet_all_ok (T : Target) p : 2 <= p <= 32 -> subnet_ok p = true.
Proof.
  intros Hp. assert (p ∈ seqZ 2 31) as Hin by (apply elem_of_seqZ; lia).
  assert (forallb subnet_ok (seqZ 2 31) = true) as Hall by (destruct T; vm_compute; reflexivity).
  rewrite forallb_forall in Hall. by apply Hall, list_elem_of_In.
Qed.

Lemma subnetMask_spec `{Target} p u :
  2 <= p <= 32 ->
  exists s, IPv4Address_subnetMask p u = Ok s u /\ ip4 s = 2 ^ 32 - 2 ^ (32 - p)
    /\ sin_family s = AF_INET /\ sin_port s = 0 /\ CountBytes uint32_t (s_addr s) u = Ok p u.
Proof.
  intros Hp%(subnet_all_ok _). destruct u. unfold subnet_ok in Hp.
  destruct (IPv4Address_subnetMask p tt) as [s []| | | | |]; try done. exists s.
  destruct (CountBytes uint32_t (s_addr s) tt) as [n []| | | | |]; try by rewrite andb_false_r in Hp.
  rewrite !andb_true_iff, !Z.eqb_eq in Hp. destruct Hp as [[[-> ->] ->] ->]. done.
Qed.

(** Note: IPv4 prefixes.  Take an address read as a number.  For a prefix of 2 to
    32 bits the subnet mask is that many ones, and [CountBytes], by which
    [GetInterfaceAddresses] turns a mask into a prefix length, gives the prefix
    back; the broadcast address keeps the network part and sets every bit of the
    host part; but [networkAddress] keeps the host part and clears the network
    part, the opposite of its name.  Prefixes 0 and 1 are undefined in all three
    operations (the mask's shift), prefixes above 32 give null, in [subnetMask]
    undefined behaviour. *)
Theorem ipv4_prefix `{Target} (p : Z) (m : sockaddr_in) (u : unit) :
  0 <= p < 2 ^ 32 -> 0 <= s_addr m < 2 ^ 32 ->
  (2 <= p <= 32 -> exists b n s,
     IPv4Address_broadcastAddress p m u = Ok (Some b) u
     /\ ip4 b = network_part p (ip4 m) + (2 ^ (32 - p) - 1)
     /\ IPv4Address_networkAddress p m u = Ok (Some n) u /\ ip4 n = host_part p (ip4 m)
     /\ sin_port b = sin_port m /\ sin_port n = sin_port m
     /\ IPv4Address_subnetMask p u = Ok s u /\ ip4 s = 2 ^ 32 - 2 ^ (32 - p)
     /\ CountBytes uint32_t (s_addr s) u = Ok p u)
  /\ (p < 2 -> IPv4Address_broadcastAddress p m u = Ub
       /\ IPv4Address_networkAddress p m u = Ub /\ IPv4Address_subnetMask p u = Ub)
  /\ (32 < p -> IPv4Address_broadcastAddress p m u = Ok None u
       /\ IPv4Address_networkAddress p m u = Ok None u /\ IPv4Address_subnetMask p u = Ub).
Proof.
  intros Hp Hm. unfold IPv4Address_broadcastAddress, IPv4Address_networkAddress.
  split_and!; intros Hr.
  - destruct (subnetMask_spec p u Hr) as (s & Hs & Hip & _ & _ & Hcount).
    assert (Hmask : CreateMask uint32_t p u = Ok (2 ^ (32 - p) - 1) u).
    { rewrite CreateMask_32 by done.
      by assert ((2 <=? p) && (p <=? 32) = true) as -> by lia. }
    assert (0 <= 2 ^ (32 - p) - 1 < 2 ^ 32) as Hb.
    { pose proof (Z.pow_le_mono_r 2 (32 - p) 32). pose proof (Z.pow_pos_nonneg 2 (32 - p)). lia. }
    assert ((32 <? p) = false) as -> by lia. rewrite !(bind_Ok _ _ _ _ _ Hmask).
    do 3 eexists. split_and!; try done.
    + rewrite ip4_lor by done. apply lor_host. lia.
    + rewrite ip4_land by done. apply land_host. lia.
  - assert ((32 <? p) = false) as -> by lia. unfold IPv4Address_subnetMask, bind.
    rewrite !CreateMask_32 by done. by assert ((2 <=? p) = false) as -> by lia.
  - assert ((32 <? p) = true) as -> by lia. unfold IPv4Address_subnetMask, bind.
    rewrite !CreateMask_32 by done. assert ((p <=? 32) = false) as -> by lia.
    by rewrite andb_false_r.
Qed.

(** 192.168.1.77 with port 80 on a little-endian machine *)
Definition ip_example : sockaddr_in := @new_IPv4Address little_endian_target 3232235853 80.

Lemma ipv4_prefix_witness :
  exists b n, @IPv4Address_broadcastAddress little_endian_target 24 ip_example tt = Ok (Some b) tt
    /\ @IPv4Address_print little_endian_target b = text "192.168.1.255:80"
    /\ @IPv4Address_networkAddress little_endian_target 24 ip_example tt = Ok (Some n) tt
    /\ @IPv4Address_print little_endian_target n = text "0.0.0.77:80".
Proof.
  destruct (@ipv4_prefix little_endian_target 24 ip_example tt ltac:(lia) ltac:(by vm_compute))
    as [H1 _].
  destruct (H1 ltac:(lia)) as (b & n & s & Hb & _ & Hn & _).
  exists b, n. split; [exact Hb|]. vm_compute in Hb, Hn. injection Hb as <-. injection Hn as <-.
  by vm_compute.
Defined.

(** ** IPv6 prefixes *)

(** Bit [j] of an address, from the most significant bit of the first byte. *)
Definition addr_bit (l : list Z) (j : Z) : bool :=
  Z.testbit (default 0 (l !! Z.to_nat (j / 8))) (7 - j mod 8).

Lemma length_store_all ix v l : length (store_all ix v l) = length l.
Proof.
  unfold store_all. revert l. induction ix as [|i ix IH]; intros l; cbn; [done|].
  by rewrite IH, length_insert.
Qed.

Lemma lookup_store_all a n v l i :
  (i < length l)%nat ->
  store_all (seq a n) v l !! i = if decide (a <= i < a + n)%nat then Some v else l !! i.
Proof.
  unfold store_all. revert a l. induction n as [|n IH]; intros a l Hi; cbn.
  - by destruct (decide _); [lia|].
  - rewrite IH by (by rewrite length_insert).
    destruct (decide (S a <= i < S a + n)%nat), (decide (a <= i < a + S n)%nat); try lia; [done| |].
    + assert (i = a) as -> by lia. by apply list_lookup_insert_eq.
    + apply list_lookup_insert_ne. lia.
Qed.

Lemma bit_255 i : 0 <= i < 8 -> Z.testbit 255 i = true.
Proof. intros Hi. change 255 with (2 ^ 8 - 1). rewrite ones_bit by lia. lia. Qed.

(** The byte of bit [j] in an address changed in byte [k] and behind it. *)
Lemma lookup_tail k v w l i :
  length l = 16%nat -> (k < 16)%nat -> (i < 16)%nat ->
  store_all (seq (k + 1) (16 - (k + 1))) w (<[k := v]> l) !! i =
    if decide (i < k)%nat then l !! i else if decide (i = k) then Some v else Some w.
Proof.
  intros Hl Hk Hi. rewrite lookup_store_all by (rewrite length_insert; lia).
  destruct (decide (k + 1 <= i < k + 1 + (16 - (k + 1)))%nat), (decide (i < k)%nat),
    (decide (i = k)); try lia; try done.
  - apply list_lookup_insert_ne. lia.
  - subst. apply list_lookup_insert_eq. lia.
Qed.

Lemma addr_bit_tail k v w l j :
  length l = 16%nat -> (k < 16)%nat -> 0 <= j < 128 ->
  addr_bit (store_all (seq (k + 1) (16 - (k + 1))) w (<[k := v]> l)) j =
    if j / 8 <? Z.of_nat k then addr_bit l j
    else if j / 8 =? Z.of_nat k then Z.testbit v (7 - j mod 8) else Z.testbit w (7 - j mod 8).
Proof.
  intros Hl Hk Hj. unfold addr_bit. rewrite lookup_tail by (done || lia).
  destruct (decide _), (Z.ltb_spec (j / 8) (Z.of_nat k)); try lia; [done|].
  destruct (decide _), (Z.eqb_spec (j / 8) (Z.of_nat k)); try lia; done.
Qed.

Lemma mask_bit8 p j : 0 <= p -> j / 8 = p / 8 ->
  Z.testbit (2 ^ (8 - p mod 8) - 1) (7 - j mod 8) = (p <=? j).
Proof. intros Hp Hj. rewrite ones_bit by lia. lia. Qed.

Section ipv6.
Context `{Target}.
Implicit Types (m : sockaddr_in6).

Lemma ipv6_byte p m :
  0 <= p -> length (s6_addr m) = 16%nat -> p < 128 ->
  exists b, s6_addr m !! Z.to_nat (p / 8) = Some b
    /\ forall j, j / 8 = p / 8 -> addr_bit (s6_addr m) j = Z.testbit b (7 - j mod 8).
Proof.
  intros Hp Hl Hlt. destruct (lookup_lt_is_Some_2 (s6_addr m) (Z.to_nat (p / 8))) as [b Hb]; [lia|].
  exists b. split; [done|]. intros j Hj. unfold addr_bit. by rewrite Hj, Hb.
Qed.

Lemma ipv6_mask p u : CreateMask uint8_t (p mod 8) u = Ok (2 ^ (8 - p mod 8) - 1) u.
Proof. apply CreateMask_8. lia. Qed.

Lemma ipv6_broadcast p m u :
  0 <= p < 128 -> length (s6_addr m) = 16%nat ->
  exists b, IPv6Address_broadcastAddress p m u = Ok b u /\ length (s6_addr b) = 16%nat
    /\ sin6_port b = sin6_port m
    /\ forall j, 0 <= j < 128 -> addr_bit (s6_addr b) j = addr_bit (s6_addr m) j || (p <=? j).
Proof.
  intros Hp Hl. destruct (ipv6_byte p m) as (b & Hb & Hbit); [lia..|].
  unfold IPv6Address_broadcastAddress. rewrite (bind_Ok _ _ _ _ _ (ipv6_mask p u)), Hb.
  cbn [bind deref]. eexists. split; [done|]. cbn [s6_addr sin6_port set_s6_addr].
  split; [by rewrite length_store_all, length_insert|]. split; [done|]. intros j Hj.
  rewrite addr_bit_tail by lia. rewrite Z2Nat.id by lia.
  destruct (Z.ltb_spec (j / 8) (p / 8)).
  - assert ((p <=? j) = false) as -> by lia. by rewrite orb_false_r.
  - destruct (Z.eqb_spec (j / 8) (p / 8)) as [He|].
    + by rewrite Z.lor_spec, mask_bit8, (Hbit j He) by lia.
    + rewrite bit_255 by lia. assert ((p <=? j) = true) as -> by lia. by rewrite orb_true_r.
Qed.

Lemma ipv6_network p m u :
  0 <= p <= 32 -> length (s6_addr m) = 16%nat ->
  exists b, IPv6Address_networkAddress p m u = Ok (Some b) u /\ length (s6_addr b) = 16%nat
    /\ sin6_port b = sin6_port m
    /\ forall j, 0 <= j < 128 -> addr_bit (s6_addr b) j =
         addr_bit (s6_addr m) j && ((j / 8 <? p / 8) || ((j / 8 =? p / 8) && (p <=? j))).
Proof.
  intros Hp Hl. destruct (ipv6_byte p m) as (b & Hb & Hbit); [lia..|].
  unfold IPv6Address_networkAddress. assert ((32 <? p) = false) as -> by lia.
  rewrite (bind_Ok _ _ _ _ _ (ipv6_mask p u)), Hb.
  cbn [bind deref]. eexists. split; [done|]. cbn [s6_addr sin6_port set_s6_addr].
  split; [by rewrite length_store_all, length_insert|]. split; [done|]. intros j Hj.
  rewrite addr_bit_tail by lia. rewrite Z2Nat.id by lia.
  destruct (Z.ltb_spec (j / 8) (p / 8)); [by rewrite andb_true_r|].
  destruct (Z.eqb_spec (j / 8) (p / 8)) as [He|].
  - by rewrite Z.land_spec, mask_bit8, (Hbit j He) by lia.
  - by rewrite Z.testbit_0_l, andb_false_r.
Qed.

Lemma ipv6_subnet p u :
  0 <= p < 128 ->
  exists b, IPv6Address_subnetMask p u = Ok b u /\ length (s6_addr b) = 16%nat
    /\ forall j, 0 <= j < 128 -> addr_bit (s6_addr b) j = (j <? p).
Proof.
  intros Hp. unfold IPv6Address_subnetMask. rewrite (bind_Ok _ _ _ _ _ (ipv6_mask p u)).
  rewrite lookup_replicate_2 by lia. cbn [bind deref]. eexists. split; [done|].
  cbn [s6_addr set_s6_addr]. split; [by rewrite length_store_all, length_insert|].
  intros j Hj. unfold addr_bit.
  rewrite lookup_store_all by (rewrite length_insert, length_replicate; lia).
  destruct (decide _).
  - cbn [default from_option id]. rewrite bit_255 by lia. lia.
  - destruct (decide (j / 8 = p / 8)) as [He|].
    + rewrite He, list_lookup_insert_eq by (rewrite length_replicate; lia). cbn [default from_option id].
      rewrite testbit_wrap, Z.lnot_spec, mask_bit8 by lia. lia.
    + rewrite list_lookup_insert_ne, lookup_replicate_2 by lia. cbn [default from_option id].
      rewrite Z.testbit_0_l. lia.
Qed.

Lemma ipv6_oob p m u :
  128 <= p -> length (s6_addr m) = 16%nat ->
  IPv6Address_broadcastAddress p m u = Ub /\ IPv6Address_subnetMask p u = Ub.
Proof.
  intros Hp Hl. unfold IPv6Address_broadcastAddress, IPv6Address_subnetMask.
  rewrite !(bind_Ok _ _ _ _ _ (ipv6_mask p u)). split.
  - by rewrite (lookup_ge_None_2 (s6_addr m)) by lia.
  - by rewrite (lookup_ge_None_2 (replicate 16 0)) by (rewrite length_replicate; lia).
Qed.
End ipv6.

(** Note: IPv6 prefixes, by bits from the most significant one.  For a prefix of
    [p < 128] bits the broadcast address sets exactly the bits from [p] on and
    the subnet mask is [p] ones; at 128 and above both write beyond the sixteen
    bytes.  [networkAddress] refuses prefixes above 32 and otherwise keeps the
    bytes before the one that holds bit [p], but in that byte clears the prefix
    and keeps the host bits. *)
Theorem ipv6_prefix (p : Z) (m : sockaddr_in6) (u : unit) :
  0 <= p -> length (s6_addr m) = 16%nat ->
  (p < 128 -> exists b s,
     IPv6Address_broadcastAddress p m u = Ok b u /\ IPv6Address_subnetMask p u = Ok s u
     /\ length (s6_addr b) = 16%nat /\ length (s6_addr s) = 16%nat /\ sin6_port b = sin6_port m
     /\ forall j, 0 <= j < 128 ->
          addr_bit (s6_addr b) j = addr_bit (s6_addr m) j || (p <=? j)
          /\ addr_bit (s6_addr s) j = (j <? p))
  /\ (128 <= p ->
      IPv6Address_broadcastAddress p m u = Ub /\ IPv6Address_subnetMask p u = Ub)
  /\ (p <= 32 -> exists n,
      IPv6Address_networkAddress p m u = Ok (Some n) u
      /\ length (s6_addr n) = 16%nat /\ sin6_port n = sin6_port m
      /\ forall j, 0 <= j < 128 -> addr_bit (s6_addr n) j =
           addr_bit (s6_addr m) j && ((j / 8 <? p / 8) || ((j / 8 =? p / 8) && (p <=? j))))
  /\ (32 < p -> IPv6Address_networkAddress p m u = Ok None u).
Proof.
  intros Hp Hl. split_and!; intros Hr.
  - destruct (ipv6_broadcast p m u) as (b & Hb & Hbl & Hbp & Hbb); [lia|done|].
    destruct (ipv6_subnet p u) as (s & Hs & Hsl & Hsb); [lia|].
    exists b, s. split_and!; auto.
  - by apply ipv6_oob.
  - destruct (ipv6_network p m u) as (n & ? & ? & ? & ?); [lia|done|]. by exists n.
  - unfold IPv6Address_networkAddress. by assert ((32 <? p) = true) as -> by lia.
Qed.

Definition ip6_example : sockaddr_in6 :=
  @new_IPv6Address_bytes little_endian_target ([0x20; 0x01; 0x0d; 0xb8] ++ replicate 11 0 ++ [1]) 443.

Lemma ipv6_prefix_witness :
  (exists b, IPv6Address_broadcastAddress 24 ip6_example tt = Ok b tt
     /\ addr_bit (s6_addr b) 24 = true)
  /\ IPv6Address_subnetMask 128 tt = Ub
  /\ exists n, IPv6Address_networkAddress 24 ip6_example tt = Ok (Some n) tt
     /\ @IPv6Address_print little_endian_target n = text "[2001:db8::]:443".
Proof.
  split; [|split].
  - destruct (ipv6_prefix 24 ip6_example tt ltac:(lia) eq_refl) as [H1 _].
    destruct (H1 ltac:(lia)) as (b & s & Hb & _ & _ & _ & _ & Hbit). exists b.
    split; [exact Hb|]. by rewrite (proj1 (Hbit 24 ltac:(lia))).
  - by apply (ipv6_prefix 128 ip6_example tt).
  - destruct (ipv6_prefix 24 ip6_example tt ltac:(lia) eq_refl)
      as (_ & _ & H3 & _).
    destruct (H3 ltac:(lia)) as (n & Hn & _). exists n. split; [exact Hn|].
    vm_compute in Hn. injection Hn as <-. by vm_compute.
Defined.

(** ** The order of addresses *)

(** The bytes that take part in a comparison. *)
Definition key `{Target} (a : Address) : list Z := take (Z.to_nat (getAddrLen a)) (getAddr a).

(** The length of the address does not exceed its object. *)
Definition addr_ok `{Target} (a : Address) : Prop :=
  0 <= getAddrLen a <= Z.of_nat (length (getAddr a)).

Section order.
Context `{Target}.

Lemma length_key a : addr_ok a -> Z.of_nat (length (key a)) = getAddrLen a.
Proof. unfold addr_ok, key. intros Ha. rewrite length_take. lia. Qed.

Lemma memcmp_ok a b n u :
  n <= Z.of_nat (length a) -> n <= Z.of_nat (length b) ->
  memcmp a b n u = Ok (bytes_cmp (take (Z.to_nat n) a) (take (Z.to_nat n) b)) u.
Proof.
  intros Ha Hb. unfold memcmp. assert ((Z.of_nat (length a) <? n) = false) as -> by lia.
  by assert ((Z.of_nat (length b) <? n) = false) as -> by lia.
Qed.

Lemma take_key a n : addr_ok a -> (n <= Z.to_nat (getAddrLen a))%nat -> take n (getAddr a) = take n (key a).
Proof. intros _ Hn. unfold key. by rewrite take_take, Nat.min_l by lia. Qed.

Lemma Address_lt_spec a b u :
  addr_ok a -> addr_ok b -> Address_lt a b u = Ok (byte_lt (key a) (key b)) u.
Proof.
  intros Ha Hb. pose proof (length_key a Ha). pose proof (length_key b Hb).
  unfold Address_lt. unfold addr_ok in *. unfold bind. rewrite memcmp_ok by lia.
  rewrite (take_key a), (take_key b) by (done || lia).
  rewrite bytes_cmp_take by lia. unfold mreturn. f_equal. rewrite byte_lt_cmp.
  destruct (bytes_cmp _ _); try done.
  destruct (Z.ltb_spec (getAddrLen a) (getAddrLen b)), (Nat.ltb_spec (length (key a)) (length (key b)));
    done || lia.
Qed.

Lemma Address_eq_spec a b u :
  addr_ok a -> addr_ok b -> Address_eq a b u = Ok (bool_decide (key a = key b)) u.
Proof.
  intros Ha Hb. pose proof (length_key a Ha). pose proof (length_key b Hb).
  unfold Address_eq. unfold addr_ok in *.
  destruct (Z.eqb_spec (getAddrLen a) (getAddrLen b)) as [He|Hne]; cbn [negb].
  - unfold bind. rewrite memcmp_ok by lia. rewrite (take_key a), (take_key b) by (done || lia).
    rewrite bytes_cmp_take by lia. unfold mreturn. f_equal.
    destruct (bytes_cmp_eq (key a) (key b)) as [Hc1 Hc2]; [lia|].
    destruct (bytes_cmp (key a) (key b)); symmetry.
    + by apply bool_decide_eq_true, Hc1.
    + apply bool_decide_eq_false. by intros ?%Hc2.
    + apply bool_decide_eq_false. by intros ?%Hc2.
  - unfold mreturn. f_equal. symmetry. apply bool_decide_eq_false. intros Hk. rewrite Hk in *. lia.
Qed.
End order.

(** Note: the order of addresses.  On addresses whose length stays within the
    object, [operator<] is the lexicographic order of their bytes and [==] their
    equality: a strict total order, so that a map keyed by addresses finds each
    one. *)
Theorem address_order `{Target} (a b c : Address) (u : unit) :
  addr_ok a -> addr_ok b -> addr_ok c ->
  Address_lt a b u = Ok (byte_lt (key a) (key b)) u
  /\ Address_eq a b u = Ok (bool_decide (key a = key b)) u
  /\ Address_ne a b u = Ok (negb (bool_decide (key a = key b))) u
  /\ Address_lt a a u = Ok false u
  /\ (Address_lt a b u = Ok true u -> Address_lt b c u = Ok true u -> Address_lt a c u = Ok true u)
  /\ (Address_lt a b u = Ok false u -> Address_lt b a u = Ok false u -> Address_eq a b u = Ok true u)
  /\ (Address_eq a b u = Ok true u -> Address_lt a c u = Address_lt b c u /\ Address_lt c a u = Address_lt c b u).
Proof.
  intros Ha Hb Hc. rewrite !Address_lt_spec, !Address_eq_spec by done. split_and!; try done.
  - unfold Address_ne, bind. by rewrite Address_eq_spec.
  - by rewrite st_irrefl.
  - intros [= H1] [= H2]. by rewrite (st_trans _ _ _ H1 H2).
  - intros [= H1] [= H2]. by rewrite (st_total _ _ H1 H2), bool_decide_true.
  - intros [= H1%bool_decide_eq_true]. by rewrite H1.
Qed.

Lemma address_order_witness :
  let a := IPv4Address ip_example in
  let b := IPv6Address ip6_example in
  @Address_lt little_endian_target a b tt = Ok true tt
  /\ @Address_eq little_endian_target a b tt = Ok false tt.
Proof.
  intros a b.
  destruct (@address_order little_endian_target a b b tt) as (H1 & H2 & _); [by vm_compute..|].
  rewrite H1, H2. split; reflexivity.
Defined.

(** ** The text of an address *)

(** The eight groups of an IPv6 address as numbers. *)
Fixpoint groups (b : list Z) : list Z :=
  match b with
  | x :: y :: b => 256 * x + y :: groups b
  | _ => []
  end.

(** Groups in hexadecimal, separated by colons. *)
Definition colon (l : list Z) : list Z := l ≫= (fun g => text ":" ++ hex g).
Definition join (l : list Z) : list Z :=
  match l with [] => [] | g :: l => hex g ++ colon l end.

(** A list is its non-zero front, a run of zeros, and the rest. *)
Lemma zero_run (l : list Z) :
  exists a k b, l = a ++ replicate k 0 ++ b /\ (0 ∉ a) /\ head b <> Some 0 /\ (k = 0%nat -> b = []).
Proof.
  induction l as [|x l (a & k & b & -> & Ha & Hb & Hk)].
  - exists [], 0%nat, []. split_and!; [done|apply not_elem_of_nil|done|done].
  - destruct (decide (x = 0)) as [->|Hx].
    + destruct a as [|y a].
      * exists [], (S k), b. split_and!; [done|apply not_elem_of_nil|done|done].
      * exists [], 1%nat, ((y :: a) ++ replicate k 0 ++ b). split_and!; try done.
        -- apply not_elem_of_nil.
        -- cbn. intros [= ->]. apply Ha. by left.
    + exists (x :: a), k, b. split_and!; try done. intros [?|?]%elem_of_cons; [congruence|done].
Qed.

Lemma last_shift (w d : Z) a : List.last (w :: a) d = List.last a w.
Proof.
  destruct a as [|x a]; [done|].
  assert (forall y e, List.last (y :: a) d = List.last (y :: a) e) as Hd.
  { induction a as [|z a IH]; intros y e; [done|]. exact (IH z e). }
  exact (Hd x w).
Qed.

Section text.
Context `{Target}.
Abbreviation swap16 := (byteswapOnLittleEndian uint16_t).

Lemma group_value x y : is_byte x -> is_byte y -> swap16 (obj_value uint16_t [x; y]) = 256 * x + y.
Proof.
  unfold is_byte. intros Hx Hy. unfold byteswapOnLittleEndian, obj_value. destruct target_big_endian.
  - change (cast uint16_t) with (wrap 16). cbn. rewrite wrap_id; lia.
  - unfold byteswap. rewrite wrap_cast. change (ct_width uint16_t) with 16.
    change (cast uint16_t) with (wrap 16). unfold bswap. change (ct_size uint16_t) with 2%nat.
    cbn [le_join]. rewrite (wrap_id 16 (x + 256 * (y + 256 * 0))) by lia.
    change (le_split 2 (x + 256 * (y + 256 * 0)))
      with [(x + 256 * (y + 256 * 0)) mod 256; (x + 256 * (y + 256 * 0)) / 256 mod 256].
    replace ((x + 256 * (y + 256 * 0)) mod 256) with x by lia.
    replace ((x + 256 * (y + 256 * 0)) / 256 mod 256) with y by lia.
    cbn. rewrite wrap_id; lia.
Qed.

Lemma word_zero x y : is_byte x -> is_byte y -> ((obj_value uint16_t [x; y] = 0) <-> (256 * x + y = 0)).
Proof.
  unfold is_byte. intros Hx Hy. unfold obj_value. change (cast uint16_t) with (wrap 16).
  destruct target_big_endian; cbn; rewrite wrap_id; lia.
Qed.

Lemma groups_words b : Forall is_byte b -> swap16 <$> words16 b = groups b.
Proof.
  revert b. fix IH 1. intros [|x [|y b]] Hb; try done. cbn [words16 groups fmap list_fmap].
  inversion Hb as [|? ? Hx Hb']; subst. inversion Hb' as [|? ? Hy Hb'']; subst.
  rewrite group_value by done. f_equal. by apply IH.
Qed.

Lemma words_nonzero b : Forall is_byte b -> Forall (fun w => swap16 w = 0 -> w = 0) (words16 b).
Proof.
  revert b. fix IH 1. intros [|x [|y b]] Hb; try by constructor.
  inversion Hb as [|? ? Hx Hb']; subst. inversion Hb' as [|? ? Hy Hb'']; subst.
  constructor; [|by apply IH]. rewrite group_value by done. by intros ?%word_zero.
Qed.

Lemma print6_rest l prev os :
  print6_loop false prev true l os = (true, os ++ colon (swap16 <$> l)).
Proof.
  revert prev os. induction l as [|w l IH]; intros prev os; cbn [print6_loop].
  - cbn. by rewrite app_nil_r.
  - rewrite andb_false_r. cbn [negb andb]. rewrite andb_false_r, IH.
    unfold colon. cbn [fmap list_fmap mbind list_bind]. by rewrite <- !app_assoc.
Qed.

Lemma print6_zeros k l first prev os :
  print6_loop first prev false (replicate (S k) 0 ++ l) os = print6_loop false 0 false l os.
Proof.
  revert first prev. induction k as [|k IH]; intros first prev; [done|].
  change (replicate (S (S k)) 0 ++ l) with (0 :: replicate (S k) 0 ++ l).
  cbn [print6_loop Z.eqb negb andb]. apply IH.
Qed.

(** After the zeros: nothing more, or the double colon and the rest. *)
Lemma print6_after l os :
  head l <> Some 0 ->
  print6_loop false 0 false l os =
    match l with [] => (false, os) | _ => (true, os ++ text "::" ++ join (swap16 <$> l)) end.
Proof.
  destruct l as [|w l]; intros Hw; [done|]. cbn [print6_loop].
  assert ((w =? 0) = false) as -> by (apply Z.eqb_neq; intros ->; done).
  cbn [andb negb Z.eqb]. rewrite print6_rest. f_equal. cbn [join fmap list_fmap].
  by rewrite <- !app_assoc.
Qed.

(** The groups before the zeros. *)
Lemma print6_front a l prev os :
  0 ∉ a -> prev <> 0 ->
  print6_loop false prev false (a ++ l) os =
    print6_loop false (List.last a prev) false l (os ++ colon (swap16 <$> a)).
Proof.
  revert prev os. induction a as [|w a IH]; intros prev os Ha Hp; cbn [app].
  - cbn. by rewrite app_nil_r.
  - assert (w <> 0) as Hw by (intros ->; apply Ha; by left). cbn [print6_loop].
    apply Z.eqb_neq in Hw as Ew. apply Z.eqb_neq in Hp as ->. rewrite Ew. cbn [andb negb].
    rewrite IH by (done || set_solver). rewrite last_shift. f_equal.
    unfold colon. cbn [fmap list_fmap mbind list_bind]. by rewrite <- !app_assoc.
Qed.

Lemma print6_start a l os :
  0 ∉ a -> a <> [] ->
  print6_loop true 0 false (a ++ l) os =
    print6_loop false (List.last a 0) false l (os ++ join (swap16 <$> a)).
Proof.
  destruct a as [|w a]; [done|]. intros Ha _.
  assert (w <> 0) as Hw by (intros ->; apply Ha; by left). cbn [app print6_loop].
  apply Z.eqb_neq in Hw as Ew. rewrite Ew. cbn [andb negb].
  rewrite print6_front by (done || set_solver). rewrite last_shift. f_equal.
  cbn [join fmap list_fmap]. by rewrite <- !app_assoc.
Qed.
End text.

Lemma length_groups b n : length b = (2 * n)%nat -> length (groups b) = n.
Proof.
  revert b. induction n as [|n IH]; intros [|x [|y b]] Hl; cbn in *; try lia. rewrite IH; lia.
Qed.

Lemma last_nonzero (a : list Z) d : 0 ∉ a -> d <> 0 -> List.last a d <> 0.
Proof.
  revert d. induction a as [|w a IH]; intros d Ha Hd; [done|]. rewrite last_shift.
  apply IH; [set_solver|]. intros ->. apply Ha. by left.
Qed.

Lemma nth_last (l : list Z) n d : length l = S n -> nth n l d = List.last l d.
Proof.
  revert n d. induction l as [|x l IH]; intros n d Hl; [done|]. rewrite last_shift.
  destruct n as [|n]; cbn [nth]; [by destruct l|]. injection Hl as Hl.
  rewrite <- (IH n x Hl). apply nth_indep. lia.
Qed.

Lemma last_app_zeros (a : list Z) k d : List.last (a ++ replicate (S k) 0) d = 0.
Proof.
  revert d. induction a as [|x a IH]; intros d; cbn [app]; [|by rewrite last_shift].
  revert d. induction k as [|k IH]; intros d; [done|].
  change (replicate (S (S k)) 0) with (0 :: replicate (S k) 0). by rewrite last_shift.
Qed.

(** C38: the text of an IPv6 address.  The groups are printed in hexadecimal
    without leading zeros, separated by colons, except the first run of zero
    groups (even a single one), which becomes a double colon; the groups can be
    read back, since the run has the length that is missing to eight. *)
Theorem ipv6_text `{Target} (m : sockaddr_in6) :
  length (s6_addr m) = 16%nat -> Forall is_byte (s6_addr m) ->
  exists a k b,
    groups (s6_addr m) = a ++ replicate k 0 ++ b
    /\ (0 ∉ a) /\ head b <> Some 0 /\ (k = 0%nat -> b = [])
    /\ k = (8 - length a - length b)%nat
    /\ IPv6Address_print m =
         text "[" ++ join a ++ (if decide (k = 0%nat) then [] else text "::") ++ join b
         ++ text "]:" ++ dec (IPv6Address_getPort m).
Proof.
  intros Hl Hb. set (swap16 := byteswapOnLittleEndian uint16_t).
  assert (swap16 0 = 0) as Hz by (unfold swap16; by destruct H).
  destruct (zero_run (words16 (s6_addr m))) as (a & k & b & Hw & Ha & Hhd & Hk).
  pose proof (words_nonzero _ Hb) as Hnz. rewrite Hw, !Forall_app in Hnz.
  destruct Hnz as (Hna & _ & Hnb). rewrite Forall_forall in Hna, Hnb.
  assert (Hg : groups (s6_addr m) = (swap16 <$> a) ++ replicate k 0 ++ (swap16 <$> b)).
  { rewrite <- (groups_words _ Hb), Hw, !fmap_app. fold swap16. by rewrite fmap_replicate, Hz. }
  pose proof (length_groups (s6_addr m) 8 Hl) as Hlen. pose proof Hlen as Hlen'.
  rewrite Hg, !length_app, !length_fmap, length_replicate in Hlen'.
  exists (swap16 <$> a), k, (swap16 <$> b). split_and!.
  - done.
  - intros (w & Hw0 & Hin)%list_elem_of_fmap. apply Ha. rewrite <- (Hna w Hin (eq_sym Hw0)). done.
  - destruct b as [|w b]; [done|]. cbn. intros [= Hw0]. apply Hhd. cbn. f_equal.
    apply Hnb; [by left|done].
  - by intros ->%Hk.
  - rewrite !length_fmap. lia.
  - assert (Hwl : length (words16 (s6_addr m)) = 8%nat)
      by (rewrite Hw, !length_app, length_replicate; lia).
    unfold IPv6Address_print, IPv6Address_getPort. rewrite (nth_last _ 7 0 Hwl), Hw.
    clear Hw Hg Hwl Hlen Hl Hb. fold swap16.
    destruct k as [|k]; cbn [decide].
    + rewrite (Hk eq_refl) in *. destruct a as [|x a]; [cbn in Hlen'; lia|].
      cbn [replicate app]. rewrite app_nil_r. rewrite <- (app_nil_r (x :: a)) at 1.
      rewrite print6_start by done. cbn [print6_loop negb andb].
      assert (List.last (x :: a) 0 <> 0) as Hlast%Z.eqb_neq.
      { rewrite last_shift. apply last_nonzero; [set_solver|]. intros ->. apply Ha. by left. }
      rewrite Hlast. fold swap16. by rewrite <- !app_assoc.
    + assert (Hrun : print6_loop true 0 false (a ++ replicate (S k) 0 ++ b) (text "[")
        = print6_loop false 0 false b (text "[" ++ join (swap16 <$> a))).
      { destruct a as [|x a]; [cbn [app fmap list_fmap join]; rewrite app_nil_r; apply print6_zeros|].
        rewrite print6_start by done. apply print6_zeros. }
      rewrite Hrun, print6_after by done. destruct b as [|w b].
      * cbn [negb andb]. rewrite app_nil_r, last_app_zeros. cbn [Z.eqb fmap list_fmap join].
        by rewrite <- !app_assoc.
      * cbn [negb andb]. fold swap16. by rewrite <- !app_assoc.
Qed.

Lemma ipv6_text_witness :
  @IPv6Address_print little_endian_target ip6_example = text "[2001:db8::1]:443"
  /\ exists a k b, groups (s6_addr ip6_example) = a ++ replicate k 0 ++ b
       /\ k = (8 - length a - length b)%nat.
Proof.
  destruct (@ipv6_text little_endian_target ip6_example eq_refl) as (a & k & b & Hg & _ & _ & _ & Hk & _).
  { repeat constructor; by vm_compute. }
  split; [by vm_compute|]. exists a, k, b. exact (conj Hg Hk).
Defined.

(** ** Addresses from bytes and from paths *)

Definition in_ok (m : sockaddr_in) : Prop :=
  in_range uint16_t (sin_family m) /\ in_range uint16_t (sin_port m)
  /\ in_range uint32_t (s_addr m) /\ length (sin_zero m) = 8%nat.
Definition in6_ok (m : sockaddr_in6) : Prop :=
  in_range uint16_t (sin6_family m) /\ in_range uint16_t (sin6_port m)
  /\ in_range uint32_t (sin6_flowinfo m) /\ length (s6_addr m) = 16%nat
  /\ in_range uint32_t (sin6_scope_id m).

(** The parts of a concatenation. *)
Lemma slice_parts {A} (a b c : list A) i n :
  length a = i -> length b = n -> slice (a ++ b ++ c) i n = b.
Proof.
  intros <- <-. unfold slice. by rewrite drop_app_length, take_app_length.
Qed.
Lemma slice_first {A} (b c : list A) n : length b = n -> slice (b ++ c) 0 n = b.
Proof. intros <-. apply take_app_length. Qed.
Lemma slice_last {A} (a b : list A) i n : length a = i -> length b = n -> slice (a ++ b) i n = b.
Proof. intros. rewrite <- (app_nil_r b) at 1. by apply slice_parts. Qed.

Section raw.
Context `{Target}.

Lemma obj_value_id T v : (0 < ct_size T)%nat -> in_range T v -> obj_value T (obj_bytes T v) = v.
Proof. intros Hs Hr. rewrite obj_value_bytes. by apply cast_id. Qed.

Lemma in_bytes_read m : in_ok m -> as_in (in_bytes m) = m /\ length (in_bytes m) = 16%nat.
Proof.
  intros (Hf & Hp & Ha & Hz). unfold as_in, in_bytes. destruct m as [f p a z].
  cbn [sin_family sin_port s_addr sin_zero] in *. split.
  - rewrite slice_first by apply length_obj_bytes.
    rewrite (slice_parts (obj_bytes uint16_t f)) by apply length_obj_bytes.
    rewrite (app_assoc (obj_bytes uint16_t f)).
    rewrite slice_parts by (rewrite ?length_app, ?length_obj_bytes; done).
    rewrite (app_assoc _ (obj_bytes uint32_t a)).
    rewrite slice_last by (rewrite ?length_app, ?length_obj_bytes; done).
    rewrite !obj_value_id by (done || (cbn; lia)). done.
  - rewrite !length_app, !length_obj_bytes, Hz. done.
Qed.

Lemma in6_bytes_read m : in6_ok m -> as_in6 (in6_bytes m) = m /\ length (in6_bytes m) = 28%nat.
Proof.
  intros (Hf & Hp & Ha & Hz & Hs). unfold as_in6, in6_bytes. destruct m as [f p a z s].
  cbn [sin6_family sin6_port sin6_flowinfo s6_addr sin6_scope_id] in *. split.
  - rewrite slice_first by apply length_obj_bytes.
    rewrite (slice_parts (obj_bytes uint16_t f)) by apply length_obj_bytes.
    rewrite (app_assoc (obj_bytes uint16_t f)).
    rewrite slice_parts by (rewrite ?length_app, ?length_obj_bytes; done).
    rewrite (app_assoc _ (obj_bytes uint32_t a)).
    rewrite slice_parts by (rewrite ?length_app, ?length_obj_bytes; done).
    rewrite (app_assoc _ z).
    rewrite slice_last by (rewrite ?length_app, ?length_obj_bytes, ?Hz; done).
    rewrite !obj_value_id by (done || (cbn; lia)). done.
  - rewrite !length_app, !length_obj_bytes, Hz. done.
Qed.

Lemma Create_in m u :
  in_ok m -> sin_family m = AF_INET -> Address_Create (Some (in_bytes m)) u = Ok (Some (IPv4Address m)) u.
Proof.
  intros Hok Hf. destruct (in_bytes_read m Hok) as [Hr Hl]. unfold Address_Create.
  rewrite Hl. cbn [Nat.ltb Nat.leb].
  change (obj_value uint16_t (slice (in_bytes m) 0 2)) with (sin_family (as_in (in_bytes m))).
  by rewrite Hr, Hf.
Qed.

Lemma Create_in6 m u :
  in6_ok m -> sin6_family m = AF_INET6 -> Address_Create (Some (in6_bytes m)) u = Ok (Some (IPv6Address m)) u.
Proof.
  intros Hok Hf. destruct (in6_bytes_read m Hok) as [Hr Hl]. unfold Address_Create.
  rewrite Hl. cbn [Nat.ltb Nat.leb].
  change (obj_value uint16_t (slice (in6_bytes m) 0 2)) with (sin6_family (as_in6 (in6_bytes m))).
  by rewrite Hr, Hf.
Qed.
End raw.

(** A path in the object: the bytes up to the length, then zeros. *)
Lemma path_object (s : list Z) :
  (length s <= 108)%nat -> splice (replicate 108 0) 0 s = s ++ replicate (108 - length s) 0.
Proof.
  intros Hs. unfold splice. rewrite take_0, drop_replicate. by rewrite Nat.add_0_l.
Qed.

(** An ordinary path that fits with its NUL. *)
Lemma unix_path path u :
  path <> [] -> (0 ∉ path) -> Z.of_nat (length path) < sun_path_size ->
  exists m n, new_UnixAddress_path path u = Ok (UnixAddress m n) u
    /\ n = Z.of_nat (length path) + 3 /\ UnixAddress_getPath m n u = Ok path u.
Proof.
  intros Hne H0 Hl. unfold sun_path_size in *. unfold new_UnixAddress_path.
  rewrite wrap_id by lia.
  assert (Hhd : forall rest, (nth 0 (path ++ rest) 0 =? 0) = false).
  { intros rest. destruct path as [|c path]; [done|]. apply Z.eqb_neq. cbn. intros ->.
    apply H0. by left. }
  replace (match path with 0 :: _ => _ | _ => Z.of_nat (length path) + 1 end)
    with (Z.of_nat (length path) + 1).
  2: { specialize (Hhd []). destruct path as [|[] path]; done. }
  unfold sun_path_size. assert ((108 <? Z.of_nat (length path) + 1) = false) as -> by lia.
  rewrite take_ge by (rewrite length_app; cbn; lia).
  rewrite path_object by (rewrite length_app; cbn; lia).
  rewrite <- app_assoc. set (rest := [0] ++ _).
  unfold sun_offset. rewrite wrap_id by lia. do 2 eexists. split; [done|].
  split; [lia|]. unfold UnixAddress_getPath. cbn [sun_path].
  rewrite Hhd, andb_false_r. unfold path_c_str. cbn [sun_path].
  unfold rest. cbn [app]. rewrite find_char_app by done. unfold mreturn. f_equal.
  by rewrite take_app_length.
Qed.

(** An abstract name: a NUL first, and no NUL after it in the object. *)
Lemma unix_abstract name u :
  Z.of_nat (length name) < sun_path_size ->
  exists m n, new_UnixAddress_path (0 :: name) u = Ok (UnixAddress m n) u
    /\ n = Z.of_nat (length name) + 3 /\ UnixAddress_getPath m n u = Ok (text "\0" ++ name) u.
Proof.
  unfold sun_path_size. intros Hl. unfold new_UnixAddress_path. cbn [length].
  rewrite (wrap_id 32 (Z.of_nat (S (length name)) + 1)) by lia.
  rewrite wrap_id by lia. unfold sun_path_size.
  set (n := Z.of_nat (S (length name)) + 1 - 1). assert ((108 <? n) = false) as -> by lia.
  replace (take (Z.to_nat n) ((0 :: name) ++ [0])) with (0 :: name).
  2: { replace (Z.to_nat n) with (length (0 :: name)) by (cbn; lia). by rewrite take_app_length. }
  rewrite path_object by (cbn; lia). unfold sun_offset. rewrite wrap_id by lia.
  do 2 eexists. split; [done|]. split; [lia|]. unfold UnixAddress_getPath, sun_offset.
  cbn [sun_path app nth]. assert ((2 <? n + 2) = true) as -> by lia. cbn [Z.eqb andb].
  unfold path_string, sun_path_size. cbn [sun_path drop].
  assert ((108 - 1 <? n + 2 - 2 - 1) = false) as -> by lia. unfold bind, mreturn. do 2 f_equal.
  replace (Z.to_nat (n + 2 - 2 - 1)) with (length name) by lia. apply take_app_length.
Qed.

(** Note: round trips.  [Address::Create] on the bytes of an IP address gives that
    address back (on any other family it keeps the first sixteen bytes only);
    [getPort] returns what [setPort] stored; a Unix address made from a path or
    an abstract name that fits gives it back, the name behind a backslash and a
    zero digit, and a path that does not fit throws. *)
Theorem address_roundtrip `{Target} (u : unit) :
  (forall m, in_ok m -> sin_family m = AF_INET ->
     Address_Create (Some (getAddr (IPv4Address m))) u = Ok (Some (IPv4Address m)) u)
  /\ (forall m, in6_ok m -> sin6_family m = AF_INET6 ->
     Address_Create (Some (getAddr (IPv6Address m))) u = Ok (Some (IPv6Address m)) u)
  /\ (forall v m4 m6, in_range uint16_t v ->
     IPv4Address_getPort (IPv4Address_setPort v m4) = v
     /\ IPv6Address_getPort (IPv6Address_setPort v m6) = v)
  /\ (forall path, path <> [] -> (0 ∉ path) -> Z.of_nat (length path) < sun_path_size ->
     exists m n, new_UnixAddress_path path u = Ok (UnixAddress m n) u
       /\ Address_toString (UnixAddress m n) u = Ok path u)
  /\ (forall name, Z.of_nat (length name) < sun_path_size ->
     exists m n, new_UnixAddress_path (0 :: name) u = Ok (UnixAddress m n) u
       /\ Address_toString (UnixAddress m n) u = Ok (text "\0" ++ name) u)
  /\ (forall path, sun_path_size < Z.of_nat (length path) < 2 ^ 32 - 1 ->
     new_UnixAddress_path path u = Throw logic_error u).
Proof.
  split_and!.
  - intros. by apply Create_in.
  - intros. by apply Create_in6.
  - intros v m4 m6 Hv. unfold IPv4Address_getPort, IPv6Address_getPort. cbn.
    by rewrite byteswapOnLittleEndian_involutive by (done || (cbn; lia)).
  - intros path H1 H2 H3. destruct (unix_path path u H1 H2 H3) as (m & n & Hn & _ & Hp). eauto.
  - intros name H1. destruct (unix_abstract name u H1) as (m & n & Hn & _ & Hp). eauto.
  - unfold sun_path_size. intros path Hl. unfold new_UnixAddress_path, sun_path_size.
    rewrite (wrap_id 32 (Z.of_nat (length path) + 1)) by lia.
    assert ((108 <? match path with 0 :: _ => u32 (Z.of_nat (length path) + 1 - 1)
                    | _ => Z.of_nat (length path) + 1 end) = true) as ->; [|done].
    apply Z.ltb_lt. destruct path as [|[] path]; rewrite ?wrap_id; lia.
Qed.

Lemma address_roundtrip_witness :
  @Address_Create little_endian_target
      (Some (@getAddr little_endian_target (IPv4Address ip_example))) tt = Ok (Some (IPv4Address ip_example)) tt
  /\ exists m n, new_UnixAddress_path (text "/tmp/s") tt = Ok (UnixAddress m n) tt
       /\ @Address_toString little_endian_target (UnixAddress m n) tt = Ok (text "/tmp/s") tt.
Proof.
  destruct (@address_roundtrip little_endian_target tt) as (H1 & _ & _ & H4 & _). split.
  - apply H1; by vm_compute.
  - apply H4; [done| |done]. by apply (bool_decide_unpack _).
Defined.

(** ** Names *)

Lemma split_plain h s :
  h <> [] -> (58 ∉ h) -> head h <> Some 91 -> Lookup_split (h ++ 58 :: s) = (h, Some s).
Proof.
  intros Hne Hc Hb. unfold Lookup_split.
  replace (match h ++ 58 :: s with 91 :: rest => _ | _ => ([], None) end) with (@nil Z, @None (list Z)).
  2: { destruct h as [|c h]; [done|]. cbn [app].
       assert (c <> 91) as Hx by (intros ->; done). clear Hne Hc Hb.
       destruct c as [|c|c]; try done. do 7 (destruct c as [c|c|]; try done). }
  rewrite find_char_app by done. rewrite take_app_length.
  replace (drop (S (length h)) (h ++ 58 :: s)) with s.
  - by destruct h.
  - rewrite (drop_app_ge h) by lia. by replace (S (length h) - length h)%nat with 1%nat by lia.
Qed.

Lemma split_none h : (58 ∉ h) -> head h <> Some 91 -> Lookup_split h = (h, None).
Proof.
  intros Hc Hb. unfold Lookup_split.
  replace (match h with 91 :: rest => _ | _ => ([], None) end) with (@nil Z, @None (list Z)).
  2: { destruct h as [|c h]; [done|]. assert (c <> 91) as Hx by (intros ->; done). clear Hc Hb.
       destruct c as [|c|c]; try done. do 7 (destruct c as [c|c|]; try done). }
  by rewrite find_char_none.
Qed.

Lemma split_bracket n rest :
  n <> [] -> (93 ∉ n) ->
  Lookup_split (91 :: n ++ 93 :: rest) =
    (n, match rest with 58 :: s => Some s | _ => None end).
Proof.
  intros Hne Hc. unfold Lookup_split. rewrite find_char_app by done. rewrite take_app_length.
  replace (drop (S (length n)) (n ++ 93 :: rest)) with rest.
  - by destruct n.
  - rewrite (drop_app_ge n) by lia. by replace (S (length n) - length n)%nat with 1%nat by lia.
Qed.

(** [Create] on every result of [getaddrinfo]. *)
Lemma Create_all_spec `{Target} l as_ result u :
  Forall2 (fun x a => Address_Create x u = Ok a u) l as_ ->
  Create_all l result u = Ok (result ++ as_) u.
Proof.
  intros Hl. revert result. induction Hl as [|x a l as_ Hx Hl IH]; intros result; cbn [Create_all].
  - by rewrite app_nil_r.
  - rewrite (bind_Ok _ _ _ _ _ Hx), IH. by rewrite <- app_assoc.
Qed.

(** Note: names.  [host:service], [\[node\]:service] and [\[node\]] are split as
    written, a host without a colon is taken whole; a host with a colon and no
    bracket is cut at its first colon, an IPv6 address without brackets too.  On
    success [Lookup] appends the addresses in the order of [getaddrinfo], and
    [LookupAnyIPAddress] returns the first that is an IP address; when there is
    none, or the lookup fails, it ends without a return value. *)
Theorem lookup_names `{Target} getaddrinfo (h s : list Z) (fam type proto : Z) (u : unit) :
  (h <> [] -> (58 ∉ h) -> head h <> Some 91 -> Lookup_split (h ++ 58 :: s) = (h, Some s))
  /\ ((58 ∉ h) -> head h <> Some 91 -> Lookup_split h = (h, None))
  /\ (h <> [] -> (93 ∉ h) ->
      Lookup_split (91 :: h ++ 93 :: 58 :: s) = (h, Some s)
      /\ Lookup_split (91 :: h ++ [93]) = (h, None))
  /\ (forall error results as_ old,
      getaddrinfo (c_str (Lookup_split h).1) (c_str <$> (Lookup_split h).2) (0, fam, type, proto)
        = (error, results) ->
      Forall2 (fun x a => Address_Create x u = Ok a u) results as_ ->
      Address_Lookup getaddrinfo old h fam type proto u =
        Ok (if error =? 0 then (true, old ++ as_) else (false, old)) u
      /\ Address_LookupAnyIPAddress getaddrinfo h fam type proto u =
           match List.find is_IPAddress as_ with
           | Some a => if error =? 0 then Ok a u else Ub
           | None => Ub
           end).
Proof.
  split_and!.
  - apply split_plain.
  - apply split_none.
  - intros Hh Hc. split; [exact (split_bracket h (58 :: s) Hh Hc)|exact (split_bracket h [] Hh Hc)].
  - intros error results as_ old Hg Hr.
    assert (Hlook : forall old, Address_Lookup getaddrinfo old h fam type proto u =
      Ok (if error =? 0 then (true, old ++ as_) else (false, old)) u).
    { intros o. unfold Address_Lookup. destruct (Lookup_split h) as [node service].
      cbn [fst snd] in Hg. rewrite Hg. destruct (error =? 0); cbn [negb]; [|done].
      by rewrite (bind_Ok _ _ _ _ _ (Create_all_spec results as_ o u Hr)). }
    split; [apply Hlook|]. unfold Address_LookupAnyIPAddress.
    rewrite (bind_Ok _ _ _ _ _ (Hlook [])). destruct (error =? 0); cbn [fst snd app].
    + by destruct (List.find _ _).
    + by destruct (List.find _ _).
Qed.

(** A resolver that knows one host. *)
Definition resolver (node : list Z) (_ : option (list Z)) (_ : Z * Z * Z * Z) : Z * list (option (list Z)) :=
  if bool_decide (node = text "localhost")
  then (0, [Some (@in_bytes little_endian_target ip_example)]) else (-2, []).

Lemma lookup_names_witness :
  Lookup_split (text "[::1]:80") = (text "::1", Some (text "80"))
  /\ @Address_LookupAnyIPAddress little_endian_target resolver (text "localhost") AF_INET 0 0 tt
     = Ok (Some (IPv4Address ip_example)) tt
  /\ @Address_LookupAnyIPAddress little_endian_target resolver (text "nowhere") AF_INET 0 0 tt = Ub.
Proof.
  split_and!.
  - destruct (@lookup_names little_endian_target resolver (text "::1") (text "80") AF_INET 0 0 tt)
      as (_ & _ & H3 & _). apply H3; [done|]. by apply (bool_decide_unpack _).
  - destruct (@lookup_names little_endian_target resolver (text "localhost") [] AF_INET 0 0 tt)
      as (_ & _ & _ & H4).
    destruct (H4 0 [Some (@in_bytes little_endian_target ip_example)] [Some (IPv4Address ip_example)] []
      ltac:(vm_compute; reflexivity)) as [_ Hl]; [|exact Hl].
    constructor; [by vm_compute|constructor].
  - destruct (@lookup_names little_endian_target resolver (text "nowhere") [] AF_INET 0 0 tt)
      as (_ & _ & _ & H4).
    destruct (H4 (-2) [] [] [] ltac:(vm_compute; reflexivity)) as [_ Hl]; [constructor|exact Hl].
Defined.
