(* ===== verification/FdManager.v ===== *)
(** * Descriptor contexts (src/src/socket/fdManager.h, fdManager.cpp)

    [FdCtx] objects are shared: the table holds pointers into a heap of contexts,
    and a pointer that [get] returned stays valid.  The kernel is given by the
    interface [Kernel], whose laws are the documented behaviour of [fstat],
    [fcntl] and [ioctl(FIONBIO)] on the status of a descriptor. *)
From S2P Require Import Prelude.

(** [O_NONBLOCK] of <fcntl.h> *)
Definition O_NONBLOCK : Z := 0x800.
Definition SO_RCVTIMEO : Z := 20.
Definition SO_SNDTIMEO : Z := 21.

(** Is the flag set, [flags & O_NONBLOCK]? *)
Definition nonblock (flags : Z) : bool := negb (Z.land flags O_NONBLOCK =? 0).

Class Kernel (K : Type) := {
  (** [fstat(fd, &st) != -1] and [S_ISSOCK(st.st_mode)] *)
  k_open : Z -> K -> bool;
  k_socket : Z -> K -> bool;
  (** [fcntl(fd, F_GETFL)], [fcntl(fd, F_SETFL, flags)], [ioctl(fd, FIONBIO, &v)] *)
  k_getfl : Z -> K -> Z;
  k_setfl : Z -> Z -> K -> Z * K;
  k_fionbio : Z -> Z -> K -> Z * K
}.

(** Two states of the kernel that agree on everything but the flags of [fd]. *)
Definition same_but `{Kernel K} (fd : Z) (k k' : K) : Prop :=
  (forall g, k_open g k' = k_open g k) /\ (forall g, k_socket g k' = k_socket g k)
  /\ (forall g, g <> fd -> k_getfl g k' = k_getfl g k).

Class KernelLaws (K : Type) `{Kernel K} : Prop := {
  setfl_law fd flags k : k_open fd k = true ->
    (k_setfl fd flags k).1 = 0 /\ same_but fd k (k_setfl fd flags k).2
    /\ nonblock (k_getfl fd (k_setfl fd flags k).2) = nonblock flags;
  fionbio_law fd v k : k_open fd k = true ->
    (k_fionbio fd v k).1 = 0 /\ same_but fd k (k_fionbio fd v k).2
    /\ nonblock (k_getfl fd (k_fionbio fd v k).2) = negb (v =? 0);
  setfl_bad fd flags k : k_open fd k = false -> k_setfl fd flags k = (-1, k);
  getfl_open fd k : k_open fd k = true -> 0 <= k_getfl fd k
}.

(** A descriptor table as an instance: whether a socket, and whether non-blocking. *)
Abbreviation TableKernel := (gmap Z (bool * bool)).
#[export] Instance table_kernel : Kernel TableKernel := {
  k_open fd k := bool_decide (is_Some ((k : gmap Z (bool * bool)) !! fd));
  k_socket fd k := match (k : gmap Z (bool * bool)) !! fd with Some (s, _) => s | None => false end;
  k_getfl fd k := match (k : gmap Z (bool * bool)) !! fd with Some x => if (x.2 : bool) then O_NONBLOCK else 0 | None => -1 end;
  k_setfl fd flags k :=
    match (k : gmap Z (bool * bool)) !! fd with Some (s, _) => (0, <[fd := (s, nonblock flags)]> k) | None => (-1, k) end;
  k_fionbio fd v k :=
    match (k : gmap Z (bool * bool)) !! fd with Some (s, _) => (0, <[fd := (s, negb (v =? 0))]> k) | None => (-1, k) end
}.

(** [class FdCtx] *)
Record FdCtx := mkFdCtx {
  m_isInit : bool; m_isSocket : bool; m_sysNonblock : bool; m_userNonblock : bool;
  m_isClosed : bool; m_fd : Z; m_recvTimeout : Z; m_sendTimeout : Z
}.

Section fds.
Context {K : Type} `{Kernel K}.

(** The kernel, the contexts and [FdManager::m_datas]. *)
Record Fds := mkFds {
  fd_kernel : K;
  ctx_heap : gmap Z FdCtx;
  m_datas : list (option Z);
  ctx_next : Z               (* the address of the next context *)
}.
Definition set_kernel v s := mkFds v (ctx_heap s) (m_datas s) (ctx_next s).
Definition set_ctx_heap v s := mkFds (fd_kernel s) v (m_datas s) (ctx_next s).
Definition set_datas v s := mkFds (fd_kernel s) (ctx_heap s) v (ctx_next s).

Abbreviation FM := (M Fds).

(** ** [FdCtx] *)

Definition ctx_at (p : Z) : FM FdCtx := fun s => deref (ctx_heap s !! p) s.
Definition ctx_put (p : Z) (c : FdCtx) : FM unit := modify (fun s => set_ctx_heap (<[p := c]> (ctx_heap s)) s).

(** [bool init()] on a context being constructed *)
Definition FdCtx_init (c : FdCtx) : FM (bool * FdCtx) :=
  if m_isInit c then mreturn (true, c) else
  k <-- gets fd_kernel ;;
  let opened := k_open (m_fd c) k in
  let isInit := opened in
  let isSocket := opened && k_socket (m_fd c) k in
  (if isSocket then
     let flags := k_getfl (m_fd c) k in
     if negb (nonblock flags) then modify (set_kernel (k_setfl (m_fd c) (Z.lor flags O_NONBLOCK) k).2)
     else mreturn tt
   else mreturn tt) ;;;
  mreturn (isInit, mkFdCtx isInit isSocket isSocket false false (m_fd c) (u64 (-1)) (u64 (-1))).

(** [new FdCtx(fd)]: its address *)
Definition new_FdCtx (fd : Z) : FM Z :=
  r <-- FdCtx_init (mkFdCtx false false false false false fd (u64 (-1)) (u64 (-1))) ;;
  p <-- gets ctx_next ;;
  modify (fun s => mkFds (fd_kernel s) (<[p := r.2]> (ctx_heap s)) (m_datas s) (p + 1)) ;;;
  mreturn p.

Definition FdCtx_setUserNonblock (v : bool) (p : Z) : FM unit :=
  c <-- ctx_at p ;;
  ctx_put p (mkFdCtx (m_isInit c) (m_isSocket c) (m_sysNonblock c) v (m_isClosed c) (m_fd c)
               (m_recvTimeout c) (m_sendTimeout c)).
Definition FdCtx_setSysNonblock (v : bool) (p : Z) : FM unit :=
  c <-- ctx_at p ;;
  ctx_put p (mkFdCtx (m_isInit c) (m_isSocket c) v (m_userNonblock c) (m_isClosed c) (m_fd c)
               (m_recvTimeout c) (m_sendTimeout c)).
(** [void setTimeout(int type, uint64_t v)], [uint64_t getTimeout(int type)] *)
Definition FdCtx_setTimeout (type v : Z) (p : Z) : FM unit :=
  c <-- ctx_at p ;;
  ctx_put p (if type =? SO_RCVTIMEO
    then mkFdCtx (m_isInit c) (m_isSocket c) (m_sysNonblock c) (m_userNonblock c) (m_isClosed c)
           (m_fd c) v (m_sendTimeout c)
    else mkFdCtx (m_isInit c) (m_isSocket c) (m_sysNonblock c) (m_userNonblock c) (m_isClosed c)
           (m_fd c) (m_recvTimeout c) v).
Definition FdCtx_getTimeout (type : Z) (c : FdCtx) : Z :=
  if type =? SO_RCVTIMEO then m_recvTimeout c else m_sendTimeout c.

(** ** [FdManager] *)

(** [FdManager()] *)
Definition new_FdManager (k : K) : Fds := mkFds k ∅ (replicate 64 None) 0.

(** [m_datas\[fd\]]; out of range is undefined. *)
Definition data_at (fd : Z) : FM (option Z) := fun s =>
  if fd <? 0 then Ub else deref (m_datas s !! Z.to_nat fd) s.

(** [get] up to the end of the shared lock: [Some r] returns [r]. *)
Definition get_shared (fd : Z) (auto_create : bool) : FM (option (option Z)) :=
  if fd =? -1 then mreturn (Some None) else
  n <-- gets (fun s => Z.of_nat (length (m_datas s))) ;;
  if i32 n <=? fd then
    mreturn (if auto_create then None else Some None)
  else
    d <-- data_at fd ;;
    mreturn (if match d with Some _ => true | None => negb auto_create end then Some d else None).

(** [get] under the unique lock *)
Definition get_unique (fd : Z) : FM (option Z) :=
  ctx <-- new_FdCtx fd ;;
  n <-- gets (fun s => Z.of_nat (length (m_datas s))) ;;
  (if i32 n <=? fd then
     modify (fun s =>
       let n' := Z.to_nat (fd * 3 / 2) in
       set_datas (take n' (m_datas s) ++ replicate (n' - length (m_datas s)) None) s)
   else mreturn tt) ;;;
  d <-- data_at fd ;;
  modify (fun s => set_datas (<[Z.to_nat fd := Some ctx]> (m_datas s)) s) ;;;
  mreturn (Some ctx).

(** [FdCtx::Ptr get(int fd, bool auto_create)] *)
Definition FdManager_get (fd : Z) (auto_create : bool) : FM (option Z) :=
  r <-- get_shared fd auto_create ;;
  match r with
  | Some p => mreturn p
  | None => get_unique fd
  end.

(** [void del(int fd)] *)
Definition FdManager_del (fd : Z) : FM unit :=
  n <-- gets (fun s => Z.of_nat (length (m_datas s))) ;;
  if i32 n <=? fd then mreturn tt else
  d <-- data_at fd ;;
  modify (fun s => set_datas (<[Z.to_nat fd := None]> (m_datas s)) s).
End fds.
Arguments Fds K : clear implicits.
