(* ===== verification/FdManagerFacts.v ===== *)
(** * Facts about descriptor contexts

    The invariant of the table of contexts, what [get] and [del] do to it, and
    the race between two threads that create the context of one descriptor. *)
From S2P Require Import Prelude.
From S2P Require Import FdManager.

(** [lia] knows quotients in this file. *)
#[local] Ltac Zify.zify_post_hook ::= Z.div_mod_to_equations.

(** ** The table kernel obeys the laws *)

Lemma table_insert (k : TableKernel) fd s b b' :
  k !! fd = Some (s, b) -> same_but fd k (<[fd := (s, b')]> k).
Proof.
  intros Hk. split_and!; intros g; cbn; destruct (decide (fd = g)) as [<-|Hg];
    rewrite ?lookup_insert_eq, ?(lookup_insert_ne _ _ _ _ Hg), ?Hk; try done.
Qed.

#[export] Instance table_kernel_laws : KernelLaws TableKernel.
Proof.
  split; cbn.
  - intros fd flags k [[s b] Hk]%bool_decide_eq_true. rewrite Hk. cbn.
    split_and!; [done|by eapply table_insert|]. rewrite lookup_insert_eq. by destruct (nonblock flags).
  - intros fd v k [[s b] Hk]%bool_decide_eq_true. rewrite Hk. cbn.
    split_and!; [done|by eapply table_insert|]. rewrite lookup_insert_eq. by destruct (v =? 0).
  - intros fd flags k Hk%bool_decide_eq_false. destruct (k !! fd) eqn:E; [|done].
    by destruct Hk.
  - intros fd k [[s b] Hk]%bool_decide_eq_true. rewrite Hk. by destruct b.
Qed.

Lemma nonblock_lor flags : nonblock (Z.lor flags O_NONBLOCK) = true.
Proof.
  unfold nonblock. rewrite Z.land_lor_distr_l, Z.land_diag.
  destruct (Z.eqb_spec (Z.lor (Z.land flags O_NONBLOCK) O_NONBLOCK) 0) as [E|]; [|done].
  by apply Z.lor_eq_0_iff in E as [_ ?].
Qed.

Lemma nonblock_ldiff flags : nonblock (Z.ldiff flags O_NONBLOCK) = false.
Proof.
  unfold nonblock. by rewrite Z.land_ldiff.
Qed.

(** ** The invariant *)

Section facts.
Context {K : Type} `{KernelLaws K}.
Implicit Types (s : Fds K) (c : FdCtx).

(** A context describes the descriptor it was made for: a socket is non-blocking
    in the kernel's view as recorded, and a context is never closed. *)
Record ctx_ok (c : FdCtx) : Prop := {
  ctx_sys : m_sysNonblock c = m_isSocket c;
  ctx_open : m_isClosed c = false;
  ctx_init : m_isSocket c = true -> m_isInit c = true
}.

Record fd_wf (s : Fds K) : Prop := {
  fd_size : (64 <= length (m_datas s))%nat /\ Z.of_nat (length (m_datas s)) < 2 ^ 31;
  fd_entry : forall i p, m_datas s !! i = Some (Some p) ->
    exists c, ctx_heap s !! p = Some c /\ m_fd c = Z.of_nat i;
  fd_ctx : forall p c, ctx_heap s !! p = Some c -> ctx_ok c /\ p < ctx_next s
}.

(** The pointer the table holds for a descriptor. *)
Definition entry_of s (fd : Z) : option Z := default None (m_datas s !! Z.to_nat fd).

Lemma wf_new_FdManager (k : K) : fd_wf (new_FdManager k).
Proof.
  split; cbn [new_FdManager m_datas ctx_heap].
  - by vm_compute.
  - intros i p Hi. by apply lookup_replicate in Hi as [? _].
  - intros p c Hp. by rewrite lookup_empty in Hp.
Qed.

Lemma data_at_spec s fd :
  0 <= fd < Z.of_nat (length (m_datas s)) -> data_at fd s = Ok (entry_of s fd) s.
Proof.
  intros Hfd. unfold data_at, entry_of. assert ((fd <? 0) = false) as -> by lia.
  destruct (lookup_lt_is_Some_2 (m_datas s) (Z.to_nat fd)) as [d ->]; [lia|]. done.
Qed.

Lemma size_i32 s : fd_wf s -> i32 (Z.of_nat (length (m_datas s))) = Z.of_nat (length (m_datas s)).
Proof. intros [Hs _ _]. apply swrap_id; lia. Qed.

Lemma entry_beyond s fd : Z.of_nat (length (m_datas s)) <= fd -> entry_of s fd = None.
Proof. intros Hfd. unfold entry_of. by rewrite lookup_ge_None_2 by lia. Qed.

Lemma get_shared_spec s fd auto :
  fd_wf s -> 0 <= fd ->
  get_shared fd auto s =
    Ok (match entry_of s fd with Some p => Some (Some p) | None => if auto then None else Some None end) s.
Proof.
  intros Hwf Hfd. unfold get_shared. assert ((fd =? -1) = false) as -> by lia.
  cbn [bind gets]. rewrite size_i32 by done.
  destruct (Z.leb_spec (Z.of_nat (length (m_datas s))) fd).
  - rewrite entry_beyond by done. by destruct auto.
  - rewrite (bind_Ok _ _ _ _ _ (data_at_spec s fd ltac:(lia))).
    destruct (entry_of s fd); [done|]. by destruct auto.
Qed.

(** The context [new FdCtx(fd)] describes. *)
Definition fresh_ctx (k : K) (fd : Z) : FdCtx :=
  let sock := k_open fd k && k_socket fd k in
  mkFdCtx (k_open fd k) sock sock false false fd (2 ^ 64 - 1) (2 ^ 64 - 1).
(** The kernel behind it: a socket is made non-blocking. *)
Definition fresh_kernel (k : K) (fd : Z) : K :=
  if k_open fd k && k_socket fd k && negb (nonblock (k_getfl fd k))
  then (k_setfl fd (Z.lor (k_getfl fd k) O_NONBLOCK) k).2 else k.

Lemma new_FdCtx_spec s fd :
  new_FdCtx fd s = Ok (ctx_next s) (mkFds (fresh_kernel (fd_kernel s) fd)
    (<[ctx_next s := fresh_ctx (fd_kernel s) fd]> (ctx_heap s)) (m_datas s) (ctx_next s + 1)).
Proof.
  unfold new_FdCtx, FdCtx_init, fresh_kernel, fresh_ctx, bind, gets, modify, mreturn.
  change (u64 (-1)) with (2 ^ 64 - 1). cbn [m_isInit m_fd].
  destruct (k_open fd (fd_kernel s)); cbn [andb]; [|done].
  destruct (k_socket fd (fd_kernel s)); cbn [andb]; [|done].
  by destruct (nonblock (k_getfl fd (fd_kernel s))).
Qed.

Lemma fresh_kernel_spec k fd :
  same_but fd k (fresh_kernel k fd)
  /\ (k_open fd k && k_socket fd k = true -> nonblock (k_getfl fd (fresh_kernel k fd)) = true).
Proof.
  unfold fresh_kernel. destruct (k_open fd k) eqn:Eo; cbn [andb]; [|by repeat split].
  destruct (k_socket fd k); cbn [andb]; [|by repeat split].
  destruct (nonblock (k_getfl fd k)) eqn:En; cbn [negb]; [by repeat split|].
  destruct (setfl_law fd (Z.lor (k_getfl fd k) O_NONBLOCK) k Eo) as (_ & Hs & Hn).
  split; [done|]. intros _. rewrite Hn. apply nonblock_lor.
Qed.

(** The table after a resize and a store. *)
Definition store_entry (fd : Z) (p : option Z) (l : list (option Z)) : list (option Z) :=
  <[Z.to_nat fd := p]> (if Z.of_nat (length l) <=? fd
    then l ++ replicate (Z.to_nat (fd * 3 / 2) - length l) None else l).

Lemma get_unique_spec s fd :
  fd_wf s -> 0 <= fd < 2 ^ 30 ->
  get_unique fd s = Ok (Some (ctx_next s)) (mkFds (fresh_kernel (fd_kernel s) fd)
    (<[ctx_next s := fresh_ctx (fd_kernel s) fd]> (ctx_heap s))
    (store_entry fd (Some (ctx_next s)) (m_datas s)) (ctx_next s + 1)).
Proof.
  intros Hwf Hfd. unfold get_unique. rewrite (bind_Ok _ _ _ _ _ (new_FdCtx_spec s fd)).
  set (s1 := mkFds _ _ _ _). unfold bind at 1, gets at 1.
  change (m_datas s1) with (m_datas s). rewrite size_i32 by done. unfold store_entry.
  pose proof (fd_size s Hwf).
  destruct (Z.leb_spec (Z.of_nat (length (m_datas s))) fd).
  - cbn [bind modify]. change (m_datas s1) with (m_datas s).
    rewrite take_ge by lia. set (l := m_datas s ++ _).
    rewrite (bind_Ok _ _ _ _ _ (data_at_spec (set_datas l s1) fd
      ltac:(cbn; unfold l; rewrite length_app, length_replicate; lia))).
    done.
  - cbn [bind mreturn]. by rewrite (bind_Ok _ _ _ _ _ (data_at_spec s1 fd ltac:(cbn; lia))).
Qed.

Lemma length_store_entry fd p (l : list (option Z)) :
  (64 <= length l)%nat -> Z.of_nat (length l) < 2 ^ 31 -> 0 <= fd < 2 ^ 30 ->
  (length l <= length (store_entry fd p l))%nat /\ Z.of_nat (length (store_entry fd p l)) < 2 ^ 31
  /\ fd < Z.of_nat (length (store_entry fd p l)).
Proof.
  intros Hl Hm Hfd. unfold store_entry. rewrite length_insert.
  destruct (Z.leb_spec (Z.of_nat (length l)) fd); rewrite ?length_app, ?length_replicate; lia.
Qed.

Lemma lookup_store_entry fd p (l : list (option Z)) g :
  (64 <= length l)%nat -> Z.of_nat (length l) < 2 ^ 31 -> 0 <= fd < 2 ^ 30 -> 0 <= g ->
  default None (store_entry fd p l !! Z.to_nat g) =
    if decide (g = fd) then p else default None (l !! Z.to_nat g).
Proof.
  intros Hl Hm Hfd Hg. destruct (length_store_entry fd p l Hl Hm Hfd) as (H1 & H2 & H3).
  unfold store_entry in *. rewrite length_insert in *. destruct (decide (g = fd)) as [->|Hne].
  - by rewrite list_lookup_insert_eq by lia.
  - rewrite list_lookup_insert_ne by lia. destruct (Z.of_nat (length l) <=? fd); [|done].
    destruct (decide (Z.to_nat g < length l)%nat).
    + by rewrite lookup_app_l by lia.
    + rewrite lookup_app_r, (lookup_ge_None_2 l) by lia.
      destruct (replicate _ None !! _) eqn:E; [|done].
      by apply lookup_replicate in E as [-> _].
Qed.

Lemma store_entry_some fd p (l : list (option Z)) i q :
  (64 <= length l)%nat -> Z.of_nat (length l) < 2 ^ 31 -> 0 <= fd < 2 ^ 30 ->
  store_entry fd p l !! i = Some (Some q) ->
  (Z.of_nat i = fd /\ p = Some q) \/ (Z.of_nat i <> fd /\ l !! i = Some (Some q)).
Proof.
  intros Hl Hm Hfd Hi. pose proof (lookup_store_entry fd p l (Z.of_nat i) Hl Hm Hfd ltac:(lia)) as Hs.
  rewrite Nat2Z.id, Hi in Hs. cbn in Hs. destruct (decide _); [left; by split|]. right.
  split; [done|]. destruct (l !! i) as [[r|]|]; cbn in Hs; congruence.
Qed.

Lemma fresh_ctx_ok (k : K) fd : ctx_ok (fresh_ctx k fd).
Proof. split; cbn; [done|done|]. by destruct (k_open fd k). Qed.

(** The state after [new FdCtx(fd)] is stored in the table. *)
Definition stored s (fd : Z) : Fds K :=
  mkFds (fresh_kernel (fd_kernel s) fd) (<[ctx_next s := fresh_ctx (fd_kernel s) fd]> (ctx_heap s))
    (store_entry fd (Some (ctx_next s)) (m_datas s)) (ctx_next s + 1).

Lemma wf_stored s fd : fd_wf s -> 0 <= fd < 2 ^ 30 -> fd_wf (stored s fd).
Proof.
  intros [[Hl Hm] He Hc] Hfd. pose proof (length_store_entry fd (Some (ctx_next s)) _ Hl Hm Hfd).
  split; cbn.
  - lia.
  - intros i p [[Hi [= <-]]|[Hi Hp]]%store_entry_some; [| |done..].
    + rewrite lookup_insert_eq. eexists. split; [done|]. cbn. lia.
    + destruct (He i p Hp) as (c & Hcp & Hcf). exists c. split; [|done].
      rewrite lookup_insert_ne; [done|]. destruct (Hc p c Hcp). lia.
  - intros p c. destruct (decide (ctx_next s = p)) as [<-|Hp].
    + rewrite lookup_insert_eq. intros [= <-]. split; [apply fresh_ctx_ok|lia].
    + rewrite lookup_insert_ne by done. intros Hcp. destruct (Hc p c Hcp). split; [done|lia].
Qed.

Lemma entry_stored s fd g :
  fd_wf s -> 0 <= fd < 2 ^ 30 -> 0 <= g ->
  entry_of (stored s fd) g = if decide (g = fd) then Some (ctx_next s) else entry_of s g.
Proof. intros [[Hl Hm] _ _] Hfd Hg. by apply lookup_store_entry. Qed.

Lemma get_spec s fd auto :
  fd_wf s -> 0 <= fd < 2 ^ 30 ->
  FdManager_get fd auto s =
    match entry_of s fd with
    | Some p => Ok (Some p) s
    | None => if auto then Ok (Some (ctx_next s)) (stored s fd) else Ok None s
    end.
Proof.
  intros Hwf Hfd. unfold FdManager_get. rewrite (bind_Ok _ _ _ _ _ (get_shared_spec s fd auto Hwf ltac:(lia))).
  destruct (entry_of s fd); [done|]. destruct auto; [|done]. by apply get_unique_spec.
Qed.

Lemma del_spec s fd :
  fd_wf s -> 0 <= fd ->
  exists s', FdManager_del fd s = Ok tt s' /\ fd_wf s' /\ entry_of s' fd = None
    /\ ctx_heap s' = ctx_heap s /\ fd_kernel s' = fd_kernel s
    /\ forall g, 0 <= g -> g <> fd -> entry_of s' g = entry_of s g.
Proof.
  intros Hwf Hfd. pose proof Hwf as [[Hl Hm] He Hc]. unfold FdManager_del. cbn [bind gets].
  rewrite size_i32 by done. destruct (Z.leb_spec (Z.of_nat (length (m_datas s))) fd).
  - exists s. split_and!; try done. by apply entry_beyond.
  - rewrite (bind_Ok _ _ _ _ _ (data_at_spec s fd ltac:(lia))). eexists. split; [done|].
    unfold entry_of. cbn. split_and!; try done.
    + split; cbn; [by rewrite length_insert| |done]. intros i p.
      destruct (decide (i = Z.to_nat fd)) as [->|]; [by rewrite list_lookup_insert_eq by lia|].
      rewrite list_lookup_insert_ne by done. apply He.
    + by rewrite list_lookup_insert_eq by lia.
    + intros g Hg Hne. by rewrite list_lookup_insert_ne by lia.
Qed.
End facts.

(** C30: the table of contexts.  [get] returns the context of a descriptor, null
    when there is none; told to create it makes one, with infinite time-outs and
    no wish of the user, records whether the descriptor is a socket and makes a
    socket non-blocking in the kernel, and changes no other entry; [del] forgets
    the entry only, so a pointer handed out stays usable.  Negative descriptors
    index the table out of bounds, except -1 in [get].  When two threads both
    find the entry empty, each creates a context and the second replaces the
    first, which its thread goes on using. *)
Theorem descriptor_contexts {K : Type} `{KernelLaws K} (s : Fds K) (fd : Z) :
  fd_wf s -> fd < 2 ^ 30 ->
  (0 <= fd -> FdManager_get fd false s = Ok (entry_of s fd) s)
  /\ (0 <= fd -> exists p s', FdManager_get fd true s = Ok (Some p) s' /\ fd_wf s'
      /\ (entry_of s fd <> None -> s' = s) /\ entry_of s' fd = Some p
      /\ (forall g, 0 <= g -> g <> fd -> entry_of s' g = entry_of s g)
      /\ (entry_of s fd = None ->
          ctx_heap s' = <[p := fresh_ctx (fd_kernel s) fd]> (ctx_heap s) /\ ctx_heap s !! p = None
          /\ same_but fd (fd_kernel s) (fd_kernel s')
          /\ (m_isSocket (fresh_ctx (fd_kernel s) fd) = true ->
              nonblock (k_getfl fd (fd_kernel s')) = true)))
  /\ (0 <= fd -> exists s', FdManager_del fd s = Ok tt s' /\ fd_wf s' /\ entry_of s' fd = None
      /\ ctx_heap s' = ctx_heap s
      /\ forall g, 0 <= g -> g <> fd -> entry_of s' g = entry_of s g)
  /\ (fd < 0 -> FdManager_del fd s = Ub
      /\ forall b, FdManager_get fd b s = if fd =? -1 then Ok None s else Ub)
  /\ (0 <= fd -> entry_of s fd = None -> exists p1 p2 s1 s2,
      get_shared fd true s = Ok None s /\ get_unique fd s = Ok (Some p1) s1
      /\ get_unique fd s1 = Ok (Some p2) s2 /\ p1 <> p2
      /\ entry_of s1 fd = Some p1 /\ entry_of s2 fd = Some p2
      /\ ctx_heap s2 !! p1 = Some (fresh_ctx (fd_kernel s) fd)).
Proof.
  intros Hwf Hlt. split_and!.
  - intros Hfd. rewrite get_spec by done. by destruct (entry_of s fd).
  - intros Hfd. rewrite get_spec by done. destruct (entry_of s fd) as [p|] eqn:Ee.
    + exists p, s. by split_and!.
    + exists (ctx_next s), (stored s fd). split_and!; try done.
      * by apply wf_stored.
      * rewrite entry_stored by done. by destruct (decide (fd = fd)).
      * intros g Hg Hne. rewrite entry_stored by done. by destruct (decide (g = fd)).
      * intros _. split_and!; [done| |apply fresh_kernel_spec|intros Hs; by apply fresh_kernel_spec].
        destruct (ctx_heap s !! ctx_next s) as [c|] eqn:Ec; [|done].
        destruct (fd_ctx s Hwf _ _ Ec). lia.
  - intros Hfd. destruct (del_spec s fd Hwf Hfd) as (s' & ? & ? & ? & ? & _ & ?). by exists s'.
  - intros Hfd. pose proof (fd_size s Hwf).
    assert (Hd : data_at fd s = Ub) by (unfold data_at; by assert ((fd <? 0) = true) as -> by lia).
    assert ((Z.of_nat (length (m_datas s)) <=? fd) = false) as Hle by lia. split.
    + unfold FdManager_del. cbn [bind gets]. rewrite size_i32, Hle by done.
      by rewrite (bind_Ub _ _ _ Hd).
    + intros b. unfold FdManager_get, get_shared. destruct (fd =? -1); [done|].
      apply bind_Ub. cbn [bind gets]. rewrite size_i32, Hle by done. by rewrite (bind_Ub _ _ _ Hd).
  - intros Hfd Hno. pose proof (wf_stored s fd Hwf ltac:(lia)) as Hwf1.
    exists (ctx_next s), (ctx_next s + 1), (stored s fd), (stored (stored s fd) fd). split_and!.
    + rewrite get_shared_spec by done. by rewrite Hno.
    + by apply get_unique_spec.
    + by apply get_unique_spec.
    + lia.
    + rewrite entry_stored by done. by destruct (decide (fd = fd)).
    + rewrite entry_stored by done. by destruct (decide (fd = fd)).
    + cbn. rewrite lookup_insert_ne by lia. by rewrite lookup_insert_eq.
Qed.

(** Descriptor 5 is a blocking socket, 6 a file. *)
Definition kernel_example : TableKernel := {[ 5 := (true, false); 6 := (false, false) ]}.

Lemma descriptor_contexts_witness :
  exists p s', FdManager_get 5 true (new_FdManager kernel_example) = Ok (Some p) s'
    /\ nonblock (k_getfl 5 (fd_kernel s')) = true /\ entry_of s' 6 = None.
Proof.
  destruct (descriptor_contexts (new_FdManager kernel_example) 5 (wf_new_FdManager _) ltac:(done))
    as (_ & H2 & _).
  destruct (H2 ltac:(done)) as (p & s' & Hrun & _ & _ & _ & Hoth & Hnew). exists p, s'.
  split; [exact Hrun|]. split.
  - apply Hnew; by vm_compute.
  - by rewrite (Hoth 6).
Defined.
