(* ===== verification/Hook.v ===== *)
(** * Hooked system calls (src/src/util/hook.h, hook.cpp)

    What each hooked function does, over the contexts of FdManager.  The calls
    into the C library whose effect on the status of a descriptor matters go to
    the interface [Kernel]; the answers of the others, of [addEvent], and what a
    fiber finds when it is resumed come from scripts, and everything done to the
    poller and the timers is recorded in [trace].  The thread may have no poller;
    of the poller it has, the table's size and the readers of its lock are kept,
    which decide whether a removal is defined. *)
From S2P Require Import Prelude.
From S2P Require Import FdManager.
From S2P Require EventPoller.

Definition EINTR : Z := 4.
Definition EBADF : Z := 9.
Definition EAGAIN : Z := 11.
Definition ETIMEDOUT : Z := 110.
Definition EINPROGRESS : Z := 115.
Definition NO_TIMEOUT : Z := 2 ^ 64 - 1.   (* (uint64_t)-1 *)

(** What is done to the outside, in order. *)
Inductive act :=
| AFun (n : Z)                      (* a call of the original function *)
| ATimer (ms : Z)                   (* addTimer / addConditionTimer *)
| AAdd (fd event rt : Z)            (* addEvent *)
| AYield                            (* yieldToHold *)
| ACancel                           (* timer->cancel() *)
| ACancelAll (fd : Z)
| AFcntl (fd cmd : Z) (arg : option Z).

(** ** The original functions *)

(** [HOOK_FUN], by name. *)
Definition HOOK_FUN : list string :=
  ["sleep"; "usleep"; "nanosleep"; "socket"; "connect"; "accept"; "read"; "readv"; "recv"; "recvfrom";
   "recvmsg"; "write"; "writev"; "send"; "sendto"; "sendmsg"; "close"; "fcntl"; "ioctl"; "getsockopt";
   "setsockopt"]%string.
(** [is_inited] and the pointers [name_f]; a null pointer is 0. *)
Record Originals := mkOriginals { is_inited : bool; name_f : gmap string Z }.
(** [void hook_init()]; nothing sets [is_inited].  [dlsym] answers for a name. *)
Definition hook_init (dlsym : string -> Z) (s : Originals) : Originals :=
  if is_inited s then s
  else mkOriginals (is_inited s) (foldl (fun t name => <[name := dlsym name]> t) (name_f s) HOOK_FUN).

(** What a removal of events meets in the thread's [EventPoller] around its work:
    the size of the table of contexts and the shared owners of [m_mtx]. *)
Record TableLock := mkTableLock { tl_size : Z; tl_readers : Z }.

Section hook.
Context {K : Type} `{Kernel K}.

Record Hook := mkHook {
  t_hook_enable : bool;
  hk_fds : Fds K;
  hk_errno : Z;
  calls : list (Z * Z);   (* answers of the original functions: result, errno *)
  adds : list (option Z); (* answers of addEvent: 0, or -1 with the errno of epoll_ctl *)
  wakes : list Z;         (* tinfo->cancelled when a fiber is resumed *)
  trace : list act;
  hk_poller : option TableLock  (* EventPoller::getThis() *)
}.
Definition has_poller (h : Hook) : bool := match hk_poller h with Some _ => true | None => false end.
Abbreviation HM := (M Hook).

Definition set_fds v h := mkHook (t_hook_enable h) v (hk_errno h) (calls h) (adds h) (wakes h) (trace h) (hk_poller h).
Definition set_errno v h := mkHook (t_hook_enable h) (hk_fds h) v (calls h) (adds h) (wakes h) (trace h) (hk_poller h).
Definition log (a : act) : HM unit :=
  modify (fun h => mkHook (t_hook_enable h) (hk_fds h) (hk_errno h) (calls h) (adds h) (wakes h) (trace h ++ [a]) (hk_poller h)).

(** [void set_hook_enable(bool flag)], [bool is_hook_enable()] *)
Definition set_hook_enable (flag : bool) : HM unit :=
  modify (fun h => mkHook flag (hk_fds h) (hk_errno h) (calls h) (adds h) (wakes h) (trace h) (hk_poller h)).
Definition is_hook_enable : HM bool := gets t_hook_enable.

(** An operation of the contexts. *)
Definition on_fds {A} (m : M (Fds K) A) : HM A := fun h =>
  match m (hk_fds h) with
  | Ok a f => Ok a (set_fds f h)
  | Throw e f => Throw e (set_fds f h)
  | Abort => Abort
  | Ub => Ub
  | Deadlock => Deadlock
  | NoFuel => NoFuel
  end.

(** The original function: its answer, with [errno] when it is -1. *)
Definition fun_f : HM Z := fun h =>
  match calls h with
  | [] => NoFuel
  | (n, e) :: cs =>
      Ok n (mkHook (t_hook_enable h) (hk_fds h) (if n =? -1 then e else hk_errno h) cs
              (adds h) (wakes h) (trace h ++ [AFun n]) (hk_poller h))
  end.

(** [ep->addEvent(fd, event)] and [Fiber::yieldToHold()], which ends with the
    value of [tinfo->cancelled]. *)
Definition addEvent_f (fd event : Z) : HM Z := fun h =>
  match adds h with
  | [] => NoFuel
  | r :: l =>
      let rt := match r with Some _ => -1 | None => 0 end in
      Ok rt (mkHook (t_hook_enable h) (hk_fds h) (default (hk_errno h) r) (calls h) l (wakes h)
               (trace h ++ [AAdd fd event rt]) (hk_poller h))
  end.
Definition yield_f : HM Z := fun h =>
  match wakes h with
  | [] => NoFuel
  | w :: l => Ok w (mkHook (t_hook_enable h) (hk_fds h) (hk_errno h) (calls h) (adds h) l
               (trace h ++ [AYield]) (hk_poller h))
  end.
(** A call through [EventPoller::getThis()]: undefined when that is null. *)
Definition poller_f : HM unit := fun h => if has_poller h then Ok tt h else Ub.
(** [cancelEvent(fd, ...)] and [cancelAll(fd)] of that poller, as [with_table] of
    EventPoller.v: beyond the table [false]; otherwise the part under the lock of
    the context, which answers [b], and then [m_mtx] is released a second time. *)
Definition removal_f (fd : Z) (b : bool) : HM bool := fun h =>
  match hk_poller h with
  | None => Ub
  | Some t =>
      if i32 (tl_size t) <=? fd then Ok false h else
      if fd <? 0 then Ub else
      if tl_readers t <=? 0 then Ub else
      Ok b (mkHook (t_hook_enable h) (hk_fds h) (hk_errno h) (calls h) (adds h) (wakes h) (trace h)
              (Some (mkTableLock (tl_size t) (tl_readers t - 1))))
  end.

(** ** [do_io] *)

(** [while(n == -1 && errno == EINTR) n = fun(...)] *)
Fixpoint eintr_loop (fuel : nat) (n : Z) : HM Z :=
  match fuel with
  | O => nofuel
  | S fuel =>
      e <-- gets hk_errno ;;
      if (n =? -1) && (e =? EINTR) then n <-- fun_f ;; eintr_loop fuel n else mreturn n
  end.

(** From the label [retry] on; [to] is the time-out. *)
Fixpoint do_io_retry (fuel : nat) (fd event to : Z) : HM Z :=
  match fuel with
  | O => nofuel
  | S fuel' =>
      n <-- fun_f ;;
      n <-- eintr_loop fuel n ;;
      e <-- gets hk_errno ;;
      if (n =? -1) && (e =? EAGAIN) then
        poller_f ;;;
        (if negb (to =? NO_TIMEOUT) then log (ATimer to) else mreturn tt) ;;;
        rt <-- addEvent_f fd event ;;
        if negb (rt =? 0) then
          (if negb (to =? NO_TIMEOUT) then log ACancel else mreturn tt) ;;;
          mreturn (-1)
        else
          cancelled <-- yield_f ;;
          (if negb (to =? NO_TIMEOUT) then log ACancel else mreturn tt) ;;;
          if negb (cancelled =? 0) then
            modify (set_errno cancelled) ;;; mreturn (-1)
          else do_io_retry fuel' fd event to
      else mreturn n
  end.

(** [template do_io(fd, fun, hook_fun_name, event, timeout_so, args...)]; there
    is no more to do than answers in the script. *)
Definition do_io (fd event timeout_so : Z) : HM Z :=
  en <-- is_hook_enable ;;
  if negb en then fun_f else
  p <-- on_fds (FdManager_get fd false) ;;
  match p with
  | None => fun_f
  | Some p =>
      ctx <-- on_fds (ctx_at p) ;;
      if m_isClosed ctx then modify (set_errno EBADF) ;;; mreturn (-1) else
      if negb (m_isSocket ctx) || m_userNonblock ctx then fun_f else
      let to := FdCtx_getTimeout timeout_so ctx in
      h <-- get ;;
      do_io_retry (S (length (calls h))) fd event to
  end.

(** The functions that are a call of [do_io]. *)
Inductive io_fun :=
| F_read | F_readv | F_recv | F_recvfrom | F_recvmsg
| F_write | F_writev | F_send | F_sendto | F_sendmsg.
Definition io_event (f : io_fun) : Z :=
  match f with
  | F_read | F_readv | F_recv | F_recvfrom | F_recvmsg => EventPoller.READ
  | F_write | F_writev | F_send | F_sendto | F_sendmsg => EventPoller.WRITE
  end.
Definition io_timeout (f : io_fun) : Z :=
  match f with
  | F_read | F_readv | F_recv | F_recvfrom | F_recvmsg => SO_RCVTIMEO
  | F_write | F_writev | F_send | F_sendto | F_sendmsg => SO_SNDTIMEO
  end.
Definition hook_io (f : io_fun) (fd : Z) : HM Z := do_io fd (io_event f) (io_timeout f).

(** [int accept(...)]: the new descriptor gets a context. *)
Definition hook_accept (s : Z) : HM Z :=
  n <-- do_io s EventPoller.READ SO_RCVTIMEO ;;
  let fd := i32 n in
  (if 0 <=? fd then on_fds (FdManager_get fd true) ;;; mreturn tt else mreturn tt) ;;;
  mreturn fd.

(** ** The sleeping functions *)

(** [ep->addTimer(ms, ...)] and [Fiber::yieldToHold()] *)
Definition sleep_for (ms : Z) : HM Z :=
  poller_f ;;; log (ATimer (u64 ms)) ;;; yield_f ;;; mreturn 0.

(** [unsigned int sleep(unsigned int secs)], [int usleep(useconds_t usec)] *)
Definition hook_sleep (secs : Z) : HM Z :=
  en <-- is_hook_enable ;;
  if negb en then fun_f else sleep_for (u32 (secs * 1000)).
Definition hook_usleep (usec : Z) : HM Z :=
  en <-- is_hook_enable ;;
  if negb en then fun_f else sleep_for (usec / 1000).
(** [int nanosleep(const timespec* req, timespec* rem)]; a [long] that overflows
    is undefined, its conversion to [int] wraps. *)
Definition hook_nanosleep (tv_sec tv_nsec : Z) : HM Z :=
  en <-- is_hook_enable ;;
  if negb en then fun_f else
  let ms := tv_sec * 1000 + Z.quot (Z.quot tv_nsec 1000) 1000 in
  if bool_decide (- 2 ^ 63 <= tv_sec * 1000 < 2 ^ 63 /\ - 2 ^ 63 <= ms < 2 ^ 63)
  then sleep_for (i32 ms) else ub.

(** ** Sockets *)

Definition hook_socket : HM Z :=
  en <-- is_hook_enable ;;
  if negb en then fun_f else
  fd <-- fun_f ;;
  if fd =? -1 then mreturn fd else
  on_fds (FdManager_get fd true) ;;; mreturn fd.

(** [connect_with_timeout] from the call of [connect_f] on; [so_error] is what
    [getsockopt(SO_ERROR)] returns, with what it stores, or its [errno] when it
    fails. *)
Definition connect_blocked (fd timeout_ms : Z) (so_error : Z * Z) : HM Z :=
  n <-- fun_f ;;
  e <-- gets hk_errno ;;
  if n =? 0 then mreturn 0 else
  if negb (n =? -1) || negb (e =? EINPROGRESS) then mreturn n else
  let timed := negb (timeout_ms =? NO_TIMEOUT) in
  poller_f ;;;
  (if timed then log (ATimer timeout_ms) else mreturn tt) ;;;
  rt <-- addEvent_f fd EventPoller.WRITE ;;
  cancelled <-- (if rt =? 0 then
                   c <-- yield_f ;;
                   (if timed then log ACancel else mreturn tt) ;;;
                   mreturn c
                 else (if timed then log ACancel else mreturn tt) ;;; mreturn 0) ;;
  if negb (cancelled =? 0) then modify (set_errno cancelled) ;;; mreturn (-1) else
  if so_error.1 =? -1 then modify (set_errno so_error.2) ;;; mreturn (-1) else
  if so_error.2 =? 0 then mreturn 0 else
  modify (set_errno so_error.2) ;;; mreturn (-1).
(** [int connect_with_timeout(fd, addr, addrlen, timeout_ms)] *)
Definition connect_with_timeout (fd timeout_ms : Z) (so_error : Z * Z) : HM Z :=
  en <-- is_hook_enable ;;
  if negb en then fun_f else
  p <-- on_fds (FdManager_get fd false) ;;
  match p with
  | None => modify (set_errno EBADF) ;;; mreturn (-1)
  | Some p =>
      ctx <-- on_fds (ctx_at p) ;;
      if m_isClosed ctx then modify (set_errno EBADF) ;;; mreturn (-1) else
      if negb (m_isSocket ctx) then fun_f else
      if m_userNonblock ctx then fun_f else
      connect_blocked fd timeout_ms so_error
  end.

(** [int connect(...)], with [s_connect_timeout] *)
Definition s_connect_timeout : Z := NO_TIMEOUT.
Definition hook_connect (fd : Z) (so_error : Z * Z) : HM Z :=
  connect_with_timeout fd s_connect_timeout so_error.

(** [int close(int fd)] *)
Definition hook_close (fd : Z) : HM Z :=
  en <-- is_hook_enable ;;
  if negb en then fun_f else
  p <-- on_fds (FdManager_get fd false) ;;
  (match p with
   | Some _ =>
       iom <-- gets has_poller ;;
       (if (iom : bool) then log (ACancelAll fd) ;;; removal_f fd false ;;; mreturn tt else mreturn tt) ;;;
       on_fds (FdManager_del fd)
   | None => mreturn tt
   end) ;;;
  fun_f.

(** ** [fcntl], [ioctl], [setsockopt] *)

Definition F_GETFL : Z := 3.
Definition F_SETFL : Z := 4.

(** [fcntl_f(fd, F_SETFL, arg)], [fcntl_f(fd, F_GETFL)], [ioctl_f(fd, FIONBIO, &v)] *)
Definition setfl_f (fd arg : Z) : HM Z := fun h =>
  let '(r, k) := k_setfl fd arg (fd_kernel (hk_fds h)) in
  Ok r (set_fds (set_kernel k (hk_fds h)) h).
Definition getfl_f (fd : Z) : HM Z := gets (fun h => k_getfl fd (fd_kernel (hk_fds h))).
Definition fionbio_f (fd v : Z) : HM Z := fun h =>
  let '(r, k) := k_fionbio fd v (fd_kernel (hk_fds h)) in
  Ok r (set_fds (set_kernel k (hk_fds h)) h).

(** The context, unless null, closed or not a socket. *)
Definition socket_ctx (fd : Z) : HM (option (Z * FdCtx)) :=
  p <-- on_fds (FdManager_get fd false) ;;
  match p with
  | None => mreturn None
  | Some p =>
      ctx <-- on_fds (ctx_at p) ;;
      mreturn (if m_isClosed ctx || negb (m_isSocket ctx) then None else Some (p, ctx))
  end.

(** The commands passed on with their argument; other commands than these,
    [F_SETFL] and [F_GETFL] are passed on without. *)
Definition fcntl_with_arg : list Z :=
  [0; 1030; 2; 8; 10; 1024; 1026; 1031   (* F_DUPFD ... F_SETPIPE_SZ: an int *)
   ; 6; 7; 5                              (* F_SETLK, F_SETLKW, F_GETLK *)
   ; 16; 15].                             (* F_GETOWN_EX, F_SETOWN_EX *)

(** [int fcntl(int fd, int cmd, ...)] with its argument *)
Definition hook_fcntl (fd cmd arg : Z) : HM Z :=
  if cmd =? F_SETFL then
    c <-- socket_ctx fd ;;
    match c with
    | None => setfl_f fd arg
    | Some (p, ctx) =>
        on_fds (FdCtx_setUserNonblock (nonblock arg) p) ;;;
        setfl_f fd (if m_sysNonblock ctx then Z.lor arg O_NONBLOCK else Z.ldiff arg O_NONBLOCK)
    end
  else if cmd =? F_GETFL then
    arg <-- getfl_f fd ;;
    c <-- socket_ctx fd ;;
    match c with
    | None => mreturn arg
    | Some (p, ctx) =>
        mreturn (if m_userNonblock ctx then Z.lor arg O_NONBLOCK else Z.ldiff arg O_NONBLOCK)
    end
  else
    log (AFcntl fd cmd (if bool_decide (cmd ∈ fcntl_with_arg) then Some arg else None)) ;;; fun_f.

(** [int ioctl(int d, unsigned long request, ...)]; [arg] is [*(int* )arg]. *)
Definition FIONBIO : Z := 0x5421.
Definition hook_ioctl (d request arg : Z) : HM Z :=
  if FIONBIO =? request then
    let user_nonblock := negb (arg =? 0) in
    c <-- socket_ctx d ;;
    match c with
    | None => fionbio_f d arg
    | Some (p, ctx) =>
        on_fds (FdCtx_setUserNonblock user_nonblock p) ;;;
        fionbio_f d arg
    end
  else fun_f.

(** [int getsockopt(...)] and [int setsockopt(sockfd, level, optname, optval, optlen)];
    [tv_sec] and [tv_usec] are those of [*(const timeval* )optval]. *)
Definition SOL_SOCKET : Z := 1.
Definition hook_getsockopt : HM Z := fun_f.
Definition hook_setsockopt (sockfd level optname tv_sec tv_usec : Z) : HM Z :=
  en <-- is_hook_enable ;;
  if negb en then fun_f else
  (if (level =? SOL_SOCKET) && ((optname =? SO_RCVTIMEO) || (optname =? SO_SNDTIMEO)) then
     p <-- on_fds (FdManager_get sockfd false) ;;
     match p with
     | Some p => on_fds (FdCtx_setTimeout optname (u64 (tv_sec * 1000 + Z.quot tv_usec 1000)) p)
     | None => mreturn tt
     end
   else mreturn tt) ;;;
  fun_f.
End hook.
Arguments Hook K : clear implicits.
