(* ===== verification/HookFacts.v ===== *)
(** * Facts about the hooked system calls

    The retry loop of [do_io] against its script of answers, with the errno it
    leaves; the removals of a poller as the hooks see them; the view a user has
    of the non-blocking flag, and the durations that reach the timers. *)
From S2P Require Import Prelude.
From S2P Require Import FdManager FdManagerFacts Timer Hook.
From S2P Require EventPoller EventPollerFacts.

(** Note: [hook_init] gives every hooked function its original, leaves other
    names alone, and does the same again each time it is called. *)
Lemma hook_init_spec dlsym (t : gmap string Z) :
  let s := hook_init dlsym (mkOriginals false t) in
  (forall name, name ∈ HOOK_FUN -> name_f s !! name = Some (dlsym name))
  /\ (forall name, name ∉ HOOK_FUN -> name_f s !! name = t !! name)
  /\ is_inited s = false.
Proof.
  cbn zeta. unfold hook_init. cbn [is_inited name_f].
  assert (Hgo : forall l (t : gmap string Z) name, foldl (fun t name => <[name := dlsym name]> t) t l !! name
    = if decide (name ∈ l) then Some (dlsym name) else t !! name).
  { induction l as [|x l IH]; intros t0 name; [done|]. cbn [foldl]. rewrite IH.
    destruct (decide (name ∈ l)) as [Hl|Hl].
    - by rewrite decide_True by (by right).
    - destruct (decide (name = x)) as [->|Hne].
      + rewrite lookup_insert_eq. by rewrite decide_True by (by left).
      + rewrite lookup_insert_ne by done. rewrite decide_False; [done|]. by intros [|]%elem_of_cons. }
  split_and!; [intros name Hn|intros name Hn|done]; rewrite Hgo.
  - by rewrite decide_True.
  - by rewrite decide_False.
Qed.

Section hook_facts.
Context {K : Type} `{KernelLaws K}.
Implicit Types (h : Hook K) (s : Fds K).

(** A state with its scripts replaced and its trace extended. *)
Definition after h (e : Z) (cs : list (Z * Z)) (ads : list (option Z)) (wks : list Z) (tr : list act) : Hook K :=
  mkHook (t_hook_enable h) (hk_fds h) e cs ads wks (trace h ++ tr) (hk_poller h).

Lemma after_after h e cs ads wks tr e' cs' ads' wks' tr' :
  after (after h e cs ads wks tr) e' cs' ads' wks' tr' = after h e' cs' ads' wks' (tr ++ tr').
Proof. unfold after. cbn. by rewrite app_assoc. Qed.

Lemma after_same h : after h (hk_errno h) (calls h) (adds h) (wakes h) [] = h.
Proof. unfold after. rewrite app_nil_r. by destruct h. Qed.

(** [j] interrupted calls. *)
Definition interrupted (j : nat) : list (Z * Z) := replicate j (-1, EINTR).
(** What [j] interrupted calls and one more that returns [n] leave. *)
Definition attempt (j : nat) (n e : Z) (cs : list (Z * Z)) h : Hook K :=
  after h (if n =? -1 then e else if (j =? 0)%nat then hk_errno h else EINTR) cs (adds h) (wakes h)
    (replicate j (AFun (-1)) ++ [AFun n]).

Lemma fun_f_run h n e cs :
  calls h = (n, e) :: cs ->
  fun_f h = Ok n (after h (if n =? -1 then e else hk_errno h) cs (adds h) (wakes h) [AFun n]).
Proof. intros Hc. unfold fun_f. by rewrite Hc. Qed.

Lemma attempt_run fuel j n e cs h :
  (j < fuel)%nat -> calls h = interrupted j ++ (n, e) :: cs -> ~ (n = -1 /\ e = EINTR) ->
  (x <-- fun_f ;; eintr_loop fuel x) h = Ok n (attempt j n e cs h).
Proof.
  intros Hf Hc Hne. revert fuel h Hf Hc. induction j as [|j IH]; intros [|fuel] h Hf Hc; try lia.
  - mrun (fun_f_run h n e cs Hc). cbn [eintr_loop bind gets]. unfold attempt. cbn [replicate app].
    cbn [hk_errno after Nat.eqb]. destruct (Z.eqb_spec n (-1)) as [->|]; [|done].
    by destruct (Z.eqb_spec e EINTR) as [->|]; [destruct Hne|].
  - cbn in Hc. mrun (fun_f_run h (-1) EINTR _ Hc). cbn [eintr_loop bind gets].
    change (-1 =? -1) with true. cbn [hk_errno after andb]. change (EINTR =? EINTR) with true. cbn match.
    rewrite IH by (done || lia). unfold attempt. rewrite after_after. cbn [adds wakes after hk_errno].
    f_equal. unfold after. f_equal. destruct (n =? -1); [done|]. by destruct j.
Qed.

Variables (fd event to : Z).

(** The timer of one wait, and its cancellation. *)
Definition timer_of : list act := if to =? NO_TIMEOUT then [] else [ATimer to].
Definition cancel_of : list act := if to =? NO_TIMEOUT then [] else [ACancel].

(** A call that would block, after [j] interrupted ones, and the wait that follows. *)
Definition round_calls (j : nat) : list (Z * Z) := interrupted j ++ [(-1, EAGAIN)].
Definition tries (j : nat) : list act := replicate (S j) (AFun (-1)).
Definition round_trace (j : nat) : list act :=
  tries j ++ timer_of ++ [AAdd fd event 0; AYield] ++ cancel_of.

Lemma log_run a h : log a h = Ok tt (after h (hk_errno h) (calls h) (adds h) (wakes h) [a]).
Proof. done. Qed.

Lemma log_timer h :
  (if negb (to =? NO_TIMEOUT) then log (ATimer to) else mreturn tt) h
  = Ok tt (after h (hk_errno h) (calls h) (adds h) (wakes h) timer_of).
Proof. unfold timer_of. destruct (to =? NO_TIMEOUT); cbn [negb]; [by rewrite after_same|done]. Qed.
Lemma log_cancel h :
  (if negb (to =? NO_TIMEOUT) then log ACancel else mreturn tt) h
  = Ok tt (after h (hk_errno h) (calls h) (adds h) (wakes h) cancel_of).
Proof. unfold cancel_of. destruct (to =? NO_TIMEOUT); cbn [negb]; [by rewrite after_same|done]. Qed.

(** The part of an iteration up to the decision on the answer. *)
Lemma retry_attempt fuel j n e cs h :
  (length (calls h) < fuel)%nat -> calls h = interrupted j ++ (n, e) :: cs -> ~ (n = -1 /\ e = EINTR) ->
  do_io_retry fuel fd event to h =
    (if (n =? -1) && (e =? EAGAIN) then
       poller_f ;;;
       (if negb (to =? NO_TIMEOUT) then log (ATimer to) else mreturn tt) ;;;
       rt <-- addEvent_f fd event ;;
       if negb (rt =? 0) then
         (if negb (to =? NO_TIMEOUT) then log ACancel else mreturn tt) ;;; mreturn (-1)
       else
         cancelled <-- yield_f ;;
         (if negb (to =? NO_TIMEOUT) then log ACancel else mreturn tt) ;;;
         if negb (cancelled =? 0) then modify (set_errno cancelled) ;;; mreturn (-1)
         else do_io_retry (pred fuel) fd event to
     else mreturn n) (attempt j n e cs h).
Proof.
  intros Hf Hc Hne. destruct fuel as [|fuel]; [lia|].
  assert (Hj : (j < S fuel)%nat).
  { rewrite Hc in Hf. unfold interrupted in Hf. rewrite length_app, length_replicate in Hf. lia. }
  pose proof (attempt_run (S fuel) j n e cs h Hj Hc Hne) as Hrun.
  cbn [do_io_retry pred].
  apply bind_Ok_inv in Hrun as (x & h1 & Hx & Hloop).
  rewrite (bind_Ok _ _ _ _ _ Hx), (bind_Ok _ _ _ _ _ Hloop). unfold bind at 1, gets at 1.
  cbn [hk_errno attempt after]. destruct (n =? -1); done.
Qed.

(** What [addEvent] returns. *)
Definition answer_of (r : option Z) : Z := match r with Some _ => -1 | None => 0 end.
Lemma addEvent_run h r l :
  adds h = r :: l ->
  addEvent_f fd event h
  = Ok (answer_of r) (after h (default (hk_errno h) r) (calls h) l (wakes h) [AAdd fd event (answer_of r)]).
Proof. intros Ha. unfold addEvent_f. by rewrite Ha. Qed.
Lemma yield_run h w l :
  wakes h = w :: l -> yield_f h = Ok w (after h (hk_errno h) (calls h) (adds h) l [AYield]).
Proof. intros Hw. unfold yield_f. by rewrite Hw. Qed.

(** The wait of one iteration: without a poller, refused, timed out, or over. *)
Lemma retry_wait fuel j cs h :
  (length (calls h) < fuel)%nat -> calls h = round_calls j ++ cs ->
  (has_poller h = false -> do_io_retry fuel fd event to h = Ub)
  /\ (has_poller h = true -> forall e ads, adds h = Some e :: ads ->
     do_io_retry fuel fd event to h = Ok (-1) (after h e cs ads (wakes h)
       (tries j ++ timer_of ++ [AAdd fd event (-1)] ++ cancel_of)))
  /\ (has_poller h = true -> forall ads w wks, adds h = None :: ads -> wakes h = w :: wks ->
     do_io_retry fuel fd event to h =
       let h' := after h (if w =? 0 then EAGAIN else w) cs ads wks (round_trace j) in
       if w =? 0 then do_io_retry (pred fuel) fd event to h' else Ok (-1) h').
Proof.
  intros Hf Hc. unfold round_calls in Hc. rewrite <- app_assoc in Hc.
  rewrite (retry_attempt fuel j (-1) EAGAIN cs h Hf Hc) by (by intros [_ ?]).
  change ((-1 =? -1) && (EAGAIN =? EAGAIN)) with true. cbn match.
  replace (attempt j (-1) EAGAIN cs h) with (after h EAGAIN cs (adds h) (wakes h) (tries j))
    by (unfold attempt, tries; by rewrite replicate_S_end).
  set (h0 := after h EAGAIN cs (adds h) (wakes h) (tries j)).
  split; [intros Hp; unfold poller_f, bind; by rewrite (Hp : has_poller h0 = false)|].
  assert (Hp0 : has_poller h = true -> poller_f h0 = Ok tt h0)
    by (intros Hp; unfold poller_f; by rewrite (Hp : has_poller h0 = true)).
  split; intros Hp; rewrite (bind_Ok _ _ _ _ _ (Hp0 Hp)), (bind_Ok _ _ _ _ _ (log_timer _));
    cbn [hk_errno calls adds wakes h0 after]; unfold h0; rewrite after_after; set (h1 := after h _ _ _ _ _).
  - intros e ads Ha. rewrite (bind_Ok _ _ _ _ _ (addEvent_run h1 _ ads Ha)).
    cbn [hk_errno calls adds wakes h1 after answer_of default negb Z.eqb]. unfold h1. rewrite after_after.
    rewrite (bind_Ok _ _ _ _ _ (log_cancel _)).
    cbn [hk_errno calls adds wakes after]. rewrite after_after. unfold mreturn. by rewrite <- !app_assoc.
  - intros ads w wks Ha Hw. rewrite (bind_Ok _ _ _ _ _ (addEvent_run h1 _ ads Ha)).
    cbn [hk_errno calls adds wakes h1 after answer_of default negb Z.eqb]. unfold h1. rewrite after_after.
    set (h2 := after h _ _ _ _ _).
    rewrite (bind_Ok _ _ _ _ _ (yield_run h2 w wks Hw)). cbn [hk_errno calls adds wakes h2 after].
    rewrite (bind_Ok _ _ _ _ _ (log_cancel _)). cbn [hk_errno calls adds wakes after].
    unfold h2. rewrite !after_after. unfold round_trace. rewrite <- !app_assoc.
    by destruct (w =? 0).
Qed.

(** The calls and the trace of several rounds. *)
Definition rounds_calls (l : list nat) : list (Z * Z) := l ≫= round_calls.
Definition rounds_trace (l : list nat) : list act := l ≫= round_trace.

Lemma retry_rounds l fuel cs ads wks h :
  has_poller h = true \/ l = [] ->
  (length (calls h) < fuel)%nat -> calls h = rounds_calls l ++ cs ->
  adds h = replicate (length l) None ++ ads -> wakes h = replicate (length l) 0 ++ wks ->
  exists fuel' e, (length cs < fuel')%nat
    /\ do_io_retry fuel fd event to h
       = do_io_retry fuel' fd event to (after h e cs ads wks (rounds_trace l)).
Proof.
  revert fuel h. induction l as [|j l IH]; intros fuel h Hpl Hf Hc Ha Hw.
  - exists fuel, (hk_errno h). cbn in *. subst. split; [done|]. by rewrite after_same.
  - change (rounds_calls (j :: l)) with (round_calls j ++ rounds_calls l) in Hc.
    rewrite <- app_assoc in Hc.
    destruct Hpl as [Hp|]; [|done].
    destruct (retry_wait fuel j _ h Hf Hc) as (_ & _ & Hrun).
    rewrite (Hrun Hp _ 0 _ Ha Hw). cbn [Z.eqb].
    destruct (IH (pred fuel) (after h EAGAIN (rounds_calls l ++ cs) (replicate (length l) None ++ ads)
      (replicate (length l) 0 ++ wks) (round_trace j))) as (fuel' & e & Hlt & Heq); try done; [by left| |].
    { cbn [calls after]. rewrite Hc in Hf. unfold round_calls in Hf. rewrite !length_app in Hf.
      cbn [length] in Hf. rewrite length_app. lia. }
    exists fuel', e. split; [done|]. etrans; [exact Heq|]. by rewrite after_after.
Qed.

(** The last iteration of [do_io], after the rounds [l]. *)
Lemma retry_done l k n e cs ads wks fuel h :
  has_poller h = true \/ l = [] ->
  (length (calls h) < fuel)%nat ->
  calls h = rounds_calls l ++ interrupted k ++ (n, e) :: cs ->
  adds h = replicate (length l) None ++ ads -> wakes h = replicate (length l) 0 ++ wks ->
  ~ (n = -1 /\ (e = EINTR \/ e = EAGAIN)) ->
  exists e', do_io_retry fuel fd event to h =
      Ok n (after h e' cs ads wks (rounds_trace l ++ replicate k (AFun (-1)) ++ [AFun n]))
    /\ (n = -1 -> e' = e).
Proof.
  intros Hpl Hf Hc Ha Hw Hne.
  destruct (retry_rounds l fuel _ ads wks h Hpl Hf Hc Ha Hw) as (fuel' & e0 & Hlt & ->).
  set (h1 := after h e0 _ ads wks _).
  rewrite (retry_attempt fuel' k n e cs h1 Hlt eq_refl) by (intros [? ->]; apply Hne; auto).
  assert ((n =? -1) && (e =? EAGAIN) = false) as ->.
  { apply andb_false_iff. destruct (Z.eqb_spec n (-1)), (Z.eqb_spec e EAGAIN); auto.
    destruct Hne. auto. }
  unfold attempt, h1. rewrite after_after. eexists. split; [done|]. by intros ->.
Qed.
End hook_facts.

Section contexts.
Context {K : Type} `{KernelLaws K}.
Implicit Types (h : Hook K).

Lemma on_fds_same {A} (m : M (Fds K) A) a h : m (hk_fds h) = Ok a (hk_fds h) -> on_fds m h = Ok a h.
Proof. intros Hm. unfold on_fds. rewrite Hm. by destruct h. Qed.

Lemma hook_get h fd :
  fd_wf (hk_fds h) -> 0 <= fd < 2 ^ 30 ->
  on_fds (FdManager_get fd false) h = Ok (entry_of (hk_fds h) fd) h.
Proof.
  intros Hwf Hfd. apply on_fds_same. rewrite get_spec by done. by destruct (entry_of _ _).
Qed.

Lemma hook_ctx h p c : ctx_heap (hk_fds h) !! p = Some c -> on_fds (ctx_at p) h = Ok c h.
Proof. intros Hc. apply on_fds_same. unfold ctx_at. by rewrite Hc. Qed.

(** The context of a descriptor, when it has one. *)
Definition ctx_of h (fd : Z) : option FdCtx :=
  p ← entry_of (hk_fds h) fd; ctx_heap (hk_fds h) !! p.

Lemma entry_ctx h fd p :
  fd_wf (hk_fds h) -> 0 <= fd -> entry_of (hk_fds h) fd = Some p ->
  exists c, ctx_heap (hk_fds h) !! p = Some c /\ ctx_of h fd = Some c /\ ctx_ok c /\ m_fd c = fd.
Proof.
  intros Hwf Hfd Hp. unfold entry_of in Hp.
  destruct (m_datas (hk_fds h) !! Z.to_nat fd) as [[q|]|] eqn:Eq; try done. injection Hp as ->.
  destruct (fd_entry _ Hwf _ _ Eq) as (c & Hc & Hcf). exists c. split; [done|].
  split; [unfold ctx_of, entry_of; rewrite Eq; exact Hc|].
  split; [by destruct (fd_ctx _ Hwf _ _ Hc)|]. rewrite Hcf. lia.
Qed.

(** When [do_io] treats a descriptor itself. *)
Definition blocking_socket (c : option FdCtx) : bool :=
  match c with Some c => m_isSocket c && negb (m_userNonblock c) | None => false end.

Lemma do_io_cases h fd event so :
  fd_wf (hk_fds h) -> 0 <= fd < 2 ^ 30 ->
  do_io fd event so h =
    if t_hook_enable h && blocking_socket (ctx_of h fd)
    then do_io_retry (S (length (calls h))) fd event
           (default 0 (FdCtx_getTimeout so <$> ctx_of h fd)) h
    else fun_f h.
Proof.
  intros Hwf Hfd. unfold do_io, is_hook_enable. cbn [bind gets].
  destruct (t_hook_enable h); cbn [negb andb]; [|done].
  rewrite (bind_Ok _ _ _ _ _ (hook_get h fd Hwf Hfd)).
  destruct (entry_of (hk_fds h) fd) as [p|] eqn:Ep; [|unfold ctx_of; by rewrite Ep].
  destruct (entry_ctx h fd p Hwf (proj1 Hfd) Ep) as (c & Hc & -> & Hok & _).
  rewrite (bind_Ok _ _ _ _ _ (hook_ctx h p c Hc)).
  rewrite (ctx_open c Hok). cbn [blocking_socket].
  destruct (m_isSocket c), (m_userNonblock c); done.
Qed.
End contexts.

(** C9: a hooked read or write.  Unless hooks are on and the descriptor is a
    socket the user wants blocking, the original function is called once.
    Otherwise it is called again after each interruption, and whenever it would
    block the fiber registers for the event, with a timer if there is a
    time-out, yields, and tries again when resumed; so it returns the first
    answer that is neither an interruption nor EAGAIN.  It returns -1 with the
    reason as [errno] when the timer ended the wait, and -1 with the [errno] of
    [epoll_ctl] when the registration is refused.  The loop ends with the answers
    and every timer it sets is cancelled.  On a thread without a poller a call
    that would block is undefined: the null pointer is not tested. *)
Theorem do_io_spec {K : Type} `{KernelLaws K} (h : Hook K) (f : io_fun) (fd : Z) :
  fd_wf (hk_fds h) -> 0 <= fd < 2 ^ 30 ->
  let to := default 0 (FdCtx_getTimeout (io_timeout f) <$> ctx_of h fd) in
  let ev := io_event f in
  (t_hook_enable h && blocking_socket (ctx_of h fd) = false ->
     forall n e cs, calls h = (n, e) :: cs ->
     hook_io f fd h = Ok n (after h (if n =? -1 then e else hk_errno h) cs (adds h) (wakes h) [AFun n]))
  /\ (t_hook_enable h && blocking_socket (ctx_of h fd) = true -> forall l k cs ads wks,
     has_poller h = true \/ l = [] ->
     adds h = replicate (length l) None ++ ads -> wakes h = replicate (length l) 0 ++ wks ->
     (forall n e, calls h = rounds_calls l ++ interrupted k ++ (n, e) :: cs ->
        ~ (n = -1 /\ (e = EINTR \/ e = EAGAIN)) ->
        exists e', hook_io f fd h = Ok n (after h e' cs ads wks
            (rounds_trace fd ev to l ++ replicate k (AFun (-1)) ++ [AFun n]))
          /\ (n = -1 -> e' = e))
     /\ (calls h = rounds_calls l ++ round_calls k ++ cs ->
        (has_poller h = true -> forall e ads', ads = Some e :: ads' ->
            hook_io f fd h = Ok (-1) (after h e cs ads' wks
            (rounds_trace fd ev to l ++ tries k ++ timer_of to ++ [AAdd fd ev (-1)] ++ cancel_of to)))
        /\ (has_poller h = true -> forall ads' w wks', ads = None :: ads' -> wks = w :: wks' -> w <> 0 ->
            hook_io f fd h = Ok (-1) (after h w cs ads' wks'
              (rounds_trace fd ev to l ++ round_trace fd ev to k)))
        /\ (has_poller h = false -> hook_io f fd h = Ub))).
Proof.
  intros Hwf Hfd to ev. unfold hook_io. rewrite do_io_cases by done. fold to ev.
  split; intros Hb; rewrite Hb; [intros; by apply fun_f_run|].
  intros l k cs ads wks Hpl Ha Hw. split.
  - intros n e Hc Hne. by apply retry_done with (e := e); [..|lia| | | |].
  - intros Hc.
    destruct (retry_rounds fd ev to l (S (length (calls h))) _ _ _ h Hpl ltac:(lia) Hc Ha Hw)
      as (fuel' & e0 & Hlt & ->).
    set (h1 := after h e0 _ _ _ _).
    destruct (retry_wait fd ev to fuel' k cs h1 Hlt eq_refl) as (Hnone & Hbad & Hok). split_and!.
    + intros Hp e ads' ->. rewrite (Hbad Hp e ads' eq_refl). unfold h1. by rewrite after_after.
    + intros Hp ads' w wks' -> -> Hne%Z.eqb_neq. rewrite (Hok Hp ads' w wks' eq_refl eq_refl). rewrite Hne.
      unfold h1. by rewrite after_after.
    + exact Hnone.
Qed.

(** ** Removals of events *)

(** What a poller shows of its table and its lock. *)
Definition table_of {S : Type} `{EventPoller.TaskSink S} (p : EventPoller.EventPoller S) : TableLock :=
  mkTableLock (Z.of_nat (length (EventPoller.m_fdContexts p))) (EventPoller.m_readers p).

(** The removals of a poller go as [removal_f] says: they end or are undefined
    together, with the same answer and the same shares left. *)
Lemma removal_f_refines {K S : Type} `{Kernel K} `{EventPoller.TaskSinkLaws S} (p : EventPoller.EventPoller S)
  rt f event run body (h : Hook K) :
  EventPollerFacts.ep_inv p -> 0 <= EventPoller.m_readers p ->
  Z.of_nat (length (EventPoller.m_fdContexts p)) < 2 ^ 31 -> EventPollerFacts.dir_ok event -> 0 <= f ->
  (run, body) ∈ EventPollerFacts.removals rt f event -> hk_poller h = Some (table_of p) ->
  (run p = Ub /\ forall b, removal_f f b h = Ub) \/
  exists r p' h', run p = Ok r p' /\ removal_f f r h = Ok r h' /\
    option_map tl_readers (hk_poller h') = Some (EventPoller.m_readers p').
Proof.
  intros Hinv Hr Hn Hd Hf Hin Hp. unfold removal_f. rewrite Hp. cbn [tl_size tl_readers table_of].
  rewrite swrap_id by lia. rewrite (proj2 (Z.ltb_ge f 0)) by done.
  destruct (Z.leb_spec (Z.of_nat (length (EventPoller.m_fdContexts p))) f) as [Hle|Hlt].
  - right. exists false, p, h. split; [|by rewrite Hp].
    unfold EventPollerFacts.removals in Hin. rewrite !elem_of_cons in Hin.
    destruct Hin as [[= -> ->]|[[= -> ->]|[[= -> ->]|Hin%elem_of_nil]]]; [..|done];
      by apply EventPollerFacts.with_table_out.
  - destruct (EventPollerFacts.removals_run p f rt event run body Hinv Hr Hn Hd ltac:(split; lia) Hin) as (r & p' & _ & ->).
    destruct (Z.eqb_spec (EventPoller.m_readers p) 0) as [->|Hne]; [left; by split|].
    right. rewrite (proj2 (Z.leb_gt _ _)) by lia. by eexists r, _, _.
Qed.

(** Descriptor 5 is a socket with a receive time-out of 200 ms. *)
Definition fds_example : Fds TableKernel :=
  mkFds {[ 5 := (true, true) ]}
    {[ 0 := mkFdCtx true true true false false 5 200 (2 ^ 64 - 1) ]}
    (<[5%nat := Some 0]> (replicate 64 None)) 1.
(** A poller with the first table, whose lock one other thread shares. *)
Definition table_example : TableLock := mkTableLock 32 1.
Definition hook_example : Hook TableKernel :=
  mkHook true fds_example 0 [(-1, EINTR); (-1, EAGAIN); (12, 0)] [None] [0] [] (Some table_example).

(** The kernel has no room for another registration: 28 is [ENOSPC]. *)
Definition hook_refused : Hook TableKernel := mkHook true fds_example 0 [(-1, EAGAIN)] [Some 28] [] [] (Some table_example).
(** A thread that has no poller. *)
Definition hook_alone : Hook TableKernel := mkHook true fds_example 0 [(-1, EAGAIN)] [] [] [] None.

Lemma fds_example_wf : fd_wf fds_example.
Proof.
  split.
  - by vm_compute.
  - intros i p. cbn [m_datas fds_example]. destruct (decide (i = 5%nat)) as [->|Hi].
    + intros [= <-]. by eexists.
    + rewrite list_lookup_insert_ne by done. by intros [? _]%lookup_replicate.
  - intros p c. cbn [ctx_heap fds_example]. intros [<- <-]%lookup_singleton_Some. by split.
Qed.

Lemma do_io_spec_witness :
  exists e', hook_io F_read 5 hook_example = Ok 12 (after hook_example e' [] [] []
    [AFun (-1); AFun (-1); ATimer 200; AAdd 5 1 0; AYield; ACancel; AFun 12])
  /\ (exists h', hook_io F_read 5 hook_refused = Ok (-1) h' /\ hk_errno h' = 28)
  /\ hook_io F_read 5 hook_alone = Ub.
Proof.
  destruct (do_io_spec hook_example F_read 5 fds_example_wf ltac:(done)) as [_ H2].
  destruct (H2 ltac:(by vm_compute) [1%nat] 0%nat [] [] [] (or_introl eq_refl) eq_refl eq_refl) as [H3 _].
  destruct (H3 12 0 eq_refl ltac:(by intros [? _])) as (e' & Hrun & _). exists e'.
  split; [exact Hrun|].
  destruct (do_io_spec hook_refused F_read 5 fds_example_wf ltac:(done)) as [_ H4].
  destruct (H4 ltac:(by vm_compute) [] 0%nat [] [Some 28] [] (or_introl eq_refl) eq_refl eq_refl) as [_ H5].
  destruct (do_io_spec hook_alone F_read 5 fds_example_wf ltac:(done)) as [_ H6].
  destruct (H6 ltac:(by vm_compute) [] 0%nat [] [] [] (or_intror eq_refl) eq_refl eq_refl) as [_ H7].
  split; [|exact (proj2 (proj2 (H7 eq_refl)) eq_refl)].
  eexists. split; [exact (proj1 (H5 eq_refl) eq_refl 28 [] eq_refl)|reflexivity].
Defined.

(** ** The non-blocking flag *)

Section flags.
Context {K : Type} `{KernelLaws K}.
Implicit Types (h : Hook K) (s : Fds K).

Lemma wf_put s p c c' :
  fd_wf s -> ctx_heap s !! p = Some c -> ctx_ok c' -> m_fd c' = m_fd c ->
  fd_wf (set_ctx_heap (<[p := c']> (ctx_heap s)) s).
Proof.
  intros [Hs He Hc] Hp Hok Hfd. split; cbn; [done| |].
  - intros i q Hi. destruct (He i q Hi) as (d & Hd & Hdf). destruct (decide (p = q)) as [<-|Hq].
    + exists c'. split; [apply lookup_insert_eq|]. rewrite Hfd. congruence.
    + exists d. by rewrite lookup_insert_ne.
  - intros q d. destruct (decide (p = q)) as [<-|Hq].
    + rewrite lookup_insert_eq. intros [= <-]. split; [done|]. by destruct (Hc p c Hp).
    + rewrite lookup_insert_ne by done. apply Hc.
Qed.

Lemma wf_kernel s k : fd_wf s -> fd_wf (set_kernel k s).
Proof. intros [Hs He Hc]. by split. Qed.

(** A context with the user's wish changed, and a state with that context. *)
Definition with_user (v : bool) (c : FdCtx) : FdCtx :=
  mkFdCtx (m_isInit c) (m_isSocket c) (m_sysNonblock c) v (m_isClosed c) (m_fd c)
    (m_recvTimeout c) (m_sendTimeout c).
Definition put_ctx h (p : Z) (c : FdCtx) : Hook K :=
  set_fds (set_ctx_heap (<[p := c]> (ctx_heap (hk_fds h))) (hk_fds h)) h.

Lemma setUser_run h p c v :
  ctx_heap (hk_fds h) !! p = Some c ->
  on_fds (FdCtx_setUserNonblock v p) h = Ok tt (put_ctx h p (with_user v c)).
Proof. intros Hc. unfold on_fds, FdCtx_setUserNonblock, bind, ctx_at. by rewrite Hc. Qed.

Lemma setTimeout_run h p c type v :
  ctx_heap (hk_fds h) !! p = Some c ->
  exists c', on_fds (FdCtx_setTimeout type v p) h = Ok tt (put_ctx h p c')
    /\ FdCtx_getTimeout type c' = v /\ (ctx_ok c -> ctx_ok c') /\ m_fd c' = m_fd c.
Proof.
  intros Hc. unfold on_fds, FdCtx_setTimeout, bind, ctx_at, FdCtx_getTimeout. rewrite Hc.
  cbn [deref]. eexists. split; [done|]. destruct (type =? SO_RCVTIMEO); (split; [done|split; [|done]]);
    intros [? ? ?]; by split.
Qed.

Lemma socket_ctx_run h fd p c :
  fd_wf (hk_fds h) -> 0 <= fd < 2 ^ 30 -> entry_of (hk_fds h) fd = Some p ->
  ctx_heap (hk_fds h) !! p = Some c -> m_isSocket c = true ->
  socket_ctx fd h = Ok (Some (p, c)) h.
Proof.
  intros Hwf Hfd Hp Hc Hs. unfold socket_ctx. rewrite (bind_Ok _ _ _ _ _ (hook_get h fd Hwf Hfd)), Hp.
  rewrite (bind_Ok _ _ _ _ _ (hook_ctx h p c Hc)).
  destruct (fd_ctx _ Hwf _ _ Hc) as [Hok _]. by rewrite (ctx_open c Hok), Hs.
Qed.

(** [F_GETFL] shows the user's wish. *)
Lemma getfl_run h fd p c a :
  fd_wf (hk_fds h) -> 0 <= fd < 2 ^ 30 -> entry_of (hk_fds h) fd = Some p ->
  ctx_heap (hk_fds h) !! p = Some c -> m_isSocket c = true ->
  exists v, hook_fcntl fd F_GETFL a h = Ok v h /\ nonblock v = m_userNonblock c.
Proof.
  intros Hwf Hfd Hp Hc Hs. unfold hook_fcntl. change (F_GETFL =? F_SETFL) with false.
  change (F_GETFL =? F_GETFL) with true. cbn match. unfold bind at 1, getfl_f, gets.
  rewrite (bind_Ok _ _ _ _ _ (socket_ctx_run h fd p c Hwf Hfd Hp Hc Hs)). eexists. split; [done|].
  destruct (m_userNonblock c); [apply nonblock_lor|apply nonblock_ldiff].
Qed.

(** A new wish and a new state of the kernel. *)
Definition wished h (p : Z) (c : FdCtx) (v : bool) (k : K) : Hook K :=
  set_fds (set_kernel k (hk_fds (put_ctx h p (with_user v c)))) h.

Lemma wished_spec h fd p c v k :
  fd_wf (hk_fds h) -> 0 <= fd -> entry_of (hk_fds h) fd = Some p ->
  ctx_heap (hk_fds h) !! p = Some c ->
  fd_wf (hk_fds (wished h p c v k)) /\ entry_of (hk_fds (wished h p c v k)) fd = Some p
  /\ ctx_heap (hk_fds (wished h p c v k)) !! p = Some (with_user v c).
Proof.
  intros Hwf Hfd Hp Hc. split_and!; [|done|apply lookup_insert_eq].
  apply wf_kernel. apply (wf_put _ p c); try done.
  destruct (fd_ctx _ Hwf _ _ Hc) as [[? ? ?] _]. by split.
Qed.
End flags.

(** C29: the non-blocking flag of a socket.  The user sets and reads it with
    [fcntl] and always reads what was set, while in the kernel the socket stays
    non-blocking, as [do_io] needs.  [ioctl(FIONBIO)] also records the user's
    wish but passes it on, so clearing the flag makes the socket blocking in the
    kernel too.  A descriptor without a context has its flag set as asked. *)
Theorem nonblock_view {K : Type} `{KernelLaws K} (h : Hook K) (fd arg : Z) :
  fd_wf (hk_fds h) -> 0 <= fd < 2 ^ 30 -> k_open fd (fd_kernel (hk_fds h)) = true ->
  (forall p c, entry_of (hk_fds h) fd = Some p -> ctx_heap (hk_fds h) !! p = Some c ->
     m_isSocket c = true ->
     (exists h', hook_fcntl fd F_SETFL arg h = Ok 0 h'
        /\ nonblock (k_getfl fd (fd_kernel (hk_fds h'))) = true
        /\ ctx_of h' fd = Some (with_user (nonblock arg) c)
        /\ forall a, exists v, hook_fcntl fd F_GETFL a h' = Ok v h' /\ nonblock v = nonblock arg)
     /\ (exists h', hook_ioctl fd FIONBIO arg h = Ok 0 h'
        /\ nonblock (k_getfl fd (fd_kernel (hk_fds h'))) = negb (arg =? 0)
        /\ ctx_of h' fd = Some (with_user (negb (arg =? 0)) c)
        /\ m_sysNonblock (with_user (negb (arg =? 0)) c) = true
        /\ forall a, exists v, hook_fcntl fd F_GETFL a h' = Ok v h' /\ nonblock v = negb (arg =? 0)))
  /\ (entry_of (hk_fds h) fd = None ->
     exists h', hook_fcntl fd F_SETFL arg h = Ok 0 h'
       /\ nonblock (k_getfl fd (fd_kernel (hk_fds h'))) = nonblock arg).
Proof.
  intros Hwf Hfd Ho. split.
  - intros p c Hp Hc Hs. pose proof (socket_ctx_run h fd p c Hwf Hfd Hp Hc Hs) as Hctx.
    destruct (fd_ctx _ Hwf _ _ Hc) as [Hok _]. pose proof (ctx_sys c Hok) as Hsys. rewrite Hs in Hsys.
    assert (Hread : forall v k a, exists w, hook_fcntl fd F_GETFL a (wished h p c v k) = Ok w (wished h p c v k)
      /\ nonblock w = v).
    { intros v k a. destruct (wished_spec h fd p c v k Hwf (proj1 Hfd) Hp Hc) as (Hw & He & Hh).
      by apply (getfl_run _ fd p (with_user v c) a). }
    assert (Hof : forall v k, ctx_of (wished h p c v k) fd = Some (with_user v c)).
    { intros v k. destruct (wished_spec h fd p c v k Hwf (proj1 Hfd) Hp Hc) as (_ & He & Hh).
      unfold ctx_of. by rewrite He. }
    split.
    + destruct (setfl_law fd (Z.lor arg O_NONBLOCK) _ Ho) as (Hr & _ & Hn).
      exists (wished h p c (nonblock arg) (k_setfl fd (Z.lor arg O_NONBLOCK) (fd_kernel (hk_fds h))).2).
      split_and!; [|by rewrite <- (nonblock_lor arg)|apply Hof|apply Hread].
      unfold hook_fcntl. change (F_SETFL =? F_SETFL) with true. cbn match.
      rewrite (bind_Ok _ _ _ _ _ Hctx), (bind_Ok _ _ _ _ _ (setUser_run h p c _ Hc)), Hsys.
      unfold setfl_f. cbn [hk_fds put_ctx set_fds set_ctx_heap fd_kernel]. revert Hr.
      by destruct (k_setfl _ _ _) as [r k]; cbn; intros ->.
    + destruct (fionbio_law fd arg _ Ho) as (Hr & _ & Hn).
      exists (wished h p c (negb (arg =? 0)) (k_fionbio fd arg (fd_kernel (hk_fds h))).2).
      split_and!; [|done|apply Hof|done|apply Hread].
      unfold hook_ioctl. change (FIONBIO =? FIONBIO) with true. cbn match zeta.
      rewrite (bind_Ok _ _ _ _ _ Hctx), (bind_Ok _ _ _ _ _ (setUser_run h p c _ Hc)).
      unfold fionbio_f. cbn [hk_fds put_ctx set_fds set_ctx_heap fd_kernel]. revert Hr.
      by destruct (k_fionbio _ _ _) as [r k]; cbn; intros ->.
  - intros Hno. destruct (setfl_law fd arg _ Ho) as (Hr & _ & Hn).
    exists (set_fds (set_kernel (k_setfl fd arg (fd_kernel (hk_fds h))).2 (hk_fds h)) h).
    split; [|done]. unfold hook_fcntl. change (F_SETFL =? F_SETFL) with true. cbn match.
    unfold bind, socket_ctx. rewrite (bind_Ok _ _ _ _ _ (hook_get h fd Hwf Hfd)), Hno.
    cbn [mreturn]. unfold mreturn, setfl_f. revert Hr. by destruct (k_setfl _ _ _) as [r k]; cbn; intros ->.
Qed.

Lemma nonblock_view_witness :
  (exists h', hook_fcntl 5 F_SETFL 0 hook_example = Ok 0 h'
     /\ nonblock (k_getfl 5 (fd_kernel (hk_fds h'))) = true)
  /\ (exists h', hook_ioctl 5 FIONBIO 0 hook_example = Ok 0 h'
     /\ nonblock (k_getfl 5 (fd_kernel (hk_fds h'))) = false).
Proof.
  destruct (nonblock_view hook_example 5 0 fds_example_wf ltac:(done) ltac:(by vm_compute)) as [H1 _].
  destruct (H1 0 _ ltac:(by vm_compute) ltac:(by vm_compute) ltac:(by vm_compute))
    as ((h1 & Hs & Hn & _) & (h2 & Hi & Hm & _)).
  split; [exists h1; exact (conj Hs Hn)|exists h2; exact (conj Hi Hm)].
Defined.

(** ** Durations *)

Section durations.
Context {K : Type} `{KernelLaws K}.
Implicit Types (h : Hook K).

Lemma sleep_for_run h ms w ws :
  has_poller h = true -> wakes h = w :: ws ->
  sleep_for ms h = Ok 0 (after h (hk_errno h) (calls h) (adds h) ws [ATimer (u64 ms); AYield]).
Proof.
  intros Hp Hw. unfold sleep_for. assert (Hpf : poller_f h = Ok tt h) by (unfold poller_f; by rewrite Hp). mrun Hpf.
  mrun (log_run (ATimer (u64 ms)) h).
  set (h1 := after h _ _ _ _ _). mrun (yield_run h1 w ws Hw). unfold mreturn, h1. by rewrite after_after.
Qed.

Lemma setsockopt_run h fd p c opt sec usec n e cs :
  t_hook_enable h = true -> fd_wf (hk_fds h) -> 0 <= fd < 2 ^ 30 ->
  entry_of (hk_fds h) fd = Some p -> ctx_heap (hk_fds h) !! p = Some c ->
  opt = SO_RCVTIMEO \/ opt = SO_SNDTIMEO -> calls h = (n, e) :: cs ->
  exists h', hook_setsockopt fd SOL_SOCKET opt sec usec h = Ok n h'
    /\ FdCtx_getTimeout opt <$> ctx_of h' fd = Some (u64 (sec * 1000 + Z.quot usec 1000)).
Proof.
  intros Hen Hwf Hfd Hp Hc Hopt Hcalls. unfold hook_setsockopt, is_hook_enable. cbn [bind gets].
  rewrite Hen. cbn [negb]. change (SOL_SOCKET =? SOL_SOCKET) with true.
  assert ((opt =? SO_RCVTIMEO) || (opt =? SO_SNDTIMEO) = true) as -> by (destruct Hopt as [-> | ->]; done).
  cbn [andb].
  destruct (setTimeout_run h p c opt (u64 (sec * 1000 + Z.quot usec 1000)) Hc) as (c' & Hrun & Hto & _).
  unfold bind at 1. rewrite (bind_Ok _ _ _ _ _ (hook_get h fd Hwf Hfd)), Hp, Hrun.
  eexists. split; [exact (fun_f_run (put_ctx h p c') n e cs Hcalls)|].
  unfold ctx_of. cbn [hk_fds after put_ctx set_fds].
  change (entry_of (set_ctx_heap _ (hk_fds h)) fd) with (entry_of (hk_fds h) fd). rewrite Hp.
  cbn [mbind option_bind ctx_heap set_ctx_heap]. rewrite lookup_insert_eq. by rewrite <- Hto.
Qed.
End durations.

(** Note: durations.  With hooks on, each sleeping function arms one timer and
    yields once.  [sleep] computes its milliseconds in 32 bits: from 4294968
    seconds on it sleeps a remainder.  [usleep] rounds down to milliseconds.
    [nanosleep] is exact to the millisecond up to 2^31 - 1 ms, and from there to
    2^32 ms its [int] is negative, so that the timer's deadline lies in the past.
    [setsockopt] stores a time-out in milliseconds, for {0, 0} a time-out of 0,
    where the original function means none. *)
Theorem sleep_durations {K : Type} `{KernelLaws K} (h : Hook K) (w : Z) (ws : list Z) :
  t_hook_enable h = true -> has_poller h = true -> wakes h = w :: ws ->
  let slept ms := Ok 0 (after h (hk_errno h) (calls h) (adds h) ws [ATimer ms; AYield]) in
  (forall secs, 0 <= secs < 2 ^ 32 ->
     hook_sleep secs h = slept ((secs * 1000) mod 2 ^ 32)
     /\ (secs <= 4294967 -> (secs * 1000) mod 2 ^ 32 = secs * 1000)
     /\ (4294967 < secs -> (secs * 1000) mod 2 ^ 32 < secs * 1000 - 2 ^ 31))
  /\ (forall usec, 0 <= usec < 2 ^ 32 ->
     exists ms, hook_usleep usec h = slept ms /\ 1000 * ms <= usec < 1000 * ms + 1000)
  /\ (forall sec nsec, 0 <= sec -> 0 <= nsec < 10 ^ 9 ->
     let ms := sec * 1000 + nsec / 10 ^ 6 in
     (ms < 2 ^ 31 -> hook_nanosleep sec nsec h = slept ms)
     /\ (2 ^ 31 <= ms < 2 ^ 32 -> exists t, hook_nanosleep sec nsec h = slept t
          /\ forall now cb, 2 ^ 31 <= now < 2 ^ 63 -> m_next (new_Timer now t cb false) < now))
  /\ (forall fd p c opt sec usec n e cs, fd_wf (hk_fds h) -> 0 <= fd < 2 ^ 30 ->
     entry_of (hk_fds h) fd = Some p -> ctx_heap (hk_fds h) !! p = Some c ->
     opt = SO_RCVTIMEO \/ opt = SO_SNDTIMEO -> 0 <= sec < 2 ^ 40 -> 0 <= usec < 10 ^ 6 ->
     calls h = (n, e) :: cs ->
     exists h', hook_setsockopt fd SOL_SOCKET opt sec usec h = Ok n h'
       /\ FdCtx_getTimeout opt <$> ctx_of h' fd = Some (sec * 1000 + usec / 1000)
       /\ sec * 1000 + usec / 1000 <> NO_TIMEOUT).
Proof.
  intros Hen Hpo Hw slept. assert (Hon : is_hook_enable h = Ok true h) by (unfold is_hook_enable, gets; by rewrite Hen).
  split_and!.
  - intros secs Hs. split; [|split; intros; [apply Z.mod_small|]; Z.div_mod_to_equations; lia].
    unfold hook_sleep. rewrite (bind_Ok _ _ _ _ _ Hon). cbn [negb].
    rewrite (sleep_for_run h _ w ws Hpo Hw), wrap_id; [done|].
    pose proof (wrap_range 32 (secs * 1000)). lia.
  - intros usec Hu. exists (usec / 1000). split; [|Z.div_mod_to_equations; lia].
    unfold hook_usleep. rewrite (bind_Ok _ _ _ _ _ Hon). cbn [negb].
    rewrite (sleep_for_run h _ w ws Hpo Hw), wrap_id; [done|]. Z.div_mod_to_equations; lia.
  - intros sec nsec Hs Hn ms.
    assert (Hms : sec * 1000 + Z.quot (Z.quot nsec 1000) 1000 = ms).
    { unfold ms. rewrite !Z.quot_div_nonneg by (try apply Z.quot_pos; lia).
      by rewrite Z.div_div by lia. }
    assert (0 <= nsec / 10 ^ 6) by (apply Z.div_pos; lia).
    assert (Hrun : ms < 2 ^ 32 -> hook_nanosleep sec nsec h = slept (u64 (i32 ms))).
    { intros Hlt. unfold hook_nanosleep. rewrite (bind_Ok _ _ _ _ _ Hon). cbn [negb]. rewrite Hms.
      rewrite bool_decide_true by lia. by rewrite (sleep_for_run h _ w ws Hpo Hw). }
    split.
    + intros Hlt. rewrite Hrun, swrap_id, wrap_id by lia. done.
    + intros Hr. exists (u64 (i32 ms)). split; [apply Hrun; lia|]. intros now cb Hnow.
      assert (i32 ms = ms - 2 ^ 32) as ->.
      { unfold swrap. replace (ms + 2 ^ (32 - 1)) with (ms - 2 ^ 31 + 1 * 2 ^ 32) by lia.
        rewrite Z_mod_plus_full, Z.mod_small by lia. lia. }
      cbn [m_next new_Timer]. unfold wrap. rewrite Zplus_mod_idemp_r, Z.mod_small by lia. lia.
  - intros fd p c opt sec usec n e cs Hwf Hfd Hp Hc Hopt Hsec Husec Hcalls.
    destruct (setsockopt_run h fd p c opt sec usec n e cs Hen Hwf Hfd Hp Hc Hopt Hcalls) as (h' & Hrun & Hto).
    exists h'. assert (0 <= usec / 1000 < 1000) by (Z.div_mod_to_equations; lia).
    split_and!; [done| |unfold NO_TIMEOUT; lia].
    rewrite Hto, Z.quot_div_nonneg, wrap_id by lia. done.
Qed.

Lemma sleep_durations_witness :
  (exists h', hook_sleep 4294968 hook_example = Ok 0 h' /\ trace h' = [ATimer 704; AYield])
  /\ exists h', hook_setsockopt 5 SOL_SOCKET SO_RCVTIMEO 0 0 hook_example = Ok (-1) h'
      /\ FdCtx_getTimeout SO_RCVTIMEO <$> ctx_of h' 5 = Some 0.
Proof.
  destruct (sleep_durations hook_example 0 [] eq_refl eq_refl eq_refl) as (H1 & _ & _ & H4). split.
  - destruct (H1 4294968 ltac:(lia)) as [Hrun _]. eexists. split; [exact Hrun|]. by vm_compute.
  - destruct (H4 5 0 _ SO_RCVTIMEO 0 0 _ _ _ fds_example_wf ltac:(done) ltac:(by vm_compute)
      ltac:(by vm_compute) ltac:(by left) ltac:(done) ltac:(done) eq_refl) as (h' & Hrun & Hto & _).
    exists h'. exact (conj Hrun Hto).
Defined.
