(* ===== verification/IoWait.v ===== *)
(** * A blocked call: hooks, poller and timers together (src/src/util/hook.cpp)

    [do_io] and [connect_with_timeout] as they run: one fiber, [me], calls an
    operation on descriptor [rfd] and waits for [event], at most [to] milliseconds
    at a time.  Its own steps are the pieces of the call between the points where
    other fibers and threads can come in, and they call the poller and its timers;
    a step relation interleaves them with the closure given to
    [addConditionTimer], with the idle fiber, and with whatever the rest of the
    program does to the poller, the scheduler and the timers.  Hook has both calls
    in one piece, over the answers they get. *)
From S2P Require Import Prelude.
From S2P Require Import Timer TimerFacts Scheduler EventPoller EventPollerFacts Hook.
From S2P Require Fiber.

(** The two calls that block; for [connect], what [getsockopt(SO_ERROR)] returns,
    with what it stores, or its [errno] when it fails. *)
Inductive blocked := BIo | BConnect (so_error : Z * Z).

(** Where the call is, with the timer it holds. *)
Inductive Phase :=
| WCall                   (* at [fun(fd, args...)], [connect_f(fd, addr, addrlen)] *)
| WTimer                  (* the call would block *)
| WAdd (t : option Z)     (* at [ep->addEvent] *)
| WYield (t : option Z)   (* registered, at [yieldToHold] *)
| WHeld (t : option Z)    (* in [yieldToHold] *)
| WCancel (t : option Z)  (* resumed, at [timer->cancel()] *)
| WTest                   (* at [if(tinfo->cancelled)] *)
| WRefused (t : option Z) (* [addEvent] failed *)
| WDone (n : Z).          (* returned *)

(** The timer of a phase; waiting, from the registration to the resumption. *)
Definition timer_of (ph : Phase) : option Z :=
  match ph with WAdd t | WYield t | WHeld t | WCancel t | WRefused t => t | _ => None end.
Definition waits (ph : Phase) : bool := match ph with WYield _ | WHeld _ => true | _ => false end.
Definition is_done (ph : Phase) : bool := match ph with WDone _ => true | _ => false end.

Section iowait.
Context {S : Type} `{TaskSink S}.
(** The fiber, the arguments of the call, its scheduler, the object [*tinfo] and
    the closure over it, the names that scheduled callbacks go by, the call. *)
Variables (me rfd event to self tid uid : Z) (name : Func -> option Z) (kid : Z) (call : blocked).

Record Wait := mkWait {
  w_ep : EventPoller S;
  w_phase : Phase;
  w_cancelled : Z;        (* tinfo->cancelled *)
  w_cancelling : bool;    (* the closure is between its assignment and cancelEvent *)
  w_errno : Z;
  w_now : Z;              (* the clock *)
  w_start : option Z      (* when the first timer was made, for the statements *)
}.
Definition set_ep v w := mkWait v (w_phase w) (w_cancelled w) (w_cancelling w) (w_errno w) (w_now w) (w_start w).
Definition set_phase v w := mkWait (w_ep w) v (w_cancelled w) (w_cancelling w) (w_errno w) (w_now w) (w_start w).
Definition set_cancelled v w := mkWait (w_ep w) (w_phase w) v (w_cancelling w) (w_errno w) (w_now w) (w_start w).
Definition set_cancelling v w := mkWait (w_ep w) (w_phase w) (w_cancelled w) v (w_errno w) (w_now w) (w_start w).
Definition set_werrno v w := mkWait (w_ep w) (w_phase w) (w_cancelled w) (w_cancelling w) v (w_now w) (w_start w).
Definition set_now v w := mkWait (w_ep w) (w_phase w) (w_cancelled w) (w_cancelling w) (w_errno w) v (w_start w).
Definition set_start v w := mkWait (w_ep w) (w_phase w) (w_cancelled w) (w_cancelling w) (w_errno w) (w_now w) v.
Abbreviation WM := (M Wait).

Definition on_ep {A} (m : M (EventPoller S) A) : WM A := fun w =>
  match m (w_ep w) with
  | Ok a p => Ok a (set_ep p w)
  | Throw e p => Throw e (set_ep p w)
  | Abort => Abort | Ub => Ub | Deadlock => Deadlock | NoFuel => NoFuel
  end.
Definition go (ph : Phase) : WM unit := modify (set_phase ph).

(** What a step shows: what the hooked call was answered and did; a registration
    is accepted, or refused with an [errno]. *)
Inductive label :=
| LCall (n e : Z)
| LTimer
| LAdd (refused : option Z)
| LYield
| LCancel
| LWake (cancelled : Z)
| LTau.

(** The answers of the outside: the original function with its [errno], the
    address of a new timer, [epoll_ctl] with its [errno]. *)
Inductive answer :=
| ACall (n e : Z)
| ANew (a : Z)
| ACtl (rt e : Z)
| ANone.

(** The closure given to [addConditionTimer]; it is empty once [*tinfo] is gone. *)
Definition own_cb : Func := FCond tid (FUser uid).

(** [if(timer) timer->cancel()]; what a failed [addEvent] logs is left out. *)
Definition cancel_timer (t : option Z) : WM unit :=
  match t with
  | Some a => on_ep (on_timers (Timer_cancel (Some a))) ;;; mreturn tt
  | None => mreturn tt
  end.
Definition cancel_label (t : option Z) : label := match t with Some _ => LCancel | None => LTau end.

(** The original function was called: [errno] is its own when it failed. *)
Definition called (n e : Z) : WM Z :=
  (if n =? -1 then modify (set_werrno e) else mreturn tt) ;;; gets w_errno.

(** The steps that [do_io] and [connect_with_timeout] have in common: the timer,
    the registration, [yieldToHold] and the cancelling of the timer. *)
Definition wait_step (x : answer) : WM label := fun w =>
  match w_phase w, x with
  | WTimer, ANew a =>
      (if negb (to =? NO_TIMEOUT) then
         now <-- gets w_now ;;
         timer <-- on_ep (on_timers (TimerManager_addConditionTimer now a to (FUser uid) tid false)) ;;
         modify (fun w => set_start (Some (default now (w_start w))) w) ;;;
         go (WAdd timer) ;;; mreturn LTimer
       else go (WAdd None) ;;; mreturn LTau) w
  | WAdd t, ACtl rt e =>
      (rt <-- on_ep (EventPoller_addEvent (Some self) (me, Fiber.EXEC) rt rfd event None) ;;
       (if negb (rt =? 0) then modify (set_werrno e) ;;; go (WRefused t) else go (WYield t)) ;;;
       mreturn (LAdd (if negb (rt =? 0) then Some e else None))) w
  | WYield t, ANone => (go (WHeld t) ;;; mreturn LYield) w
  | WCancel t, ANone => (cancel_timer t ;;; go WTest ;;; mreturn (cancel_label t)) w
  | _, _ => NoFuel
  end.

(** One step of [do_io]. *)
Definition do_io_step (x : answer) : WM label := fun w =>
  match w_phase w, x with
  | WCall, ACall n e =>
      (e' <-- called n e ;;
       go (if (n =? -1) && (e' =? EINTR) then WCall
           else if (n =? -1) && (e' =? EAGAIN) then WTimer else WDone n) ;;;
       mreturn (LCall n e)) w
  | WTest, ANone =>
      (c <-- gets w_cancelled ;;
       (if negb (c =? 0) then modify (set_werrno c) ;;; go (WDone (-1)) else go WCall) ;;;
       mreturn (LWake c)) w
  | WRefused t, ANone => (cancel_timer t ;;; go (WDone (-1)) ;;; mreturn (cancel_label t)) w
  | _, _ => wait_step x w
  end.

(** The end of [connect_with_timeout]: [getsockopt(fd, SOL_SOCKET, SO_ERROR, ...)] *)
Definition connect_end (so_error : Z * Z) : WM unit :=
  if so_error.1 =? -1 then modify (set_werrno so_error.2) ;;; go (WDone (-1))
  else if so_error.2 =? 0 then go (WDone 0)
  else modify (set_werrno so_error.2) ;;; go (WDone (-1)).
(** One step of [connect_with_timeout]. *)
Definition connect_step (so_error : Z * Z) (x : answer) : WM label := fun w =>
  match w_phase w, x with
  | WCall, ACall n e =>
      (e' <-- called n e ;;
       go (if n =? 0 then WDone 0
           else if negb (n =? -1) || negb (e' =? EINPROGRESS) then WDone n else WTimer) ;;;
       mreturn (LCall n e)) w
  | WTest, ANone =>
      (c <-- gets w_cancelled ;;
       (if negb (c =? 0) then modify (set_werrno c) ;;; go (WDone (-1)) else connect_end so_error) ;;;
       mreturn (LWake c)) w
  | WRefused t, ANone => (cancel_timer t ;;; connect_end so_error ;;; mreturn (cancel_label t)) w
  | _, _ => wait_step x w
  end.
Definition blocked_step (x : answer) : WM label :=
  match call with BIo => do_io_step x | BConnect so_error => connect_step so_error x end.

(** The closure, up to its call of [cancelEvent], and that call: the part of it
    under the lock of the context. *)
Definition callback_begin : WM unit :=
  w <-- get ;;
  if is_done (w_phase w) || negb (w_cancelled w =? 0) then mreturn tt
  else modify (fun w => set_cancelling true (set_cancelled ETIMEDOUT w)).
Definition callback_cancel (rt : Z) : WM bool :=
  r <-- on_ep (cancelEvent_locked rt rfd event) ;;
  modify (set_cancelling false) ;;; mreturn r.

(** The task at place [i] of the queue is [x]; a thread takes it. *)
Definition task_at (w : Wait) (i : nat) (x : work) : Prop :=
  exists th, sink_tasks (ep_scheduler (w_ep w)) !! i = Some (FiberTask_of x th).
Definition take_task (i : nat) (w : Wait) : Wait :=
  set_ep (EventPoller.set_scheduler (sink_take i (ep_scheduler (w_ep w))) (w_ep w)) w.

(** A task of this wait: the fiber itself, or its closure. *)
Definition own_task (t : FiberTask) : bool :=
  bool_decide (fiber t = Some me) || bool_decide (cb t = Some kid).

(** What the rest of the program may do to the poller and to the timers: all but
    to register for or delete what [me] waits for, in its name or with its
    closure, and to touch its timer. *)
Definition foreign_op (o : ep_op) : Prop :=
  match o with
  | PAdd _ cur _ f ev g => ~ (f = rfd /\ ev = event) /\ (g = None -> cur.1 <> me) /\ g <> Some kid
  | PDel _ f ev => ~ (f = rfd /\ ev = event)
  | _ => True
  end.
Definition foreign_timer (ph : Phase) (o : timer_op) : Prop :=
  match o with
  | OAdd _ _ _ g _ => g <> own_cb
  | OAddCondition _ _ _ g c _ => FCond c g <> own_cb
  | OAddPtr p | OCancel p | ORefresh _ p | OReset _ p _ _ => p <> timer_of ph
  | OExpired _ _ => False
  | ONext _ | ORollover _ | OHas => True
  end.

(** Everything else that happens. *)
Inductive env_step : Wait -> Wait -> Prop :=
(** time passes; the clock and a deadline stay within 64 bits *)
| env_tick w t : w_now w <= t -> (to <> NO_TIMEOUT -> t + to < 2 ^ 64) -> env_step w (set_now t w)
(** the idle fiber schedules what is due *)
| env_expire w probe w' :
    timer_heap (ep_timers (w_ep w)) !! probe = None ->
    on_ep (idle_expired name (w_now w) probe) w = Ok tt w' -> env_step w w'
(** a thread takes the closure from the queue and enters it, or leaves it *)
| env_callback w i w' :
    task_at w i (WCb (Some kid)) -> callback_begin (take_task i w) = Ok tt w' -> env_step w w'
| env_cancel w rt r w' : w_cancelling w = true -> callback_cancel rt w = Ok r w' -> env_step w w'
(** a thread takes the fiber from the queue and resumes it *)
| env_resume w t i :
    w_phase w = WHeld t -> task_at w i (WFiber (Some me)) -> env_step w (set_phase (WCancel t) (take_task i w))
(** operations on the poller, the deliveries of [idle] included *)
| env_poller w o r w' :
    ep_ok (w_ep w) o -> foreign_op o -> on_ep (ep_exec o) w = Ok r w' -> env_step w w'
(** other tasks come and go *)
| env_tasks w s' :
    List.filter own_task (sink_tasks s') = List.filter own_task (sink_tasks (ep_scheduler (w_ep w))) ->
    env_step w (set_ep (EventPoller.set_scheduler s' (w_ep w)) w)
| env_timers w o w' :
    op_ok (ep_timers (w_ep w)) o -> foreign_timer (w_phase w) o ->
    on_ep (on_timers (exec_op o)) w = Ok tt w' -> env_step w w'
(** other fibers run on the thread while [me] is held *)
| env_errno w t e : w_phase w = WHeld t -> env_step w (set_werrno e w).

Inductive io_step (w : Wait) : label -> Wait -> Prop :=
| io_own x l w' :
    (forall a, x = ANew a -> timer_heap (ep_timers (w_ep w)) !! a = None) ->
    blocked_step x w = Ok l w' -> io_step w l w'
| io_env w' : env_step w w' -> io_step w LTau w'.

Inductive io_run (w : Wait) : list label -> Wait -> Prop :=
| io_stop : io_run w [] w
| io_next l w' ls w'' : io_step w l w' -> io_run w' ls w'' -> io_run w (l :: ls) w''.
End iowait.
Arguments Wait S : clear implicits.
