(* ===== verification/IoWaitFacts.v ===== *)
(** * A blocked call: safety and waking

    The invariant of a wait over every interleaving of its steps with the rest
    of the program, in three parts (poller, timers, the shared flag); what wakes
    the fiber and what does not; and that a time-out can be lost.  All of it holds of
    [do_io] and of [connect_with_timeout]. *)
From S2P Require Import Prelude.
From S2P Require Import Timer TimerFacts Scheduler EventPoller EventPollerFacts Hook IoWait.
From S2P Require Fiber.

Section wait.
Context {S : Type} `{TS : TaskSink S, TL : !TaskSinkLaws S}.
Variables (me rfd event to self tid uid : Z) (name : Func -> option Z) (kid : Z) (call : blocked).
Hypotheses (Hevent : dir_ok event) (Hto : 0 <= to < 2 ^ 64).
(** Only this wait's closure goes by its name. *)
Hypotheses (Hname : name (own_cb tid uid) = Some kid)
  (Hname_own : forall f, name f = Some kid -> f = own_cb tid uid).
Implicit Types (p : EventPoller S) (w : Wait S).

Abbreviation own_cb := (own_cb tid uid).

(** The fiber, and the closure, as waiters and as tasks. *)
Definition q_me (x : work) : bool := match x with WFiber (Some f) => f =? me | _ => false end.
Definition q_cb (x : work) : bool := match x with WCb (Some g) => g =? kid | _ => false end.
Abbreviation tasks p := (sink_tasks (ep_scheduler p)).

(** ** The poller's part *)

(** While it waits the fiber is registered or queued, once and for nothing but
    [event] on [rfd]; otherwise it is neither, and nobody is registered there. *)
Record poller_part p (b : bool) : Prop := {
  pp_inv : ep_inv p;
  pp_table : in_table p rfd;
  pp_small : Z.of_nat (length (m_fdContexts p)) < 2 ^ 31;
  pp_readers : 0 <= m_readers p;
  pp_once : waiting q_me (m_fdContexts p) + queued q_me (tasks p) = Z.b2z b;
  pp_place : forall g dir, in_table p g -> dir_ok dir ->
    q_me (work_of (slot dir (ctx_of p g))) = true -> g = rfd /\ dir = event;
  pp_reg : has (events (ctx_of p rfd)) event = true -> q_me (work_of (slot event (ctx_of p rfd))) = true;
  pp_closure : waiting q_cb (m_fdContexts p) = 0;
  pp_home : forall g dir, in_table p g -> dir_ok dir ->
    q_me (work_of (slot dir (ctx_of p g))) = true -> ec_scheduler (slot dir (ctx_of p g)) = Some (ep_this p);
  pp_this : ep_this p = self
}.

Lemma pp_registered p b : poller_part p b -> has (events (ctx_of p rfd)) event = true -> b = true.
Proof.
  intros [Hinv Ht _ _ Ho _ Hr _ _ _] Hh. destruct (in_table_ctx p rfd Hinv Ht) as (Hc & _).
  pose proof (waiting_slot q_me eq_refl _ _ _ event Hc (Hr Hh)).
  pose proof (queued_nonneg q_me (tasks p)). destruct b; cbn in Ho; [done|lia].
Qed.

(** The scheduler and what the poller part does not read may change. *)
Lemma pp_change p p' b b' :
  poller_part p b -> m_fdContexts p' = m_fdContexts p -> m_pendingEventCount p' = m_pendingEventCount p ->
  ctl_log p' = ctl_log p -> m_readers p' = m_readers p -> ep_this p' = ep_this p ->
  queued q_me (tasks p') + Z.b2z b = queued q_me (tasks p) + Z.b2z b' -> poller_part p' b'.
Proof.
  intros [Hinv Ht Hs Hr Ho Hp Hg Hc Hh Hth] H1 H2 H3 H4 H6 H5.
  assert (Hctx : forall f, ctx_of p' f = ctx_of p f) by (intros; by apply ctx_of_contexts).
  assert (Htab : forall f, in_table p' f <-> in_table p f) by (intros; unfold in_table; by rewrite H1).
  split; rewrite ?H1, ?H4, ?H6, ?Hctx; auto.
  - by eapply inv_same.
  - by apply Htab.
  - lia.
  - intros g dir Hg1 Hd. rewrite Hctx. apply Hp; [by apply Htab|done].
  - intros g dir Hg1 Hd. rewrite Hctx. apply Hh; [by apply Htab|done].
Qed.

(** The fiber is never handed to another scheduler. *)
Lemma me_stays p b o :
  poller_part p b -> ep_ok p o -> count q_me (snd <$> ep_away p o) = 0.
Proof.
  intros [_ _ _ _ _ _ _ _ Hh _] Hok. unfold ep_away.
  destruct (ep_fires p o) as [[[f ri] wi]|] eqn:Ef; [|done].
  destruct (fires_table p o f ri wi Hok Ef) as (Hf & _).
  assert (Hslot : forall dir, dir_ok dir -> count q_me (snd <$> away (ep_this p) (slot dir (ctx_of p f))) = 0).
  { intros dir Hd. unfold away. destruct (ec_scheduler (slot dir (ctx_of p f))) as [sc|] eqn:Esc; [|done].
    destruct (Z.eqb_spec sc (ep_this p)) as [|Hne]; [done|]. cbn.
    destruct (q_me (work_of (slot dir (ctx_of p f)))) eqn:Eq; [|done].
    specialize (Hh f dir Hf Hd Eq). congruence. }
  unfold fired_away. rewrite fmap_app, count_app.
  pose proof (Hslot READ (or_introl eq_refl)). pose proof (Hslot WRITE (or_intror eq_refl)).
  assert (count q_me [] = 0) as Hz by done.
  destruct ri, wi; rewrite ?fmap_nil, ?Hz;
    change (slot READ (ctx_of p f)) with (read (ctx_of p f)) in *;
    change (slot WRITE (ctx_of p f)) with (write (ctx_of p f)) in *; lia.
Qed.

Lemma no_waiter_free q : q (WFiber None) = false -> q (work_of no_waiter) = false.
Proof. done. Qed.

(** What the rest of the program stores is neither the fiber nor its closure. *)
Lemma foreign_adds p b o :
  poller_part p b -> ep_ok p o -> foreign_op me rfd event kid o ->
  added q_me p o = 0 /\ added q_cb p o = 0 /\
  forall slf cur rt f dir cb, o = PAdd slf cur rt f dir cb -> ~ (f = rfd /\ dir = event)
    /\ q_me (work_of (stored slf cur cb)) = false.
Proof.
  intros [Hinv Ht Hs Hr Ho Hp Hg Hc _ _] Hok Hf.
  destruct o as [slf cur rt f ev cb|rt f ev| | |]; cbn [added foreign_op] in *; try (by split_and!).
  - destruct Hf as (Hne & Hcb & Hkid).
    assert (Hm : q_me (work_of (stored slf cur cb)) = false).
    { destruct cb as [g|]; cbn; [done|]. apply Z.eqb_neq. auto. }
    assert (Hk : q_cb (work_of (stored slf cur cb)) = false).
    { destruct cb as [g|]; cbn; [|done]. apply Z.eqb_neq. congruence. }
    unfold slot_weight. rewrite Hm, Hk. cbn [Z.b2z]. split; [by destruct (rt =? 0)|].
    split; [by destruct (rt =? 0)|]. intros ? ? ? ? ? ? [= <- <- <- <- <- <-]. done.
  - destruct Hok as [Hin Hdir]. unfold slot_weight.
    assert (Hm : q_me (work_of (slot ev (ctx_of p f))) = false).
    { apply not_true_is_false. intros E. destruct (Hp f ev Hin Hdir E). tauto. }
    assert (Hk : q_cb (work_of (slot ev (ctx_of p f))) = false).
    { apply not_true_is_false. intros E. destruct (in_table_ctx p f Hinv Hin) as (Hl & _).
      pose proof (waiting_slot q_cb eq_refl _ _ _ ev Hl E). lia. }
    rewrite Hm, Hk. split; [by destruct (_ && _)|split; [by destruct (_ && _)|by intros]].
Qed.

(** The operations of the rest of the program. *)
Lemma pp_foreign p p' b o :
  poller_part p b -> ep_ok p o -> foreign_op me rfd event kid o -> done_by_in p o p' ->
  poller_part p' b /\ queued q_cb (tasks p') = queued q_cb (tasks p).
Proof.
  intros Hpp Hok Hf Hd. destruct (foreign_adds p b o Hpp Hok Hf) as (Hm & Hk & Hnew).
  pose proof (me_stays p b o Hpp Hok) as Hstay.
  pose proof (count_nonneg q_cb (snd <$> ep_away p o)) as Haw.
  destruct Hpp as [Hinv Ht Hs Hr Ho Hp Hg Hc Hh Hth].
  pose proof (conserved q_me eq_refl eq_refl p o p' Hinv Hok Hd) as Cm. rewrite Hm in Cm.
  pose proof (conserved q_cb eq_refl eq_refl p o p' Hinv Hok Hd) as Ck. rewrite Hk in Ck.
  pose proof (after_in_table p o p') as Htab.
  assert (Hle : queued q_cb (tasks p) <= queued q_cb (tasks p')).
  { rewrite (db_tasks _ _ _ Hd), queued_app. pose proof (queued_nonneg q_cb (tasks_of (ep_work p o))). lia. }
  pose proof (waiting_nonneg q_cb (m_fdContexts p')) as Hnn.
  split; [split|]; try lia.
  - apply Hd.
  - by apply Htab.
  - by rewrite (after_length p o p' Hd).
  - by rewrite (db_readers _ _ _ Hd).
  - intros g dir Hin%Htab Hdir Hq; [|done].
    destruct (after_slot p o p' g dir Hinv Hok Hd Hin Hdir) as [[[Hs' _]|[Hs' _]]|(sl & cur & rt & cb & -> & Hs')];
      rewrite Hs' in Hq; [by apply Hp|done|].
    destruct (Hnew _ _ _ _ _ _ eq_refl) as [_ Hfalse]. by rewrite Hfalse in Hq.
  - intros Hhas. destruct (after_slot p o p' rfd event Hinv Hok Hd Ht Hevent) as [[[Hs' He]|[_ He]]|(sl & cur & rt & cb & -> & _)].
    + rewrite Hs'. apply Hg. by rewrite <- He.
    + by rewrite He in Hhas.
    + by destruct (proj1 (Hnew _ _ _ _ _ _ eq_refl)).
  - intros g dir Hin%Htab Hdir Hq; [|done]. rewrite (db_this _ _ _ Hd).
    destruct (after_slot p o p' g dir Hinv Hok Hd Hin Hdir) as [[[Hs' _]|[Hs' _]]|(sl & cur & rt & cb & -> & Hs')];
      rewrite Hs' in Hq |- *; [by apply Hh|done|].
    destruct (Hnew _ _ _ _ _ _ eq_refl) as [_ Hfalse]. by rewrite Hfalse in Hq.
  - by rewrite (db_this _ _ _ Hd).
Qed.

(** [addEvent] by [do_io]. *)
Abbreviation own_add rt := (PAdd (Some self) (me, Fiber.EXEC) rt rfd event None).

Lemma pp_add_ok p rt : poller_part p false -> ep_ok p (own_add rt).
Proof.
  intros Hpp. split_and!; try done.
  - apply Hpp.
  - destruct (has _ _) eqn:E; [|done]. by apply (pp_registered p false Hpp) in E.
Qed.

Lemma pp_add p p' rt :
  poller_part p false -> done_by_in p (own_add rt) p' ->
  poller_part p' (rt =? 0) /\ queued q_cb (tasks p') = queued q_cb (tasks p).
Proof.
  intros Hpp Hd. pose proof (pp_add_ok p rt Hpp) as Hok. destruct Hpp as [Hinv Ht Hs Hr Ho Hp Hg Hc Hh Hth].
  pose proof (conserved q_me eq_refl eq_refl p _ p' Hinv Hok Hd) as Cm.
  pose proof (conserved q_cb eq_refl eq_refl p _ p' Hinv Hok Hd) as Ck.
  cbn [added] in Cm, Ck. unfold slot_weight in Cm, Ck. cbn in Cm, Ck. rewrite Z.eqb_refl in Cm.
  pose proof (db_tasks _ _ _ Hd) as Hq. cbn [ep_work tasks_of] in Hq. rewrite app_nil_r in Hq.
  assert (Htab : forall f, in_table p' f <-> in_table p f) by (intros; by eapply after_in_table).
  pose proof (db_contexts _ _ _ Hd) as Ha. cbn [ep_after] in Ha.
  split; [|by rewrite Hq]. rewrite Hq in Cm, Ck. split.
  - apply Hd.
  - by apply Htab.
  - by rewrite (after_length p _ p' Hd).
  - by rewrite (db_readers _ _ _ Hd).
  - rewrite Hq. destruct (rt =? 0); cbn in Cm, Ho |- *; lia.
  - intros g dir Hin%Htab Hdir Hm.
    destruct (after_slot p _ p' g dir Hinv Hok Hd Hin Hdir) as [[[Hs' _]|[Hs' _]]|(sl & cur & rt' & cb & Heq & _)].
    + rewrite Hs' in Hm. by apply Hp.
    + by rewrite Hs' in Hm.
    + by injection Heq as _ _ _ <- <- _.
  - intros Hhas. destruct (after_slot p _ p' rfd event Hinv Hok Hd Ht Hevent)
      as [[[Hs' He]|[_ He]]|(sl & cur & rt' & cb & Heq & ->)].
    + rewrite Hs'. apply Hg. by rewrite <- He.
    + by rewrite He in Hhas.
    + injection Heq as <- <- _ <-. cbn. apply Z.eqb_refl.
  - destruct (rt =? 0); cbn in Ck; lia.
  - intros g dir Hin%Htab Hdir Hm. rewrite (db_this _ _ _ Hd).
    destruct (after_slot p _ p' g dir Hinv Hok Hd Hin Hdir) as [[[Hs' _]|[Hs' _]]|(sl & cur & rt' & cb & Heq & ->)].
    + rewrite Hs' in Hm |- *. by apply Hh.
    + by rewrite Hs' in Hm.
    + injection Heq as <- <- _ _ _ <-. cbn. by rewrite Hth.
  - by rewrite (db_this _ _ _ Hd).
Qed.

(** ** The timers' part *)

(** The closure is armed in no timer but the one [do_io] holds, and that one is
    due no earlier than the time-out after the start. *)
Record timer_part (t : TimerManager) (held : Ptr) (start : option Z) : Prop := {
  tp_wf : tm_wf t;
  tp_own : forall b x, timer_heap t !! b = Some x -> m_cb x = own_cb ->
    held = Some b /\ Some b ∈ m_timers t /\ m_recurring x = false
    /\ exists t0, start = Some t0 /\ t0 + to <= m_next x;
  tp_handle : forall a, held = Some a ->
    exists x, timer_heap t !! a = Some x /\ (m_cb x = own_cb \/ m_cb x = FNull)
}.

Lemma tp_add t start now a :
  timer_part t None start -> timer_heap t !! a = None -> 0 <= now -> now + to < 2 ^ 64 ->
  (forall t0, start = Some t0 -> t0 <= now) ->
  exists t', TimerManager_addConditionTimer now a to (FUser uid) tid false t = Ok (Some a) t'
    /\ timer_part t' (Some a) (Some (default now start))
    /\ Some a ∈ m_timers t' /\ exists x, timer_heap t' !! a = Some x /\ m_next x = now + to.
Proof.
  intros [Hwf Hown _] Ha Hnow Hsmall Hstart.
  destruct (addTimer_spec now a to own_cb false t Hwf Ha eq_refl Hto) as (t' & Hrun & Hwf' & Hh & Hs & _).
  exists t'. split; [exact Hrun|]. split; [|split; [rewrite Hs; by left|]].
  2: { rewrite Hh, lookup_insert_eq. eexists. split; [done|]. cbn. by rewrite wrap_id by lia. }
  split; [done| |].
  - intros b x Hb Hx. rewrite Hh in Hb. destruct (decide (b = a)) as [->|Hne].
    + rewrite lookup_insert_eq in Hb. injection Hb as <-. split; [done|]. split; [rewrite Hs; by left|].
      split; [done|]. eexists. split; [done|]. cbn. rewrite wrap_id by lia.
      destruct start as [t0|]; cbn; [specialize (Hstart t0 eq_refl)|]; lia.
    + rewrite lookup_insert_ne in Hb by congruence. by destruct (Hown b x Hb Hx).
  - intros b [= <-]. rewrite Hh, lookup_insert_eq. eexists. split; [done|by left].
Qed.

Lemma tp_cancel t a start :
  timer_part t (Some a) start ->
  exists r t', Timer_cancel (Some a) t = Ok r t' /\ timer_part t' None start.
Proof.
  intros [Hwf Hown Hh]. destruct (Hh a eq_refl) as (x & Hx & _).
  destruct (cancel_spec t a x Hwf Hx) as (t' & Hrun & Hwf' & Hheap & _).
  eexists _, t'. split; [done|]. split; [done| |done]. intros b y Hb Hy. exfalso.
  assert (Hba : timer_heap t !! b = Some y -> b = a) by (intros Hy'; destruct (Hown b y Hy' Hy); congruence).
  rewrite Hheap in Hb. destruct (has_target (m_cb x)) eqn:E.
  - destruct (decide (b = a)) as [->|Hne].
    + rewrite lookup_insert_eq in Hb. injection Hb as <-. done.
    + rewrite lookup_insert_ne in Hb by congruence. auto.
  - pose proof (Hba Hb) as ->. rewrite Hx in Hb. injection Hb as ->. by rewrite Hy in E.
Qed.

Lemma foreign_touched ph o t a :
  foreign_timer tid uid ph o -> op_ok t o -> timer_of ph = Some a -> is_Some (timer_heap t !! a) ->
  touched o <> Some a.
Proof.
  intros Hf Hok Hph [x Hx]. destruct o; cbn [foreign_timer op_ok touched] in *; try congruence.
  - destruct Hok as [Ha _]. congruence.
  - destruct Hok as [Ha _]. congruence.
Qed.

Lemma tp_foreign t t' ph o start :
  timer_part t (timer_of ph) start -> op_ok t o -> foreign_timer tid uid ph o -> exec_op o t = Ok tt t' ->
  timer_part t' (timer_of ph) start.
Proof.
  intros [Hwf Hown Hh] Hok Hf Hrun.
  assert (Hx : match o with OExpired _ _ => False | _ => True end) by (by destruct o).
  assert (Hadd : added_cb o <> Some own_cb) by (destruct o; cbn in *; congruence).
  assert (Hsame : forall a, timer_of ph = Some a -> same_timer a t t').
  { intros a Ha. eapply exec_op_frame; [done..|]. destruct (Hh a Ha) as (x & Hx' & _). eapply foreign_touched; eauto. }
  destruct (exec_op_wf t o Hwf Hok) as (t2 & Hrun2 & Hwf'). rewrite Hrun in Hrun2. injection Hrun2 as <-.
  split; [done| |].
  - intros b x Hb Hcb. destruct (exec_op_callbacks t o t' own_cb Hwf Hok Hrun Hx eq_refl Hadd b x Hb Hcb) as (y & Hy & Hycb).
    destruct (Hown b y Hy Hycb) as (Hheld & Hin & _). destruct (Hsame b Hheld) as [He Hset].
    rewrite Hb in He. rewrite <- He in Hy. injection Hy as <-. rewrite Hset. by apply Hown.
  - intros a Ha. destruct (Hsame a Ha) as [-> _]. auto.
Qed.

(** Expiry: the closure is handed out only when it is due, and then it is gone
    from the timers. *)
Lemma tp_expire t t' now held start :
  timer_part t held start ->
  let h := timer_heap t in
  let expired := filter (fun a => due h now a = true) (m_timers t) in
  tm_wf t' ->
  (forall a, timer_heap t' !! a = if decide (Some a ∈ expired) then fired now <$> h !! a else h !! a) ->
  (forall x, x ∈ m_timers t' <-> x ∈ m_timers t /\ (due h now x = false \/ recurring_at h x = true)) ->
  timer_part t' held start
  /\ (own_cb ∈ cb_at h <$> expired -> exists t0, start = Some t0 /\ t0 + to <= now).
Proof.
  intros [Hwf Hown Hh] h expired Hwf' Hheap Hset.
  assert (Hdue : forall b, Some b ∈ expired <-> due h now (Some b) = true /\ Some b ∈ m_timers t)
    by (intros b; unfold expired; by rewrite list_elem_of_filter). split; [split; [done| |]|].
  - intros b x Hb Hcb. rewrite Hheap in Hb. destruct (decide (Some b ∈ expired)) as [Hin|Hout].
    + destruct (h !! b) as [y|] eqn:Hy; [|done]. injection Hb as <-. unfold fired in Hcb.
      destruct (m_recurring y) eqn:Er; [|done]. destruct (Hown b y Hy Hcb) as (_ & _ & Hr & _). congruence.
    + destruct (Hown b x Hb Hcb) as (Hheld & Hin & Hrest). split; [done|]. split; [|done].
      apply Hset. split; [done|]. left. apply not_true_is_false. intros E. apply Hout, Hdue. auto.
  - intros a Ha. rewrite Hheap. destruct (Hh a Ha) as (x & Hx & Hcb). subst h. rewrite Hx.
    destruct (decide _); [|eauto]. eexists. split; [done|]. unfold fired. destruct (m_recurring x); [done|by right].
  - intros (x & Hx & Hin)%list_elem_of_fmap. destruct x as [b|].
    + apply Hdue in Hin as [Hd Hin]. cbn [cb_at] in Hx. destruct (h !! b) as [y|] eqn:Hy; [|done].
      cbn in Hx. destruct (Hown b y Hy (eq_sym Hx)) as (_ & _ & _ & t0 & Ht0 & Hle). exists t0. split; [done|].
      cbn [due] in Hd. unfold next_at in Hd. rewrite Hy in Hd. cbn in Hd. lia.
    + by apply list_elem_of_filter in Hin as [Hd _].
Qed.

(** ** The invariant *)

(** The time-out has passed since the first timer was made. *)
Definition due_by (start : option Z) (now : Z) : Prop := exists t0, start = Some t0 /\ t0 + to <= now.

Record wait_inv w : Prop := {
  wi_poller : poller_part (w_ep w) (waits (w_phase w));
  wi_timers : timer_part (ep_timers (w_ep w)) (timer_of (w_phase w)) (w_start w);
  wi_late : w_cancelled w <> 0 \/ 0 < queued q_cb (tasks (w_ep w)) -> due_by (w_start w) (w_now w);
  wi_flag : w_cancelled w = 0 /\ w_cancelling w = false \/ w_cancelled w = ETIMEDOUT;
  wi_start : forall t0, w_start w = Some t0 -> 0 <= t0 <= w_now w;
  wi_clock : 0 <= w_now w /\ (to <> NO_TIMEOUT -> w_now w + to < 2 ^ 64)
}.

Lemma on_ep_Ok {A} (m : M (EventPoller S) A) w a p : m (w_ep w) = Ok a p -> on_ep m w = Ok a (set_ep p w).
Proof. unfold on_ep. by intros ->. Qed.
Lemma on_ep_inv {A} (m : M (EventPoller S) A) w a w' :
  on_ep m w = Ok a w' -> exists p, m (w_ep w) = Ok a p /\ w' = set_ep p w.
Proof. unfold on_ep. destruct (m (w_ep w)); try done. intros [= <- <-]. eauto. Qed.
Lemma on_timers_inv {A} (m : M TimerManager A) p a p' :
  on_timers m p = Ok a p' -> exists t, m (ep_timers p) = Ok a t /\ p' = EventPoller.set_timers t p.
Proof. unfold on_timers. destruct (m (ep_timers p)); try done. intros [= <- <-]. eauto. Qed.

(** Only the phase changes, to one with the same timer and the same waiting. *)
Lemma inv_phase w ph :
  wait_inv w -> waits ph = waits (w_phase w) -> timer_of ph = timer_of (w_phase w) -> wait_inv (set_phase ph w).
Proof. intros [? ? ? ? ? ?] H1 H2. split; cbn; rewrite ?H1, ?H2; auto. Qed.
Lemma inv_errno w e : wait_inv w -> wait_inv (set_werrno e w).
Proof. intros [? ? ? ? ? ?]. by split. Qed.

(** The timers change, or the poller does but for its timers. *)
Lemma inv_timers w t ph :
  wait_inv w -> timer_part t (timer_of ph) (w_start w) -> waits ph = waits (w_phase w) ->
  wait_inv (set_phase ph (set_ep (EventPoller.set_timers t (w_ep w)) w)).
Proof.
  intros [Hp _ ? ? ? ?] Ht Hw. split; cbn; rewrite ?Hw; auto.
  by eapply (pp_change (w_ep w)).
Qed.
Lemma inv_poller w p ph :
  wait_inv w -> poller_part p (waits ph) -> ep_timers p = ep_timers (w_ep w) ->
  queued q_cb (tasks p) = queued q_cb (tasks (w_ep w)) -> timer_of ph = timer_of (w_phase w) ->
  wait_inv (set_phase ph (set_ep p w)).
Proof. intros [_ Ht Hl ? ? ?] Hp Het Hq Hph. split; cbn; rewrite ?Het, ?Hph, ?Hq; auto. Qed.

(** ** The steps of the call *)

(** The answer a phase is for. *)
Definition fits (ph : Phase) (x : answer) : bool :=
  match ph, x with
  | WCall, ACall _ _ | WTimer, ANew _ | WAdd _, ACtl _ _
  | WYield _, ANone | WCancel _, ANone | WTest, ANone | WRefused _, ANone => true
  | _, _ => false
  end.
Abbreviation own_step := (blocked_step me rfd event to self tid uid call).

Lemma step_fits x w l w' : own_step x w = Ok l w' -> fits (w_phase w) x = true.
Proof. unfold blocked_step, do_io_step, connect_step, wait_step. by destruct call, (w_phase w), x. Qed.
(** In the phases of the wait the two calls do the same. *)
Definition shared (ph : Phase) : bool :=
  match ph with WTimer | WAdd _ | WYield _ | WCancel _ => true | _ => false end.
Lemma shared_step x w : shared (w_phase w) = true -> own_step x w = wait_step me rfd event to self tid uid x w.
Proof. unfold blocked_step, do_io_step, connect_step. by destruct call, (w_phase w). Qed.

(** Cancelling the timer on the way to a phase that has none. *)
Lemma cancel_step w t :
  wait_inv w -> timer_of (w_phase w) = t -> waits (w_phase w) = false ->
  exists p', cancel_timer t w = Ok tt (set_ep p' w)
    /\ forall ph, waits ph = false -> timer_of ph = None -> wait_inv (set_phase ph (set_ep p' w)).
Proof.
  intros Hinv Ht Hw. destruct t as [a|].
  - pose proof (wi_timers w Hinv) as Htp. rewrite Ht in Htp.
    destruct (tp_cancel _ _ _ Htp) as (r & tm & Hrun & Htp').
    exists (EventPoller.set_timers tm (w_ep w)). split.
    { unfold cancel_timer, on_ep, on_timers, bind. by rewrite Hrun. }
    intros ph Hph Hph'. apply inv_timers; [done| |congruence]. by rewrite Hph'.
  - exists (w_ep w). split; [by destruct w|]. intros ph Hph Hph'. replace (set_ep (w_ep w) w) with w by by destruct w.
    apply inv_phase; congruence.
Qed.

(** The new timer is armed for the end of the time-out. *)
Lemma timer_run w a :
  wait_inv w -> w_phase w = WTimer -> timer_heap (ep_timers (w_ep w)) !! a = None -> to <> NO_TIMEOUT ->
  exists w', own_step (ANew a) w = Ok LTimer w' /\ wait_inv w' /\ w_phase w' = WAdd (Some a)
    /\ w_cancelled w' = w_cancelled w /\ w_now w' = w_now w
    /\ Some a ∈ m_timers (ep_timers (w_ep w'))
    /\ exists x, timer_heap (ep_timers (w_ep w')) !! a = Some x /\ m_next x = w_now w + to.
Proof.
  intros Hinv Hph Ha Hne. rewrite shared_step by by rewrite Hph. unfold wait_step. rewrite Hph.
  rewrite (proj2 (Z.eqb_neq _ _) Hne). cbn [negb].
  pose proof Hinv as [Hp Ht Hl Hf Hs [Hn Hc]]. rewrite Hph in Hp, Ht.
  destruct (tp_add _ _ (w_now w) a Ht Ha Hn (Hc Hne)) as (t' & Hrun & Ht' & Harmed).
  { intros t0 H0. by destruct (Hs t0 H0). }
  unfold bind at 1, gets at 1.
  rewrite (bind_Ok _ _ _ _ _ (on_ep_Ok _ _ _ _ (on_timers_Ok _ _ _ _ Hrun))).
  eexists. split; [done|]. split; [|split_and!; [done..|apply Harmed|apply Harmed]]. split; cbn; try done.
  - by eapply (pp_change (w_ep w)).
  - intros (t0 & H0 & Hle)%Hl. rewrite H0. by exists t0.
  - intros t0 [= <-]. destruct (w_start w) as [t0|]; cbn; [by apply Hs|lia].
Qed.
Lemma timer_step w a :
  wait_inv w -> w_phase w = WTimer -> timer_heap (ep_timers (w_ep w)) !! a = None ->
  exists l w', own_step (ANew a) w = Ok l w' /\ wait_inv w'.
Proof.
  intros Hinv Hph Ha. destruct (Z.eq_dec to NO_TIMEOUT) as [Heq|Hne].
  - rewrite shared_step by by rewrite Hph. unfold wait_step. rewrite Hph, (proj2 (Z.eqb_eq _ _) Heq).
    eexists _, _. split; [done|]. apply inv_phase; by rewrite ?Hph.
  - destruct (timer_run w a Hinv Hph Ha Hne) as (w' & ? & ? & _). by exists LTimer, w'.
Qed.

(** A registration only touches the contexts. *)
Lemma add_run w t rt e :
  wait_inv w -> w_phase w = WAdd t ->
  exists p', let w1 := set_ep p' w in
    let w' := if rt =? 0 then set_phase (WYield t) w1 else set_phase (WRefused t) (set_werrno e w1) in
    own_step (ACtl rt e) w = Ok (LAdd (if rt =? 0 then None else Some e)) w' /\ wait_inv w'
    /\ tasks p' = tasks (w_ep w).
Proof.
  intros Hinv Hph. pose proof (wi_poller w Hinv) as Hp. rewrite Hph in Hp. cbn [waits] in Hp.
  destruct (ep_step _ _ (pp_inv _ _ Hp) (pp_add_ok _ rt Hp)) as (p' & Hrun & Hd).
  destruct (pp_add _ _ rt Hp Hd) as [Hp' Hq].
  pose proof (db_tasks _ _ _ Hd) as Htasks. cbn [ep_work tasks_of] in Htasks. rewrite app_nil_r in Htasks.
  assert (Hpub : EventPoller_addEvent (Some self) (me, Fiber.EXEC) rt rfd event None (w_ep w)
    = Ok (if rt =? 0 then 0 else -1) p').
  { rewrite addEvent_out by apply Hp. rewrite (proj2 (Z.leb_gt _ _)) by apply (pp_table _ _ Hp). exact Hrun. }
  rewrite shared_step by by rewrite Hph. unfold wait_step. rewrite Hph, (bind_Ok _ _ _ _ _ (on_ep_Ok _ _ _ _ Hpub)).
  pose proof (db_timers _ _ _ Hd) as Htm.
  exists p'. destruct (rt =? 0); (split; [reflexivity|]); (split; [|exact Htasks]).
  - apply (inv_poller w p' (WYield t)); try done. by rewrite Hph.
  - apply (inv_poller (set_werrno e w) p' (WRefused t)); try done; [by apply inv_errno|by cbn; rewrite Hph].
Qed.
Lemma add_step w t rt e :
  wait_inv w -> w_phase w = WAdd t -> exists l w', own_step (ACtl rt e) w = Ok l w' /\ wait_inv w'.
Proof. intros Hinv Hph. destruct (add_run w t rt e Hinv Hph) as (p' & ? & ? & _). eauto. Qed.

(** A step that only changes [errno] and the phase, to one without a timer. *)
Lemma moved w e ph :
  wait_inv w -> waits ph = waits (w_phase w) -> timer_of ph = timer_of (w_phase w) ->
  wait_inv (set_phase ph (set_werrno e w)).
Proof. intros Hinv H1 H2. apply inv_phase; [by apply inv_errno|done|done]. Qed.
Lemma called_run n e w : called n e w = Ok (if n =? -1 then e else w_errno w) (set_werrno (if n =? -1 then e else w_errno w) w).
Proof. unfold called. destruct (n =? -1); [done|by destruct w]. Qed.
Lemma connect_end_run so_error w : exists n e, connect_end so_error w = Ok tt (set_phase (WDone n) (set_werrno e w)).
Proof.
  unfold connect_end. destruct (_ =? -1); [|destruct (_ =? 0)].
  - by exists (-1), so_error.2.
  - exists 0, (w_errno w). by destruct w.
  - by exists (-1), so_error.2.
Qed.

Lemma call_step w n e : wait_inv w -> w_phase w = WCall -> exists l w', own_step (ACall n e) w = Ok l w' /\ wait_inv w'.
Proof.
  intros Hinv Hph.
  destruct call; (eexists _, _; split; [unfold blocked_step, do_io_step, connect_step; rewrite Hph, (bind_Ok _ _ _ _ _ (called_run n e w)); reflexivity|]);
    apply moved; rewrite ?Hph; try done; by repeat case_match.
Qed.
Lemma test_step w : wait_inv w -> w_phase w = WTest -> exists l w', own_step ANone w = Ok l w' /\ wait_inv w'.
Proof.
  intros Hinv Hph. destruct call as [|so]; unfold blocked_step, do_io_step, connect_step; rewrite Hph;
    unfold bind at 1, gets at 1; destruct (w_cancelled w =? 0); cbn [negb].
  - eexists _, _. split; [reflexivity|]. apply inv_phase; by rewrite ?Hph.
  - eexists _, _. split; [reflexivity|]. apply moved; by rewrite ?Hph.
  - destruct (connect_end_run so w) as (n & e & Hend). rewrite (bind_Ok _ _ _ _ _ Hend).
    eexists _, _. split; [reflexivity|]. apply moved; by rewrite ?Hph.
  - eexists _, _. split; [reflexivity|]. apply moved; by rewrite ?Hph.
Qed.
Lemma refused_step w t : wait_inv w -> w_phase w = WRefused t -> exists l w', own_step ANone w = Ok l w' /\ wait_inv w'.
Proof.
  intros Hinv Hph. destruct (cancel_step w t Hinv) as (p' & Hc & Hinv'); rewrite ?Hph; try done.
  destruct call as [|so]; unfold blocked_step, do_io_step, connect_step; rewrite Hph, (bind_Ok _ _ _ _ _ Hc).
  - eexists _, _. split; [reflexivity|]. by apply Hinv'.
  - destruct (connect_end_run so (set_ep p' w)) as (n & e & Hend). rewrite (bind_Ok _ _ _ _ _ Hend).
    eexists _, _. split; [reflexivity|]. exact (inv_errno _ e (Hinv' (WDone n) eq_refl eq_refl)).
Qed.

(** No step of the call fails, whatever the answers. *)
Lemma own_step_ok w x :
  wait_inv w -> fits (w_phase w) x = true ->
  (forall a, x = ANew a -> timer_heap (ep_timers (w_ep w)) !! a = None) ->
  exists l w', own_step x w = Ok l w' /\ wait_inv w'.
Proof.
  intros Hinv Hx Hnew. destruct (w_phase w) as [| |t|t|t|t| |t|n] eqn:Hph, x as [n' e|a|rt e|]; try done.
  - by apply call_step.
  - apply timer_step; auto.
  - by eapply add_step.
  - rewrite shared_step by by rewrite Hph. unfold wait_step. rewrite Hph. eexists _, _. split; [reflexivity|].
    apply inv_phase; by rewrite ?Hph.
  - destruct (cancel_step w t Hinv) as (p' & Hc & Hinv'); rewrite ?Hph; try done.
    rewrite shared_step by by rewrite Hph. unfold wait_step. rewrite Hph, (bind_Ok _ _ _ _ _ Hc).
    eexists _, _. split; [reflexivity|]. by apply Hinv'.
  - by apply test_step.
  - by eapply refused_step.
Qed.

(** ** The rest of the program *)

Lemma q_me_own t : q_me (task_work t) = true -> own_task me kid t = true.
Proof.
  destruct t as [[f|] [g|] th]; cbn; try done. intros ->%Z.eqb_eq. unfold own_task. cbn. by rewrite bool_decide_true.
Qed.
Lemma q_cb_own t : q_cb (task_work t) = true -> own_task me kid t = true.
Proof.
  destruct t as [f [g|] th]; cbn; [|done]. intros ->%Z.eqb_eq. unfold own_task. cbn.
  by rewrite (bool_decide_true (Some kid = Some kid)), orb_true_r.
Qed.

(** A thread takes a task. *)
Lemma take_queued q w i x :
  task_at w i x -> (forall th, task_work (FiberTask_of x th) = x) ->
  queued q (tasks (w_ep (take_task i w))) = queued q (tasks (w_ep w)) - Z.b2z (q x).
Proof.
  intros [th Hi] Hx. cbn. rewrite sink_take_law. by rewrite (queued_take q _ i _ Hi), Hx.
Qed.

Lemma take_inv w i x ph :
  wait_inv w -> task_at w i x -> (forall th, task_work (FiberTask_of x th) = x) ->
  timer_of ph = timer_of (w_phase w) -> Z.b2z (waits ph) = Z.b2z (waits (w_phase w)) - Z.b2z (q_me x) ->
  wait_inv (set_phase ph (take_task i w)).
Proof.
  intros [Hp Ht Hl Hf Hs Hc] Hi Hx Hph Hw.
  pose proof (take_queued q_me w i x Hi Hx) as Qm. pose proof (take_queued q_cb w i x Hi Hx) as Qc.
  split; cbn [w_ep w_phase w_cancelled w_cancelling w_now w_start set_phase]; rewrite ?Hph; auto.
  - eapply (pp_change (w_ep w)); [done..|]. rewrite Qm. lia.
  - rewrite Qc. intros [?|Hq]; apply Hl; [by left|right]. destruct (q_cb x); cbn in Hq; lia.
Qed.

Lemma callback_inv w w' :
  wait_inv w -> due_by (w_start w) (w_now w) -> callback_begin w = Ok tt w' -> wait_inv w'.
Proof.
  intros Hinv Hdue Hrun. unfold callback_begin, bind, get in Hrun.
  destruct (_ || _); injection Hrun as <-; [done|]. destruct Hinv. split; cbn; auto.
Qed.

(** What expiry queues, of tasks that no callback it hands out is. *)
Lemma expired_queued q l (cbs : list Func) :
  (forall f, f ∈ cbs -> q (WCb (name f)) = false) -> q (WFiber None) = false -> q (WCb None) = false ->
  queued q (l ++ tasks_of ((fun f => WCb (name f)) <$> cbs)) = queued q l.
Proof.
  intros Hno H1 H2. rewrite queued_app, queued_tasks_of by done.
  assert (count q ((fun f => WCb (name f)) <$> cbs) = 0); [|lia].
  induction cbs as [|f cbs IH]; [done|].
  change (Z.b2z (q (WCb (name f))) + count q ((fun f => WCb (name f)) <$> cbs) = 0).
  rewrite Hno by (by left). rewrite IH; [done|]. intros g Hg. apply Hno. by right.
Qed.

Lemma expire_inv w probe w' :
  wait_inv w -> timer_heap (ep_timers (w_ep w)) !! probe = None ->
  on_ep (idle_expired name (w_now w) probe) w = Ok tt w' -> wait_inv w'.
Proof.
  intros [Hp Ht Hl Hf Hs Hc] Hprobe (p' & Hrun & ->)%on_ep_inv.
  destruct (idle_expired_run name (w_now w) probe _ (tp_wf _ _ _ Ht) Hprobe) as (t & s & _ & Hrun' & Hwf & Hheap & Hset & Hq).
  rewrite Hrun in Hrun'. injection Hrun' as ->.
  destruct (tp_expire _ t (w_now w) _ _ Ht Hwf Hheap Hset) as [Ht' Hdue].
  set (cbs := cb_at _ <$> _) in Hq, Hdue.
  split; cbn; auto.
  - eapply (pp_change (w_ep w)); [done..|]. cbn. by rewrite Hq, (expired_queued q_me).
  - intros [?|Hlt]; [auto|]. destruct (decide (own_cb ∈ cbs)) as [|Hout]; [by apply Hdue|].
    apply Hl. right. rewrite Hq, (expired_queued q_cb) in Hlt; [done| |done..]. intros f Hin. cbn.
    destruct (name f) as [g|] eqn:E; [|done]. apply Z.eqb_neq. intros ->. apply Hname_own in E as ->. done.
Qed.

Lemma poller_step w o r w' :
  wait_inv w -> ep_ok (w_ep w) o -> foreign_op me rfd event kid o -> on_ep (ep_exec o) w = Ok r w' ->
  wait_inv w' /\ w' = set_ep (w_ep w') w /\ done_by_in (w_ep w) o (w_ep w').
Proof.
  intros Hinv Hok Hf (p' & Hrun & ->)%on_ep_inv.
  destruct (ep_step _ o (pp_inv _ _ (wi_poller w Hinv)) Hok) as (p2 & Hrun2 & Hd).
  rewrite Hrun in Hrun2. injection Hrun2 as _ <-. split; [|done].
  destruct (pp_foreign _ _ _ _ (wi_poller w Hinv) Hok Hf Hd) as [Hp Hq].
  pose proof (db_timers _ _ _ Hd) as Htm. destruct Hinv. split; cbn; rewrite ?Htm, ?Hq; auto.
Qed.

(** [cancelEvent] by the closure is an operation of that kind. *)
Lemma cancel_run w rt r w' :
  callback_cancel rfd event rt w = Ok r w' ->
  exists w1, on_ep (ep_exec (PCancel rt rfd event)) w = Ok (Z.b2z r) w1 /\ w' = set_cancelling false w1.
Proof.
  intros (b & w1 & Hrun & Hret)%bind_Ok_inv. apply on_ep_inv in Hrun as (p' & Hrun & ->).
  injection Hret as -> <-. eexists. split; [|done]. unfold on_ep. cbn [ep_exec]. by rewrite (bind_Ok _ _ _ _ _ Hrun).
Qed.
Lemma cancel_ok w : wait_inv w -> forall rt, ep_ok (w_ep w) (PCancel rt rfd event).
Proof. intros Hinv rt. split; [apply (wi_poller w Hinv)|done]. Qed.

Lemma env_inv w w' : wait_inv w -> env_step me rfd event to tid uid name kid w w' -> wait_inv w'.
Proof.
  intros Hinv Hstep. destruct Hstep as [w t Ht Hc|w probe w' Hprobe Hrun|w i w' Hi Hrun|w rt r w' Hg Hrun
    |w t i Hph Hi|w o r w' Hok Hf Hrun|w s' Hs|w o w' Hok Hf Hrun|w t e Hph].
  - destruct Hinv as [Hp Htp Hl Hf Hs [Hn _]]. split; cbn; auto.
    + intros H%Hl. destruct H as (t0 & H0 & Hle). exists t0. split; [done|lia].
    + intros t0 H0. specialize (Hs t0 H0). lia.
    + split; [lia|auto].
  - by eapply expire_inv.
  - assert (Hq : 0 < queued q_cb (tasks (w_ep w))).
    { destruct Hi as [th Hi]. pose proof (queued_take q_cb _ _ _ Hi) as Hq. pose proof (queued_nonneg q_cb (base.delete i (tasks (w_ep w)))).
      cbn in Hq. rewrite Z.eqb_refl in Hq. cbn in Hq. lia. }
    pose proof (take_inv w i (WCb (Some kid)) (w_phase w) Hinv Hi (fun _ => eq_refl) eq_refl) as H1.
    cbn in H1. rewrite Z.sub_0_r in H1. specialize (H1 eq_refl).
    eapply callback_inv; [exact H1| |exact Hrun]. cbn. apply (wi_late w Hinv). by right.
  - apply cancel_run in Hrun as (w1 & Hrun & ->).
    destruct (poller_step w _ _ _ Hinv (cancel_ok w Hinv rt) I Hrun) as ([Hp Ht Hl Hf Hs Hc] & _).
    split; cbn; auto. destruct Hf as [[? ?]|?]; auto.
  - eapply take_inv; [done|exact Hi|done|by rewrite Hph|]. rewrite Hph. cbn. by rewrite Z.eqb_refl.
  - by apply (poller_step w o r w' Hinv Hok Hf Hrun).
  - assert (Hown : forall q, (forall t, q (task_work t) = true -> own_task me kid t = true) ->
      queued q (sink_tasks s') = queued q (tasks (w_ep w))).
    { intros q Hq. by rewrite <- (queued_filter q (own_task me kid) (sink_tasks s') Hq), Hs, queued_filter. }
    destruct Hinv as [Hp Ht Hl Hf Hst Hc]. split; cbn; auto.
    + eapply (pp_change (w_ep w)); [done..|]. cbn. by rewrite (Hown q_me q_me_own).
    + by rewrite (Hown q_cb q_cb_own).
  - apply on_ep_inv in Hrun as (p' & (t' & Hrun & ->)%on_timers_inv & ->).
    pose proof (tp_foreign _ t' _ _ _ (wi_timers w Hinv) Hok Hf Hrun) as Ht'.
    exact (inv_timers w t' (w_phase w) Hinv Ht' eq_refl).
  - by apply inv_errno.
Qed.

Lemma step_inv w l w' : wait_inv w -> io_step me rfd event to self tid uid name kid call w l w' -> wait_inv w'.
Proof.
  intros Hinv [x l' w2 Hnew Hrun|w2 Henv]; [|by eapply env_inv].
  destruct (own_step_ok w x Hinv (step_fits _ _ _ _ Hrun) Hnew) as (l2 & w3 & Hrun2 & ?). congruence.
Qed.
Lemma run_inv w ls w' : wait_inv w -> io_run me rfd event to self tid uid name kid call w ls w' -> wait_inv w'.
Proof. intros Hinv Hrun. induction Hrun as [|w l w1 ls w2 Hs Hr IH]; [done|]. apply IH. by eapply step_inv. Qed.

(** ** Before the call *)

(** Nothing of this call is around yet, and nobody is registered for [event]. *)
Record wait_start w : Prop := {
  ws_phase : w_phase w = WCall;
  ws_flags : w_cancelled w = 0 /\ w_cancelling w = false /\ w_start w = None;
  ws_clock : 0 <= w_now w /\ (to <> NO_TIMEOUT -> w_now w + to < 2 ^ 64);
  ws_poller : ep_inv (w_ep w) /\ in_table (w_ep w) rfd /\ Z.of_nat (length (m_fdContexts (w_ep w))) < 2 ^ 31
    /\ 0 <= m_readers (w_ep w) /\ has (events (ctx_of (w_ep w) rfd)) event = false
    /\ ep_this (w_ep w) = self;
  ws_absent : waiting q_me (m_fdContexts (w_ep w)) = 0 /\ queued q_me (tasks (w_ep w)) = 0
    /\ waiting q_cb (m_fdContexts (w_ep w)) = 0 /\ queued q_cb (tasks (w_ep w)) = 0;
  ws_timers : tm_wf (ep_timers (w_ep w))
    /\ forall b x, timer_heap (ep_timers (w_ep w)) !! b = Some x -> m_cb x <> own_cb
}.

Lemma start_inv w : wait_start w -> wait_inv w.
Proof.
  intros [Hph (Hc & Hg & Hs) Hclk (Hinv & Ht & Hsm & Hr & Hno & Hth) (Wm & Qm & Wc & Qc) [Hwf Hown]].
  split; rewrite ?Hph, ?Hs; cbn [waits timer_of].
  - split; try done.
    + rewrite Wm, Qm. done.
    + intros g dir Hg' Hd Hq. exfalso. destruct (in_table_ctx _ g Hinv Hg') as (Hl & _).
      pose proof (waiting_slot q_me eq_refl _ _ _ dir Hl Hq). lia.
    + rewrite Hno. done.
    + intros g dir Hg' Hd Hq. exfalso. destruct (in_table_ctx _ g Hinv Hg') as (Hl & _).
      pose proof (waiting_slot q_me eq_refl _ _ _ dir Hl Hq). lia.
  - split; try done. intros b x Hb Hx. by destruct (Hown b x Hb).
  - rewrite Hc, Qc. intros [?|?]; [done|lia].
  - auto.
  - done.
  - done.
Qed.

(** ** Waking *)

(** While it is not queued, a waiting fiber is registered, and only there. *)
Lemma held_registered p :
  poller_part p true -> queued q_me (tasks p) = 0 ->
  has (events (ctx_of p rfd)) event = true /\ work_of (slot event (ctx_of p rfd)) = WFiber (Some me).
Proof.
  intros [Hinv Ht _ _ Ho Hp _ _ _ _] Hq. cbn in Ho.
  destruct (waiting_positive q_me (m_fdContexts p)) as (i & c & Hi & Hw); [lia|].
  assert (Hin : in_table p (Z.of_nat i)) by (unfold in_table; pose proof (lookup_lt_Some _ _ _ Hi); lia).
  assert (Hc : ctx_of p (Z.of_nat i) = c) by (unfold ctx_of; by rewrite Nat2Z.id, Hi).
  assert (Hslot : exists dir, dir_ok dir /\ q_me (work_of (slot dir c)) = true).
  { unfold ctx_weight, slot_weight in Hw. destruct (q_me (work_of (read c))) eqn:Er.
    - exists READ. split; [by left|done].
    - exists WRITE. split; [by right|]. change (slot WRITE c) with (write c).
      destruct (q_me (work_of (write c))); [done|cbn in Hw; lia]. }
  destruct Hslot as (dir & Hd & Hq'). rewrite <- Hc in Hq'. destruct (Hp _ dir Hin Hd Hq') as [Hg ->].
  rewrite Hg in Hq'. destruct (in_table_ctx p rfd Hinv Ht) as (_ & _ & Hok).
  pose proof (ctx_slot event _ Hd Hok) as Hs. split.
  - destruct (has _ _); [done|]. by rewrite Hs in Hq'.
  - destruct (work_of _) as [[f|]|]; try done. cbn in Hq'. apply Z.eqb_eq in Hq'. by subst.
Qed.

(** A delivery of [event], a [cancelEvent] and a [cancelAll] that the kernel
    accepts queue the fiber. *)
Definition wakes_me p (o : ep_op) : Prop :=
  (exists ev, o = PEvent (REvent rfd ev) 0 /\ reported ev (ctx_of p rfd) event = true)
  \/ o = PCancel 0 rfd event \/ o = PCancelAll 0 rfd.

Lemma wakes_work p o :
  wakes_me p o -> has (events (ctx_of p rfd)) event = true ->
  ec_scheduler (slot event (ctx_of p rfd)) = Some (ep_this p) ->
  work_of (slot event (ctx_of p rfd)) ∈ ep_work p o.
Proof.
  intros Hwake Hh Hsc. assert (Hhere : here (ep_this p) (slot event (ctx_of p rfd)) = [work_of (slot event (ctx_of p rfd))])
    by (unfold here; by rewrite bool_decide_true).
  unfold ep_work. destruct Hwake as [(ev & -> & Hrep)|[->| ->]]; cbn [ep_fires Z.eqb andb]; rewrite ?Hh;
    unfold fired_work; destruct Hevent as [-> | ->]; cbn [Z.eqb READ WRITE Pos.eqb negb];
    change (slot READ (ctx_of p rfd)) with (read (ctx_of p rfd)) in *;
    change (slot WRITE (ctx_of p rfd)) with (write (ctx_of p rfd)) in *;
    rewrite ?Hh, ?Hrep; cbn [andb]; rewrite Hhere; apply elem_of_app;
    first [left; by left | right; by left].
Qed.

Lemma work_task x ws : x ∈ ws -> valid_task (FiberTask_of x (-1)) = true -> FiberTask_of x (-1) ∈ tasks_of ws.
Proof.
  intros Hx Hv. unfold tasks_of. apply list_elem_of_In, List.filter_In. split; [|done].
  apply list_elem_of_In, list_elem_of_fmap. by exists x.
Qed.

Lemma task_at_elem w x : FiberTask_of x (-1) ∈ tasks (w_ep w) -> exists i, task_at w i x.
Proof. intros [i Hi]%list_elem_of_lookup. exists i. by exists (-1). Qed.

Lemma wakes_queued w o w' r :
  wait_inv w -> waits (w_phase w) = true -> queued q_me (tasks (w_ep w)) = 0 -> ep_ok (w_ep w) o ->
  wakes_me (w_ep w) o -> on_ep (ep_exec o) w = Ok r w' -> exists i, task_at w' i (WFiber (Some me)).
Proof.
  intros Hinv Hw Hq Hok Hwake Hrun. pose proof (wi_poller w Hinv) as Hp. rewrite Hw in Hp.
  destruct (held_registered _ Hp Hq) as [Hh Hwork].
  assert (Hf : foreign_op me rfd event kid o) by (by destruct Hwake as [(? & -> & _)|[->| ->]]).
  destruct (poller_step w o r w' Hinv Hok Hf Hrun) as (_ & _ & Hd).
  apply task_at_elem. rewrite (db_tasks _ _ _ Hd). apply elem_of_app. right. apply work_task; [|done].
  rewrite <- Hwork. apply wakes_work; [done..|].
  apply (pp_home _ _ Hp); [apply Hp|done|]. rewrite Hwork. apply Z.eqb_refl.
Qed.

(** ** The time-out *)
Abbreviation run := (io_run me rfd event to self tid uid name kid call).

Lemma run_app w ls w1 ls' w2 : run w ls w1 -> run w1 ls' w2 -> run w (ls ++ ls') w2.
Proof. intros H1 H2. induction H1 as [|w l w1 ls w3 Hs Hr IH]; [done|]. cbn. eapply io_next; [done|]. by apply IH. Qed.
Lemma run_env w w1 : env_step me rfd event to tid uid name kid w w1 -> run w [LTau] w1.
Proof. intros Hs. eapply io_next; [by apply io_env|]. apply io_stop. Qed.
Lemma run_own x w l w1 :
  (forall a, x = ANew a -> timer_heap (ep_timers (w_ep w)) !! a = None) -> own_step x w = Ok l w1 -> run w [l] w1.
Proof. intros Hn Hs. eapply io_next; [by eapply io_own|]. apply io_stop. Qed.

(** Resumed with the flag set, the call ends with it. *)
Lemma resumed_ends w t i :
  wait_inv w -> w_phase w = WHeld t -> w_cancelled w <> 0 -> task_at w i (WFiber (Some me)) ->
  exists ls w', run w ls w' /\ w_phase w' = WDone (-1) /\ w_errno w' = w_cancelled w.
Proof.
  intros Hinv Hph Hc Hi.
  pose proof (env_resume me rfd event to tid uid name kid w t i Hph Hi) as H1.
  pose proof (env_inv _ _ Hinv H1) as Hinv1. set (w1 := set_phase _ _) in *.
  destruct (cancel_step w1 t Hinv1 eq_refl eq_refl) as (p2 & Hcan & _).
  assert (H2 : own_step ANone w1 = Ok (cancel_label t) (set_phase WTest (set_ep p2 w1))).
  { rewrite shared_step by done. unfold wait_step. cbn [w_phase set_phase w1]. by rewrite (bind_Ok _ _ _ _ _ Hcan). }
  set (w2 := set_phase WTest (set_ep p2 w1)) in *.
  assert (H3 : own_step ANone w2 = Ok (LWake (w_cancelled w)) (set_phase (WDone (-1)) (set_werrno (w_cancelled w) w2))).
  { destruct call; unfold blocked_step, do_io_step, connect_step; cbn [w_phase set_phase set_ep w2]; unfold bind at 1, gets at 1;
      cbn [w_cancelled set_phase set_ep w1 w2 take_task]; by rewrite (proj2 (Z.eqb_neq _ _) Hc). }
  eexists _, (set_phase (WDone (-1)) (set_werrno (w_cancelled w) w2)). split; [|by split].
  eapply run_app; [by apply run_env|]. eapply run_app; [by apply (run_own ANone)|]. by apply (run_own ANone).
Qed.

(** The closure between its assignment and [cancelEvent] ends a call that is held. *)
Lemma cancelling_ends w t :
  wait_inv w -> w_phase w = WHeld t -> w_cancelled w = ETIMEDOUT -> w_cancelling w = true ->
  queued q_me (tasks (w_ep w)) = 0 ->
  exists ls w', run w ls w' /\ w_phase w' = WDone (-1) /\ w_errno w' = ETIMEDOUT.
Proof.
  intros Hinv Hph Hc Hg Hq. pose proof (wi_poller w Hinv) as Hp.
  destruct (ep_step _ _ (pp_inv _ _ Hp) (cancel_ok w Hinv 0)) as (p' & Hrun & Hd).
  assert (Hcan : callback_cancel rfd event 0 w = Ok true (set_cancelling false (set_ep p' w))
    \/ callback_cancel rfd event 0 w = Ok false (set_cancelling false (set_ep p' w))).
  { apply bind_Ok_inv in Hrun as (b & p2 & Hb & Heq). injection Heq as _ ->. unfold callback_cancel.
    rewrite (bind_Ok _ _ _ _ _ (on_ep_Ok _ _ _ _ Hb)). destruct b; auto. }
  destruct (wakes_queued w _ (set_ep p' w) _ Hinv ltac:(by rewrite Hph) Hq (cancel_ok w Hinv 0)
    ltac:(right; by left) (on_ep_Ok _ _ _ _ Hrun)) as [i Hi].
  assert (Hstep : env_step me rfd event to tid uid name kid w (set_cancelling false (set_ep p' w)))
    by (destruct Hcan; by eapply env_cancel).
  destruct (resumed_ends _ t i (env_inv _ _ Hinv Hstep)) as (ls & w' & Hr & Hd' & He); [done|by cbn; rewrite Hc|done|].
  eexists _, w'. split; [eapply run_app; [by apply run_env|exact Hr]|]. split; [done|]. rewrite He. exact Hc.
Qed.

(** An armed timer expires, and its closure sets the flag. *)
Lemma armed_fires w a x :
  wait_inv w -> timer_of (w_phase w) = Some a -> w_cancelled w = 0 ->
  timer_heap (ep_timers (w_ep w)) !! a = Some x -> Some a ∈ m_timers (ep_timers (w_ep w)) ->
  m_next x + to < 2 ^ 64 ->
  exists w', run w [LTau; LTau; LTau] w' /\ wait_inv w' /\ w_phase w' = w_phase w /\ w_cancelled w' = ETIMEDOUT
    /\ w_cancelling w' = true /\ w_now w' = Z.max (w_now w) (m_next x)
    /\ queued q_me (tasks (w_ep w')) = queued q_me (tasks (w_ep w)).
Proof.
  intros Hinv Hph Hc Ha Hin Hsmall. pose proof (wi_timers w Hinv) as Ht. rewrite Hph in Ht.
  destruct (tp_handle _ _ _ Ht a eq_refl) as (y & Hy & Hcb). rewrite Ha in Hy. injection Hy as <-.
  destruct (tm_live _ (tp_wf _ _ _ Ht) _ Hin) as (b & y & [= <-] & Hy & Htarget).
  rewrite Ha in Hy. injection Hy as <-. destruct Hcb as [Hcb|Hcb]; [|by rewrite Hcb in Htarget].
  set (now := Z.max (w_now w) (m_next x)).
  assert (H1 : env_step me rfd event to tid uid name kid w (set_now now w)).
  { apply env_tick; [lia|]. pose proof (wi_clock w Hinv). lia. }
  pose proof (env_inv _ _ Hinv H1) as Hinv1. set (w1 := set_now now w) in *.
  set (probe := fresh (dom (timer_heap (ep_timers (w_ep w))))).
  assert (Hprobe : timer_heap (ep_timers (w_ep w1)) !! probe = None) by (apply not_elem_of_dom, is_fresh).
  destruct (idle_expired_run name now probe (w_ep w1) (tp_wf _ _ _ Ht) Hprobe) as (t & s & _ & Hrun & _ & _ & _ & Htasks).
  pose proof (on_ep_Ok _ w1 _ _ Hrun) as Hrun'. set (w2 := set_ep _ w1) in Hrun'.
  pose proof (env_expire me rfd event to tid uid name kid w1 probe w2 Hprobe Hrun') as H2.
  pose proof (env_inv _ _ Hinv1 H2) as Hinv2.
  assert (Hclosure : exists i, task_at w2 i (WCb (Some kid))).
  { apply task_at_elem. cbn. rewrite Htasks. apply elem_of_app. right. apply (work_task (WCb (Some kid))); [|done].
    apply list_elem_of_fmap. exists own_cb. split; [by rewrite Hname|]. apply list_elem_of_fmap.
    exists (Some a). split; [cbn; rewrite Ha; cbn; by rewrite Hcb|]. apply list_elem_of_filter. split; [|done].
    cbn. unfold next_at. rewrite Ha. cbn. lia. }
  destruct Hclosure as [i Hi].
  assert (H3 : callback_begin (take_task i w2) = Ok tt (set_cancelling true (set_cancelled ETIMEDOUT (take_task i w2)))).
  { unfold callback_begin, bind, get. cbn [w_phase w_cancelled take_task set_ep w2 w1 set_now]. rewrite Hc.
    by destruct (w_phase w). }
  pose proof (env_callback me rfd event to tid uid name kid w2 i _ Hi H3) as H4.
  eexists. split; [|split; [exact (env_inv _ _ Hinv2 H4)|]].
  - apply (run_app _ [LTau] w1 [LTau; LTau]); [by apply run_env|]. apply (run_app _ [LTau] w2 [LTau]); by apply run_env.
  - split_and!; try done.
    pose proof (take_queued q_me w2 i (WCb (Some kid)) Hi (fun _ => eq_refl)) as Hq2. cbn in Hq2 |- *.
    rewrite Hq2, Htasks, (expired_queued q_me) by done. change (w_ep w1) with (w_ep w). lia.
Qed.

(** So it ends a call that is held. *)
Lemma armed_ends w a x :
  wait_inv w -> w_phase w = WHeld (Some a) -> w_cancelled w = 0 -> queued q_me (tasks (w_ep w)) = 0 ->
  timer_heap (ep_timers (w_ep w)) !! a = Some x -> Some a ∈ m_timers (ep_timers (w_ep w)) ->
  m_next x + to < 2 ^ 64 ->
  exists ls w', run w ls w' /\ w_phase w' = WDone (-1) /\ w_errno w' = ETIMEDOUT.
Proof.
  intros Hinv Hph Hc Hq Ha Hin Hsmall.
  destruct (armed_fires w a x Hinv ltac:(by rewrite Hph) Hc Ha Hin Hsmall) as (w1 & H1 & Hinv1 & Hph1 & Hc1 & Hg1 & _ & Hq1).
  destruct (cancelling_ends w1 (Some a) Hinv1) as (ls & w' & Hr & Hdone & He); [congruence|done|done|congruence|].
  eexists _, w'. split; [eapply run_app; [exact H1|exact Hr]|by split].
Qed.

Lemma queued_task_at w : 0 < queued q_me (tasks (w_ep w)) -> exists i, task_at w i (WFiber (Some me)).
Proof.
  intros (i & [f [g|] th] & Hi & Hq)%queued_positive; cbn in Hq; try done.
  destruct f as [f|]; [|done]. apply Z.eqb_eq in Hq as ->. exists i. by exists th.
Qed.
Lemma task_at_queued w i : task_at w i (WFiber (Some me)) -> 0 < queued q_me (tasks (w_ep w)).
Proof.
  intros [th Hi]. pose proof (queued_take q_me _ _ _ Hi) as Hq.
  pose proof (queued_nonneg q_me (base.delete i (tasks (w_ep w)))). cbn in Hq. rewrite Z.eqb_refl in Hq. cbn in Hq. lia.
Qed.

(** ** A time-out that is lost *)

(** Held with the flag set, the closure done with, and nothing queued. *)
Definition lost w : Prop :=
  (exists t, w_phase w = WHeld t) /\ w_cancelled w <> 0 /\ w_cancelling w = false
  /\ queued q_me (tasks (w_ep w)) = 0.

(** A fiber that does not wait is not queued. *)
Lemma idle_queued w : wait_inv w -> waits (w_phase w) = false -> queued q_me (tasks (w_ep w)) = 0.
Proof.
  intros Hinv Hw. pose proof (pp_once _ _ (wi_poller w Hinv)) as Ho. rewrite Hw in Ho. cbn in Ho.
  pose proof (queued_nonneg q_me (tasks (w_ep w))). pose proof (waiting_nonneg q_me (m_fdContexts (w_ep w))). lia.
Qed.

(** The closure that has set the flag finds nothing to cancel; the registration
    and the yield that follow are held for good. *)
Lemma unregistered_lost w t :
  wait_inv w -> w_phase w = WAdd t -> w_cancelled w = ETIMEDOUT -> w_cancelling w = true ->
  exists w', run w [LTau; LAdd None; LYield] w' /\ lost w' /\ w_now w' = w_now w.
Proof.
  intros Hinv Hph Hc Hg.
  destruct (ep_step _ _ (pp_inv _ _ (wi_poller w Hinv)) (cancel_ok w Hinv 0)) as (p1 & Hrun & _).
  apply bind_Ok_inv in Hrun as (b & p2 & Hb & Heq). injection Heq as _ ->.
  set (w1 := set_cancelling false (set_ep p1 w)).
  assert (Hcan : callback_cancel rfd event 0 w = Ok b w1).
  { unfold callback_cancel. by rewrite (bind_Ok _ _ _ _ _ (on_ep_Ok _ _ _ _ Hb)). }
  assert (H1 : env_step me rfd event to tid uid name kid w w1) by by eapply env_cancel.
  pose proof (env_inv _ _ Hinv H1) as Hinv1.
  destruct (add_run w1 t 0 0 Hinv1 Hph) as (p3 & H2 & Hinv2 & Hq2). cbn [Z.eqb] in H2, Hinv2.
  set (w2 := set_phase (WYield t) (set_ep p3 w1)) in *.
  assert (H3 : own_step ANone w2 = Ok LYield (set_phase (WHeld t) w2)) by by rewrite shared_step.
  exists (set_phase (WHeld t) w2). split; [|split; [|done]].
  - apply (run_app _ [LTau] w1 [LAdd None; LYield]); [by apply run_env|].
    apply (run_app _ [LAdd None] w2 [LYield]); [by apply (run_own (ACtl 0 0))|by apply (run_own ANone)].
  - split; [by exists t|]. split; [cbn; by rewrite Hc|]. split; [done|]. cbn [set_phase set_ep w_ep w2].
    rewrite Hq2. apply (idle_queued w1 Hinv1). cbn. by rewrite Hph.
Qed.

(** Only an operation on the poller that fires the registration helps. *)
Lemma lost_step w l w' :
  wait_inv w -> lost w -> io_step me rfd event to self tid uid name kid call w l w' ->
  lost w' \/ exists o r, ep_ok (w_ep w) o /\ on_ep (ep_exec o) w = Ok r w' /\ 0 < count q_me (ep_work (w_ep w) o).
Proof.
  intros Hinv Hlost Hstep. pose proof Hlost as ((t & Hph) & Hc & Hg & Hq).
  destruct Hstep as [x l w' _ Hrun|w' Hstep].
  { apply step_fits in Hrun. rewrite Hph in Hrun. by destruct x. }
  destruct Hstep as [w t' _ _|w probe w' Hprobe Hrun|w i w' Hi Hrun|w rt r w' Hg' _|w t' i Hph' Hi
    |w o r w' Hok Hf Hrun|w s' Hs|w o w' Hok Hf Hrun|w t' e Hph'].
  - by left.
  - left. apply on_ep_inv in Hrun as (p' & Hrun & ->).
    destruct (idle_expired_run name (w_now w) probe _ (tp_wf _ _ _ (wi_timers w Hinv)) Hprobe) as (tm & s & _ & Hr & _ & _ & _ & Ht).
    rewrite Hrun in Hr. injection Hr as ->. split; [by exists t|]. split; [done|]. split; [done|].
    cbn. by rewrite Ht, (expired_queued q_me).
  - left. unfold callback_begin, bind, get in Hrun. cbn [w_phase w_cancelled take_task set_ep] in Hrun.
    rewrite (proj2 (Z.eqb_neq _ _) Hc), orb_true_r in Hrun. injection Hrun as <-.
    split; [by exists t|]. split; [done|]. split; [done|].
    rewrite (take_queued q_me w i (WCb (Some kid)) Hi (fun _ => eq_refl)), Hq. done.
  - congruence.
  - apply task_at_queued in Hi. lia.
  - destruct (poller_step w o r w' Hinv Hok Hf Hrun) as (_ & Hw & Hd).
    pose proof (db_tasks _ _ _ Hd) as Ht. destruct (Z.eq_dec (count q_me (ep_work (w_ep w) o)) 0) as [Hz|Hnz].
    + left. rewrite Hw. split; [by exists t|]. split; [done|]. split; [done|]. cbn.
      rewrite Ht, queued_app, queued_tasks_of, Hq by done. exact Hz.
    + right. exists o, r. split; [done|]. split; [done|]. pose proof (count_nonneg q_me (ep_work (w_ep w) o)). lia.
  - left. split; [by exists t|]. split; [done|]. split; [done|]. cbn.
    by rewrite <- (queued_filter q_me (own_task me kid) (sink_tasks s') q_me_own), Hs, (queued_filter q_me _ _ q_me_own).
  - left. apply on_ep_inv in Hrun as (p' & (t' & Hrun & ->)%on_timers_inv & ->). split; [by exists t|done].
  - left. split; [by exists t|done].
Qed.

(** ** Properties *)

(** A call that would block. *)
Lemma call_blocks w :
  w_phase w = WCall -> exists e w', own_step (ACall (-1) e) w = Ok (LCall (-1) e) w' /\ w_phase w' = WTimer
    /\ w_cancelled w' = w_cancelled w /\ w_now w' = w_now w.
Proof.
  intros Hph. destruct call as [|so]; [exists EAGAIN|exists EINPROGRESS];
    unfold blocked_step, do_io_step, connect_step; rewrite Hph, (bind_Ok _ _ _ _ _ (called_run _ _ w)); by eexists.
Qed.

(** C6: invariant.  Over every interleaving of a blocked call with the rest of
    the program: while it waits the fiber is registered or queued, once in all,
    and otherwise neither, so that it is never resumed twice or left out; when
    it is not queued it is registered for its event on its descriptor; the
    flag is only set after the whole time-out; outside the wait none of its
    timers is armed; and no step of the call fails. *)
Theorem io_wait_safe w0 ls w :
  wait_start w0 -> run w0 ls w ->
  waiting q_me (m_fdContexts (w_ep w)) + queued q_me (tasks (w_ep w)) = Z.b2z (waits (w_phase w))
  /\ (waits (w_phase w) = true -> queued q_me (tasks (w_ep w)) = 0 ->
        has (events (ctx_of (w_ep w) rfd)) event = true
        /\ work_of (slot event (ctx_of (w_ep w) rfd)) = WFiber (Some me))
  /\ (w_cancelled w <> 0 -> w_cancelled w = ETIMEDOUT /\ due_by (w_start w) (w_now w))
  /\ (timer_of (w_phase w) = None -> forall b x, timer_heap (ep_timers (w_ep w)) !! b = Some x -> m_cb x <> own_cb)
  /\ (forall x, fits (w_phase w) x = true ->
        (forall a, x = ANew a -> timer_heap (ep_timers (w_ep w)) !! a = None) -> exists l w', own_step x w = Ok l w').
Proof.
  intros Hstart Hrun. pose proof (run_inv _ _ _ (start_inv _ Hstart) Hrun) as Hinv.
  pose proof (wi_poller w Hinv) as Hp. split; [apply Hp|]. split.
  { intros Hw Hq. rewrite Hw in Hp. by apply held_registered. }
  split. { intros Hc. destruct (wi_flag w Hinv) as [[? _]|Hf]; [done|]. split; [done|]. apply (wi_late w Hinv). by left. }
  split. { intros Ht b x Hb Hx. destruct (tp_own _ _ _ (wi_timers w Hinv) b x Hb Hx) as [Hheld _]. congruence. }
  intros x Hx Hn. destruct (own_step_ok w x Hinv Hx Hn) as (l & w' & ? & _). eauto.
Qed.

(** C10: waking.  A fiber held by a blocked call that is queued can be resumed;
    one that is not is queued by the delivery of its event, by [cancelEvent] and
    by [cancelAll]; and while its timer is armed and the flag unset, or the
    closure has set it and is about to cancel, the call can end with -1 and
    [ETIMEDOUT] without any event. *)
Theorem held_call_ends w0 ls w t :
  wait_start w0 -> run w0 ls w -> w_phase w = WHeld t ->
  (0 < queued q_me (tasks (w_ep w)) ->
     exists w', env_step me rfd event to tid uid name kid w w' /\ w_phase w' = WCancel t)
  /\ (queued q_me (tasks (w_ep w)) = 0 -> forall o, ep_ok (w_ep w) o -> wakes_me (w_ep w) o ->
     exists r w', on_ep (ep_exec o) w = Ok r w' /\ w_phase w' = WHeld t /\ 0 < queued q_me (tasks (w_ep w')))
  /\ (queued q_me (tasks (w_ep w)) = 0 ->
      (w_cancelled w = 0 /\ (exists a x, t = Some a /\ Some a ∈ m_timers (ep_timers (w_ep w))
         /\ timer_heap (ep_timers (w_ep w)) !! a = Some x /\ m_next x + to < 2 ^ 64))
      \/ w_cancelling w = true ->
     exists ls' w', run w ls' w' /\ w_phase w' = WDone (-1) /\ w_errno w' = ETIMEDOUT).
Proof.
  intros Hstart Hrun Hph. pose proof (run_inv _ _ _ (start_inv _ Hstart) Hrun) as Hinv. split_and!.
  - intros [i Hi]%queued_task_at. eexists. split; [by eapply env_resume|done].
  - intros Hq o Hok Hwake. destruct (ep_step _ o (pp_inv _ _ (wi_poller w Hinv)) Hok) as (p' & Hex & _).
    exists (ep_answer (w_ep w) o), (set_ep p' w). split; [by apply on_ep_Ok|]. split; [done|].
    destruct (wakes_queued w o (set_ep p' w) (ep_answer (w_ep w) o) Hinv ltac:(by rewrite Hph) Hq Hok Hwake
      (on_ep_Ok _ _ _ _ Hex)) as [i Hi].
    by apply task_at_queued in Hi.
  - intros Hq [(Hc & a & x & -> & Hin & Ha & Hx)|Hg]; [by eapply armed_ends|].
    apply (cancelling_ends w t Hinv Hph); [|done|done]. destruct (wi_flag w Hinv) as [[_ ?]|?]; congruence.
Qed.

(** C17: a lost time-out.  Every call that can time out can come to this: it would
    block, its timer is made, time passes and the timer expires, the closure runs
    to its end, and only then the fiber registers and yields.  The closure has set the flag and cancelled
    nothing; from then on the call is held whatever happens, the end of the time-out
    included, until an operation on the poller fires its registration. *)
Theorem timeout_can_be_lost w0 :
  wait_start w0 ->
  (to <> NO_TIMEOUT -> w_now w0 + 2 * to < 2 ^ 64 ->
     exists w e, run w0 [LCall (-1) e; LTimer; LTau; LTau; LTau; LTau; LAdd None; LYield] w
       /\ lost w /\ w_now w = w_now w0 + to)
  /\ forall ls w ls' w', run w0 ls w -> lost w -> run w ls' w' ->
     lost w' \/ exists ls1 w1 o r w2 ls2, run w ls1 w1 /\ lost w1 /\ ep_ok (w_ep w1) o
       /\ on_ep (ep_exec o) w1 = Ok r w2 /\ 0 < count q_me (ep_work (w_ep w1) o) /\ run w2 ls2 w'.
Proof.
  intros Hstart. split.
  - intros Hne Hsmall. pose proof (start_inv _ Hstart) as Hinv. pose proof (ws_phase _ Hstart) as Hph.
    destruct (ws_flags _ Hstart) as (Hc & _ & _).
    destruct (call_blocks w0 Hph) as (e & w1 & H1 & Hph1 & Hc1 & Hn1).
    pose proof (step_inv _ _ _ Hinv ltac:(eapply io_own; [|exact H1]; done)) as Hinv1.
    set (a := fresh (dom (timer_heap (ep_timers (w_ep w1))))).
    assert (Ha : timer_heap (ep_timers (w_ep w1)) !! a = None) by (apply not_elem_of_dom, is_fresh).
    destruct (timer_run w1 a Hinv1 Hph1 Ha Hne) as (w2 & H2 & Hinv2 & Hph2 & Hc2 & Hn2 & Hin & x & Hx & Hnext).
    destruct (armed_fires w2 a x Hinv2 ltac:(by rewrite Hph2) ltac:(congruence) Hx Hin ltac:(lia))
      as (w3 & H3 & Hinv3 & Hph3 & Hc3 & Hg3 & Hn3 & _).
    destruct (unregistered_lost w3 (Some a) Hinv3 ltac:(congruence) Hc3 Hg3) as (w4 & H4 & Hl & Hn4).
    exists w4, e. split; [|split; [exact Hl|lia]].
    apply (run_app _ [_] w1 (LTimer :: _)); [by apply (run_own (ACall (-1) e))|].
    apply (run_app _ [_] w2 [LTau; LTau; LTau; LTau; LAdd None; LYield]); [by apply (run_own (ANew a)); [intros ? [= <-]|]|].
    by apply (run_app _ [_; _; _] w3 [LTau; LAdd None; LYield]).
  - intros ls w ls' w' Hrun Hlost Hrun'. pose proof (run_inv _ _ _ (start_inv _ Hstart) Hrun) as Hinv.
    clear Hrun Hstart. induction Hrun' as [w|w l w1 ls1 w2 Hs Hr IH]; [by left|].
    destruct (lost_step w l w1 Hinv Hlost Hs) as [Hl|(o & r & Hok & Hex & Hcount)].
    + destruct (IH Hl (step_inv _ _ _ Hinv Hs)) as [|(ls3 & w3 & o & r & w4 & ls4 & H3 & Hrest)]; [by left|].
      right. exists (l :: ls3), w3, o, r, w4, ls4. split; [by eapply io_next|exact Hrest].
    + right. exists [], w, o, r, w1, ls1. split; [apply io_stop|]. by split_and!.
Qed.
End wait.

(** ** Examples *)

(** The steps of a run as a list of moves, executed. *)
Section drive.
Context {S : Type} `{TS : TaskSink S, TL : !TaskSinkLaws S}.
Variables (me rfd event to self tid uid : Z) (name : Func -> option Z) (kid : Z) (call : blocked).
Implicit Types (w : Wait S).

Inductive move :=
| MOwn (x : answer)
| MTick (t : Z)
| MExpire (probe : Z)
| MCallback (i : nat)
| MCancel (rt : Z)
| MResume (i : nat)
| MReady (ev : Z).

Definition result {A} (r : res (Wait S) A) : option (Wait S) := match r with Ok _ w => Some w | _ => None end.
Definition is_at w (i : nat) (x : work) : bool :=
  match sink_tasks (ep_scheduler (w_ep w)) !! i with
  | Some t => bool_decide (t = FiberTask_of x (thread_id t))
  | None => false
  end.
Definition unused w (a : Z) : bool := bool_decide (timer_heap (ep_timers (w_ep w)) !! a = None).
Definition ready_ok w (ev : Z) : bool :=
  let c := ctx_of (w_ep w) rfd in
  (0 <=? rfd) && (rfd <? Z.of_nat (length (m_fdContexts (w_ep w))))
  && (negb (reported ev c READ) || has (events c) READ) && (negb (reported ev c WRITE) || has (events c) WRITE).

Definition try_move (m : move) w : option (label * Wait S) :=
  let env o := (fun w => (LTau, w)) <$> o in
  match m with
  | MOwn x =>
      if match x with ANew a => unused w a | _ => true end
      then match blocked_step me rfd event to self tid uid call x w with Ok l w' => Some (l, w') | _ => None end else None
  | MTick t =>
      if (w_now w <=? t) && ((to =? NO_TIMEOUT) || (t + to <? 2 ^ 64)) then env (Some (set_now t w)) else None
  | MExpire probe => if unused w probe then env (result (on_ep (idle_expired name (w_now w) probe) w)) else None
  | MCallback i => if is_at w i (WCb (Some kid)) then env (result (callback_begin (take_task i w))) else None
  | MCancel rt => if w_cancelling w then env (result (callback_cancel rfd event rt w)) else None
  | MResume i =>
      match w_phase w with
      | WHeld t => if is_at w i (WFiber (Some me)) then env (Some (set_phase (WCancel t) (take_task i w))) else None
      | _ => None
      end
  | MReady ev => if ready_ok w ev then env (result (on_ep (ep_exec (PEvent (REvent rfd ev) 0)) w)) else None
  end.
Fixpoint drive (ms : list move) w : option (list label * Wait S) :=
  match ms with
  | [] => Some ([], w)
  | m :: ms =>
      match try_move m w with
      | Some (l, w) => (fun r : list label * Wait S => (l :: r.1, r.2)) <$> drive ms w
      | None => None
      end
  end.

Lemma result_Ok {A} (r : res (Wait S) A) w : result r = Some w -> exists a, r = Ok a w.
Proof. destruct r; try done. intros [= ->]. eauto. Qed.
Lemma is_at_task w i x : is_at w i x = true -> task_at w i x.
Proof.
  unfold is_at, task_at. destruct (_ !! i) as [t|] eqn:E; [|done]. intros Ht%bool_decide_eq_true. exists (thread_id t). by rewrite <- Ht.
Qed.

Lemma try_move_step m w l w' :
  try_move m w = Some (l, w') -> io_step me rfd event to self tid uid name kid call w l w'.
Proof.
  assert (Henv : forall (o : option (Wait S)), (fun w => (LTau, w)) <$> o = Some (l, w') -> o = Some w' /\ l = LTau).
  { intros [v|]; [|done]. by intros [= <- <-]. }
  destruct m as [x|t|probe|i|rt|i|ev]; cbn [try_move].
  - destruct (match x with ANew a => unused w a | _ => true end) eqn:Ex; [|done].
    destruct (blocked_step _ _ _ _ _ _ _ _ x w) eqn:Es; try done. intros [= <- <-]. eapply io_own; [|exact Es].
    intros a' ->. by apply bool_decide_eq_true in Ex.
  - destruct (_ && _) eqn:Ec; [|done]. intros [[= <-] ->]%Henv. apply andb_true_iff in Ec as [H1%Z.leb_le H2].
    apply io_env, env_tick; [done|]. intros Hne. apply orb_true_iff in H2 as [H2%Z.eqb_eq|H2]; [done|lia].
  - destruct (unused w probe) eqn:Eu; [|done]. intros [[[] Hr]%result_Ok ->]%Henv.
    apply io_env. eapply env_expire; [by apply bool_decide_eq_true in Eu|done].
  - destruct (is_at _ _ _) eqn:Ei; [|done]. intros [[[] Hr]%result_Ok ->]%Henv.
    apply io_env. eapply env_callback; [by apply is_at_task|done].
  - destruct (w_cancelling w) eqn:Eg; [|done]. intros [[r Hr]%result_Ok ->]%Henv. apply io_env. by eapply env_cancel.
  - destruct (w_phase w) eqn:Eph; try done. destruct (is_at _ _ _) eqn:Ei; [|done].
    intros [[= <-] ->]%Henv. apply io_env. eapply env_resume; [done|by apply is_at_task].
  - destruct (ready_ok w ev) eqn:Er; [|done]. intros [[r Hr]%result_Ok ->]%Henv.
    unfold ready_ok in Er. rewrite !andb_true_iff, !orb_true_iff, !negb_true_iff in Er.
    destruct Er as [[[H1 H2] H3] H4]. apply io_env. apply (env_poller _ _ _ _ _ _ _ _ w (PEvent (REvent rfd ev) 0) r); [|exact I|exact Hr].
    split; [unfold in_table; lia|]. right. intros dir [-> | ->] Hrep; [destruct H3|destruct H4]; congruence.
Qed.

Lemma drive_run ms w ls w' : drive ms w = Some (ls, w') -> io_run me rfd event to self tid uid name kid call w ls w'.
Proof.
  revert w ls. induction ms as [|m ms IH]; intros w ls; cbn [drive]; [intros [= <- <-]; apply io_stop|].
  destruct (try_move m w) as [[l w1]|] eqn:Em; [|done]. destruct (drive ms w1) as [[ls1 w2]|] eqn:Ed; [|done].
  intros [= <- <-]. eapply io_next; [exact (try_move_step _ _ _ _ Em)|by apply IH].
Qed.
End drive.

(** Fiber 5 reads from descriptor 3 with a time-out of 100 ms, at time 1000. *)
Definition name_example (f : Func) : option Z := if decide (f = own_cb 1 9) then Some 99 else None.
Definition wait_example : Wait Scheduler := mkWait poller0 WCall 0 false 0 1000 None.
Abbreviation drive_example := (drive 5 3 READ 100 1 1 9 name_example 99 BIo).
Definition driven (ms : list move) : Wait Scheduler :=
  match drive_example ms wait_example with Some (_, w) => w | None => wait_example end.

(** The call blocks and waits. *)
Definition moves_held : list move := [MOwn (ACall (-1) EAGAIN); MOwn (ANew 7); MOwn (ACtl 0 0); MOwn ANone].
(** The timer expires, and its closure runs, before [addEvent]. *)
Definition moves_lost : list move :=
  [MOwn (ACall (-1) EAGAIN); MOwn (ANew 7); MTick 1100; MExpire 50; MCallback 0; MCancel 0; MOwn (ACtl 0 0); MOwn ANone].
(** Data comes after 99 ms, is gone when the call is made again, and comes again
    after another 99 ms. *)
Definition moves_twice : list move :=
  moves_held ++ [MTick 1099; MReady READ; MResume 0; MOwn ANone; MOwn ANone; MOwn (ACall (-1) EAGAIN); MOwn (ANew 8);
    MOwn (ACtl 0 0); MOwn ANone; MTick 1198; MExpire 50; MReady READ; MResume 0; MOwn ANone; MOwn ANone; MOwn (ACall 12 0)].

Lemma wait_example_start : wait_start 5 3 READ 100 1 1 9 99 wait_example.
Proof.
  split; try done.
  - split_and!; try done. apply ep_reachable_inv. exact (ep_start _ _ 4 0 0 1).
  - split; [exact wf_new_manager|]. intros b x Hb. change (timer_heap _) with (∅ : heap) in Hb. by rewrite lookup_empty in Hb.
Qed.
Lemma name_example_own : name_example (own_cb 1 9) = Some 99.
Proof. done. Qed.
Lemma name_example_only f : name_example f = Some 99 -> f = own_cb 1 9.
Proof. unfold name_example. by destruct (decide _). Qed.

Definition labels (ms : list move) : list label :=
  match drive_example ms wait_example with Some (ls, _) => ls | None => [] end.
Lemma driven_run ms :
  is_some (drive_example ms wait_example) = true ->
  io_run 5 3 READ 100 1 1 9 name_example 99 BIo wait_example (labels ms) (driven ms).
Proof.
  unfold labels, driven. destruct (drive_example ms wait_example) as [[ls w]|] eqn:E; [|done]. intros _. by eapply drive_run.
Qed.

Lemma to_example : 0 <= 100 < 2 ^ 64.
Proof. done. Qed.

Lemma io_wait_safe_witness :
  w_cancelled (driven moves_lost) <> 0 /\ due_by 100 (w_start (driven moves_lost)) (w_now (driven moves_lost)).
Proof.
  pose proof (io_wait_safe 5 3 READ 100 1 1 9 name_example 99 BIo (or_introl eq_refl) to_example name_example_own
    name_example_only wait_example (labels moves_lost) (driven moves_lost) wait_example_start
    (driven_run moves_lost ltac:(vm_compute; reflexivity))) as (_ & _ & H & _).
  assert (Hc : w_cancelled (driven moves_lost) <> 0) by (vm_compute; discriminate).
  split; [exact Hc|]. exact (proj2 (H Hc)).
Defined.

Lemma held_call_ends_witness :
  exists ls w', io_run 5 3 READ 100 1 1 9 name_example 99 BIo (driven moves_held) ls w'
    /\ w_phase w' = WDone (-1) /\ w_errno w' = ETIMEDOUT.
Proof.
  destruct (held_call_ends 5 3 READ 100 1 1 9 name_example 99 BIo (or_introl eq_refl) to_example name_example_own
    name_example_only wait_example (labels moves_held) (driven moves_held) (Some 7) wait_example_start
    (driven_run moves_held ltac:(vm_compute; reflexivity)) ltac:(vm_compute; reflexivity)) as (_ & _ & H).
  apply H; [vm_compute; reflexivity|]. left. split; [vm_compute; reflexivity|].
  exists 7, (mkTimer false 100 1100 (own_cb 1 9)).
  split; [reflexivity|]. split; [|split; [vm_compute; reflexivity|vm_compute; reflexivity]].
  assert (Hm : m_timers (ep_timers (w_ep (driven moves_held))) = [Some 7]) by (vm_compute; reflexivity).
  rewrite Hm. left.
Defined.

(** The call of [moves_lost] is held with the flag set, to stay so; and such a run
    is what the theorem finds. *)
Lemma timeout_can_be_lost_witness :
  (exists w e, io_run 5 3 READ 100 1 1 9 name_example 99 BIo wait_example
      [LCall (-1) e; LTimer; LTau; LTau; LTau; LTau; LAdd None; LYield] w /\ lost 5 w /\ w_now w = 1100)
  /\ lost 5 (driven moves_lost)
  /\ forall ls' w', io_run 5 3 READ 100 1 1 9 name_example 99 BIo (driven moves_lost) ls' w' ->
     lost 5 w' \/ exists w1 o, lost 5 w1 /\ 0 < count (q_me 5) (ep_work (w_ep w1) o).
Proof.
  assert (Hl : lost 5 (driven moves_lost)).
  { split; [exists (Some 7); vm_compute; reflexivity|]. split; [vm_compute; discriminate|]. split; vm_compute; reflexivity. }
  destruct (timeout_can_be_lost 5 3 READ 100 1 1 9 name_example 99 BIo (or_introl eq_refl) to_example name_example_own
    name_example_only wait_example wait_example_start) as [Hreach Hstay].
  split; [apply Hreach; [by vm_compute|vm_compute; reflexivity]|]. split; [exact Hl|]. intros ls' w' Hrun.
  destruct (Hstay (labels moves_lost) (driven moves_lost) ls' w'
    (driven_run moves_lost ltac:(vm_compute; reflexivity)) Hl Hrun) as [H|(ls1 & w1 & o & r & w2 & ls2 & _ & H1 & _ & _ & H2 & _)].
  - by left.
  - right. by exists w1, o.
Defined.

(** The time-out is one of each wait: a call with 100 ms may take 198. *)
Lemma timeout_per_wait :
  w_phase (driven moves_twice) = WDone 12 /\ w_start (driven moves_twice) = Some 1000 /\ w_now (driven moves_twice) = 1198.
Proof. vm_compute. split_and!; reflexivity. Qed.
