(* ===== verification/IoWaitRefine.v ===== *)
(** * A blocked call is a run of [do_io], or of [connect_with_timeout]

    Every way through the steps of IoWait that ends is a run of [do_io_retry], or
    of [connect_blocked], of Hook over the answers it got: what the theorems of
    HookFacts say of these over scripts of answers holds of the calls as the
    poller, the timers and the scheduler let them happen. *)
From S2P Require Import Prelude.
From S2P Require Import FdManager Timer TimerFacts Scheduler EventPoller EventPollerFacts Hook HookFacts IoWait IoWaitFacts.
From S2P Require Fiber.

(** ** The answers and the acts of a run *)

Definition calls_of (ls : list label) : list (Z * Z) :=
  omap (fun l => match l with LCall n e => Some (n, e) | _ => None end) ls.
Definition adds_of (ls : list label) : list (option Z) :=
  omap (fun l => match l with LAdd r => Some r | _ => None end) ls.
Definition wakes_of (ls : list label) : list Z :=
  omap (fun l => match l with LWake c => Some c | _ => None end) ls.
Definition act_of (rfd event to : Z) (l : label) : list act :=
  match l with
  | LCall n _ => [AFun n]
  | LTimer => [ATimer to]
  | LAdd r => [AAdd rfd event (answer_of r)]
  | LYield => [AYield]
  | LCancel => [ACancel]
  | LWake _ | LTau => []
  end.

Section refine.
Context {S : Type} `{TS : TaskSink S, TL : !TaskSinkLaws S} {K : Type} `{KK : Kernel K}.
Variables (me rfd event to self tid uid : Z) (name : Func -> option Z) (kid : Z) (call : blocked).
Implicit Types (w : Wait S) (h : Hook K).

Abbreviation run := (io_run me rfd event to self tid uid name kid call).
Abbreviation own_step := (blocked_step me rfd event to self tid uid call).
Definition acts_of (ls : list label) : list act := ls ≫= act_of rfd event to.

(** ** What is left of the call in each phase *)

Definition cancel_log : M (Hook K) unit := if negb (to =? NO_TIMEOUT) then log ACancel else mreturn tt.
(** The value [yield_f] ends with. *)
Definition take_wake : M (Hook K) Z := fun h =>
  match wakes h with
  | [] => NoFuel
  | c :: l => Ok c (after h (hk_errno h) (calls h) (adds h) l [])
  end.
(** The end of [connect_blocked]. *)
Definition connect_rest (so_error : Z * Z) : M (Hook K) Z :=
  if so_error.1 =? -1 then modify (set_errno so_error.2) ;;; mreturn (-1) else
  if so_error.2 =? 0 then mreturn 0 else
  modify (set_errno so_error.2) ;;; mreturn (-1).
Definition after_wake (fuel : nat) (c : Z) : M (Hook K) Z :=
  if negb (c =? 0) then modify (set_errno c) ;;; mreturn (-1)
  else match call with BIo => do_io_retry fuel rfd event to | BConnect so => connect_rest so end.
Definition after_refusal : M (Hook K) Z :=
  match call with BIo => mreturn (-1) | BConnect so => connect_rest so end.
Definition after_add (fuel : nat) (rt : Z) : M (Hook K) Z :=
  if negb (rt =? 0) then cancel_log ;;; after_refusal
  else c <-- yield_f ;; cancel_log ;;; after_wake fuel c.
Definition wait_rest (fuel : nat) : M (Hook K) Z :=
  poller_f ;;;
  (if negb (to =? NO_TIMEOUT) then log (ATimer to) else mreturn tt) ;;;
  rt <-- addEvent_f rfd event ;; after_add fuel rt.
Definition after_call (fuel : nat) (n : Z) : M (Hook K) Z :=
  e <-- gets hk_errno ;;
  match call with
  | BIo => if (n =? -1) && (e =? EAGAIN) then wait_rest fuel else mreturn n
  | BConnect _ =>
      if n =? 0 then mreturn 0 else
      if negb (n =? -1) || negb (e =? EINPROGRESS) then mreturn n else wait_rest fuel
  end.

(** [k] calls may still be interrupted, and [fuel] retries are left. *)
Definition rest (ph : Phase) (k fuel : nat) : M (Hook K) Z :=
  match ph with
  | WCall =>
      n <-- fun_f ;;
      match call with BIo => n <-- eintr_loop k n ;; after_call fuel n | BConnect _ => after_call fuel n end
  | WTimer => wait_rest fuel
  | WAdd _ => rt <-- addEvent_f rfd event ;; after_add fuel rt
  | WYield _ => c <-- yield_f ;; cancel_log ;;; after_wake fuel c
  | WHeld _ | WCancel _ => c <-- take_wake ;; cancel_log ;;; after_wake fuel c
  | WTest => c <-- take_wake ;; after_wake fuel c
  | WRefused _ => cancel_log ;;; after_refusal
  | WDone n => mreturn n
  end.

(** ** One step *)

(** The scripts of [h] are the answers of the run to come and more. *)
Record feeds h (ls : list label) (cs : list (Z * Z)) (ads : list (option Z)) (wks : list Z) : Prop := {
  fd_poller : has_poller h = true;
  fd_calls : calls h = calls_of ls ++ cs;
  fd_adds : adds h = adds_of ls ++ ads;
  fd_wakes : wakes h = wakes_of ls ++ wks
}.

(** A timer is held exactly when there is a time-out. *)
Definition timed (ph : Phase) : Prop :=
  match ph with
  | WAdd t | WYield t | WHeld t | WCancel t | WRefused t => is_some t = negb (to =? NO_TIMEOUT)
  | _ => True
  end.

Lemma cancel_same t w l ph w' :
  (cancel_timer t ;;; go ph ;;; mreturn (cancel_label t)) w = Ok l w' ->
  l = cancel_label t /\ w' = set_phase ph (set_ep (w_ep w') w).
Proof.
  destruct t as [a|]; intros Hrun.
  - apply bind_Ok_inv in Hrun as ([] & w1 & Hc & [= <- <-]). split; [done|].
    apply bind_Ok_inv in Hc as (r & w2 & Hc & [= <-]). unfold on_ep in Hc.
    by destruct (on_timers _ (w_ep w)); try done; injection Hc as _ <-.
  - injection Hrun as <- <-. by destruct w.
Qed.

Lemma cancel_log_run t h :
  is_some t = negb (to =? NO_TIMEOUT) ->
  cancel_log h = Ok tt (after h (hk_errno h) (calls h) (adds h) (wakes h) (act_of rfd event to (cancel_label t))).
Proof.
  unfold cancel_log. intros <-. destruct t; cbn; [done|]. by rewrite after_same.
Qed.

(** What the steps that depend on the call do. *)
Lemma retry_rest fuel h : call = BIo -> do_io_retry (Datatypes.S fuel) rfd event to h = rest WCall (Datatypes.S fuel) fuel h.
Proof. unfold rest, after_call, wait_rest, after_add, after_refusal, after_wake. by destruct call. Qed.
Lemma test_run w l w1 :
  w_phase w = WTest -> own_step ANone w = Ok l w1 ->
  l = LWake (w_cancelled w)
  /\ (w_cancelled w <> 0 /\ w1 = set_phase (WDone (-1)) (set_werrno (w_cancelled w) w)
      \/ w_cancelled w = 0 /\ call = BIo /\ w1 = set_phase WCall w
      \/ w_cancelled w = 0 /\ exists so u, call = BConnect so /\ connect_end so w = Ok u w1).
Proof.
  intros Hph Hrun. destruct call as [|so]; unfold blocked_step, do_io_step, connect_step in Hrun; rewrite Hph in Hrun;
    unfold bind at 1, gets at 1 in Hrun; apply bind_Ok_inv in Hrun as (u & w2 & Hrun & [= <- <-]); (split; [done|]);
    destruct (Z.eqb_spec (w_cancelled w) 0); cbn [negb] in Hrun.
  - injection Hrun as _ <-. auto.
  - injection Hrun as _ <-. auto.
  - right. right. split; [done|]. by exists so, u.
  - injection Hrun as _ <-. auto.
Qed.
Lemma refused_run w t l w1 :
  w_phase w = WRefused t -> own_step ANone w = Ok l w1 ->
  l = cancel_label t /\ exists w2, (call = BIo /\ w_phase w1 = WDone (-1) /\ w_errno w1 = w_errno w)
    \/ (exists so u, call = BConnect so /\ connect_end so w2 = Ok u w1).
Proof.
  intros Hph Hrun. destruct call as [|so]; unfold blocked_step, do_io_step, connect_step in Hrun; rewrite Hph in Hrun.
  - apply cancel_same in Hrun as [-> ->]. split; [done|]. exists w. by left.
  - apply bind_Ok_inv in Hrun as (u & w2 & _ & Hrun); apply bind_Ok_inv in Hrun as (u' & w3 & Hrun & [= <- <-]).
    split; [done|]. exists w2. right. by exists so, u'.
Qed.
Lemma cancelled_feeds h t ls cs ads wks :
  feeds h (cancel_label t :: ls) cs ads wks -> feeds h ls cs ads wks /\ calls_of (cancel_label t :: ls) = calls_of ls.
Proof. intros [? ? ? ?]. split; [split|]; by destruct t. Qed.

(** The phase after an answer of the call. *)
Definition phase_after (n e : Z) : Phase :=
  match call with
  | BIo => if (n =? -1) && (e =? EINTR) then WCall else if (n =? -1) && (e =? EAGAIN) then WTimer else WDone n
  | BConnect _ => if n =? 0 then WDone 0 else if negb (n =? -1) || negb (e =? EINPROGRESS) then WDone n else WTimer
  end.
Lemma call_run n e w l w1 :
  w_phase w = WCall -> own_step (ACall n e) w = Ok l w1 ->
  l = LCall n e /\ w1 = set_phase (phase_after n (if n =? -1 then e else w_errno w))
                        (set_werrno (if n =? -1 then e else w_errno w) w).
Proof.
  intros Hph. unfold phase_after. destruct call; unfold blocked_step, do_io_step, connect_step;
    rewrite Hph, (bind_Ok _ _ _ _ _ (called_run n e w)); by intros [= <- <-].
Qed.
(** [errno] only matters when the call failed. *)
Lemma phase_after_errno n e e' : (n = -1 -> e = e') -> phase_after n e = phase_after n e'.
Proof. intros He. unfold phase_after. destruct (Z.eqb_spec n (-1)) as [Hn|]; [by rewrite (He Hn)|done]. Qed.

Lemma called_step n e k fuel h cs :
  calls h = (n, e) :: cs ->
  let e' := if n =? -1 then e else hk_errno h in
  rest WCall (Datatypes.S k) fuel h = rest (phase_after n e') k fuel (after h e' cs (adds h) (wakes h) [AFun n]).
Proof.
  intros Hc e'. unfold rest at 1. rewrite (bind_Ok _ _ _ _ _ (fun_f_run h n e cs Hc)). fold e'.
  set (h' := after h e' cs (adds h) (wakes h) [AFun n]). unfold phase_after, rest, after_call. destruct call as [|so].
  - cbn [eintr_loop]. unfold bind at 1 2, gets at 1. change (hk_errno h') with e'.
    destruct ((n =? -1) && (e' =? EINTR)) eqn:Ei; [unfold bind; by destruct (fun_f h')|].
    unfold mreturn at 1, bind at 1, gets at 1. change (hk_errno h') with e'. by destruct (_ && (e' =? EAGAIN)).
  - unfold bind at 1, gets at 1. change (hk_errno h') with e'.
    destruct (Z.eqb_spec n 0) as [->|]; [done|]. by destruct (_ || _).
Qed.

(** The phases from the registration on only differ in what is logged. *)
Lemma cancel_step_rest t h k fuel :
  is_some t = negb (to =? NO_TIMEOUT) ->
  rest (WCancel t) k fuel h
  = rest WTest k fuel (after h (hk_errno h) (calls h) (adds h) (wakes h) (act_of rfd event to (cancel_label t))).
Proof.
  intros Ht. unfold rest, take_wake, bind at 1 3. cbn [wakes after]. destruct (wakes h) as [|c l]; [done|].
  rewrite (bind_Ok _ _ _ _ _ (cancel_log_run t _ Ht)). cbn [hk_errno calls adds wakes after].
  by rewrite !after_after, app_nil_r.
Qed.
Lemma yield_step t h k fuel :
  rest (WYield t) k fuel h
  = rest (WHeld t) k fuel (after h (hk_errno h) (calls h) (adds h) (wakes h) [AYield]).
Proof.
  unfold rest, yield_f, take_wake, bind at 1 3. cbn [wakes after]. destruct (wakes h) as [|c l]; [done|].
  cbn [hk_errno calls adds after]. by rewrite after_after.
Qed.
Lemma add_step_rest t h r l k fuel :
  adds h = r :: l ->
  rest (WAdd t) k fuel h
  = rest (if is_some r then WRefused t else WYield t) k fuel
      (after h (default (hk_errno h) r) (calls h) l (wakes h) [AAdd rfd event (answer_of r)]).
Proof.
  intros Ha. unfold rest at 1. rewrite (bind_Ok _ _ _ _ _ (addEvent_run _ _ _ _ _ Ha)). unfold after_add. by destruct r.
Qed.
Lemma timer_step_rest t h k fuel :
  has_poller h = true -> is_some t = negb (to =? NO_TIMEOUT) ->
  rest WTimer k fuel h
  = rest (WAdd t) k fuel (after h (hk_errno h) (calls h) (adds h) (wakes h)
      (act_of rfd event to (if is_some t then LTimer else LTau))).
Proof.
  intros Hp Ht. unfold rest, wait_rest. rewrite (bind_Ok _ _ h tt h) by (unfold poller_f; by rewrite Hp).
  rewrite <- Ht. destruct t; [done|]. cbn. by rewrite after_same.
Qed.

(** ** Runs *)

Lemma env_phase w w1 :
  env_step me rfd event to tid uid name kid w w1 ->
  (w_phase w1 = w_phase w /\ (w_errno w1 = w_errno w \/ exists t, w_phase w = WHeld t))
  \/ exists t, w_phase w = WHeld t /\ w_phase w1 = WCancel t.
Proof.
  assert (Hon : forall A (m : M (EventPoller S) A) v a v', on_ep m v = Ok a v' ->
    w_phase v' = w_phase v /\ w_errno v' = w_errno v).
  { intros A m v a v'. unfold on_ep. destruct (m (w_ep v)); try done. by intros [= _ <-]. }
  intros [v t _ _|v probe v' _ Hr|v i v' _ Hr|v rt r v' _ Hr|v t i Hph _|v o r v' _ _ Hr|v s' _|v o v' _ _ Hr|v t e Hph].
  - auto.
  - apply Hon in Hr as [-> ->]. auto.
  - unfold callback_begin, bind, get in Hr. destruct (_ || _); injection Hr as <-; auto.
  - apply bind_Ok_inv in Hr as (b & v1 & Hr & [= _ <-]). apply Hon in Hr as [H1 H2]. cbn. rewrite H1, H2. auto.
  - right. by exists t.
  - apply Hon in Hr as [-> ->]. auto.
  - auto.
  - apply Hon in Hr as [-> ->]. auto.
  - left. split; [done|]. right. by exists t.
Qed.

Lemma addCondition_answer now a ms f c r t x t' :
  TimerManager_addConditionTimer now a ms f c r t = Ok x t' -> x = Some a.
Proof.
  unfold TimerManager_addConditionTimer, TimerManager_addTimer. intros (u & t1 & _ & H)%bind_Ok_inv.
  apply bind_Ok_inv in H as (i & t2 & _ & H). apply bind_Ok_inv in H as (v & t3 & _ & H). by injection H as <- _.
Qed.

(** The fuel a phase needs for the calls to come. *)
Definition enough (ph : Phase) (m k fuel : nat) : Prop :=
  match ph with WCall => (m <= k)%nat /\ (m <= Datatypes.S fuel)%nat | _ => (m <= fuel)%nat end.
(** [errno] agrees where it is going to be the call's. *)
Definition errno_ok w h : Prop :=
  match w_phase w with
  | WRefused _ => hk_errno h = w_errno w
  | WDone n => n = -1 -> hk_errno h = w_errno w
  | _ => True
  end.

(** What one step does to the rest of the call. *)
Definition follows (x : label) w w1 h h1 (ls : list label) cs ads wks k fuel : Prop :=
  exists e cs1 ads1 wks1 k1 fuel1,
    h1 = after h e cs1 ads1 wks1 (act_of rfd event to x)
    /\ rest (w_phase w) k fuel h = rest (w_phase w1) k1 fuel1 h1
    /\ feeds h1 ls cs ads wks /\ timed (w_phase w1) /\ enough (w_phase w1) (length (calls_of ls)) k1 fuel1
    /\ errno_ok w1 h1.

Lemma call_follows n e w l w1 h ls cs ads wks k fuel :
  w_phase w = WCall -> own_step (ACall n e) w = Ok l w1 -> feeds h (l :: ls) cs ads wks ->
  enough (w_phase w) (length (calls_of (l :: ls))) k fuel ->
  exists h1, follows l w w1 h h1 ls cs ads wks k fuel.
Proof.
  intros Hph Hrun [Hpo Hc Ha Hw] Hen. destruct (call_run n e w l w1 Hph Hrun) as [-> ->]. rewrite Hph in Hen.
  change (calls_of (LCall n e :: ls)) with ((n, e) :: calls_of ls) in Hc, Hen. cbn [enough length app] in Hc, Hen.
  destruct Hen as [Hk Hf]. destruct k as [|k]; [lia|].
  set (e1 := if n =? -1 then e else hk_errno h). set (e2 := if n =? -1 then e else w_errno w).
  assert (He : n = -1 -> e1 = e2) by (intros ->; done).
  exists (after h e1 (calls_of ls ++ cs) (adds h) (wakes h) [AFun n]), e1, (calls_of ls ++ cs), (adds h), (wakes h), k, fuel.
  split; [done|]. split; [rewrite Hph, <- (phase_after_errno n e1 e2 He); exact (called_step n e k fuel h _ Hc)|].
  split; [by split|]. cbn [w_phase set_phase].
  split; [unfold phase_after; destruct call; by repeat case_match|].
  split; [unfold phase_after; destruct call; repeat case_match; cbn [enough]; lia|].
  unfold errno_ok. cbn [w_phase set_phase]. destruct (phase_after n e2) eqn:Eph; try done;
    unfold phase_after in Eph; destruct call; repeat case_match; try done; injection Eph as <-; try done; auto.
Qed.

Lemma timer_follows a w l w1 h ls cs ads wks k fuel :
  w_phase w = WTimer -> own_step (ANew a) w = Ok l w1 -> feeds h (l :: ls) cs ads wks ->
  enough (w_phase w) (length (calls_of (l :: ls))) k fuel ->
  exists h1, follows l w w1 h h1 ls cs ads wks k fuel.
Proof.
  intros Hph Hrun [Hpo Hc Ha Hw] Hen. rewrite shared_step in Hrun by by rewrite Hph. unfold wait_step in Hrun. rewrite Hph in Hrun, Hen.
  assert (Hres : exists t, w_phase w1 = WAdd t /\ is_some t = negb (to =? NO_TIMEOUT)
    /\ l = if is_some t then LTimer else LTau).
  { destruct (negb (to =? NO_TIMEOUT)) eqn:Eto.
    - apply bind_Ok_inv in Hrun as (now & w2 & H2 & Hrun). apply bind_Ok_inv in Hrun as (t & w3 & H3 & Hrun).
      injection Hrun as <- <-. exists t. unfold on_ep in H3. destruct (on_timers _ (w_ep w2)) eqn:Eon; try done.
      injection H3 as -> _. unfold on_timers in Eon. destruct (TimerManager_addConditionTimer _ _ _ _ _ _ _) eqn:Eadd; try done.
      injection Eon as -> _. apply addCondition_answer in Eadd as ->. done.
    - injection Hrun as <- <-. by exists None. }
  destruct Hres as (t & Hph1 & Ht & Hl).
  assert (Hno : calls_of (l :: ls) = calls_of ls /\ adds_of (l :: ls) = adds_of ls /\ wakes_of (l :: ls) = wakes_of ls)
    by (rewrite Hl; by destruct (is_some t)).
  destruct Hno as (N1 & N2 & N3). rewrite N1 in Hc, Hen. rewrite N2 in Ha. rewrite N3 in Hw.
  eexists _, _, _, _, _, k, fuel. split; [reflexivity|]. rewrite Hph, Hph1.
  split; [rewrite (timer_step_rest t) by done; by rewrite Hl|]. split; [by split|]. split; [done|]. split; [done|].
  unfold errno_ok. by rewrite Hph1.
Qed.

Lemma add_follows t rt e w l w1 h ls cs ads wks k fuel :
  w_phase w = WAdd t -> own_step (ACtl rt e) w = Ok l w1 -> feeds h (l :: ls) cs ads wks -> timed (w_phase w) ->
  enough (w_phase w) (length (calls_of (l :: ls))) k fuel ->
  exists h1, follows l w w1 h h1 ls cs ads wks k fuel.
Proof.
  intros Hph Hrun [Hpo Hc Ha Hw] Ht Hen. rewrite shared_step in Hrun by by rewrite Hph. unfold wait_step in Hrun. rewrite Hph in Hrun, Ht, Hen.
  apply bind_Ok_inv in Hrun as (r & w2 & _ & Hrun). apply bind_Ok_inv in Hrun as (u & w3 & H3 & Hrun).
  injection Hrun as <- <-. set (a := if negb (r =? 0) then Some e else None) in *.
  change (adds_of (LAdd a :: ls)) with (a :: adds_of ls) in Ha. cbn [app] in Ha.
  assert (Hph1 : w_phase w3 = (if is_some a then WRefused t else WYield t) /\ (is_some a = true -> default (hk_errno h) a = w_errno w3))
    by (unfold a; destruct (r =? 0); injection H3 as _ <-; done).
  destruct Hph1 as [Hph1 Herr].
  eexists _, _, _, (adds_of ls ++ ads), _, k, fuel. split; [reflexivity|]. rewrite Hph, Hph1.
  split; [by apply add_step_rest|]. split; [by split|]. split; [by destruct a|].
  split; [by destruct a|]. unfold errno_ok. rewrite Hph1. destruct (is_some a); [by apply Herr|done].
Qed.

(** What the end of [connect] does, on both sides. *)
Lemma connect_follows so w u w1 h :
  connect_end so w = Ok u w1 ->
  exists n e, w_phase w1 = WDone n /\ connect_rest so h = Ok n (after h e (calls h) (adds h) (wakes h) [])
    /\ (n = -1 -> e = w_errno w1).
Proof.
  intros Hrun. unfold connect_end, connect_rest in *.
  assert (Hset : forall v, (modify (set_errno v) ;;; mreturn (-1)) h = Ok (-1) (after h v (calls h) (adds h) (wakes h) []))
    by (intros v; unfold bind, modify, mreturn, after; by rewrite app_nil_r).
  destruct (so.1 =? -1); [|destruct (so.2 =? 0)]; injection Hrun as _ <-.
  - exists (-1), so.2. by rewrite Hset.
  - exists 0, (hk_errno h). split; [done|]. rewrite after_same. by split.
  - exists (-1), so.2. by rewrite Hset.
Qed.

Lemma test_follows w l w1 h ls cs ads wks k fuel :
  w_phase w = WTest -> own_step ANone w = Ok l w1 -> feeds h (l :: ls) cs ads wks ->
  enough (w_phase w) (length (calls_of (l :: ls))) k fuel -> (w_phase w1 = WCall -> calls_of ls <> []) ->
  exists h1, follows l w w1 h h1 ls cs ads wks k fuel.
Proof.
  intros Hph Hrun [Hpo Hc Ha Hw] Hen Hmore. destruct (test_run w l w1 Hph Hrun) as [-> Hcases]. rewrite Hph in Hen.
  set (c := w_cancelled w) in *. change (calls_of (LWake c :: ls)) with (calls_of ls) in Hc, Hen.
  change (wakes_of (LWake c :: ls)) with (c :: wakes_of ls) in Hw. cbn [app enough] in Hw, Hen.
  set (h0 := after h (hk_errno h) (calls h) (adds h) (wakes_of ls ++ wks) []).
  assert (Hrest : rest WTest k fuel h = after_wake fuel c h0) by (unfold rest, take_wake, bind; by rewrite Hw).
  unfold follows, after_wake in *. rewrite Hph, Hrest.
  destruct Hcases as [(Hcz & ->)|[(Hcz & Hcall & ->)|(Hcz & so & u & Hcall & Hend)]].
  - rewrite (proj2 (Z.eqb_neq c 0) Hcz). cbn [negb].
    eexists _, c, _, _, _, k, fuel. split; [reflexivity|]. split; [reflexivity|]. split; [by split|].
    split; [done|]. split; [done|]. intros _. auto.
  - rewrite Hcz in *. cbn [Z.eqb negb]. specialize (Hmore eq_refl). destruct fuel as [|fuel]; [destruct (calls_of ls); [done|cbn in Hen; lia]|].
    eexists _, _, _, _, _, (Datatypes.S fuel), fuel. split; [reflexivity|].
    split; [rewrite <- (retry_rest fuel _ Hcall); by rewrite Hcall|]. split; [by split|]. split; [done|]. split; [|done].
    cbn [enough w_phase set_phase]. lia.
  - rewrite Hcz, Hcall. cbn [Z.eqb negb].
    destruct (connect_follows so w u w1 h0 Hend) as (n & e & Hph1 & Hres & He).
    eexists _, e, _, _, _, k, fuel. split; [reflexivity|]. rewrite Hph1, Hres.
    split; [unfold h0, rest, mreturn; by rewrite after_after|]. split; [by split|]. split; [done|]. split; [done|].
    unfold errno_ok. rewrite Hph1. exact He.
Qed.

Lemma refused_follows t w l w1 h ls cs ads wks k fuel :
  w_phase w = WRefused t -> own_step ANone w = Ok l w1 -> feeds h (l :: ls) cs ads wks -> timed (w_phase w) ->
  enough (w_phase w) (length (calls_of (l :: ls))) k fuel -> errno_ok w h ->
  exists h1, follows l w w1 h h1 ls cs ads wks k fuel.
Proof.
  intros Hph Hrun Hfeed Ht Hen He. destruct (refused_run w t l w1 Hph Hrun) as (-> & w2 & Hcases).
  destruct (cancelled_feeds h t ls cs ads wks Hfeed) as [[Hpo Hc Ha Hw] Hno]. rewrite Hno, Hph in Hen. rewrite Hph in Ht.
  unfold errno_ok in He. rewrite Hph in He.
  set (h0 := after h (hk_errno h) (calls h) (adds h) (wakes h) (act_of rfd event to (cancel_label t))).
  assert (Hrest : rest (WRefused t) k fuel h = after_refusal h0)
    by (cbn [rest]; by rewrite (bind_Ok _ _ _ _ _ (cancel_log_run t h Ht))).
  unfold follows, after_refusal in *. rewrite Hph, Hrest.
  destruct Hcases as [(Hcall & Hph1 & He1)|(so & u & Hcall & Hend)]; rewrite Hcall.
  - exists h0, (hk_errno h), (calls h), (adds h), (wakes h), k, fuel. rewrite Hph1. split; [done|]. split; [done|].
    split; [by split|]. split; [done|]. split; [done|]. unfold errno_ok. rewrite Hph1, He1. by intros _.
  - destruct (connect_follows so w2 u w1 h0 Hend) as (n & e & Hph1 & Hres & He1).
    eexists _, e, _, _, _, k, fuel. split; [reflexivity|]. rewrite Hph1, Hres.
    split; [unfold h0, rest, mreturn; by rewrite after_after, app_nil_r|]. split; [by split|]. split; [done|]. split; [done|].
    unfold errno_ok. rewrite Hph1. exact He1.
Qed.

Lemma own_follows x l w w1 h ls cs ads wks k fuel :
  own_step x w = Ok l w1 -> feeds h (l :: ls) cs ads wks -> timed (w_phase w) ->
  enough (w_phase w) (length (calls_of (l :: ls))) k fuel -> errno_ok w h ->
  (w_phase w1 = WCall -> calls_of ls <> []) ->
  exists h1, follows l w w1 h h1 ls cs ads wks k fuel.
Proof.
  intros Hrun Hfeed Ht Hen He Hmore.
  pose proof (step_fits _ _ _ _ _ _ _ _ _ _ _ _ Hrun) as Hfit.
  destruct (w_phase w) as [| |t|t|t|t| |t|n] eqn:Hph, x as [n' e|a|rt e|]; try done.
  - eapply call_follows; rewrite ?Hph; done.
  - eapply timer_follows; rewrite ?Hph; done.
  - eapply add_follows; rewrite ?Hph; done.
  - rewrite shared_step in Hrun by by rewrite Hph. unfold wait_step in Hrun. rewrite Hph in Hrun. injection Hrun as <- <-.
    destruct Hfeed as [Hpo Hc Ha Hw].
    eexists _, _, _, _, _, k, fuel. split; [reflexivity|]. rewrite Hph. split; [apply yield_step|]. by split.
  - rewrite shared_step in Hrun by by rewrite Hph. unfold wait_step in Hrun. rewrite Hph in Hrun.
    apply cancel_same in Hrun as [-> ->]. destruct (cancelled_feeds h t ls cs ads wks Hfeed) as [[Hpo Hc Ha Hw] Hno]. rewrite Hno in Hen.
    eexists _, _, _, _, _, k, fuel. split; [reflexivity|]. rewrite Hph. split; [by apply cancel_step_rest|]. by split.
  - eapply test_follows; rewrite ?Hph; done.
  - eapply refused_follows; rewrite ?Hph; done.
Qed.

Lemma run_calls w ls w' : run w ls w' -> w_phase w = WCall -> is_done (w_phase w') = true -> calls_of ls <> [].
Proof.
  intros Hrun. induction Hrun as [|w l w1 ls w2 Hs Hr IH]; intros Hph Hd; [by rewrite Hph in Hd|].
  destruct Hs as [x l w1 _ Hs|w1 Hs].
  - pose proof (step_fits _ _ _ _ _ _ _ _ _ _ _ _ Hs) as Hfit. rewrite Hph in Hfit. destruct x as [n e| | |]; try done.
    by destruct (call_run n e w l w1 Hph Hs) as [-> _].
  - destruct (env_phase _ _ Hs) as [[Hp _]|(t & Hp & _)]; [|congruence]. apply IH; congruence.
Qed.

(** The rest of the call from any phase, along a run that ends. *)
Lemma run_rest w ls w' n :
  run w ls w' -> w_phase w' = WDone n -> forall k fuel h cs ads wks,
  feeds h ls cs ads wks -> timed (w_phase w) -> enough (w_phase w) (length (calls_of ls)) k fuel ->
  errno_ok w h ->
  exists e, rest (w_phase w) k fuel h = Ok n (after h e cs ads wks (acts_of ls))
    /\ (n = -1 -> e = w_errno w').
Proof.
  intros Hrun Hdone. induction Hrun as [w|w l w1 ls w2 Hs Hr IH]; intros k fuel h cs ads wks Hfeed Ht Hen He.
  - exists (hk_errno h). destruct Hfeed as [Hpo Hc Ha Hw]. cbn in Hc, Ha, Hw. rewrite Hdone. split.
    + subst. unfold rest, mreturn. by rewrite after_same.
    + intros Hn. unfold errno_ok in He. rewrite Hdone in He. auto.
  - specialize (IH Hdone). destruct Hs as [x l w1 _ Hs|w1 Hs].
    + destruct (own_follows x l w w1 h ls cs ads wks k fuel Hs Hfeed Ht Hen He)
        as (h1 & e & cs1 & ads1 & wks1 & k1 & fuel1 & -> & Hrest & Hfeed1 & Ht1 & Hen1 & He1).
      { intros Hph1. apply (run_calls _ _ _ Hr Hph1). by rewrite Hdone. }
      destruct (IH _ _ _ _ _ _ Hfeed1 Ht1 Hen1 He1) as (e' & Hres & He').
      exists e'. by rewrite Hrest, Hres, after_after.
    + assert (Hsame : rest (w_phase w1) k fuel = rest (w_phase w) k fuel
        /\ timed (w_phase w1) /\ enough (w_phase w1) (length (calls_of ls)) k fuel /\ errno_ok w1 h).
      { destruct (env_phase _ _ Hs) as [[Hp Hee]|(t & Hp & Hp1)].
        - rewrite Hp. split_and!; try done. unfold errno_ok in *. rewrite Hp.
          destruct Hee as [->|(t & Hp')]; [done|by rewrite Hp'].
        - unfold errno_ok. rewrite Hp1. rewrite Hp in Ht, Hen. by rewrite Hp. }
      destruct Hsame as (Hrest & Ht1 & Hen1 & He1).
      assert (Hfeed1 : feeds h ls cs ads wks) by (destruct Hfeed; by split).
      destruct (IH k fuel h cs ads wks Hfeed1 Ht1 Hen1 He1) as (e & Hres & Heq).
      exists e. split; [|exact Heq]. by rewrite <- Hrest.
Qed.
End refine.

(** [connect_blocked] is what is left of the call before it is made. *)
Lemma connect_blocked_rest {K : Type} `{Kernel K} rfd to so k fuel (h : Hook K) :
  connect_blocked rfd to so h = rest rfd WRITE to (BConnect so) WCall k fuel h.
Proof.
  unfold connect_blocked, rest, after_call, wait_rest, after_add, after_refusal, after_wake, cancel_log.
  apply bind_ext. intros n h1. apply bind_ext. intros e h2. destruct (n =? 0); [done|]. destruct (_ || _); [done|].
  apply bind_ext. intros u0 h0. apply bind_ext. intros u h3. apply bind_ext. intros rt h4. destruct (rt =? 0); cbn [negb]; rewrite bind_bind; [|done].
  apply bind_ext. intros c h5. by rewrite bind_bind.
Qed.

(** The call in one piece. *)
Definition whole_call {K : Type} `{Kernel K} (call : blocked) (fuel : nat) (rfd event to : Z) : M (Hook K) Z :=
  match call with BIo => do_io_retry fuel rfd event to | BConnect so => connect_blocked rfd to so end.
Lemma whole_rest {K : Type} `{Kernel K} call fuel rfd event to (h : Hook K) :
  (call <> BIo -> event = WRITE) ->
  whole_call call (Datatypes.S fuel) rfd event to h = rest rfd event to call WCall (Datatypes.S fuel) fuel h.
Proof. destruct call as [|so]; intros Hev; [done|]. rewrite Hev by done. apply connect_blocked_rest. Qed.

(** C7: refinement.  A call that blocks on a thread with a poller, however its
    steps interleave with the poller, the timers and the scheduler, is [do_io] or
    [connect]: the steps of a run that returns [n] are exactly the acts of
    [do_io_retry], or of [connect_blocked], over the answers the run got, in their
    order; that returns [n] having used exactly those answers; and whenever [n] is
    -1, [errno] is the same too, after a time-out, a refused registration or a
    failing [getsockopt] as well. *)
Theorem io_wait_refines {S : Type} `{TaskSinkLaws S} {K : Type} `{Kernel K}
    (me rfd event to self tid uid : Z) (name : Func -> option Z) (kid : Z) (call : blocked)
    (w w' : Wait S) ls n (h : Hook K) cs ads wks :
  (call <> BIo -> event = WRITE) -> has_poller h = true ->
  w_phase w = WCall -> w_phase w' = WDone n -> io_run me rfd event to self tid uid name kid call w ls w' ->
  calls h = calls_of ls ++ cs -> adds h = adds_of ls ++ ads -> wakes h = wakes_of ls ++ wks ->
  exists h', whole_call call (Datatypes.S (length (calls h))) rfd event to h = Ok n h'
    /\ trace h' = trace h ++ acts_of rfd event to ls
    /\ calls h' = cs /\ adds h' = ads /\ wakes h' = wks
    /\ (n = -1 -> hk_errno h' = w_errno w').
Proof.
  intros Hev Hpo Hph Hdone Hrun Hc Ha Hw.
  assert (Hlen : (length (calls_of ls) <= length (calls h))%nat) by (rewrite Hc, length_app; lia).
  destruct (run_rest me rfd event to self tid uid name kid call w ls w' n Hrun Hdone
    (Datatypes.S (length (calls h))) (length (calls h)) h cs ads wks) as (e & Hres & He).
  - by split.
  - by rewrite Hph.
  - rewrite Hph. cbn [enough]. lia.
  - unfold errno_ok. by rewrite Hph.
  - eexists. split; [rewrite whole_rest by done; rewrite Hph in Hres; exact Hres|]. by split_and!.
Qed.

(** The call of [moves_twice], over its answers. *)
Definition hook_twice : Hook TableKernel :=
  mkHook true (hk_fds hook_example) 0 (calls_of (labels moves_twice)) (adds_of (labels moves_twice))
    (wakes_of (labels moves_twice)) [] (Some table_example).

(** A connection that is refused with 111, [ECONNREFUSED], after the wait. *)
Definition drive_connect : option (list label * Wait Scheduler) :=
  drive 5 3 WRITE 100 1 1 9 name_example 99 (BConnect (0, 111))
    [MOwn (ACall (-1) EINPROGRESS); MOwn (ANew 7); MOwn (ACtl 0 0); MOwn ANone; MReady WRITE; MResume 0; MOwn ANone;
     MOwn ANone] wait_example.
Definition hook_connecting : Hook TableKernel := mkHook true (hk_fds hook_example) 0 [(-1, EINPROGRESS)] [None] [0] [] (Some table_example).

Lemma io_wait_refines_witness :
  (exists h', do_io_retry 4 3 READ 100 hook_twice = Ok 12 h'
    /\ trace h' = [AFun (-1); ATimer 100; AAdd 3 READ 0; AYield; ACancel;
                   AFun (-1); ATimer 100; AAdd 3 READ 0; AYield; ACancel; AFun 12])
  /\ exists h', connect_blocked 3 100 (0, 111) hook_connecting = Ok (-1) h' /\ hk_errno h' = 111
    /\ trace h' = [AFun (-1); ATimer 100; AAdd 3 WRITE 0; AYield; ACancel].
Proof.
  split.
  - destruct (io_wait_refines 5 3 READ 100 1 1 9 name_example 99 BIo wait_example (driven moves_twice) (labels moves_twice) 12
      hook_twice [] [] [] ltac:(done) eq_refl eq_refl ltac:(vm_compute; reflexivity) (driven_run moves_twice ltac:(vm_compute; reflexivity))
      ltac:(vm_compute; reflexivity) ltac:(vm_compute; reflexivity) ltac:(vm_compute; reflexivity))
      as (h' & Hrun & Htrace & _).
    exists h'. split; [exact Hrun|]. rewrite Htrace. vm_compute. reflexivity.
  - destruct drive_connect as [[ls w]|] eqn:E; [|by vm_compute in E].
    pose proof (drive_run 5 3 WRITE 100 1 1 9 name_example 99 (BConnect (0, 111)) _ _ _ _ E) as Hrun.
    vm_compute in E. injection E as Els Ew.
    destruct (io_wait_refines 5 3 WRITE 100 1 1 9 name_example 99 (BConnect (0, 111)) wait_example w ls (-1)
      hook_connecting [] [] [] ltac:(done) eq_refl eq_refl ltac:(rewrite <- Ew; reflexivity) Hrun
      ltac:(rewrite <- Els; reflexivity) ltac:(rewrite <- Els; reflexivity) ltac:(rewrite <- Els; reflexivity))
      as (h' & Hres & Htrace & _ & _ & _ & Herr).
    exists h'. split; [exact Hres|]. split.
    + rewrite Herr; [rewrite <- Ew; reflexivity|done].
    + rewrite Htrace, <- Els. vm_compute. reflexivity.
Defined.
