(* ===== verification/Sleep.v ===== *)
(** * A sleeping fiber: hooks, timers and scheduler together (src/src/util/hook.cpp)

    [sleep], [usleep] and [nanosleep] as they run: fiber [me] adds a timer of
    [ms] milliseconds whose callback schedules it, and yields.  Between its two
    steps and until it is resumed, a step relation interleaves the idle fiber,
    the callback and whatever the rest of the program does.  Hook has the three
    functions in one piece, with the [ms] of each. *)
From S2P Require Import Prelude.
From S2P Require Import Timer TimerFacts Scheduler EventPoller EventPollerFacts IoWait.

(** Where the fiber is, with the address of its timer. *)
Inductive nap_phase :=
| NCall             (* at [ep->addTimer] *)
| NYield (a : Z)    (* at [yieldToHold] *)
| NHeld (a : Z)     (* in [yieldToHold] *)
| NDone.            (* returned 0 *)
Definition nap_timer (ph : nap_phase) : option Z := match ph with NYield a | NHeld a => Some a | _ => None end.

Section nap.
Context {S : Type} `{TaskSink S}.
(** The fiber, the time, the closure and the names that scheduled callbacks go by. *)
Variables (me ms uid : Z) (name : Func -> option Z) (kid : Z).

Record Nap := mkNap {
  n_ep : EventPoller S;
  n_phase : nap_phase;
  n_now : Z;          (* the clock *)
  n_start : Z         (* when the timer was made, for the statements *)
}.
Definition nap_ep v n := mkNap v (n_phase n) (n_now n) (n_start n).
Definition nap_at v n := mkNap (n_ep n) v (n_now n) (n_start n).
Definition nap_now v n := mkNap (n_ep n) (n_phase n) v (n_start n).
Definition nap_start_at v n := mkNap (n_ep n) (n_phase n) (n_now n) v.
Abbreviation NM := (M Nap).
Definition nap_on_ep {A} (m : M (EventPoller S) A) : NM A := fun n =>
  match m (n_ep n) with
  | Ok a p => Ok a (nap_ep p n)
  | Throw e p => Throw e (nap_ep p n)
  | Abort => Abort | Ub => Ub | Deadlock => Deadlock | NoFuel => NoFuel
  end.

(** One step of the call; [a] is the address [new] returns. *)
Definition nap_step (a : Z) : NM unit := fun n =>
  match n_phase n with
  | NCall =>
      (now <-- gets n_now ;;
       timer <-- nap_on_ep (on_timers (TimerManager_addTimer now a ms (FUser uid) false)) ;;
       modify (nap_start_at now) ;;;
       modify (nap_at (NYield (default a timer)))) n
  | NYield a => modify (nap_at (NHeld a)) n
  | _ => NoFuel
  end.

(** The closure: [ep->schedule(fiber)]. *)
Definition nap_callback : NM unit :=
  modify (fun n => nap_ep (EventPoller.set_scheduler (sink_schedule (WFiber (Some me)) (ep_scheduler (n_ep n))) (n_ep n)) n).

(** The task at place [i] of the queue is [x]; a thread takes it. *)
Definition nap_task (n : Nap) (i : nat) (x : work) : Prop :=
  exists k, sink_tasks (ep_scheduler (n_ep n)) !! i = Some k /\ task_work k = x.
Definition nap_take (i : nat) (n : Nap) : Nap :=
  nap_ep (EventPoller.set_scheduler (sink_take i (ep_scheduler (n_ep n))) (n_ep n)) n.

(** What the rest of the program may do: it does not register this fiber or its
    closure, and it has no pointer to the timer. *)
Definition nap_foreign_op (o : ep_op) : Prop :=
  match o with PAdd _ cur _ _ _ g => (g = None -> cur.1 <> me) /\ g <> Some kid | _ => True end.
Definition nap_foreign_timer (ph : nap_phase) (o : timer_op) : Prop :=
  match o with OExpired _ _ => False | _ => True end
  /\ added_cb o <> Some (FUser uid) /\ (forall a, nap_timer ph = Some a -> touched o <> Some a).

Inductive nap_next : Nap -> Nap -> Prop :=
| nap_own a n n' : timer_heap (ep_timers (n_ep n)) !! a = None -> nap_step a n = Ok tt n' -> nap_next n n'
(** time passes; the deadline stays within 64 bits *)
| nap_tick n t : n_now n <= t -> (n_phase n = NCall -> t + ms < 2 ^ 64) -> nap_next n (nap_now t n)
(** the idle fiber schedules what is due *)
| nap_expire n probe n' :
    timer_heap (ep_timers (n_ep n)) !! probe = None ->
    nap_on_ep (idle_expired name (n_now n) probe) n = Ok tt n' -> nap_next n n'
(** a thread takes the closure from the queue and runs it *)
| nap_call n i n' : nap_task n i (WCb (Some kid)) -> nap_callback (nap_take i n) = Ok tt n' -> nap_next n n'
(** a thread takes the fiber from the queue and resumes it, and the call returns *)
| nap_resume n a i : n_phase n = NHeld a -> nap_task n i (WFiber (Some me)) -> nap_next n (nap_at NDone (nap_take i n))
(** the rest of the program *)
| nap_poller n o r n' :
    ep_ok (n_ep n) o -> nap_foreign_op o -> nap_on_ep (ep_exec o) n = Ok r n' -> nap_next n n'
| nap_tasks n s' :
    List.filter (own_task me kid) (sink_tasks s') = List.filter (own_task me kid) (sink_tasks (ep_scheduler (n_ep n))) ->
    nap_next n (nap_ep (EventPoller.set_scheduler s' (n_ep n)) n)
| nap_timers n o n' :
    op_ok (ep_timers (n_ep n)) o -> nap_foreign_timer (n_phase n) o ->
    nap_on_ep (on_timers (exec_op o)) n = Ok tt n' -> nap_next n n'.
End nap.
Arguments Nap S : clear implicits.
