(* ===== verification/SleepFacts.v ===== *)
(** * A sleeping fiber: it wakes once, and not early

    The timer, the closure in the queue and the fiber in the queue are one token
    that goes from one to the next: a sleeping fiber always has exactly one of
    them, and it only leaves the timer when the time is over. *)
From S2P Require Import Prelude.
From S2P Require Import Timer TimerFacts StdSet Scheduler EventPoller EventPollerFacts IoWait IoWaitFacts Sleep.

Section nap.
Context {S : Type} `{TS : TaskSink S, TL : !TaskSinkLaws S}.
Variables (me ms uid : Z) (name : Func -> option Z) (kid : Z).
Hypotheses (Hms : 0 <= ms < 2 ^ 64).
(** Only this closure goes by its name. *)
Hypotheses (Hname : name (FUser uid) = Some kid) (Hname_own : forall f, name f = Some kid -> f = FUser uid).
Implicit Types (n : Nap S) (t : TimerManager) (p : EventPoller S).

Abbreviation own := (FUser uid).
Abbreviation next := (nap_next me ms uid name kid).
Abbreviation tasks p := (sink_tasks (ep_scheduler p)).
Abbreviation callbacks p := (queued (q_cb kid) (tasks p)).
Abbreviation wakes p := (queued (q_me me) (tasks p)).

(** ** The token in the timers *)

(** The closure is in no timer; it is in the timer [a] only, due at [deadline]. *)
Definition unarmed t : Prop := forall b x, timer_heap t !! b = Some x -> m_cb x <> own.
Record armed t (a deadline : Z) : Prop := {
  ar_timer : exists x, timer_heap t !! a = Some x /\ m_cb x = own /\ m_recurring x = false /\ m_next x = deadline;
  ar_set : Some a ∈ m_timers t;
  ar_only : forall b x, timer_heap t !! b = Some x -> m_cb x = own -> b = a
}.

Lemma armed_add t now a :
  tm_wf t -> unarmed t -> timer_heap t !! a = None -> 0 <= now -> now + ms < 2 ^ 64 ->
  exists t', TimerManager_addTimer now a ms own false t = Ok (Some a) t' /\ tm_wf t' /\ armed t' a (now + ms).
Proof.
  intros Hwf Hno Ha Hnow Hsmall.
  destruct (addTimer_spec now a ms own false t Hwf Ha eq_refl Hms) as (t' & Hrun & Hwf' & Hh & Hs & _).
  exists t'. split; [done|]. split; [done|]. split.
  - rewrite Hh, lookup_insert_eq. eexists. split; [done|]. split_and!; try done. cbn. by rewrite wrap_id by lia.
  - apply Hs. by left.
  - intros b x Hb Hx. rewrite Hh in Hb. destruct (decide (b = a)) as [|Hne]; [done|].
    rewrite lookup_insert_ne in Hb by congruence. by destruct (Hno b x Hb).
Qed.

(** An operation of the rest of the program moves no token. *)
Lemma foreign_before t t' ph o :
  tm_wf t -> op_ok t o -> nap_foreign_timer uid ph o -> exec_op o t = Ok tt t' -> from_before own t t'.
Proof. intros Hwf Hok (Hx & Hadd & _) Hrun. by eapply exec_op_callbacks. Qed.
Lemma foreign_unarmed t t' ph o :
  tm_wf t -> op_ok t o -> nap_foreign_timer uid ph o -> exec_op o t = Ok tt t' -> unarmed t -> unarmed t'.
Proof.
  intros Hwf Hok Hf Hrun Hno b x Hb Hx.
  destruct (foreign_before t t' ph o Hwf Hok Hf Hrun b x Hb Hx) as (y & Hy & Hcb). by apply (Hno b y).
Qed.
Lemma foreign_armed t t' ph o a d :
  tm_wf t -> op_ok t o -> nap_foreign_timer uid ph o -> nap_timer ph = Some a -> exec_op o t = Ok tt t' ->
  armed t a d -> armed t' a d.
Proof.
  intros Hwf Hok Hf Hph Hrun [Hx Hin Hone]. pose proof Hf as (Hno & _ & Htouch).
  destruct (exec_op_frame t o t' a Hwf Hok Hrun Hno (Htouch a Hph)) as [Hheap Hset]. split.
  - by rewrite Hheap.
  - by apply Hset.
  - intros b x Hb Hcb. destruct (foreign_before t t' ph o Hwf Hok Hf Hrun b x Hb Hcb) as (y & Hy & Hycb). by eapply Hone.
Qed.

(** What expiry does to the token: it stays, or it is handed out once. *)
Lemma handed_out (h : heap) (l : list Ptr) :
  NoDup l -> (forall x, x ∈ l -> cb_at h x = own -> forall y, y ∈ l -> cb_at h y = own -> x = y) ->
  count (q_cb kid) ((fun f => WCb (name f)) <$> (cb_at h <$> l)) = if decide (own ∈ cb_at h <$> l) then 1 else 0.
Proof.
  induction l as [|p l IH]; intros Hnd Hone; [done|]. apply NoDup_cons in Hnd as [Hp Hnd].
  specialize (IH Hnd ltac:(intros x Hx Hxo y Hy Hyo; apply Hone; [by right|done|by right|done])). cbn [fmap list_fmap].
  change (Z.b2z (q_cb kid (WCb (name (cb_at h p)))) + count (q_cb kid) ((fun f => WCb (name f)) <$> (cb_at h <$> l))
    = if decide (own ∈ cb_at h p :: (cb_at h <$> l)) then 1 else 0). rewrite IH.
  assert (Hq : q_cb kid (WCb (name (cb_at h p))) = bool_decide (cb_at h p = own)).
  { cbn. destruct (name (cb_at h p)) as [g|] eqn:E; [|symmetry; apply bool_decide_eq_false; intros E2; congruence].
    destruct (Z.eqb_spec g kid) as [->|Hg]; symmetry; [by apply bool_decide_eq_true, Hname_own|].
    apply bool_decide_eq_false. intros E2. rewrite E2 in E. congruence. }
  rewrite Hq. destruct (decide (cb_at h p = own)) as [Ho|Ho].
  - rewrite bool_decide_true by done. rewrite (decide_False (P := own ∈ cb_at h <$> l)).
    + rewrite decide_True; [done|]. rewrite Ho. left.
    + intros (y & Hy & Hin)%list_elem_of_fmap. apply Hp. rewrite (Hone p (list_elem_of_here _ _) Ho y); [done|by right|done].
  - rewrite bool_decide_false by done. destruct (decide (own ∈ cb_at h <$> l)) as [Hin|Hout].
    + rewrite decide_True; [done|by right].
    + rewrite decide_False; [done|]. by intros [|]%elem_of_cons.
Qed.

Section expiry.
Context t t' (now : Z).
Let h := timer_heap t.
Let expired := filter (fun a => due h now a = true) (m_timers t).
Hypotheses (Hheap : forall a, timer_heap t' !! a = if decide (Some a ∈ expired) then fired now <$> h !! a else h !! a)
  (Hset : forall x, x ∈ m_timers t' <-> x ∈ m_timers t /\ (due h now x = false \/ recurring_at h x = true)).

(** A callback that is armed after the expiry was armed in the same timer before. *)
Lemma expiry_before b x : timer_heap t' !! b = Some x -> m_cb x = own -> exists y, h !! b = Some y /\ m_cb y = own
  /\ (m_recurring y = false -> Some b ∉ expired).
Proof.
  rewrite Hheap. destruct (decide (Some b ∈ expired)) as [Hin|Hout]; [|eauto].
  destruct (h !! b) as [y|]; [|done]. intros [= <-] Hcb. exists y. split; [done|]. unfold fired in Hcb.
  destruct (m_recurring y); by split.
Qed.
Lemma handed_armed : own ∈ cb_at h <$> expired -> exists b x, h !! b = Some x /\ m_cb x = own.
Proof.
  intros (p & Hp & Hin)%list_elem_of_fmap. destruct p as [b|]; [|done]. cbn in Hp.
  destruct (h !! b) as [x|] eqn:Hb; [|done]. by exists b, x.
Qed.

Lemma expire_unarmed : unarmed t -> unarmed t' /\ own ∉ cb_at h <$> expired.
Proof.
  intros Hno. split.
  - intros b x Hb Hx. destruct (expiry_before b x Hb Hx) as (y & Hy & Hcb & _). by apply (Hno b y).
  - intros (b & x & Hb & Hx)%handed_armed. by apply (Hno b x).
Qed.

Lemma expire_armed a d :
  armed t a d -> (d <= now /\ unarmed t' /\ own ∈ cb_at h <$> expired)
                 \/ (now < d /\ armed t' a d /\ own ∉ cb_at h <$> expired).
Proof.
  intros [(x & Hx & Hcb & Hrec & Hnext) Hin Hone].
  assert (Hdue : due h now (Some a) = (d <=? now)).
  { cbn [due]. unfold next_at. unfold h. by rewrite Hx, <- Hnext. }
  assert (Hexp : Some a ∈ expired <-> d <= now).
  { unfold expired. rewrite list_elem_of_filter, Hdue, Z.leb_le. tauto. }
  destruct (Z.leb_spec d now) as [Hle|Hlt].
  - left. split; [done|]. split.
    + intros b y Hb Hy. destruct (expiry_before b y Hb Hy) as (z & Hz & Hzcb & Hout).
      pose proof (Hone b z Hz Hzcb) as ->. unfold h in Hz. rewrite Hx in Hz. injection Hz as <-. by apply Hout, Hexp.
    + apply list_elem_of_fmap. exists (Some a). split; [cbn; unfold h; by rewrite Hx|by apply Hexp].
  - right. split; [done|]. assert (Hout : Some a ∉ expired) by (intros E%Hexp; lia). split.
    + split.
      * exists x. rewrite Hheap, decide_False by done. done.
      * apply Hset. split; [done|]. left. rewrite Hdue. lia.
      * intros b y Hb Hy. destruct (expiry_before b y Hb Hy) as (z & Hz & Hzcb & _). by eapply Hone.
    + intros (p & Hp & Hpin)%list_elem_of_fmap. destruct p as [b|].
      * cbn in Hp. unfold h in Hp. destruct (timer_heap t !! b) as [y|] eqn:Hb; [|done]. cbn in Hp.
        by rewrite (Hone b y Hb) in Hpin.
      * done.
Qed.

Lemma handed_count a d : tm_wf t -> unarmed t \/ armed t a d ->
  count (q_cb kid) ((fun f => WCb (name f)) <$> (cb_at h <$> expired)) = if decide (own ∈ cb_at h <$> expired) then 1 else 0.
Proof.
  intros Hwf Hcase. apply handed_out; [by apply NoDup_filter, (ordered_nodup _ _ (tm_ordered t Hwf))|].
  assert (Hcb : forall x, cb_at h x = own -> exists b y, x = Some b /\ timer_heap t !! b = Some y /\ m_cb y = own).
  { intros [b|] Hb; [|done]. cbn in Hb. unfold h in Hb. destruct (timer_heap t !! b) as [y|] eqn:E; [|done]. by exists b, y. }
  intros x _ (b & y & -> & Hb & Hy)%Hcb z _ (c & w & -> & Hc & Hw)%Hcb.
  destruct Hcase as [Hno|[_ _ Hone]]; [by destruct (Hno b y)|]. by rewrite (Hone b y), (Hone c w).
Qed.
End expiry.

(** ** The invariant *)

(** The token of a sleeping fiber: the timer, or a task once the time is over. *)
Definition token n (a : Z) : Prop :=
  armed (ep_timers (n_ep n)) a (n_start n + ms) /\ callbacks (n_ep n) = 0 /\ wakes (n_ep n) = 0
  \/ unarmed (ep_timers (n_ep n)) /\ callbacks (n_ep n) + wakes (n_ep n) = 1 /\ n_start n + ms <= n_now n.
Definition no_token n : Prop :=
  unarmed (ep_timers (n_ep n)) /\ callbacks (n_ep n) = 0 /\ wakes (n_ep n) = 0.
Definition stage n : Prop :=
  match n_phase n with
  | NCall => no_token n
  | NYield a | NHeld a => token n a
  | NDone => no_token n /\ n_start n + ms <= n_now n
  end.

Record nap_inv n : Prop := {
  ni_ep : ep_inv (n_ep n);
  ni_absent : waiting (q_me me) (m_fdContexts (n_ep n)) = 0 /\ waiting (q_cb kid) (m_fdContexts (n_ep n)) = 0;
  ni_wf : tm_wf (ep_timers (n_ep n));
  ni_clock : 0 <= n_now n /\ (n_phase n = NCall -> n_now n + ms < 2 ^ 64);
  ni_stage : stage n
}.

Lemma nap_on_ep_Ok {A} (m : M (EventPoller S) A) n a p : m (n_ep n) = Ok a p -> nap_on_ep m n = Ok a (nap_ep p n).
Proof. unfold nap_on_ep. by intros ->. Qed.
Lemma nap_on_ep_inv {A} (m : M (EventPoller S) A) n a n' :
  nap_on_ep m n = Ok a n' -> exists p, m (n_ep n) = Ok a p /\ n' = nap_ep p n.
Proof. unfold nap_on_ep. destruct (m (n_ep n)); try done. intros [= <- <-]. eauto. Qed.

(** The token stays where it is. *)
Lemma stage_same n n' :
  n_phase n' = n_phase n -> n_start n' = n_start n -> n_now n <= n_now n' ->
  callbacks (n_ep n') = callbacks (n_ep n) -> wakes (n_ep n') = wakes (n_ep n) ->
  (unarmed (ep_timers (n_ep n)) -> unarmed (ep_timers (n_ep n'))) ->
  (forall a d, nap_timer (n_phase n) = Some a -> armed (ep_timers (n_ep n)) a d -> armed (ep_timers (n_ep n')) a d) ->
  stage n -> stage n'.
Proof.
  intros Hph Hst Hnow Hc Hw Hu Ha. unfold stage, token, no_token. rewrite Hph, Hst, Hc, Hw.
  destruct (n_phase n) as [|a|a|]; cbn in Ha; [tauto| | |intuition lia];
    (intros [(H1 & H2 & H3)|(H1 & H2 & H3)]; [left; auto|right; split; [auto|split; lia]]).
Qed.

(** Only the scheduler changes, and the phase may. *)
Lemma inv_scheduler n s ph :
  nap_inv n -> ph <> NCall -> stage (nap_at ph (nap_ep (EventPoller.set_scheduler s (n_ep n)) n)) ->
  nap_inv (nap_at ph (nap_ep (EventPoller.set_scheduler s (n_ep n)) n)).
Proof.
  intros [He Ha Hw [Hc _] Hs] Hph Hst. split; [by apply (inv_same (n_ep n))|exact Ha|exact Hw|by split|exact Hst].
Qed.

Lemma take_counts q n i x :
  nap_task n i x -> queued q (tasks (n_ep (nap_take i n))) = queued q (tasks (n_ep n)) - Z.b2z (q x).
Proof. intros (k & Hi & <-). cbn. rewrite sink_take_law. by rewrite (queued_take q _ i _ Hi). Qed.
Lemma task_counts q n i x : nap_task n i x -> q x = true -> 0 < queued q (tasks (n_ep n)).
Proof.
  intros Hi Hq. pose proof (take_counts q n i x Hi) as Ht. rewrite Hq in Ht. cbn [Z.b2z] in Ht.
  pose proof (queued_nonneg q (tasks (n_ep (nap_take i n)))). lia.
Qed.
Lemma q_me_fiber : q_me me (WFiber (Some me)) = true.
Proof. apply Z.eqb_refl. Qed.
Lemma q_cb_closure : q_cb kid (WCb (Some kid)) = true.
Proof. apply Z.eqb_refl. Qed.

(** A token in the queue: the time is over, and the phase is between the steps. *)
Lemma queued_token n :
  stage n -> 0 < callbacks (n_ep n) + wakes (n_ep n) ->
  (exists a, n_phase n = NYield a \/ n_phase n = NHeld a) /\ unarmed (ep_timers (n_ep n))
  /\ callbacks (n_ep n) + wakes (n_ep n) = 1 /\ n_start n + ms <= n_now n.
Proof.
  unfold stage, token, no_token. intros Hs Hq.
  destruct (n_phase n) as [|a|a|]; [lia| | |lia]; (destruct Hs as [Hs|Hs]; [lia|]; split; [eauto|done]).
Qed.

(** ** Every step keeps it *)
Abbreviation fresh_at n a := (timer_heap (ep_timers (n_ep n)) !! a = None).

Lemma own_ok n a :
  nap_inv n -> n_phase n = NCall \/ (exists b, n_phase n = NYield b) -> fresh_at n a ->
  exists n', nap_step ms uid a n = Ok tt n' /\ nap_inv n' /\ n_now n' = n_now n
    /\ n_start n' = match n_phase n with NCall => n_now n | _ => n_start n end
    /\ n_phase n' = match n_phase n with NYield b => NHeld b | _ => NYield a end.
Proof.
  intros [He Ha Hw [Hc Hcn] Hs] Hph Hnew. unfold nap_step. destruct Hph as [Hph|[b Hph]]; rewrite Hph.
  - unfold stage in Hs. rewrite Hph in Hs. destruct Hs as (Hu & Hcb & Hwk).
    destruct (armed_add _ (n_now n) a Hw Hu Hnew Hc (Hcn Hph)) as (t' & Hrun & Hwf' & Harm).
    unfold bind at 1, gets at 1. rewrite (bind_Ok _ _ _ _ _ (nap_on_ep_Ok _ _ _ _ (on_timers_Ok _ _ _ _ Hrun))).
    eexists. split; [reflexivity|]. split; [|done]. split; [by apply (inv_same (n_ep n))|exact Ha|exact Hwf'|by split|].
    left. by split_and!.
  - eexists. split; [reflexivity|]. split; [|done]. split; [done|done|done|by split|].
    unfold stage in *. by rewrite Hph in Hs.
Qed.

(** What expiry does to the tokens of a state. *)
Lemma expire_tokens n probe p :
  nap_inv n -> fresh_at n probe -> idle_expired name (n_now n) probe (n_ep n) = Ok tt p ->
  ep_inv p /\ m_fdContexts p = m_fdContexts (n_ep n) /\ tm_wf (ep_timers p) /\ wakes p = wakes (n_ep n)
  /\ (unarmed (ep_timers (n_ep n)) -> unarmed (ep_timers p) /\ callbacks p = callbacks (n_ep n))
  /\ (forall a d, armed (ep_timers (n_ep n)) a d ->
      (d <= n_now n /\ unarmed (ep_timers p) /\ callbacks p = callbacks (n_ep n) + 1)
      \/ (n_now n < d /\ armed (ep_timers p) a d /\ callbacks p = callbacks (n_ep n))).
Proof.
  intros [He _ Hw _ _] Hprobe Hrun.
  destruct (idle_expired_run name (n_now n) probe _ Hw Hprobe) as (t & s & _ & Hrun' & Hwf & Hheap & Hset & Hq).
  rewrite Hrun in Hrun'. injection Hrun' as ->.
  pose proof (expire_unarmed _ t (n_now n) Hheap) as Hun. pose proof (expire_armed _ t (n_now n) Hheap Hset) as Har.
  pose proof (handed_count (ep_timers (n_ep n)) (n_now n)) as Hcount.
  set (cbs := cb_at _ <$> _) in *.
  assert (Qc : forall a d, unarmed (ep_timers (n_ep n)) \/ armed (ep_timers (n_ep n)) a d ->
    queued (q_cb kid) (sink_tasks s) = callbacks (n_ep n) + if decide (own ∈ cbs) then 1 else 0).
  { intros a d Hcase. by rewrite Hq, queued_app, queued_tasks_of, (Hcount a d Hw Hcase). }
  split; [by apply (inv_same (n_ep n))|]. split; [done|]. split; [done|].
  split; [cbn; by rewrite Hq, (expired_queued name (q_me me))|]. split.
  - intros Hu. cbn. rewrite (Qc 0 0 (or_introl Hu)). destruct (Hun Hu) as [Hu' Hout].
    rewrite decide_False by done. split; [done|lia].
  - intros a d Harm. cbn. rewrite (Qc a d (or_intror Harm)).
    destruct (Har a d Harm) as [(Hle & Hu & Hin)|(Hlt & Harm' & Hout)]; [left|right].
    + by rewrite decide_True.
    + rewrite decide_False by done. split; [done|]. split; [done|lia].
Qed.

Lemma expire_step n probe n' :
  nap_inv n -> fresh_at n probe -> nap_on_ep (idle_expired name (n_now n) probe) n = Ok tt n' -> nap_inv n'.
Proof.
  intros Hinv Hprobe (p & Hrun & ->)%nap_on_ep_inv.
  destruct (expire_tokens n probe p Hinv Hprobe Hrun) as (He & Hctx & Hwf & Hwk & Hun & Har).
  destruct Hinv as [_ Ha _ Hc Hs]. split; [done|cbn; by rewrite Hctx|done|exact Hc|].
  assert (Hno : no_token n -> no_token (nap_ep p n)).
  { intros (Hu & H2 & H3). destruct (Hun Hu) as [Hu' Hcb]. unfold no_token. cbn. by rewrite Hwk, Hcb. }
  assert (Htok : forall a, token n a -> token (nap_ep p n) a).
  { unfold token. cbn. rewrite Hwk. intros a [(Harm & H2 & H3)|(Hu & H2 & H3)].
    - destruct (Har a _ Harm) as [(Hle & Hu & ->)|(_ & Harm' & ->)]; [right|left; auto].
      split; [done|]. lia.
    - right. by destruct (Hun Hu) as [Hu' ->]. }
  unfold stage in *. cbn [n_phase nap_ep n_start n_now]. destruct (n_phase n); try tauto; by apply Htok.
Qed.

Lemma poller_op_step n o r n' :
  nap_inv n -> ep_ok (n_ep n) o -> nap_foreign_op me kid o -> nap_on_ep (ep_exec o) n = Ok r n' -> nap_inv n'.
Proof.
  intros [He [Wm Wc] Hw Hc Hs] Hok Hf (p & Hrun & ->)%nap_on_ep_inv.
  destruct (ep_step _ o He Hok) as (p' & Hrun' & Hd). rewrite Hrun in Hrun'. injection Hrun' as _ <-.
  assert (Hadd : forall q, q (WFiber None) = false -> waiting q (m_fdContexts (n_ep n)) = 0 ->
    (forall slf cur rt f ev g, o = PAdd slf cur rt f ev g -> q (work_of (stored slf cur g)) = false) ->
    added q (n_ep n) o = 0).
  { intros q Hq Hwait Hst. destruct o as [slf cur rt f ev g|rt f ev| | |]; cbn [added]; try done.
    - unfold slot_weight. rewrite (Hst slf cur rt f ev g eq_refl). by destruct (rt =? 0).
    - destruct Hok as [Hin Hdir]. unfold slot_weight. destruct (q (work_of _)) eqn:E; [|by destruct (_ && _)].
      destruct (in_table_ctx _ f He Hin) as (Hl & _). pose proof (waiting_slot q Hq _ _ _ ev Hl E). lia. }
  assert (Hkeep : forall q, q (WFiber None) = false -> q (WCb None) = false -> waiting q (m_fdContexts (n_ep n)) = 0 ->
    (forall slf cur rt f ev g, o = PAdd slf cur rt f ev g -> q (work_of (stored slf cur g)) = false) ->
    waiting q (m_fdContexts p) = 0 /\ queued q (tasks p) = queued q (tasks (n_ep n))).
  { intros q Hq1 Hq2 Hwait Hst. pose proof (conserved q Hq1 Hq2 _ o p He Hok Hd) as C.
    rewrite (Hadd q Hq1 Hwait Hst) in C. pose proof (waiting_nonneg q (m_fdContexts p)).
    pose proof (count_nonneg q (snd <$> ep_away (n_ep n) o)).
    rewrite (db_tasks _ _ _ Hd), queued_app in C |- *. pose proof (queued_nonneg q (tasks_of (ep_work (n_ep n) o))). lia. }
  destruct (Hkeep (q_me me) eq_refl eq_refl Wm) as [Wm' Qm].
  { intros slf cur rt f ev g ->. cbn in Hf. destruct Hf as [Hcur _]. destruct g as [g|]; cbn; [done|]. apply Z.eqb_neq. auto. }
  destruct (Hkeep (q_cb kid) eq_refl eq_refl Wc) as [Wc' Qc].
  { intros slf cur rt f ev g ->. cbn in Hf. destruct Hf as [_ Hg]. destruct g as [g|]; cbn; [|done]. apply Z.eqb_neq. congruence. }
  split; [apply Hd|by split|cbn; by rewrite (db_timers _ _ _ Hd)|exact Hc|].
  eapply (stage_same n); try done; cbn; by rewrite (db_timers _ _ _ Hd).
Qed.

(** The closure leaves the queue and the fiber enters it. *)
Lemma callback_counts n i :
  nap_task n i (WCb (Some kid)) ->
  let s := sink_schedule (WFiber (Some me)) (sink_take i (ep_scheduler (n_ep n))) in
  queued (q_cb kid) (sink_tasks s) = callbacks (n_ep n) - 1 /\ queued (q_me me) (sink_tasks s) = wakes (n_ep n) + 1.
Proof.
  intros Hi s. pose proof (take_counts (q_cb kid) n i _ Hi) as Qc.
  pose proof (take_counts (q_me me) n i _ Hi) as Qm.
  rewrite q_cb_closure in Qc. cbn in Qc, Qm. unfold s.
  split; rewrite sink_schedule_law, queued_app, queued_tasks_of by done; cbn; rewrite ?Z.eqb_refl; cbn; lia.
Qed.

Lemma closure_step n i n' :
  nap_inv n -> nap_task n i (WCb (Some kid)) -> nap_callback me (nap_take i n) = Ok tt n' ->
  nap_inv n' /\ wakes (n_ep n') = 1 /\ n_phase n' = n_phase n /\ n_start n' = n_start n /\ n_now n' = n_now n.
Proof.
  intros Hinv Hi Hrun. injection Hrun as <-. destruct (callback_counts n i Hi) as [Qc Qm].
  pose proof (task_counts (q_cb kid) n i _ Hi q_cb_closure) as Hpos.
  pose proof (queued_nonneg (q_me me) (tasks (n_ep n))) as Hnn.
  destruct (queued_token n (ni_stage n Hinv) ltac:(lia)) as ((a & Hph) & Hu & Hone & Hle).
  set (s := sink_schedule _ _) in Qc, Qm. split; [|split; [change (queued (q_me me) (sink_tasks s) = 1); lia|done]].
  apply (inv_scheduler n s (n_phase n) Hinv); [by destruct Hph as [-> | ->]|].
  assert (Ht : forall b, token (nap_ep (EventPoller.set_scheduler s (n_ep n)) n) b).
  { intros b. right. split; [exact Hu|]. split; [cbn; lia|exact Hle]. }
  unfold stage. cbn [n_phase nap_at]. destruct Hph as [-> | ->]; apply Ht.
Qed.

Lemma resume_step n a i :
  nap_inv n -> n_phase n = NHeld a -> nap_task n i (WFiber (Some me)) -> nap_inv (nap_at NDone (nap_take i n)).
Proof.
  intros Hinv Hph Hi. pose proof (take_counts (q_cb kid) n i _ Hi) as Qc.
  pose proof (take_counts (q_me me) n i _ Hi) as Qm.
  pose proof (task_counts (q_me me) n i _ Hi q_me_fiber) as Hpos.
  pose proof (queued_nonneg (q_cb kid) (tasks (n_ep n))) as Hnn.
  destruct (queued_token n (ni_stage n Hinv) ltac:(lia)) as (_ & Hu & Hone & Hle).
  rewrite q_me_fiber in Qm. cbn in Qc, Qm.
  apply (inv_scheduler n (sink_take i (ep_scheduler (n_ep n))) NDone Hinv); [done|].
  split; [|exact Hle]. split; [exact Hu|]. cbn. lia.
Qed.

Lemma next_inv n n' : nap_inv n -> next n n' -> nap_inv n'.
Proof.
  intros Hinv Hnext. destruct Hnext as [a n n' Hnew Hrun|n t Ht Hc|n probe n' Hprobe Hrun|n i n' Hi Hrun|n a i Hph Hi
    |n o r n' Hok Hf Hrun|n s Hs|n o n' Hok Hf Hrun].
  - assert (Hph : n_phase n = NCall \/ exists b, n_phase n = NYield b).
    { unfold nap_step in Hrun. destruct (n_phase n); eauto; done. }
    destruct (own_ok n a Hinv Hph Hnew) as (n2 & Hrun2 & Hinv2 & _). congruence.
  - destruct Hinv as [He Ha Hw [Hn _] Hs]. split; [done|done|done|cbn; split; [lia|done]|].
    eapply (stage_same n); try done.
  - by eapply expire_step.
  - by apply (closure_step n i n').
  - by eapply resume_step.
  - by eapply poller_op_step.
  - assert (Hq : forall q, (forall k : FiberTask, q (task_work k) = true -> own_task me kid k = true) ->
      queued q (sink_tasks s) = queued q (tasks (n_ep n))).
    { intros q Hq. by rewrite <- (queued_filter q (own_task me kid) (sink_tasks s) Hq), Hs, queued_filter. }
    pose proof (Hq _ (q_me_own me kid)) as Qm. pose proof (Hq _ (q_cb_own me kid)) as Qc.
    destruct Hinv as [He Ha Hw Hc Hst]. split; [by apply (inv_same (n_ep n))|done|done|done|].
    eapply (stage_same n); try done.
  - apply nap_on_ep_inv in Hrun as (p & (t & Hrun & ->)%on_timers_inv & ->).
    destruct Hinv as [He Ha Hw Hc Hst]. destruct (exec_op_wf _ o Hw Hok) as (t' & Hrun' & Hwf).
    rewrite Hrun in Hrun'. injection Hrun' as <-. split; [by apply (inv_same (n_ep n))|done|done|done|].
    eapply (stage_same n); try done.
    + cbn. by eapply foreign_unarmed.
    + intros a d Hph. cbn. by eapply foreign_armed.
Qed.

(** ** Before the call *)
Record nap_start n : Prop := {
  ns_phase : n_phase n = NCall;
  ns_clock : 0 <= n_now n /\ n_now n + ms < 2 ^ 64;
  ns_poller : ep_inv (n_ep n) /\ tm_wf (ep_timers (n_ep n));
  ns_absent : waiting (q_me me) (m_fdContexts (n_ep n)) = 0 /\ wakes (n_ep n) = 0
    /\ waiting (q_cb kid) (m_fdContexts (n_ep n)) = 0 /\ callbacks (n_ep n) = 0;
  ns_timers : unarmed (ep_timers (n_ep n))
}.
Lemma nap_start_inv n : nap_start n -> nap_inv n.
Proof.
  intros [Hph [Hn Hc] [He Hw] (Wm & Qm & Wc & Qc) Hu]. split; try done. unfold stage. by rewrite Hph.
Qed.

(** The timer is made when the call begins, and never made again. *)
Definition begun n0 n : Prop := n_phase n = NCall /\ n_now n0 <= n_now n \/ n_phase n <> NCall /\ n_now n0 <= n_start n <= n_now n.
Lemma next_begun n0 n n' : nap_inv n -> begun n0 n -> next n n' -> begun n0 n'.
Proof.
  intros Hinv Hb Hnext. destruct Hnext as [a n n' Hnew Hrun|n t Ht Hc|n probe n' Hprobe Hrun|n i n' Hi Hrun|n a i Hph Hi
    |n o r n' Hok Hf Hrun|n s Hs|n o n' Hok Hf Hrun]; unfold begun in *.
  - assert (Hph : n_phase n = NCall \/ exists b, n_phase n = NYield b).
    { unfold nap_step in Hrun. destruct (n_phase n); eauto; done. }
    destruct (own_ok n a Hinv Hph Hnew) as (n2 & Hrun2 & _ & H1 & H2 & H3).
    assert (n2 = n') as <- by congruence. rewrite H1, H2, H3.
    destruct Hph as [Hph|[b Hph]]; rewrite Hph in Hb |- *; right; (split; [done|]); destruct Hb as [[? ?]|[? ?]]; try done; lia.
  - cbn. destruct Hb as [[? ?]|[? ?]]; [left|right]; (split; [done|lia]).
  - by apply nap_on_ep_inv in Hrun as (p & _ & ->).
  - by destruct (closure_step n i n' Hinv Hi Hrun) as (_ & _ & -> & -> & ->).
  - cbn. rewrite Hph in Hb. destruct Hb as [[? ?]|[_ ?]]; [done|]. by right.
  - by apply nap_on_ep_inv in Hrun as (p & _ & ->).
  - done.
  - by apply nap_on_ep_inv in Hrun as (p & _ & ->).
Qed.

Lemma nap_run_inv n0 n : nap_start n0 -> rtc next n0 n -> nap_inv n /\ begun n0 n.
Proof.
  intros Hstart Hrun. assert (H0 : nap_inv n0 /\ begun n0 n0).
  { split; [by apply nap_start_inv|]. left. split; [apply Hstart|lia]. }
  eapply (rtc_ind_r (fun x => nap_inv x /\ begun n0 x)); [exact H0| |exact Hrun].
  intros x y _ Hn [H1 H2]. split; [by eapply next_inv|by eapply next_begun].
Qed.

(** ** Waking *)

Lemma queued_task q x n :
  (forall y, q y = true -> y = x) -> 0 < queued q (tasks (n_ep n)) -> exists i, nap_task n i x.
Proof. intros Hq (i & k & Hi & Hk)%queued_positive. exists i, k. split; [done|by apply Hq]. Qed.

Abbreviation returned_at t n := (exists n', rtc next n n' /\ n_phase n' = NDone /\ n_now n' = t).

Lemma fiber_returns n a : n_phase n = NHeld a -> 0 < wakes (n_ep n) -> returned_at (n_now n) n.
Proof.
  intros Hph Hq. destruct (queued_task (q_me me) (WFiber (Some me)) n) as [i Hi]; [|done|].
  { intros [[f|]|g]; cbn; try done. by intros ->%Z.eqb_eq. }
  exists (nap_at NDone (nap_take i n)). split; [|done]. by eapply rtc_once, nap_resume.
Qed.

Lemma closure_returns n a : nap_inv n -> n_phase n = NHeld a -> 0 < callbacks (n_ep n) -> returned_at (n_now n) n.
Proof.
  intros Hinv Hph Hq. destruct (queued_task (q_cb kid) (WCb (Some kid)) n) as [i Hi]; [|done|].
  { intros [f|[g|]]; cbn; try done. by intros ->%Z.eqb_eq. }
  destruct (closure_step n i _ Hinv Hi eq_refl) as (_ & Hw & Hph' & _ & Hnow). set (n1 := nap_ep _ _) in *.
  destruct (fiber_returns n1 a) as (n2 & Hrun & Hdone & Ht); [congruence|lia|].
  exists n2. split; [|split; [done|congruence]]. eapply rtc_l; [by apply (nap_call _ _ _ _ _ n i n1)|done].
Qed.

Lemma timer_returns n a d : nap_inv n -> n_phase n = NHeld a -> armed (ep_timers (n_ep n)) a d -> returned_at (Z.max (n_now n) d) n.
Proof.
  intros Hinv Hph Harm. set (now := Z.max (n_now n) d).
  assert (H1 : next n (nap_now now n)) by (apply nap_tick; [lia|congruence]).
  pose proof (next_inv _ _ Hinv H1) as Hinv1. set (n1 := nap_now now n) in *.
  set (probe := fresh (dom (timer_heap (ep_timers (n_ep n))))).
  assert (Hprobe : fresh_at n1 probe) by (apply not_elem_of_dom, is_fresh).
  destruct (idle_expired_run name now probe (n_ep n1) (ni_wf _ Hinv1) Hprobe) as (t & s & _ & Hrun & _).
  destruct (expire_tokens n1 probe _ Hinv1 Hprobe Hrun) as (_ & _ & _ & _ & _ & Har).
  pose proof (nap_on_ep_Ok _ n1 _ _ Hrun) as Hrun'. set (n2 := nap_ep _ n1) in Hrun'.
  pose proof (nap_expire me ms uid name kid n1 probe n2 Hprobe Hrun') as H2.
  destruct (Har a d Harm) as [(_ & _ & Hc)|(Hlt & _)]; [|cbn in Hlt; lia].
  destruct (closure_returns n2 a (next_inv _ _ Hinv1 H2) Hph) as (n3 & Hrun3 & Hdone & Ht).
  { pose proof (queued_nonneg (q_cb kid) (tasks (n_ep n1))). change (n_ep n2) with (EventPoller.set_scheduler s (EventPoller.set_timers t (n_ep n1))). lia. }
  exists n3. split; [|split; [done|exact Ht]]. eapply rtc_l; [exact H1|]. by eapply rtc_l.
Qed.

(** ** Properties *)

(** C11: a sleep is not cut short and leaves nothing behind.  Whatever the rest of
    the program does: the steps of the call never fail; until it returns there is
    exactly one of the timer, the closure in the queue and the fiber in the queue,
    the last two only when the time is over; and when it has returned at least
    [ms] milliseconds have passed and none of the three is left. *)
Theorem sleep_not_early n0 n :
  nap_start n0 -> rtc next n0 n ->
  match n_phase n with
  | NCall => forall a, fresh_at n a -> exists n', nap_step ms uid a n = Ok tt n' /\ n_phase n' = NYield a
  | NYield a => token n a /\ exists n', nap_step ms uid 0 n = Ok tt n' /\ n_phase n' = NHeld a
  | NHeld a => token n a
  | NDone => n_now n0 + ms <= n_now n /\ no_token n
  end.
Proof.
  intros Hstart Hrun. destruct (nap_run_inv n0 n Hstart Hrun) as [Hinv Hb]. pose proof (ni_stage n Hinv) as Hs.
  unfold stage, begun in *. destruct (n_phase n) as [|a|a|] eqn:Hph.
  - intros a Ha. destruct (own_ok n a Hinv) as (n' & Hstep & _ & _ & _ & Hp); [by left|done|].
    exists n'. by rewrite Hp, Hph.
  - split; [done|]. unfold nap_step. rewrite Hph. by eexists.
  - done.
  - destruct Hs as [? ?]. destruct Hb as [[? _]|[_ ?]]; [done|]. split; [lia|done].
Qed.

(** C12: a sleep ends.  From every state in which the fiber sleeps it can return, with
    nothing but the passing of time and turns of the idle fiber and of the
    threads, and at the end of its time unless that is over already. *)
Theorem sleep_ends n0 n a :
  nap_start n0 -> rtc next n0 n -> n_phase n = NHeld a ->
  exists n', rtc next n n' /\ n_phase n' = NDone
    /\ n_now n' = Z.max (n_now n) (n_start n + ms) /\ n_now n0 <= n_start n.
Proof.
  intros Hstart Hrun Hph. destruct (nap_run_inv n0 n Hstart Hrun) as [Hinv Hb]. pose proof (ni_stage n Hinv) as Hs.
  assert (Hsince : n_now n0 <= n_start n) by (destruct Hb as [[? _]|[_ ?]]; [congruence|lia]).
  assert (Hend : returned_at (Z.max (n_now n) (n_start n + ms)) n).
  { unfold stage in Hs. rewrite Hph in Hs. destruct Hs as [(Harm & _)|(_ & Hone & Hle)]; [by eapply timer_returns|].
    rewrite Z.max_l by lia. destruct (Z.eq_dec (wakes (n_ep n)) 0); [eapply closure_returns; [done..|lia]|].
    pose proof (queued_nonneg (q_me me) (tasks (n_ep n))). eapply fiber_returns; [done|lia]. }
  destruct Hend as (n' & ? & ? & ?). by exists n'.
Qed.
End nap.

(** ** Examples *)

(** Fiber 5 sleeps for 100 ms at time 1000. *)
Definition nap_name (f : Func) : option Z := if decide (f = FUser 9) then Some 99 else None.
Definition nap_example : Nap Scheduler := mkNap poller0 NCall 1000 0.
Definition nap_asleep : Nap Scheduler :=
  match nap_step 100 9 7 nap_example with
  | Ok _ n => match nap_step 100 9 0 n with Ok _ n => n | _ => n end
  | _ => nap_example
  end.

Lemma nap_name_only f : nap_name f = Some 99 -> f = FUser 9.
Proof. unfold nap_name. by destruct (decide _). Qed.
Lemma nap_example_start : nap_start 5 100 9 99 nap_example.
Proof.
  split; [done|done| |done|].
  - split; [|exact wf_new_manager]. apply ep_reachable_inv. exact (ep_start _ _ 4 0 0 1).
  - intros b x Hb. change (timer_heap _) with (∅ : heap) in Hb. by rewrite lookup_empty in Hb.
Qed.
Lemma nap_asleep_run : rtc (nap_next 5 100 9 nap_name 99) nap_example nap_asleep.
Proof.
  eapply rtc_l; [by apply (nap_own 5 100 9 nap_name 99 7 nap_example)|].
  eapply rtc_once. by apply (nap_own 5 100 9 nap_name 99 0).
Qed.

Lemma sleep_not_early_witness : n_phase nap_asleep = NHeld 7 /\ token 5 100 9 99 nap_asleep 7.
Proof.
  split; [reflexivity|].
  exact (sleep_not_early 5 100 9 nap_name 99 ltac:(done) eq_refl nap_name_only nap_example nap_asleep
    nap_example_start nap_asleep_run).
Defined.

Lemma sleep_ends_witness :
  exists n, rtc (nap_next 5 100 9 nap_name 99) nap_asleep n /\ n_phase n = NDone /\ n_now n = 1100.
Proof.
  destruct (sleep_ends 5 100 9 nap_name 99 ltac:(done) eq_refl nap_name_only nap_example nap_asleep 7
    nap_example_start nap_asleep_run eq_refl) as (n & Hrun & Hdone & Hnow & _).
  exists n. split; [exact Hrun|]. split; [exact Hdone|]. exact Hnow.
Defined.
