(* ===== verification/Logger.v ===== *)
(** * Logging (src/src/log/logger.h, logger.cpp)

    Levels, events, the pattern parser of [LogFormatter], the appenders, [Logger]
    and [LoggerManager].  Appenders and loggers are shared objects in heaps; what
    an appender writes goes to [out].  [localtime_r] with [strftime] is a
    parameter; whether a file could be opened is part of its appender. *)
From S2P Require Import Prelude.
From S2P Require Import Text.

(** ** Levels *)

(** [LogLevel::Level] *)
Inductive Level := UNKNOW | DEBUG | INFO | WARN | ERROR | FATAL.
Definition level_value (l : Level) : Z :=
  match l with UNKNOW => 0 | DEBUG => 1 | INFO => 2 | WARN => 3 | ERROR => 4 | FATAL => 5 end.
(** [level >= m_level] *)
Definition level_ge (a b : Level) : bool := level_value b <=? level_value a.

Definition LogLevel_ToString (level : Level) : list Z :=
  match level with
  | DEBUG => text "DEBUG"
  | INFO => text "INFO"
  | WARN => text "WARN"
  | ERROR => text "ERROR"
  | FATAL => text "FATAL"
  | UNKNOW => text "UNKNOW"
  end.

(** [#val] of a string literal: its spelling, with the quotes. *)
Definition spelling (s : string) : list Z := 34 :: text s ++ [34].
Definition LogLevel_FromString (str : list Z) : Level :=
  if bool_decide (str = spelling "DEBUG") || bool_decide (str = spelling "debug") then DEBUG
  else if bool_decide (str = spelling "INFO") || bool_decide (str = spelling "info") then INFO
  else if bool_decide (str = spelling "warn") || bool_decide (str = spelling "warn") then WARN
  else if bool_decide (str = spelling "ERROR") || bool_decide (str = spelling "error") then ERROR
  else if bool_decide (str = spelling "FATAL") || bool_decide (str = spelling "fatal") then FATAL
  else UNKNOW.

(** ** Events and format items *)

(** [class LogEvent]; the logger is a pointer, [m_ss] the text streamed into it. *)
Record LogEvent := mkLogEvent {
  m_file : list Z; m_line : Z; m_elapse : Z; m_threadId : Z; m_fiberId : Z; m_time : Z;
  m_threadName : list Z; m_ss : list Z; ev_logger : Z; ev_level : Level
}.

(** The classes derived from [LogFormatter::FormatItem]. *)
Inductive FormatItem :=
| MessageFormatItem | LevelFormatItem | ElapseFormatItem | NameFormatItem | ThreadIdFormatItem
| NewLineFormatItem | DateTimeFormatItem (format : list Z) | FilenameFormatItem | LineFormatItem
| TabFormatItem | FiberIdFormatItem | ThreadNameFormatItem | StringFormatItem (str : list Z).

#[export] Instance FormatItem_eq_dec : EqDecision FormatItem.
Proof. solve_decision. Defined.

(** [DateTimeFormatItem(format)]: an empty format means the default. *)
Definition new_DateTimeFormatItem (format : list Z) : FormatItem :=
  DateTimeFormatItem (if bool_decide (format = []) then text "%Y-%m-%d %H:%M:%S" else format).

(** [os << n] for a signed number *)
Definition dec_signed (n : Z) : list Z := if n <? 0 then text "-" ++ dec (- n) else dec n.

(** [format(os, logger, level, event)] of each item; [name_of] gives the name of
    a logger, [strftime] the text of a time under a format. *)
Definition item_format (strftime : list Z -> Z -> list Z) (name_of : Z -> list Z)
  (level : Level) (event : LogEvent) (i : FormatItem) : list Z :=
  match i with
  | MessageFormatItem => m_ss event
  | LevelFormatItem => LogLevel_ToString level
  | ElapseFormatItem => dec (m_elapse event)
  | NameFormatItem => name_of (ev_logger event)
  | ThreadIdFormatItem => dec (m_threadId event)
  | NewLineFormatItem => [10]
  | DateTimeFormatItem f => strftime f (m_time event)
  | FilenameFormatItem => m_file event
  | LineFormatItem => dec_signed (m_line event)
  | TabFormatItem => [9]
  | FiberIdFormatItem => dec (m_fiberId event)
  | ThreadNameFormatItem => m_threadName event
  | StringFormatItem s => s
  end.

(** ** [LogFormatter] *)

Record LogFormatter := mkLogFormatter { m_pattern : list Z; m_items : list FormatItem; m_error : bool }.

(** [isalpha] in the C locale *)
Definition isalpha (c : Z) : bool := ((65 <=? c) && (c <=? 90)) || ((97 <=? c) && (c <=? 122)).
(** [p.substr(i, n)] within the string *)
Definition substr (p : list Z) (i n : nat) : list Z := slice p i n.

(** The [while(n < m_pattern.size())] loop: [n], [fmt_status], [str] and [fmt]
    when it ends. *)
Fixpoint parse_item (fuel : nat) (p : list Z) (i n : nat) (fmt_status : Z) (fmt_begin : nat)
  (str fmt : list Z) : option (nat * Z * list Z * list Z) :=
  match fuel with
  | O => None
  | S fuel =>
      if (n <? length p)%nat then
        let c := nth n p 0 in
        if (fmt_status =? 0) && (negb (isalpha c) && negb (c =? 123) && negb (c =? 125)) then
          Some (n, fmt_status, substr p (i + 1) (n - i - 1), fmt)
        else if (fmt_status =? 0) && (c =? 123) then
          parse_item fuel p i (n + 1) 1 n (substr p (i + 1) (n - i - 1)) fmt
        else if (fmt_status =? 1) && (c =? 125) then
          Some ((n + 1)%nat, 0, str, substr p (fmt_begin + 1) (n - fmt_begin - 1))
        else
          let n := (n + 1)%nat in
          let str := if (n =? length p)%nat then (if bool_decide (str = []) then drop (i + 1) p else str)
                     else str in
          parse_item fuel p i n fmt_status fmt_begin str fmt
      else Some (n, fmt_status, str, fmt)
  end.

(** The [for] loop over the pattern: the triples in [vec] and the error flag. *)
Abbreviation triple := (list Z * list Z * Z)%type.
Fixpoint parse_loop (fuel : nat) (p : list Z) (i : nat) (nstr : list Z) (vec : list triple) (error : bool)
  : option (list triple * bool) :=
  match fuel with
  | O => None
  | S fuel =>
      if (i <? length p)%nat then
        if negb (nth i p 0 =? 37) then parse_loop fuel p (i + 1) (nstr ++ [nth i p 0]) vec error
        else if (i + 1 <? length p)%nat && (nth (i + 1) p 0 =? 37) then
          parse_loop fuel p (i + 1) (nstr ++ [37]) vec error
        else
          '(n, fmt_status, str, fmt) ← parse_item (S (length p)) p i (i + 1) 0 0 [] [];
          if fmt_status =? 0 then
            let vec := if bool_decide (nstr = []) then vec else vec ++ [(nstr, [], 0)] in
            parse_loop fuel p n [] (vec ++ [(str, fmt, 1)]) error
          else
            parse_loop fuel p (i + 1) nstr (vec ++ [(text "<<pattern_error>>", fmt, 0)]) true
      else Some (if bool_decide (nstr = []) then vec else vec ++ [(nstr, [], 0)], error)
  end.

(** [s_format_items.find(str)] *)
Definition format_item (str fmt : list Z) : option FormatItem :=
  match str with
  | [109] => Some MessageFormatItem       (* m *)
  | [112] => Some LevelFormatItem         (* p *)
  | [114] => Some ElapseFormatItem        (* r *)
  | [99] => Some NameFormatItem           (* c *)
  | [116] => Some ThreadIdFormatItem      (* t *)
  | [110] => Some NewLineFormatItem       (* n *)
  | [100] => Some (new_DateTimeFormatItem fmt)  (* d *)
  | [102] => Some FilenameFormatItem      (* f *)
  | [108] => Some LineFormatItem          (* l *)
  | [84] => Some TabFormatItem            (* T *)
  | [70] => Some FiberIdFormatItem        (* F *)
  | [78] => Some ThreadNameFormatItem     (* N *)
  | _ => None
  end.

(** The last loop of [init]: one item per triple. *)
Definition triple_item (t : triple) : FormatItem * bool :=
  let '(str, fmt, type) := t in
  if type =? 0 then (StringFormatItem str, false) else
  match format_item str fmt with
  | Some it => (it, false)
  | None => (StringFormatItem (text "<<error_format %" ++ str ++ text ">>"), true)
  end.

(** [void init()]: it appends to the items there are. *)
Definition LogFormatter_init : M LogFormatter unit := fun f =>
  let p := m_pattern f in
  match parse_loop (S (length p)) p 0 [] [] false with
  | None => NoFuel
  | Some (vec, error) =>
      Ok tt (mkLogFormatter p (m_items f ++ ((fun t => (triple_item t).1) <$> vec))
               (m_error f || error || existsb (fun t => (triple_item t).2) vec))
  end.

(** [LogFormatter(pattern)] *)
Definition new_LogFormatter (pattern : list Z) : option LogFormatter :=
  match LogFormatter_init (mkLogFormatter pattern [] false) with Ok _ f => Some f | _ => None end.

(** [void reset(const std::string& pattern)] *)
Definition LogFormatter_reset (pattern : list Z) : M LogFormatter unit :=
  modify (fun f => mkLogFormatter pattern (m_items f) (m_error f)) ;;; LogFormatter_init.

Definition DEFAULT_FORMAT : list Z :=
  text "%d{%Y-%m-%d %H:%M:%S} %T%t%T%N%T%F%T[%p]%T[%c]%T%f:%l%T%m%n".

(** [std::string format(logger, level, event)], the two overloads *)
Definition LogFormatter_format (strftime : list Z -> Z -> list Z) (name_of : Z -> list Z)
  (level : Level) (event : LogEvent) (f : LogFormatter) : list Z :=
  m_items f ≫= item_format strftime name_of level event.

(** ** Appenders and loggers *)

(** A file appender has its path and whether [m_filestream.is_open()]. *)
Inductive AppenderKind := StdoutLogAppender | FileLogAppender (filepath : list Z) (is_open : bool).
(** [class LogAppender]: [m_hasFormatter] is [None] until it is first assigned;
    the formatter is a pointer. *)
Record LogAppender := mkAppender {
  ap_kind : AppenderKind; m_hasFormatter : option bool; ap_formatter : option Z; ap_level : Level
}.
Definition new_appender (k : AppenderKind) : LogAppender := mkAppender k None None DEBUG.

Record Logger := mkLogger {
  m_name : list Z; m_level : Level; m_appenders : list Z; lg_formatter : option Z; m_root : option Z
}.

(** All the objects, what was written (appender and text), and [LoggerManager]. *)
Record Logs := mkLogs {
  formatters : gmap Z LogFormatter;
  appenders : gmap Z LogAppender;
  loggers : gmap Z Logger;
  out : list (Z * list Z);
  manager_root : option Z;
  m_loggers : gmap (list Z) Z;
  next_ptr : Z
}.
Definition set_formatters v l := mkLogs v (appenders l) (loggers l) (out l) (manager_root l) (m_loggers l) (next_ptr l).
Definition set_appenders v l := mkLogs (formatters l) v (loggers l) (out l) (manager_root l) (m_loggers l) (next_ptr l).
Definition set_loggers v l := mkLogs (formatters l) (appenders l) v (out l) (manager_root l) (m_loggers l) (next_ptr l).
Definition set_out v l := mkLogs (formatters l) (appenders l) (loggers l) v (manager_root l) (m_loggers l) (next_ptr l).
Definition set_manager r v l := mkLogs (formatters l) (appenders l) (loggers l) (out l) r v (next_ptr l).
Abbreviation LM := (M Logs).

Definition logger_at (p : Z) : LM Logger := fun l => deref (loggers l !! p) l.
Definition appender_at (p : Z) : LM LogAppender := fun l => deref (appenders l !! p) l.
Definition put_logger (p : Z) (g : Logger) : LM unit := modify (fun l => set_loggers (<[p := g]> (loggers l)) l).
Definition put_appender (p : Z) (a : LogAppender) : LM unit :=
  modify (fun l => set_appenders (<[p := a]> (appenders l)) l).
(** The address of a new object. *)
Definition fresh : LM Z := fun l =>
  Ok (next_ptr l) (mkLogs (formatters l) (appenders l) (loggers l) (out l) (manager_root l) (m_loggers l) (next_ptr l + 1)).
Definition set_ap_formatter (f : option Z) (a : LogAppender) : LogAppender :=
  mkAppender (ap_kind a) (m_hasFormatter a) f (ap_level a).

(** [void LogAppender::setFormatter(LogFormatter::Ptr val)] *)
Definition LogAppender_setFormatter (p : Z) (val : option Z) : LM unit :=
  a <-- appender_at p ;;
  put_appender p (mkAppender (ap_kind a) (Some (bool_decide (is_Some val))) val (ap_level a)).

Section logging.
Context (strftime : list Z -> Z -> list Z).

(** [m_formatter->format(stream, logger, level, event)] *)
Definition write_event (p : Z) (f : option Z) (level : Level) (event : LogEvent) : LM unit := fun l =>
  match (f ← f; formatters l !! f) with
  | None => Ub
  | Some f =>
      let name_of g := default [] (m_name <$> loggers l !! g) in
      Ok tt (set_out (out l ++ [(p, LogFormatter_format strftime name_of level event f)]) l)
  end.

(** [log] of the two appenders; [reopen()], which a closed file needs, ends
    without returning a value. *)
Definition LogAppender_log (p : Z) (level : Level) (event : LogEvent) : LM unit :=
  a <-- appender_at p ;;
  match ap_kind a with
  | StdoutLogAppender =>
      if bool_decide (is_Some (ap_formatter a)) && level_ge level (ap_level a)
      then write_event p (ap_formatter a) level event else mreturn tt
  | FileLogAppender _ is_open =>
      if is_open then write_event p (ap_formatter a) level event else ub
  end.

Fixpoint appenders_log (ps : list Z) (level : Level) (event : LogEvent) : LM unit :=
  match ps with
  | [] => mreturn tt
  | p :: ps => LogAppender_log p level event ;;; appenders_log ps level event
  end.

(** [void Logger::log(level, event)]; the roots form a chain that [fuel] bounds. *)
Fixpoint Logger_log (fuel : nat) (p : Z) (level : Level) (event : LogEvent) : LM unit :=
  match fuel with
  | O => nofuel
  | S fuel =>
      g <-- logger_at p ;;
      if level_ge level (m_level g) then
        match m_appenders g with
        | [] => match m_root g with Some r => Logger_log fuel r level event | None => mreturn tt end
        | ps => appenders_log ps level event
        end
      else mreturn tt
  end.

(** [debug], [info], [warn], [error], [fatal] *)
Definition Logger_debug p e := Logger_log 2 p DEBUG e.
Definition Logger_info p e := Logger_log 2 p INFO e.
Definition Logger_warn p e := Logger_log 2 p WARN e.
Definition Logger_error p e := Logger_log 2 p ERROR e.
Definition Logger_fatal p e := Logger_log 2 p FATAL e.

(** *** Events being made *)

(** [LogEvent(logger, level, file, line, ...)] *)
Definition new_LogEvent (logger : Z) (level : Level) (file : list Z) (line elapse thread_id fiber_id time : Z)
    (thread_name : list Z) : LogEvent :=
  mkLogEvent file line elapse thread_id fiber_id time thread_name [] logger level.
(** [m_ss << content] *)
Definition LogEvent_stream (content : list Z) (e : LogEvent) : LogEvent :=
  mkLogEvent (m_file e) (m_line e) (m_elapse e) (m_threadId e) (m_fiberId e) (m_time e) (m_threadName e)
    (m_ss e ++ content) (ev_logger e) (ev_level e).
(** [format(fmt, al)]; [printed] is what [vasprintf] makes of the arguments. *)
Definition LogEvent_format (printed : option (list Z)) (e : LogEvent) : LogEvent :=
  match printed with Some t => LogEvent_stream t e | None => e end.

(** [class LogEventWrap] is its pointer [m_event].  [getSS() << content]; without
    an event the reference is to a stream that is gone. *)
Definition LogEventWrap_stream (content : list Z) (m_event : option LogEvent) : LM (option LogEvent) :=
  match m_event with
  | Some e => mreturn (Some (LogEvent_stream content e))
  | None => ub
  end.
(** [~LogEventWrap()] *)
Definition LogEventWrap_destroy (m_event : option LogEvent) : LM unit :=
  e <-- deref m_event ;; Logger_log 2 (ev_logger e) (ev_level e) e.

(** [STREAM_LOG_LEVEL(logger, level) << content]; [here] gives file, line,
    thread, fiber, time and thread name of the call. *)
Definition stream_log (p : Z) (level : Level) (here : LogEvent) (content : list Z) : LM unit :=
  g <-- logger_at p ;;
  if level_value (m_level g) <=? level_value level then
    w <-- LogEventWrap_stream content (Some (new_LogEvent p level (m_file here) (m_line here) 0
            (m_threadId here) (m_fiberId here) (m_time here) (m_threadName here))) ;;
    LogEventWrap_destroy w
  else mreturn tt.
(** [Log_Debug], [Log_Info], [Log_Warn], [Log_Error], [Log_Fatal] *)
Definition Log_Debug p here content := stream_log p DEBUG here content.
Definition Log_Info p here content := stream_log p INFO here content.
Definition Log_Warn p here content := stream_log p WARN here content.
Definition Log_Error p here content := stream_log p ERROR here content.
Definition Log_Fatal p here content := stream_log p FATAL here content.
End logging.

(** [setLevel], [getFormatter] *)
Definition Logger_setLevel (p : Z) (val : Level) : LM unit :=
  g <-- logger_at p ;;
  put_logger p (mkLogger (m_name g) val (m_appenders g) (lg_formatter g) (m_root g)).
Definition Logger_getFormatter (p : Z) : LM (option Z) := g <-- logger_at p ;; mreturn (lg_formatter g).
Definition put_appenders (p : Z) (ps : list Z) : LM unit :=
  g <-- logger_at p ;;
  put_logger p (mkLogger (m_name g) (m_level g) ps (lg_formatter g) (m_root g)).

(** The loop of [setFormatter]; reading [m_hasFormatter] before it was assigned
    is undefined. *)
Fixpoint give_formatter (ps : list Z) (f : option Z) : LM unit :=
  match ps with
  | [] => mreturn tt
  | p :: ps =>
      a <-- appender_at p ;;
      match m_hasFormatter a with
      | None => ub
      | Some has =>
          (if negb has then put_appender p (set_ap_formatter f a) else mreturn tt) ;;;
          give_formatter ps f
      end
  end.
(** [void Logger::setFormatter(LogFormatter::Ptr val)] *)
Definition Logger_setFormatter (p : Z) (val : option Z) : LM unit :=
  g <-- logger_at p ;;
  put_logger p (mkLogger (m_name g) (m_level g) (m_appenders g) val (m_root g)) ;;;
  give_formatter (m_appenders g) val.

Definition make_formatter (pattern : list Z) : LM Z :=
  f <-- deref (new_LogFormatter pattern) ;;
  p <-- fresh ;;
  modify (fun l => set_formatters (<[p := f]> (formatters l)) l) ;;;
  mreturn p.

(** [void Logger::setFormatter(const std::string& val)] *)
Definition Logger_setFormatter_string (p : Z) (val : list Z) : LM unit :=
  f <-- make_formatter val ;;
  l <-- get ;;
  if default false (m_error <$> formatters l !! f) then mreturn tt
  else Logger_setFormatter p (Some f).

(** [addAppender], [delAppender], [clearAppenders] *)
Definition Logger_addAppender (p a : Z) : LM unit :=
  ap <-- appender_at a ;;
  g <-- logger_at p ;;
  (match ap_formatter ap with
   | None => put_appender a (set_ap_formatter (lg_formatter g) ap)
   | Some _ => mreturn tt
   end) ;;;
  put_appenders p (m_appenders g ++ [a]).
(** [erase] of the first that is equal *)
Fixpoint remove_first (a : Z) (l : list Z) : list Z :=
  match l with
  | [] => []
  | x :: l => if x =? a then l else x :: remove_first a l
  end.
Definition Logger_delAppender (p a : Z) : LM unit :=
  g <-- logger_at p ;; put_appenders p (remove_first a (m_appenders g)).
Definition Logger_clearAppenders (p : Z) : LM unit := put_appenders p [].

(** [Logger(name)] *)
Definition new_Logger (name : list Z) : LM Z :=
  f <-- make_formatter DEFAULT_FORMAT ;;
  p <-- fresh ;;
  put_logger p (mkLogger name DEBUG [] (Some f) None) ;;;
  mreturn p.

(** [LoggerManager()] and [addLogger] *)
Definition new_LoggerManager : LM unit :=
  r <-- new_Logger (text "root") ;;
  a <-- fresh ;;
  put_appender a (new_appender StdoutLogAppender) ;;;
  Logger_addAppender r a ;;;
  modify (fun l => set_manager (Some r) (<[text "root" := r]> (m_loggers l)) l).
Definition LoggerManager_addLogger (name : list Z) : LM Z :=
  l <-- get ;;
  match m_loggers l !! name with
  | Some p => mreturn p
  | None =>
      p <-- new_Logger name ;;
      g <-- logger_at p ;;
      put_logger p (mkLogger (m_name g) (m_level g) (m_appenders g) (lg_formatter g) (manager_root l)) ;;;
      modify (fun l => set_manager (manager_root l) (<[name := p]> (m_loggers l)) l) ;;;
      mreturn p
  end.
Definition no_logs : Logs := mkLogs ∅ ∅ ∅ [] None ∅ 0.
