(* ===== verification/LoggerFacts.v ===== *)
(** * Facts about logging

    The pattern parser against the grammar of patterns, totality of the parser,
    and which appenders an event reaches. *)
From S2P Require Import Prelude.
From S2P Require Import Text Logger.

(** ** Patterns *)

(** A pattern as it is meant: text, and items with or without a format. *)
Inductive seg := Lit (s : list Z) | Item (c : Z) (fmt : option (list Z)).

Definition render_seg (x : seg) : list Z :=
  match x with
  | Lit s => s
  | Item c None => [37; c]
  | Item c (Some f) => 37 :: c :: 123 :: f ++ [125]
  end.
Definition render (l : list seg) : list Z := l ≫= render_seg.

Definition fmt_of (o : option (list Z)) : list Z := default [] o.
Definition seg_item (x : seg) : FormatItem :=
  match x with
  | Lit s => StringFormatItem s
  | Item c o => default (StringFormatItem []) (format_item [c] (fmt_of o))
  end.
Definition seg_triple (x : seg) : triple :=
  match x with Lit s => (s, [], 0) | Item c o => ([c], fmt_of o, 1) end.

(** A character that ends the name of an item. *)
Definition ends_name (c : Z) : bool := negb (isalpha c) && negb (c =? 123) && negb (c =? 125).

(** What may follow: an item without format is not followed by text that would
    go on with its name, and two texts are not adjacent. *)
Definition may_follow (x : seg) (l : list seg) : Prop :=
  match x, l with
  | Lit _, Lit _ :: _ => False
  | Item _ None, Lit s :: _ => exists c s', s = c :: s' /\ ends_name c = true
  | _, _ => True
  end.
Definition seg_ok (x : seg) : Prop :=
  match x with
  | Lit s => s <> [] /\ (37 ∉ s)
  | Item c o => isalpha c = true /\ format_item [c] (fmt_of o) <> None /\ (125 ∉ fmt_of o)
  end.
Fixpoint segs_ok (l : list seg) : Prop :=
  match l with [] => True | x :: l => seg_ok x /\ may_follow x l /\ segs_ok l end.

Lemma isalpha_plain c : isalpha c = true -> c <> 37 /\ c <> 123 /\ c <> 125.
Proof. unfold isalpha. lia. Qed.

(** ** The inner loop *)

Lemma nth_at (pre l : list Z) k : nth (length pre + k) (pre ++ l) 0 = nth k l 0.
Proof. apply app_nth2_plus. Qed.

Lemma nth_here (pre l : list Z) x : nth (length pre) (pre ++ x :: l) 0 = x.
Proof. rewrite <- (Nat.add_0_r (length pre)). apply nth_at. Qed.

Lemma substr_at (pre a l : list Z) i n :
  length pre = i -> length a = n -> substr (pre ++ a ++ l) i n = a.
Proof. intros <- <-. unfold substr, slice. by rewrite drop_app_length, take_app_length. Qed.

(** The format between braces. *)
Lemma parse_item_format fuel pre f rest i fb str fmt :
  (length f < fuel)%nat -> (125 ∉ f) ->
  parse_item fuel (pre ++ f ++ 125 :: rest) i (length pre) 1 fb str fmt =
    Some ((length pre + length f + 1)%nat, 0, str,
          substr (pre ++ f ++ 125 :: rest) (fb + 1) (length pre + length f - fb - 1)).
Proof.
  revert fuel pre. induction f as [|x f IH]; intros [|fuel] pre Hf Hn; try (cbn in Hf; lia);
    cbn [parse_item app length].
  - assert ((length pre <? length (pre ++ 125%Z :: rest))%nat = true) as ->
      by (apply Nat.ltb_lt; rewrite length_app; cbn; lia).
    rewrite nth_here.
    change (1 =? 0) with false. change ((1 =? 1) && (125 =? 125)) with true. cbn [andb].
    by rewrite !Nat.add_0_r.
  - apply not_elem_of_cons in Hn as [Hx Hn].
    assert ((length pre <? length (pre ++ x :: f ++ 125%Z :: rest))%nat = true) as ->
      by (apply Nat.ltb_lt; rewrite length_app; cbn; lia).
    rewrite nth_here.
    change (1 =? 0) with false. rewrite (proj2 (Z.eqb_neq x 125)) by congruence.
    rewrite andb_false_r. cbn [andb].
    assert ((length pre + 1 =? length (pre ++ x :: f ++ 125%Z :: rest))%nat = false) as ->.
    { apply Nat.eqb_neq. rewrite length_app. cbn. rewrite length_app. cbn. lia. }
    replace (pre ++ x :: f ++ 125 :: rest) with ((pre ++ [x]) ++ f ++ 125 :: rest)
      by (by rewrite <- app_assoc).
    replace (length pre + 1)%nat with (length (pre ++ [x])) at 1 by (by rewrite length_app).
    rewrite IH by (done || (cbn in Hf; lia)). rewrite length_app. cbn [length].
    replace (length pre + 1 + length f)%nat with (length pre + S (length f))%nat by lia. done.
Qed.

(** The name of an item, after the percent sign at [length pre]. *)
Lemma parse_item_name fuel pre c rest :
  isalpha c = true ->
  let p := pre ++ 37 :: c :: rest in
  parse_item (S fuel) p (length pre) (length pre + 1) 0 0 [] [] =
    parse_item fuel p (length pre) (length pre + 2) 0 0 (match rest with [] => [c] | _ => [] end) [].
Proof.
  intros Hc p. destruct (isalpha_plain c Hc) as (Hp & Hb & Hb'). cbn [parse_item].
  assert (Hlen : length p = (length pre + 2 + length rest)%nat)
    by (unfold p; rewrite length_app; cbn; lia).
  assert ((length pre + 1 <? length p)%nat = true) as -> by (apply Nat.ltb_lt; lia).
  assert (nth (length pre + 1) p 0 = c) as -> by (apply (nth_at pre)).
  rewrite Hc. cbn [negb andb]. rewrite (proj2 (Z.eqb_neq c 123) Hb).
  change (0 =? 0) with true. change (0 =? 1) with false. cbn [andb].
  replace (length pre + 1 + 1)%nat with (length pre + 2)%nat by lia.
  destruct rest as [|x rest]; cbn [length] in Hlen.
  - assert ((length pre + 2 =? length p)%nat = true) as -> by (apply Nat.eqb_eq; lia).
    replace (drop (length pre + 1) p) with [c]; [done|]. unfold p. rewrite drop_app_ge by lia.
    by replace (length pre + 1 - length pre)%nat with 1%nat by lia.
  - by assert ((length pre + 2 =? length p)%nat = false) as -> by (apply Nat.eqb_neq; lia).
Qed.

Lemma name_at pre c rest : substr (pre ++ 37 :: c :: rest) (length pre + 1) 1 = [c].
Proof.
  change (pre ++ 37 :: c :: rest) with (pre ++ [37] ++ [c] ++ rest).
  rewrite app_assoc. apply substr_at; [by rewrite length_app|done].
Qed.

Lemma parse_item_plain fuel pre c rest :
  isalpha c = true -> match rest with [] => True | x :: _ => ends_name x = true end ->
  parse_item (S (S fuel)) (pre ++ 37 :: c :: rest) (length pre) (length pre + 1) 0 0 [] [] =
    Some ((length pre + 2)%nat, 0, [c], []).
Proof.
  intros Hc Hend. rewrite parse_item_name by done. cbn [parse_item].
  destruct rest as [|x rest].
  - assert ((length pre + 2 <? length (pre ++ [37%Z; c]))%nat = false) as ->; [|done].
    apply Nat.ltb_ge. rewrite length_app. cbn. lia.
  - assert ((length pre + 2 <? length (pre ++ 37%Z :: c :: x :: rest))%nat = true) as ->
      by (apply Nat.ltb_lt; rewrite length_app; cbn; lia).
    rewrite (nth_at pre). cbn [nth]. unfold ends_name in Hend. change (0 =? 0) with true. cbn [andb].
    rewrite Hend. replace (length pre + 2 - length pre - 1)%nat with 1%nat by lia. by rewrite name_at.
Qed.

Lemma parse_item_with_format fuel pre c f rest :
  isalpha c = true -> (125 ∉ f) -> (length f < fuel)%nat ->
  parse_item (S (S fuel)) (pre ++ 37 :: c :: 123 :: f ++ 125 :: rest) (length pre) (length pre + 1) 0 0 [] [] =
    Some ((length pre + 4 + length f)%nat, 0, [c], f).
Proof.
  intros Hc Hf Hfuel. rewrite parse_item_name by done. cbn [parse_item].
  set (p := pre ++ 37 :: c :: 123 :: f ++ 125 :: rest).
  assert ((length pre + 2 <? length p)%nat = true) as ->
    by (apply Nat.ltb_lt; unfold p; rewrite length_app; cbn; lia).
  assert (nth (length pre + 2) p 0 = 123) as -> by (apply (nth_at pre)).
  change (isalpha 123) with false. change (123 =? 123) with true. change (0 =? 0) with true.
  cbn [negb andb]. replace (length pre + 2 - length pre - 1)%nat with 1%nat by lia.
  unfold p at 2. rewrite name_at.
  assert (Hp : p = (pre ++ [37; c; 123]) ++ f ++ 125 :: rest) by (unfold p; by rewrite <- app_assoc).
  assert (Hl : (length pre + 2 + 1)%nat = length (pre ++ [37; c; 123])) by (rewrite length_app; cbn; lia).
  rewrite Hl, Hp, parse_item_format by done. rewrite Hl.
  replace (length (pre ++ [37%Z; c; 123%Z]) + length f - (length pre + 2) - 1)%nat with (length f) by lia.
  rewrite substr_at by done. rewrite <- Hl. do 4 f_equal. lia.
Qed.

(** ** The loop over the pattern *)

(** What is pushed before an item or at the end. *)
Definition flush (nstr : list Z) (vec : list triple) : list triple :=
  if bool_decide (nstr = []) then vec else vec ++ [(nstr, [], 0)].

Lemma flush_nil vec : flush [] vec = vec.
Proof. done. Qed.

Lemma parse_text fuel pre s rest nstr vec err :
  (37 ∉ s) ->
  parse_loop (length s + fuel) (pre ++ s ++ rest) (length pre) nstr vec err =
    parse_loop fuel (pre ++ s ++ rest) (length pre + length s) (nstr ++ s) vec err.
Proof.
  revert pre nstr. induction s as [|x s IH]; intros pre nstr Hs.
  - cbn. by rewrite Nat.add_0_r, app_nil_r.
  - apply not_elem_of_cons in Hs as [Hx Hs]. cbn [length Nat.add parse_loop app].
    assert ((length pre <? length (pre ++ x :: s ++ rest))%nat = true) as ->
      by (apply Nat.ltb_lt; rewrite length_app; cbn; lia).
    rewrite nth_here, (proj2 (Z.eqb_neq x 37)) by congruence. cbn [negb].
    replace (pre ++ x :: s ++ rest) with ((pre ++ [x]) ++ s ++ rest) by (by rewrite <- app_assoc).
    replace (length pre + 1)%nat with (length (pre ++ [x])) by (by rewrite length_app).
    rewrite IH by done. rewrite length_app, <- (app_assoc nstr), <- (app_assoc pre). cbn [length app].
    by replace (length pre + 1 + length s)%nat with (length pre + S (length s))%nat by lia.
Qed.

(** One turn at a percent sign that is followed by a name. *)
Lemma parse_percent fuel pre c rest n str fmt nstr vec err :
  isalpha c = true ->
  let p := pre ++ 37 :: c :: rest in
  parse_item (S (length p)) p (length pre) (length pre + 1) 0 0 [] [] = Some (n, 0, str, fmt) ->
  parse_loop (S fuel) p (length pre) nstr vec err =
    parse_loop fuel p n [] (flush nstr vec ++ [(str, fmt, 1)]) err.
Proof.
  intros Hc p Hitem. destruct (isalpha_plain c Hc) as (Hp & _). cbn [parse_loop].
  assert ((length pre <? length p)%nat = true) as ->
    by (apply Nat.ltb_lt; unfold p; rewrite length_app; cbn; lia).
  assert (nth (length pre) p 0 = 37) as -> by apply nth_here.
  assert (nth (length pre + 1) p 0 = c) as -> by (apply (nth_at pre)).
  rewrite (proj2 (Z.eqb_neq c 37) Hp), andb_false_r. change (negb (37 =? 37)) with false. cbn match.
  rewrite Hitem. done.
Qed.

Lemma parse_segs l : forall fuel pre nstr vec err,
  segs_ok l -> nstr = [] \/ match l with Lit _ :: _ => False | _ => True end ->
  (length (render l) < fuel)%nat ->
  parse_loop fuel (pre ++ render l) (length pre) nstr vec err =
    Some (match l with
          | [] => flush nstr vec
          | _ => flush nstr vec ++ (seg_triple <$> l)
          end, err).
Proof.
  induction l as [|x l IH]; intros fuel pre nstr vec err Hok Hn Hf.
  - destruct fuel as [|fuel]; [cbn in Hf; lia|]. cbn [parse_loop render mbind list_bind].
    rewrite app_nil_r. by rewrite Nat.ltb_irrefl.
  - destruct Hok as (Hx & Hfol & Hl). change (render (x :: l)) with (render_seg x ++ render l) in *.
    destruct x as [s|c o].
    + destruct Hn as [->|[]]. destruct Hx as [Hs H37]. cbn [render_seg] in *.
      rewrite length_app in Hf.
      replace fuel with (length s + (fuel - length s))%nat by lia.
      rewrite parse_text by done. rewrite app_assoc, <- length_app, IH; [|done| |lia].
      * rewrite flush_nil. cbn [app]. unfold flush. rewrite bool_decide_false by done.
        destruct l as [|y l]; [done|]. cbn [fmap list_fmap seg_triple]. by rewrite <- app_assoc.
      * right. destruct l as [|[?|? ?] ?]; done.
    + destruct Hx as (Hc & Hkey & H125). destruct fuel as [|fuel]; [cbn in Hf; lia|].
      assert (Hstep : parse_loop (S fuel) (pre ++ render_seg (Item c o) ++ render l) (length pre) nstr vec err
        = parse_loop fuel (pre ++ render_seg (Item c o) ++ render l)
            (length pre + length (render_seg (Item c o))) [] (flush nstr vec ++ [([c], fmt_of o, 1)]) err).
      { destruct o as [f|]; cbn [fmt_of default from_option id render_seg] in *.
        - replace ((37 :: c :: 123 :: f ++ [125]) ++ render l)
            with (37 :: c :: 123 :: f ++ 125 :: render l) by (cbn; by rewrite <- app_assoc).
          apply parse_percent; [done|].
          assert (Hlen : (2 + length f < length (pre ++ 37%Z :: c :: 123%Z :: f ++ 125%Z :: render l))%nat)
            by (rewrite length_app; cbn; rewrite length_app; cbn; lia).
          destruct (length _) as [|len] eqn:El at 1; [lia|].
          rewrite parse_item_with_format by (done || lia). do 4 f_equal. cbn. rewrite length_app. cbn. lia.
        - apply parse_percent; [done|].
          destruct (length _) as [|len] eqn:El at 1; [rewrite length_app in El; cbn in El; lia|].
          rewrite parse_item_plain; [done|done|].
          destruct l as [|[s|c' o'] l]; [done| |by destruct o'].
          destruct Hfol as (y & s' & -> & Hy). done. }
      rewrite Hstep, app_assoc, <- length_app, IH; [|done|by left|].
      * rewrite flush_nil.
        destruct l as [|y l]; [done|]. cbn [fmap list_fmap seg_triple]. by rewrite <- app_assoc.
      * rewrite length_app in Hf. destruct o; cbn in Hf; lia.
Qed.

(** ** The parser always ends *)

Lemma parse_item_total fuel p i n st fb str fmt :
  (length p - n < fuel)%nat ->
  exists n' st' str' fmt', parse_item fuel p i n st fb str fmt = Some (n', st', str', fmt') /\ (n <= n')%nat.
Proof.
  revert n st fb str fmt. induction fuel as [|fuel IH]; intros n st fb str fmt Hf; [lia|].
  cbn [parse_item]. destruct (Nat.ltb_spec n (length p)); [|eauto 8].
  destruct (_ && _); [eauto 8|]. destruct (_ && _).
  { destruct (IH (n + 1)%nat 1 n (substr p (i + 1) (n - i - 1)) fmt) as (n' & st' & s' & f' & -> & ?);
      [lia|]. exists n', st', s', f'. split; [done|lia]. }
  destruct (_ && _); [do 4 eexists; split; [done|lia]|].
  set (str' := if (n + 1 =? length p)%nat then _ else str).
  destruct (IH (n + 1)%nat st fb str' fmt) as (n' & st' & s' & f' & -> & ?); [lia|].
  exists n', st', s', f'. split; [done|lia].
Qed.

Lemma parse_loop_total fuel p i nstr vec err :
  (length p - i < fuel)%nat -> exists r, parse_loop fuel p i nstr vec err = Some r.
Proof.
  revert i nstr vec err. induction fuel as [|fuel IH]; intros i nstr vec err Hf; [lia|].
  cbn [parse_loop]. destruct (Nat.ltb_spec i (length p)); [|eauto].
  destruct (negb _); [apply IH; lia|]. destruct (_ && _); [apply IH; lia|].
  destruct (parse_item_total (S (length p)) p i (i + 1) 0 0 [] []) as (n & st & s & f & -> & Hn); [lia|].
  cbn [mbind option_bind]. destruct (st =? 0); apply IH; lia.
Qed.

Lemma init_spec p items err :
  exists new e, LogFormatter_init (mkLogFormatter p items err) = Ok tt (mkLogFormatter p (items ++ new) (err || e))
    /\ new_LogFormatter p = Some (mkLogFormatter p new e).
Proof.
  unfold new_LogFormatter, LogFormatter_init. cbn [m_pattern m_items Logger.m_error].
  destruct (parse_loop_total (S (length p)) p 0 [] [] false) as [[vec e] ->]; [lia|].
  eexists _, (e || _). rewrite orb_assoc. by split.
Qed.

(** A text that ends in a doubled percent sign. *)
Lemma doubled_percent s :
  (37 ∉ s) ->
  new_LogFormatter (s ++ [37; 37]) = Some (mkLogFormatter (s ++ [37; 37])
    [StringFormatItem (s ++ [37]); StringFormatItem (text "<<error_format %>>")] true).
Proof.
  intros Hs. unfold new_LogFormatter, LogFormatter_init. cbn [m_pattern].
  set (p := s ++ [37; 37]).
  assert (Hlen : length p = (length s + 2)%nat) by (unfold p; by rewrite length_app).
  pose proof (parse_text 3 [] s [37; 37] [] [] false Hs) as Hrun. cbn [app length Nat.add] in Hrun. fold p in Hrun.
  replace (S (length p)) with (length s + 3)%nat by lia. rewrite Hrun. cbn [parse_loop].
  assert ((length s <? length p)%nat = true) as -> by (apply Nat.ltb_lt; lia).
  assert (nth (length s) p 0 = 37) as -> by apply nth_here.
  assert ((length s + 1 <? length p)%nat = true) as -> by (apply Nat.ltb_lt; lia).
  assert (nth (length s + 1) p 0 = 37) as -> by (apply (nth_at s)).
  change (negb (37 =? 37)) with false. change (37 =? 37) with true. cbn [andb].
  assert ((length s + 1 + 1 <? length p)%nat = false) as -> by (apply Nat.ltb_ge; lia). cbn [andb].
  cbn [parse_item]. assert ((length s + 1 + 1 <? length p)%nat = false) as -> by (apply Nat.ltb_ge; lia).
  cbn [mbind option_bind]. change (0 =? 0) with true. cbn match.
  assert ((length s + 1 + 1 <? length p)%nat = false) as -> by (apply Nat.ltb_ge; lia).
  rewrite (bool_decide_false (s ++ [37] = [])) by (by destruct s). done.
Qed.

(** C39: log patterns.  A pattern made of text and items, where an item without
    format is not followed by text that would continue its name, is parsed to
    exactly these parts; parsing ends on every pattern.  A doubled percent sign
    gives one percent sign and then starts an item with its second half.  [reset]
    appends the items of the new pattern to the old ones. *)
Theorem pattern_parser (l : list seg) (p s : list Z) (f : LogFormatter) :
  (segs_ok l -> new_LogFormatter (render l) = Some (mkLogFormatter (render l) (seg_item <$> l) false))
  /\ (exists g, new_LogFormatter p = Some g /\ m_pattern g = p
       /\ LogFormatter_reset p f = Ok tt (mkLogFormatter p (m_items f ++ m_items g)
                                            (Logger.m_error f || Logger.m_error g)))
  /\ ((37 ∉ s) -> new_LogFormatter (s ++ [37; 37]) = Some (mkLogFormatter (s ++ [37; 37])
       [StringFormatItem (s ++ [37]); StringFormatItem (text "<<error_format %>>")] true)).
Proof.
  split_and!.
  - intros Hok. unfold new_LogFormatter, LogFormatter_init. cbn [m_pattern].
    pose proof (parse_segs l (S (length (render l))) [] [] [] false Hok (or_introl eq_refl) ltac:(lia)) as Hp.
    cbn [app length] in Hp. rewrite Hp. rewrite flush_nil.
    replace (match l with [] => [] | _ => [] ++ (seg_triple <$> l) end) with (seg_triple <$> l) by (by destruct l).
    assert (Hitems : forall x, seg_ok x -> triple_item (seg_triple x) = (seg_item x, false)).
    { intros [t|c o] Hx; [done|]. destruct Hx as (_ & Hkey & _). unfold triple_item. cbn [seg_triple seg_item].
      change (1 =? 0) with false. cbn match. by destruct (format_item [c] (fmt_of o)). }
    assert (Hall : Forall seg_ok l).
    { clear -Hok. induction l as [|x l IH]; constructor; destruct Hok as (? & ? & ?); auto. }
    f_equal. cbn [m_items Logger.m_error app]. f_equal.
    + rewrite <- list_fmap_compose. apply list_fmap_ext. intros i x Hx. cbn.
      by rewrite Hitems by (by eapply Forall_lookup_1).
    + cbn [orb]. clear -Hall Hitems. induction Hall as [|x l Hx Hl IH]; [done|].
      cbn [fmap list_fmap existsb]. by rewrite Hitems.
  - destruct (init_spec p (m_items f) (Logger.m_error f)) as (new & e & Hrun & Hnew).
    exists (mkLogFormatter p new e). split_and!; [done|done|]. unfold LogFormatter_reset, bind, modify. exact Hrun.
  - apply doubled_percent.
Qed.

Lemma pattern_parser_witness :
  new_LogFormatter (text "[%p]%T%d{%H:%M} %m%n") = Some (mkLogFormatter (text "[%p]%T%d{%H:%M} %m%n")
    [StringFormatItem (text "["); LevelFormatItem; StringFormatItem (text "]"); TabFormatItem;
     DateTimeFormatItem (text "%H:%M"); StringFormatItem (text " "); MessageFormatItem; NewLineFormatItem] false).
Proof.
  destruct (pattern_parser [Lit (text "["); Item 112 None; Lit (text "]"); Item 84 None;
    Item 100 (Some (text "%H:%M")); Lit (text " "); Item 109 None; Item 110 None] [] []
    (mkLogFormatter [] [] false)) as [H _].
  assert (Hr : render [Lit (text "["); Item 112 None; Lit (text "]"); Item 84 None;
    Item 100 (Some (text "%H:%M")); Lit (text " "); Item 109 None; Item 110 None]
    = text "[%p]%T%d{%H:%M} %m%n") by (vm_compute; reflexivity).
  rewrite Hr in H. apply H.
  repeat split; try (by apply (bool_decide_unpack _)); try discriminate; by do 2 eexists.
Defined.

(** ** Where an event goes *)

Section dispatch.
Variables (strftime : list Z -> Z -> list Z) (level : Level) (event : LogEvent).
Implicit Types (l : Logs).

(** An appender with a formatter that exists and an open stream; a logger with such appenders whose
    root, if any, is a logger without a root; and all loggers so. *)
Definition formatter_of l (a : Z) : option LogFormatter :=
  ap ← appenders l !! a; f ← ap_formatter ap; formatters l !! f.
Definition opened (k : AppenderKind) : bool :=
  match k with StdoutLogAppender => true | FileLogAppender _ o => o end.
Definition appender_ok l (a : Z) : bool :=
  bool_decide (is_Some (formatter_of l a)) && default false ((fun ap => opened (ap_kind ap)) <$> appenders l !! a).
Definition logger_ok l (g : Logger) : bool :=
  forallb (appender_ok l) (m_appenders g)
  && match m_root g with
     | None => true
     | Some r => match loggers l !! r with
                 | Some gr => negb (bool_decide (is_Some (m_root gr))) && forallb (appender_ok l) (m_appenders gr)
                 | None => false
                 end
     end.
Definition logs_ok l : bool := forallb (fun x => logger_ok l x.2) (map_to_list (loggers l)).

(** Whether an appender writes the event, and what. *)
Definition accepts l (a : Z) : bool :=
  match appenders l !! a with
  | Some ap => match ap_kind ap with StdoutLogAppender => level_ge level (ap_level ap) | _ => true end
  | None => false
  end.
Definition written l (a : Z) : list Z :=
  match formatter_of l a with
  | Some f => LogFormatter_format strftime (fun g => default [] (m_name <$> loggers l !! g)) level event f
  | None => []
  end.

(** The appenders an event at a logger is handed to: its own, or the root's. *)
Definition targets l (p : Z) : list Z :=
  match loggers l !! p with
  | None => []
  | Some g =>
      if negb (level_ge level (m_level g)) then [] else
      match m_appenders g, m_root g with
      | [], Some r =>
          match loggers l !! r with
          | Some gr => if level_ge level (m_level gr) then m_appenders gr else []
          | None => []
          end
      | ps, _ => ps
      end
  end.
(** The state after an event was handed to appenders. *)
Definition delivered l (ps : list Z) : Logs :=
  set_out (out l ++ ((fun a => (a, written l a)) <$> List.filter (accepts l) ps)) l.

Lemma delivered_nil l : delivered l [] = l.
Proof. unfold delivered. cbn. rewrite app_nil_r. by destruct l. Qed.

Lemma appender_log_run l a :
  appender_ok l a = true -> LogAppender_log strftime a level event l = Ok tt (delivered l [a]).
Proof.
  unfold appender_ok. intros [[f Hf]%bool_decide_eq_true Hopen]%andb_true_iff.
  assert (Hwr : written l a = LogFormatter_format strftime
    (fun g => default [] (m_name <$> loggers l !! g)) level event f) by (unfold written; by rewrite Hf).
  unfold formatter_of in Hf. unfold LogAppender_log, bind, appender_at, delivered, accepts.
  cbn [List.filter]. destruct (appenders l !! a) as [ap|]; [|done].
  cbn [mbind option_bind deref] in *. destruct (ap_formatter ap) as [i|]; [|done].
  cbn [mbind option_bind] in Hf.
  assert (Hw : write_event strftime a (Some i) level event l = Ok tt (set_out (out l ++ [(a, written l a)]) l)).
  { unfold write_event. cbn [mbind option_bind]. by rewrite Hf, Hwr. }
  cbn [fmap option_fmap option_map default from_option id] in Hopen.
  destruct (ap_kind ap) as [|path is_open].
  - rewrite bool_decide_true by done. cbn [andb].
    destruct (level_ge level (ap_level ap)); [exact Hw|]. cbn. rewrite app_nil_r. by destruct l.
  - cbn in Hopen. subst is_open. exact Hw.
Qed.

(** Only what was written changes on the way. *)
Lemma appenders_log_from l ps o :
  forallb (appender_ok l) ps = true ->
  appenders_log strftime ps level event (set_out o l) =
    Ok tt (set_out (o ++ ((fun a => (a, written l a)) <$> List.filter (accepts l) ps)) l).
Proof.
  revert o. induction ps as [|a ps IH]; intros o Hall; cbn [appenders_log].
  - cbn. by rewrite app_nil_r.
  - cbn [forallb] in Hall. apply andb_true_iff in Hall as [Ha Hall].
    rewrite (bind_Ok _ _ _ _ _ (appender_log_run (set_out o l) a Ha)).
    unfold delivered. cbn [out set_out List.filter].
    change (accepts (set_out o l) a) with (accepts l a).
    change (set_out ?x (set_out o l)) with (set_out x l). rewrite IH by done.
    destruct (accepts l a); cbn [fmap list_fmap]; [|by rewrite app_nil_r].
    change (written (set_out o l) a) with (written l a). by rewrite <- app_assoc.
Qed.

Lemma appenders_log_run l ps :
  forallb (appender_ok l) ps = true -> appenders_log strftime ps level event l = Ok tt (delivered l ps).
Proof.
  intros Hall. replace l with (set_out (out l) l) at 1 by (by destruct l).
  by apply appenders_log_from.
Qed.

Lemma logs_ok_at l p g : logs_ok l = true -> loggers l !! p = Some g -> logger_ok l g = true.
Proof.
  intros Hok Hp. unfold logs_ok in Hok. rewrite forallb_forall in Hok.
  apply (Hok (p, g)), list_elem_of_In. by apply elem_of_map_to_list.
Qed.

Lemma Logger_log_run l p g :
  logs_ok l = true -> loggers l !! p = Some g ->
  Logger_log strftime 2 p level event l = Ok tt (delivered l (targets l p)).
Proof.
  intros Hok Hp. pose proof (logs_ok_at l p g Hok Hp) as Hg. unfold logger_ok in Hg.
  apply andb_true_iff in Hg as [Hown Hroot]. unfold targets. rewrite Hp. cbn [Logger_log].
  unfold bind at 1, logger_at. rewrite Hp. cbn [deref].
  destruct (level_ge level (m_level g)); cbn [negb]; [|by rewrite delivered_nil].
  destruct (m_appenders g) as [|a ps]; [|by apply appenders_log_run].
  destruct (m_root g) as [r|]; [|by rewrite delivered_nil].
  destruct (loggers l !! r) as [gr|] eqn:Er; [|done]. apply andb_true_iff in Hroot as [Hno Happ].
  unfold bind, logger_at. rewrite Er. cbn [deref].
  destruct (level_ge level (m_level gr)); [|by rewrite delivered_nil].
  destruct (m_appenders gr) as [|b qs] eqn:Ea; [|by apply appenders_log_run].
  destruct (m_root gr); [done|]. by rewrite delivered_nil.
Qed.
End dispatch.

(** The default formatter, computed. *)
Definition default_formatter : LogFormatter :=
  default (mkLogFormatter [] [] false) (new_LogFormatter DEFAULT_FORMAT).

Lemma addLogger_new name l :
  m_loggers l !! name = None ->
  let f := next_ptr l in
  let p := next_ptr l + 1 in
  LoggerManager_addLogger name l = Ok p
    (mkLogs (<[f := default_formatter]> (formatters l)) (appenders l)
       (<[p := mkLogger name DEBUG [] (Some f) (manager_root l)]> (loggers l)) (out l) (manager_root l)
       (<[name := p]> (m_loggers l)) (next_ptr l + 1 + 1)).
Proof.
  intros Hno f p. unfold LoggerManager_addLogger. unfold bind at 1, get. rewrite Hno.
  assert (Hnew : new_Logger name l = Ok p (mkLogs (<[f := default_formatter]> (formatters l)) (appenders l)
    (<[p := mkLogger name DEBUG [] (Some f) None]> (loggers l)) (out l) (manager_root l) (m_loggers l)
    (next_ptr l + 1 + 1))).
  { unfold new_Logger, make_formatter.
    assert (new_LogFormatter DEFAULT_FORMAT = Some default_formatter) as -> by (vm_compute; reflexivity).
    done. }
  rewrite (bind_Ok _ _ _ _ _ Hnew). unfold bind at 1, logger_at at 1. cbn [loggers].
  rewrite lookup_insert_eq. cbn [deref]. unfold put_logger, set_loggers, bind, modify, mreturn.
  cbn [loggers formatters appenders out manager_root m_loggers next_ptr].
  by rewrite insert_insert_eq.
Qed.

(** A log statement delivers what was streamed into it, once, with the level of
    the statement; below the level of its logger it evaluates nothing. *)
Lemma stream_log_spec (strftime : list Z -> Z -> list Z) (l : Logs) (p : Z) (g : Logger) level here content :
  logs_ok l = true -> loggers l !! p = Some g ->
  stream_log strftime p level here content l =
    if level_ge level (m_level g) then
      let event := mkLogEvent (m_file here) (m_line here) 0 (m_threadId here) (m_fiberId here) (m_time here)
                     (m_threadName here) content p level in
      Ok tt (delivered strftime level event l (targets level l p))
    else Ok tt l.
Proof.
  intros Hok Hp. unfold stream_log, bind, logger_at. rewrite Hp. cbn [deref].
  change (level_value (m_level g) <=? level_value level) with (level_ge level (m_level g)).
  destruct (level_ge level (m_level g)); [|done]. by apply (Logger_log_run strftime level _ l p g).
Qed.

(** Note: dispatch.  When every appender has a formatter and an open stream and the roots are
    loggers without a root, [log] hands an event whose level is not below the
    logger's to the logger's appenders in order, each once, and if it has none to
    those of its root, at the root's level; a console appender writes it when the
    level is not below the appender's, a file appender always.  [addLogger]
    returns the logger of a name, making one without appenders at the first
    call, whose events therefore go to the root's appenders. *)
Theorem log_dispatch (strftime : list Z -> Z -> list Z) (l : Logs) (p : Z) (g : Logger)
  (level : Level) (event : LogEvent) (name : list Z) :
  logs_ok l = true -> loggers l !! p = Some g ->
  Logger_log strftime 2 p level event l = Ok tt (delivered strftime level event l (targets level l p))
  /\ (level_ge level (m_level g) = false -> Logger_log strftime 2 p level event l = Ok tt l)
  /\ (forall q, m_loggers l !! name = Some q -> LoggerManager_addLogger name l = Ok q l)
  /\ (m_loggers l !! name = None -> exists q l', LoggerManager_addLogger name l = Ok q l'
       /\ m_loggers l' !! name = Some q /\ LoggerManager_addLogger name l' = Ok q l'
       /\ forall r gr, manager_root l = Some r -> r <> q -> loggers l !! r = Some gr ->
            targets level l' q = if negb (level_ge level DEBUG) then []
                                 else if level_ge level (m_level gr) then m_appenders gr else []).
Proof.
  intros Hok Hp. split_and!.
  - by apply (Logger_log_run strftime level event l p g).
  - intros Hlt. cbn [Logger_log]. unfold bind, logger_at. rewrite Hp. cbn [deref]. by rewrite Hlt.
  - intros q Hq. unfold LoggerManager_addLogger, bind, get. by rewrite Hq.
  - intros Hno. rewrite (addLogger_new name l Hno). do 2 eexists. split; [done|].
    split; [apply lookup_insert_eq|]. split.
    + unfold LoggerManager_addLogger, bind, get. cbn [m_loggers]. by rewrite lookup_insert_eq.
    + intros r gr Hr Hne Hgr. unfold targets. cbn [loggers]. rewrite lookup_insert_eq.
      cbn [m_level m_appenders m_root]. rewrite Hr, lookup_insert_ne by done. rewrite Hgr.
      by destruct (negb _).
Qed.

(** The manager with its root and one more logger. *)
Definition logs_example : Logs :=
  match new_LoggerManager no_logs with
  | Ok _ l => match LoggerManager_addLogger (text "system") l with Ok _ l => l | _ => no_logs end
  | _ => no_logs
  end.
Definition event_example : LogEvent :=
  mkLogEvent (text "a.cpp") 7 0 1 2 0 (text "main") (text "hello") 4 INFO.
Definition no_time (_ : list Z) (_ : Z) : list Z := text "now".

Lemma log_dispatch_witness :
  exists l, Logger_log no_time 2 4 INFO event_example logs_example = Ok tt l
    /\ out l = [(2, text "now 	1	main	2	[INFO]	[system]	a.cpp:7	hello" ++ [10])]
    /\ targets INFO logs_example 4 = [2].
Proof.
  destruct (log_dispatch no_time logs_example 4 (mkLogger (text "system") DEBUG [] (Some 3) (Some 1))
    INFO event_example [] ltac:(by vm_compute) ltac:(by vm_compute)) as [H _].
  eexists. split; [exact H|]. split; by vm_compute.
Defined.
