(* ===== verification/Socket.v ===== *)
(** * Sockets (socket/socket.h, socket.cpp)

    [Socket] objects in a heap, over the hooked system calls and the descriptor
    contexts.  The calls that are not hooked take their answers from scripts:
    [bind] and [listen] from that of the hooked calls, [getsockname] and
    [getpeername] from [names], the removals of a poller from [cancels].  A pointer to an address is the address. *)
From S2P Require Import Prelude.
From S2P Require Import Endian Text.
From S2P Require Import Address.
From S2P Require Import FdManager.
From S2P Require Import Hook.

Definition SOCK_STREAM : Z := 1.
Definition SOCK_DGRAM : Z := 2.
Definition IPPROTO_TCP : Z := 6.
Definition SO_REUSEADDR : Z := 2.
Definition SO_ERROR : Z := 4.
Definition TCP_NODELAY : Z := 1.
Definition SOMAXCONN : Z := 4096.

(** [class Socket] *)
Record Socket := mkSocket {
  m_sock : Z; m_type : Z; m_family : Z; m_protocol : Z; m_Connected : bool;
  m_localAddress : option Address; m_remoteAddress : option Address
}.
Definition set_sock v x := mkSocket v (m_type x) (m_family x) (m_protocol x) (m_Connected x) (m_localAddress x) (m_remoteAddress x).
Definition set_Connected v x := mkSocket (m_sock x) (m_type x) (m_family x) (m_protocol x) v (m_localAddress x) (m_remoteAddress x).
Definition set_localAddress v x := mkSocket (m_sock x) (m_type x) (m_family x) (m_protocol x) (m_Connected x) v (m_remoteAddress x).
Definition set_remoteAddress v x := mkSocket (m_sock x) (m_type x) (m_family x) (m_protocol x) (m_Connected x) (m_localAddress x) v.

(** [Socket(int family, int type, int protocol)] *)
Definition new_Socket (family type protocol : Z) : Socket :=
  mkSocket (-1) type family protocol false None None.
Definition isValid (x : Socket) : bool := negb (m_sock x =? -1).

(** What is done outside the hooked calls, in order. *)
Inductive sock_act :=
| SOption (fd level option : Z)      (* setsockopt *)
| SGetOption (fd level option : Z)
| SSocket (family type protocol : Z)
| SBind (fd : Z) (addr : list Z)
| SListen (fd backlog : Z)
| SUnlink (path : list Z)
| SCancel (fd event : Z)             (* cancelEvent *)
| SCancelAll (fd : Z).

Section socket.
Context {K : Type} `{Kernel K} `{Target}.

Record Net := mkNet {
  socks : list Socket;
  hook : Hook K;
  names : list (Z * list Z * Z);   (* getsockname, getpeername: result, bytes, addrlen *)
  cancels : list bool;             (* answers of cancelEvent_locked and cancelAll_locked *)
  acts : list sock_act
}.
Definition set_socks v s := mkNet v (hook s) (names s) (cancels s) (acts s).
Definition set_hook v s := mkNet (socks s) v (names s) (cancels s) (acts s).
Definition act_log (a : sock_act) : M Net unit :=
  modify (fun s => mkNet (socks s) (hook s) (names s) (cancels s) (acts s ++ [a])).

Definition this (p : nat) : M Net Socket := fun s => deref (socks s !! p) s.
Definition update (p : nat) (f : Socket -> Socket) : M Net unit :=
  x <-- this p ;; modify (fun s => set_socks (<[p := f x]> (socks s)) s).
(** [new Socket(...)]: its address *)
Definition create (x : Socket) : M Net nat :=
  p <-- gets (fun s => length (socks s)) ;;
  modify (fun s => set_socks (socks s ++ [x]) s) ;;; mreturn p.

(** A call of a hooked function. *)
Definition on_hook {A} (m : M (Hook K) A) : M Net A := fun s =>
  match m (hook s) with
  | Ok a h => Ok a (set_hook h s)
  | Throw e h => Throw e (set_hook h s)
  | Abort => Abort
  | Ub => Ub
  | Deadlock => Deadlock
  | NoFuel => NoFuel
  end.
(** An address in a log message: its text may be undefined. *)
Definition log_address (a : Address) : M Net unit := fun s =>
  match Address_toString a tt with Ok _ _ => Ok tt s | _ => Ub end.

(** ** Creation *)

Definition Socket_CreateTCP (a : Address) : M Net nat := create (new_Socket (getFamily a) SOCK_STREAM 0).
Definition Socket_CreateUDP (a : Address) : M Net nat := create (new_Socket (getFamily a) SOCK_DGRAM 0).
Definition Socket_CreateTCPSocket : M Net nat := create (new_Socket AF_INET SOCK_STREAM 0).
Definition Socket_CreateUDPSocket : M Net nat := create (new_Socket AF_INET SOCK_DGRAM 0).
Definition Socket_CreateTCPSocket6 : M Net nat := create (new_Socket AF_INET6 SOCK_STREAM 0).
Definition Socket_CreateUDPSocket6 : M Net nat := create (new_Socket AF_INET6 SOCK_DGRAM 0).
Definition Socket_CreateUnixTCPSocket : M Net nat := create (new_Socket AF_UNIX SOCK_STREAM 0).
Definition Socket_CreateUnixUDPSocket : M Net nat := create (new_Socket AF_UNIX SOCK_DGRAM 0).

(** ** Time-outs and options *)

Definition get_timeout (p : nat) (type : Z) : M Net Z :=
  x <-- this p ;;
  ctx <-- on_hook (on_fds (FdManager_get (m_sock x) false)) ;;
  match ctx with
  | Some c => c <-- on_hook (on_fds (ctx_at c)) ;; mreturn (i64 (FdCtx_getTimeout type c))
  | None => mreturn (-1)
  end.
Definition set_timeout (p : nat) (type v : Z) : M Net unit :=
  x <-- this p ;;
  ctx <-- on_hook (on_fds (FdManager_get (m_sock x) false)) ;;
  match ctx with
  | Some c => on_hook (on_fds (FdCtx_setTimeout type (u64 v) c))
  | None => mreturn tt
  end.
Definition Socket_getSendTimeout (p : nat) : M Net Z := get_timeout p SO_SNDTIMEO.
Definition Socket_setSendTimeout (p : nat) (v : Z) : M Net unit := set_timeout p SO_SNDTIMEO v.
Definition Socket_getRecvTimeout (p : nat) : M Net Z := get_timeout p SO_RCVTIMEO.
Definition Socket_setRecvTimeout (p : nat) (v : Z) : M Net unit := set_timeout p SO_RCVTIMEO v.

(** [getOption], [setOption]; [tv_sec] and [tv_usec] are those of a [timeval] *)
Definition Socket_getOption (p : nat) (level option : Z) : M Net bool :=
  x <-- this p ;;
  act_log (SGetOption (m_sock x) level option) ;;;
  r <-- on_hook hook_getsockopt ;; mreturn (r =? 0).
Definition Socket_setOption (p : nat) (level option tv_sec tv_usec : Z) : M Net bool :=
  x <-- this p ;;
  act_log (SOption (m_sock x) level option) ;;;
  r <-- on_hook (hook_setsockopt (m_sock x) level option tv_sec tv_usec) ;; mreturn (r =? 0).

Definition Socket_initSock (p : nat) : M Net unit :=
  x <-- this p ;;
  Socket_setOption p SOL_SOCKET SO_REUSEADDR 0 0 ;;;
  if m_type x =? SOCK_STREAM then Socket_setOption p IPPROTO_TCP TCP_NODELAY 0 0 ;;; mreturn tt
  else mreturn tt.
Definition Socket_newSock (p : nat) : M Net unit :=
  x <-- this p ;;
  act_log (SSocket (m_family x) (m_type x) (m_protocol x)) ;;;
  fd <-- on_hook hook_socket ;;
  update p (set_sock fd) ;;;
  if fd =? -1 then Socket_initSock p else mreturn tt.

(** ** Addresses *)

(** The default object of the class that a family has. *)
Definition fresh_address (family : Z) : Address :=
  if family =? AF_INET then IPv4Address (new_IPv4Address 0 0)
  else if family =? AF_INET6 then IPv6Address new_IPv6Address
  else if family =? AF_UNIX then new_UnixAddress
  else new_UnknownAddress family.
(** The object after the kernel has written the bytes over it. *)
Definition as_un (b : list Z) : sockaddr_un := mkUn (obj_value uint16_t (slice b 0 2)) (slice b 2 108).
Definition overwrite (a : Address) (bytes : list Z) : Address :=
  let b := splice (getAddr a) 0 (take (Z.to_nat (getAddrLen a)) bytes) in
  match a with
  | IPv4Address _ => IPv4Address (as_in b)
  | IPv6Address _ => IPv6Address (as_in6 b)
  | UnixAddress _ n => UnixAddress (as_un b) n
  | UnknownAddress _ => UnknownAddress (as_sockaddr b)
  end.
(** [getsockname] or [getpeername] into a fresh object of the family *)
Definition ask_name (family : Z) : M Net (option Address) := fun s =>
  match names s with
  | [] => NoFuel
  | (r, bytes, addrlen) :: l =>
      let result := overwrite (fresh_address family) bytes in
      Ok (if r =? 0 then Some (if family =? AF_UNIX then UnixAddress_setAddrLen addrlen result else result)
          else None)
        (mkNet (socks s) (hook s) l (cancels s) (acts s))
  end.
Definition Socket_getLocalAddress (p : nat) : M Net Address :=
  x <-- this p ;;
  match m_localAddress x with
  | Some a => mreturn a
  | None =>
      result <-- ask_name (m_family x) ;;
      match result with
      | None => mreturn (new_UnknownAddress (m_family x))
      | Some a => update p (set_localAddress (Some a)) ;;; mreturn a
      end
  end.
Definition Socket_getRemoteAddress (p : nat) : M Net Address :=
  x <-- this p ;;
  match m_remoteAddress x with
  | Some a => mreturn a
  | None =>
      result <-- ask_name (m_family x) ;;
      match result with
      | None => mreturn (new_UnknownAddress (m_family x))
      | Some a => update p (set_remoteAddress (Some a)) ;;; mreturn a
      end
  end.

(** ** Life of a connection *)

Definition Socket_close (p : nat) : M Net bool :=
  x <-- this p ;;
  if negb (m_Connected x) && (m_sock x =? -1) then mreturn true else
  update p (set_Connected false) ;;;
  (if negb (m_sock x =? -1) then
     on_hook (hook_close (m_sock x)) ;;;
     update p (set_sock (-1))
   else mreturn tt) ;;;
  mreturn false.
(** [~Socket()] *)
Definition Socket_destroy (p : nat) : M Net unit :=
  Socket_close p ;;;
  x <-- this p ;;
  match m_localAddress x, m_remoteAddress x with
  | Some l, Some r => log_address l ;;; log_address r
  | _, _ => mreturn tt
  end.

(** [init(int sock)] *)
Definition Socket_init (p : nat) (sock : Z) : M Net bool :=
  ctx <-- on_hook (on_fds (FdManager_get sock false)) ;;
  match ctx with
  | None => mreturn false
  | Some c =>
      c <-- on_hook (on_fds (ctx_at c)) ;;
      if m_isSocket c && negb (m_isClosed c) then
        update p (fun x => set_Connected true (set_sock sock x)) ;;;
        Socket_initSock p ;;;
        Socket_getLocalAddress p ;;;
        Socket_getRemoteAddress p ;;;
        mreturn true
      else mreturn false
  end.

(** [accept()]: null when there is no connection or no context for it. *)
Definition Socket_accept (p : nat) : M Net (option nat) :=
  x <-- this p ;;
  sockFd <-- on_hook (hook_accept (m_sock x)) ;;
  if sockFd =? -1 then mreturn None else
  q <-- create (new_Socket (m_family x) (m_type x) (m_protocol x)) ;;
  b <-- Socket_init q sockFd ;;
  if b : bool then mreturn (Some q) else Socket_destroy q ;;; mreturn None.

(** [if(!isValid()) { newSock(); if(!isValid()) return false; }] *)
Definition ensure_valid (p : nat) : M Net bool :=
  x <-- this p ;;
  if isValid x then mreturn true else
  Socket_newSock p ;;; x <-- this p ;; mreturn (isValid x).

(** [connect(address, timeout_ms)]; [so_error] is what [getsockopt(SO_ERROR)]
    says when the connection completes later. *)
Definition Socket_connect (p : nat) (address : Address) (timeout_ms : Z) (so_error : Z * Z) : M Net bool :=
  v <-- ensure_valid p ;;
  if negb v then mreturn false else
  x <-- this p ;;
  if negb (getFamily address =? m_family x) then log_address address ;;; mreturn false else
  update p (set_remoteAddress (Some address)) ;;;
  r <-- on_hook (if timeout_ms =? NO_TIMEOUT then hook_connect (m_sock x) so_error
                 else connect_with_timeout (m_sock x) timeout_ms so_error) ;;
  if negb (r =? 0) then log_address address ;;; Socket_close p ;;; mreturn false else
  update p (set_Connected true) ;;;
  Socket_getLocalAddress p ;;;
  Socket_getRemoteAddress p ;;;
  mreturn true.
Definition Socket_reconnect (p : nat) (timeout_ms : Z) (so_error : Z * Z) : M Net bool :=
  x <-- this p ;;
  match m_remoteAddress x with
  | None => mreturn false
  | Some a => update p (set_localAddress None) ;;; Socket_connect p a timeout_ms so_error
  end.

(** The part of [bind] for Unix addresses: [false] when it returns. *)
Definition bind_unix (m : sockaddr_un) (m_length : Z) (so_error : Z * Z) : M Net bool :=
  q <-- Socket_CreateUnixTCPSocket ;;
  b <-- Socket_connect q (UnixAddress m m_length) NO_TIMEOUT so_error ;;
  (if b : bool then mreturn tt else
     fun s => match UnixAddress_getPath m m_length tt with
              | Ok path _ => act_log (SUnlink path) s
              | _ => Ub
              end) ;;;
  Socket_destroy q ;;;
  mreturn (negb b).
Definition Socket_bind (p : nat) (addr : Address) (so_error : Z * Z) : M Net bool :=
  v <-- ensure_valid p ;;
  if negb v then mreturn false else
  x <-- this p ;;
  if negb (getFamily addr =? m_family x) then log_address addr ;;; mreturn false else
  free <-- (match addr with UnixAddress m n => bind_unix m n so_error | _ => mreturn true end) ;;
  if negb free then mreturn false else
  act_log (SBind (m_sock x) (take (Z.to_nat (getAddrLen addr)) (getAddr addr))) ;;;
  r <-- on_hook fun_f ;;
  if negb (r =? 0) then mreturn false else
  Socket_getLocalAddress p ;;; mreturn true.

Definition Socket_listen (p : nat) (backlog : Z) : M Net bool :=
  x <-- this p ;;
  if negb (isValid x) then mreturn false else
  act_log (SListen (m_sock x) backlog) ;;;
  r <-- on_hook fun_f ;; mreturn (r =? 0).

(** ** Data *)

(** [if(isConnected()) return f(m_sock, ...); return -1;] *)
Definition if_connected (p : nat) (f : io_fun) : M Net Z :=
  x <-- this p ;;
  if m_Connected x then on_hook (hook_io f (m_sock x)) else mreturn (-1).
Definition Socket_send (p : nat) : M Net Z := if_connected p F_send.
Definition Socket_send_iov (p : nat) : M Net Z := if_connected p F_sendmsg.
Definition Socket_sendTo (p : nat) : M Net Z := if_connected p F_sendto.
Definition Socket_sendTo_iov (p : nat) : M Net Z := if_connected p F_sendmsg.
Definition Socket_recv (p : nat) : M Net Z := if_connected p F_recv.
Definition Socket_recv_iov (p : nat) : M Net Z := if_connected p F_recvmsg.
Definition Socket_recvFrom (p : nat) : M Net Z := if_connected p F_recvfrom.
Definition Socket_recvFrom_iov (p : nat) : M Net Z := if_connected p F_recvmsg.

(** ** The rest *)

(** [getError()]; [stored] is the value that [getsockopt] stores. *)
Definition Socket_getError (p : nat) (stored : Z) : M Net Z :=
  ok <-- Socket_getOption p SOL_SOCKET SO_ERROR ;;
  if ok : bool then mreturn stored else gets (fun s => hk_errno (hook s)).

(** A number as [os << n] prints it. *)
Definition int_text (n : Z) : list Z := if n <? 0 then text "-" ++ dec (- n) else dec n.
Definition address_text (a : Address) : M Net (list Z) := fun s =>
  match Address_toString a tt with Ok t _ => Ok t s | _ => Ub end.
Definition Socket_toString (p : nat) : M Net (list Z) :=
  x <-- this p ;;
  l <-- (match m_localAddress x with
         | Some a => t <-- address_text a ;; mreturn (text " local_address=" ++ t) | None => mreturn [] end) ;;
  r <-- (match m_remoteAddress x with
         | Some a => t <-- address_text a ;; mreturn (text " remote_address=" ++ t) | None => mreturn [] end) ;;
  mreturn (text "[Socket sock=" ++ int_text (m_sock x) ++ text " is_connected=" ++ dec (Z.b2z (m_Connected x))
    ++ text " family=" ++ int_text (m_family x) ++ text " type=" ++ int_text (m_type x)
    ++ text " protocol=" ++ int_text (m_protocol x) ++ l ++ r ++ text "]").

(** [EventPoller::getThis()->cancelEvent(m_sock, event)] *)
Definition cancel_answer : M Net bool := fun s =>
  match cancels s with
  | [] => NoFuel
  | b :: l => Ok b (mkNet (socks s) (hook s) (names s) l (acts s))
  end.
Definition cancel_event (p : nat) (a : Z -> sock_act) : M Net bool :=
  x <-- this p ;;
  on_hook poller_f ;;;
  act_log (a (m_sock x)) ;;;
  b <-- cancel_answer ;;
  on_hook (removal_f (m_sock x) b).
Definition Socket_cancelRead (p : nat) : M Net bool := cancel_event p (fun fd => SCancel fd EventPoller.READ).
Definition Socket_cancelWrite (p : nat) : M Net bool := cancel_event p (fun fd => SCancel fd EventPoller.WRITE).
Definition Socket_cancelAccept (p : nat) : M Net bool := cancel_event p (fun fd => SCancel fd EventPoller.READ).
Definition Socket_cancelAll (p : nat) : M Net bool := cancel_event p SCancelAll.
End socket.
Arguments Net K : clear implicits.
