(* ===== verification/SocketFacts.v ===== *)
(** * Facts about sockets

    What each operation does to the socket it is called on and in which order
    it acts; that a connected socket always has a descriptor; the outcomes of
    [connect], [bind] and [accept]. *)
From S2P Require Import Prelude.
From S2P Require Import Endian Text.
From S2P Require Import Address.
From S2P Require Import FdManager.
From S2P Require Import Hook.
From S2P Require Import HookFacts.
From S2P Require Import Socket.

Section socket_facts.
Context {K : Type} `{HK : Kernel K} `{TG : Target}.
Abbreviation Net := (Net K).
Implicit Types (s : Net) (p q : nat) (x y : Socket).

(** ** Effects *)

(** The sockets and the recorded acts after an operation. *)
Definition effect (l : list Socket) (t : list sock_act) s : Prop := socks s = l /\ acts s = t.

Lemma after_this p s : ensures (this p) s (fun x s' => s' = s /\ socks s !! p = Some x).
Proof. intros x s'. unfold this, deref. destruct (socks s !! p); naive_solver. Qed.

Lemma after_update p f s x :
  socks s !! p = Some x -> ensures (update p f) s (fun _ s' => s' = set_socks (<[p := f x]> (socks s)) s).
Proof. intros Hx a s'. unfold update, bind, this, deref. rewrite Hx. by intros [= _ <-]. Qed.

Lemma after_hook {A} (m : M (Hook K) A) s :
  ensures (on_hook m) s (fun a s' => m (hook s) = Ok a (hook s') /\ s' = set_hook (hook s') s).
Proof. intros a s'. unfold on_hook. destruct (m (hook s)); try done. by intros [= <- <-]. Qed.

Lemma after_hook_effect {A} (m : M (Hook K) A) s :
  ensures (on_hook m) s (fun _ s' => effect (socks s) (acts s) s').
Proof. eapply ensures_weaken; [apply after_hook|]. cbn. by intros a s' [_ ->]. Qed.

Lemma after_act a s : ensures (act_log a) s (fun _ s' => effect (socks s) (acts s ++ [a]) s').
Proof. by intros u s' [= _ <-]. Qed.

Lemma after_address a s : ensures (log_address a) s (fun _ s' => s' = s).
Proof. intros u s'. unfold log_address. destruct (Address_toString a tt); try done. by intros [= _ <-]. Qed.

Lemma after_ask family s : ensures (ask_name family) s (fun _ s' => effect (socks s) (acts s) s').
Proof. intros r s'. unfold ask_name. destruct (names s) as [|[[r0 b] n] l]; [done|]. by intros [= _ <-]. Qed.

Lemma after_create x s :
  ensures (create x) s (fun q s' => q = length (socks s) /\ effect (socks s ++ [x]) (acts s) s').
Proof. by intros q s' [= <- <-]. Qed.

(** ** Options *)

(** The options that [initSock] sets. *)
Definition init_options x : list sock_act :=
  SOption (m_sock x) SOL_SOCKET SO_REUSEADDR ::
    (if m_type x =? SOCK_STREAM then [SOption (m_sock x) IPPROTO_TCP TCP_NODELAY] else []).

Lemma after_setOption p level option a b s x :
  socks s !! p = Some x ->
  ensures (Socket_setOption p level option a b) s
    (fun _ s' => effect (socks s) (acts s ++ [SOption (m_sock x) level option]) s').
Proof.
  intros Hx. eapply ensures_bind; [apply after_this|]. cbn. intros y s1 [-> Hy]. simplify_eq.
  eapply ensures_bind; [apply after_act|]. cbn. intros _ s2 [<- <-].
  eapply ensures_bind; [apply after_hook_effect|]. intros r s3 He. by apply ensures_return.
Qed.

Lemma after_initSock p s x :
  socks s !! p = Some x ->
  ensures (Socket_initSock p) s (fun _ s' => effect (socks s) (acts s ++ init_options x) s').
Proof.
  intros Hx. eapply ensures_bind; [apply after_this|]. cbn. intros y s1 [-> Hy]. simplify_eq.
  eapply ensures_bind; [by apply (after_setOption p _ _ _ _ s x)|]. cbn. intros _ s2 [Hs2 Ha2].
  unfold init_options. destruct (m_type x =? SOCK_STREAM); [|by apply ensures_return].
  eapply ensures_bind; [apply (after_setOption p _ _ _ _ s2 x); by rewrite Hs2|]. cbn.
  intros _ s3 [Hs3 Ha3]. apply ensures_return. split; [congruence|]. by rewrite Ha3, Ha2, <- app_assoc.
Qed.

(** [newSock] sets the options only when there is no descriptor. *)
Definition new_acts x fd : list sock_act :=
  SSocket (m_family x) (m_type x) (m_protocol x) ::
    (if fd =? -1 then init_options (set_sock (-1) x) else []).

Lemma after_newSock p s x :
  socks s !! p = Some x ->
  ensures (Socket_newSock p) s (fun _ s' => exists fd,
    effect (<[p := set_sock fd x]> (socks s)) (acts s ++ new_acts x fd) s').
Proof.
  intros Hx. eapply ensures_bind; [apply after_this|]. cbn. intros y s1 [-> Hy]. simplify_eq.
  eapply ensures_bind; [apply after_act|]. cbn. intros _ s2 [Hs2 Ha2].
  eapply ensures_bind; [apply after_hook_effect|]. cbn. intros fd s3 [Hs3 Ha3].
  eapply ensures_bind; [apply (after_update p _ s3 x); by rewrite Hs3, Hs2|]. cbn. intros _ s4 ->.
  unfold new_acts. assert (Hp : (p < length (socks s3))%nat) by (rewrite Hs3, Hs2; by eapply lookup_lt_Some).
  destruct (Z.eqb_spec fd (-1)) as [->|Hne].
  - eapply ensures_weaken; [apply (after_initSock p _ (set_sock (-1) x)); cbn; by apply list_lookup_insert_eq|].
    cbn. intros _ s5 [Hs5 Ha5]. exists (-1). split; [cbn in Hs5; congruence|].
    rewrite Ha5. cbn. rewrite Ha3, Ha2, <- app_assoc. done.
  - apply ensures_return. exists fd. rewrite (proj2 (Z.eqb_neq _ _) Hne). split; cbn; congruence.
Qed.

(** The descriptor that a socket has, or gets. *)
Lemma after_ensure p s x :
  socks s !! p = Some x ->
  ensures (ensure_valid p) s (fun b s' =>
    (isValid x = true /\ b = true /\ s' = s) \/
    (isValid x = false /\ exists fd, b = negb (fd =? -1) /\
      effect (<[p := set_sock fd x]> (socks s)) (acts s ++ new_acts x fd) s')).
Proof.
  intros Hx. eapply ensures_bind; [apply after_this|]. cbn. intros y s1 [-> Hy]. simplify_eq.
  destruct (isValid x) eqn:Hv; [apply ensures_return; by left|].
  eapply ensures_bind; [by apply after_newSock|]. cbn. intros _ s2 (fd & Hs2 & Ha2).
  eapply ensures_bind; [apply after_this|]. cbn. intros y s3 [-> Hy2]. apply ensures_return. right.
  split; [done|]. exists fd. rewrite Hs2, list_lookup_insert_eq in Hy2 by (by eapply lookup_lt_Some).
  simplify_eq. done.
Qed.

(** ** Addresses and closing *)

Definition known_local x (a : Address) : Socket :=
  match m_localAddress x with Some _ => x | None => set_localAddress (Some a) x end.
Definition known_remote x (a : Address) : Socket :=
  match m_remoteAddress x with Some _ => x | None => set_remoteAddress (Some a) x end.

Lemma after_local p s x :
  socks s !! p = Some x ->
  ensures (Socket_getLocalAddress p) s (fun _ s' => exists x',
    effect (<[p := x']> (socks s)) (acts s) s' /\ (x' = x \/ exists a, x' = known_local x a)).
Proof.
  intros Hx. eapply ensures_bind; [apply after_this|]. cbn. intros y s1 [-> Hy]. simplify_eq.
  assert (Hid : <[p := x]> (socks s) = socks s) by by apply list_insert_id.
  unfold known_local. destruct (m_localAddress x) as [a|].
  { apply ensures_return. exists x. rewrite Hid. split; [done|by left]. }
  eapply ensures_bind; [apply after_ask|]. cbn. intros r s2 [Hs2 Ha2]. destruct r as [a|].
  - eapply ensures_bind; [apply (after_update p _ s2 x); by rewrite Hs2|]. cbn. intros _ s3 ->.
    apply ensures_return. eexists. split; [split; cbn; [by rewrite Hs2|done]|]. right. by exists a.
  - apply ensures_return. exists x. rewrite Hid. split; [done|by left].
Qed.
Lemma after_remote p s x :
  socks s !! p = Some x ->
  ensures (Socket_getRemoteAddress p) s (fun _ s' => exists x',
    effect (<[p := x']> (socks s)) (acts s) s' /\ (x' = x \/ exists a, x' = known_remote x a)).
Proof.
  intros Hx. eapply ensures_bind; [apply after_this|]. cbn. intros y s1 [-> Hy]. simplify_eq.
  assert (Hid : <[p := x]> (socks s) = socks s) by by apply list_insert_id.
  unfold known_remote. destruct (m_remoteAddress x) as [a|].
  { apply ensures_return. exists x. rewrite Hid. split; [done|by left]. }
  eapply ensures_bind; [apply after_ask|]. cbn. intros r s2 [Hs2 Ha2]. destruct r as [a|].
  - eapply ensures_bind; [apply (after_update p _ s2 x); by rewrite Hs2|]. cbn. intros _ s3 ->.
    apply ensures_return. eexists. split; [split; cbn; [by rewrite Hs2|done]|]. right. by exists a.
  - apply ensures_return. exists x. rewrite Hid. split; [done|by left].
Qed.

Definition closed x : Socket := set_sock (-1) (set_Connected false x).

Lemma after_close p s x :
  socks s !! p = Some x ->
  ensures (Socket_close p) s (fun b s' =>
    effect (<[p := closed x]> (socks s)) (acts s) s' /\
    b = negb (m_Connected x) && (m_sock x =? -1)).
Proof.
  intros Hx. eapply ensures_bind; [apply after_this|]. cbn. intros y s1 [-> Hy]. simplify_eq.
  pose proof (lookup_lt_Some _ _ _ Hx) as Hp.
  destruct (negb (m_Connected x) && (m_sock x =? -1)) eqn:Hc.
  - apply ensures_return. split; [|done]. apply andb_true_iff in Hc as [Hc Hs].
    assert (closed x = x) as ->.
    { destruct x as [fd t f pr [] lo re]; cbn in *; [done|]. apply Z.eqb_eq in Hs as ->. done. }
    by rewrite list_insert_id.
  - eapply ensures_bind; [by apply (after_update p _ s x)|]. cbn. intros _ s2 ->.
    destruct (Z.eqb_spec (m_sock x) (-1)) as [Hs|Hs]; cbn [negb].
    + eapply ensures_bind; [by apply (ensures_return _ _ (fun _ s' => s' = set_socks (<[p := set_Connected false x]> (socks s)) s))|].
      cbn. intros _ s3 ->. apply ensures_return. split; [|done]. unfold closed.
      destruct x as [fd t f pr c lo re]; cbn in *. by subst.
    + eapply ensures_bind; [|intros u s3 H; by apply ensures_return; exact H].
      eapply ensures_bind; [apply after_hook_effect|]. cbn. intros r s4 [Hs4 Ha4].
      eapply ensures_weaken; [apply (after_update p _ s4 (set_Connected false x)); rewrite Hs4; by apply list_lookup_insert_eq|].
      cbn. intros _ s5 ->. split; [|done]. split; cbn; [|done]. by rewrite Hs4, list_insert_insert_eq.
Qed.

Lemma after_destroy p s x :
  socks s !! p = Some x ->
  ensures (Socket_destroy p) s (fun _ s' => effect (<[p := closed x]> (socks s)) (acts s) s').
Proof.
  intros Hx. eapply ensures_bind; [by apply after_close|]. cbn. intros b s1 [[Hs1 Ha1] _].
  eapply ensures_bind; [apply after_this|]. cbn. intros y s2 [-> Hy].
  destruct (m_localAddress y) as [l|]; [|by apply ensures_return].
  destruct (m_remoteAddress y) as [r|]; [|by apply ensures_return].
  eapply ensures_bind; [apply after_address|]. cbn. intros _ s3 ->.
  eapply ensures_weaken; [apply after_address|]. by intros _ s4 ->.
Qed.

(** ** Cancelling and closing a listening socket *)

(** A descriptor in the table of the thread's poller, and no remote address. *)
Definition listener (t : TableLock) x : Prop := 0 <= m_sock x < i32 (tl_size t) /\ m_remoteAddress x = None.
(** There are answers for [k] more sockets, and enough shares of the table lock. *)
Definition supplied (t : TableLock) (k : nat) s : Prop :=
  (exists r, hk_poller (hook s) = Some (mkTableLock (tl_size t) r) /\ 2 * Z.of_nat k <= r) /\
  (k <= length (cancels s))%nat /\ (k <= length (calls (hook s)))%nat.

Lemma removal_run fd b (h : Hook K) t :
  hk_poller h = Some t -> 0 <= fd < i32 (tl_size t) ->
  removal_f fd b h = if tl_readers t <=? 0 then Ub else
    Ok b (mkHook (t_hook_enable h) (hk_fds h) (hk_errno h) (calls h) (adds h) (wakes h) (trace h)
            (Some (mkTableLock (tl_size t) (tl_readers t - 1)))).
Proof.
  intros Ht Hfd. unfold removal_f. rewrite Ht. rewrite (proj2 (Z.leb_gt _ _)) by lia.
  by rewrite (proj2 (Z.ltb_ge _ _)) by lia.
Qed.

Lemma fds_run fd (f : Fds K) :
  0 <= fd -> (exists c, FdManager_get fd false f = Ok c f) /\ (exists f', FdManager_del fd f = Ok tt f').
Proof.
  intros Hfd. unfold FdManager_get, get_shared, FdManager_del, bind, gets, mreturn, modify, data_at, deref.
  rewrite (proj2 (Z.eqb_neq _ _)) by lia. rewrite (proj2 (Z.ltb_ge _ _)) by lia.
  destruct (Z.leb_spec (i32 (Z.of_nat (length (m_datas f)))) fd) as [_|Hlt]; [by eauto|].
  destruct (lookup_lt_is_Some_2 (m_datas f) (Z.to_nat fd)) as [d Hd].
  { pose proof (i32_le (Z.of_nat (length (m_datas f))) ltac:(lia)). lia. }
  rewrite Hd. destruct d; by eauto.
Qed.

(** [close] of a descriptor needs an answer and at most one share. *)
Lemma hook_close_run fd (h : Hook K) t :
  0 <= fd -> hk_poller h = Some t -> 1 <= tl_readers t -> calls h <> [] ->
  exists r h', hook_close fd h = Ok r h' /\ length (calls h') = pred (length (calls h)) /\
    exists r', hk_poller h' = Some (mkTableLock (tl_size t) r') /\ tl_readers t - 1 <= r'.
Proof.
  intros Hfd Ht Hr Hc. destruct (calls h) as [|[r e] cs] eqn:Hcs; [done|].
  destruct (fds_run fd (hk_fds h) Hfd) as [[c Hget] [f' Hdel]].
  unfold hook_close, is_hook_enable, bind, gets, mreturn, on_fds.
  destruct (t_hook_enable h); cbn [negb].
  2: { unfold fun_f. rewrite Hcs. eexists r, _. split; [done|]. split; [done|]. cbn. exists (tl_readers t).
       rewrite Ht. split; [by destruct t|lia]. }
  rewrite Hget. destruct c as [c|].
  2: { unfold fun_f. cbn. rewrite Hcs. eexists r, _. split; [done|]. split; [done|]. cbn. exists (tl_readers t).
       rewrite Ht. split; [by destruct t|lia]. }
  assert (Hid : set_fds (hk_fds h) h = h) by by destruct h. rewrite Hid. unfold has_poller. rewrite Ht.
  unfold log, modify, removal_f. cbn [hk_poller]. rewrite Ht, (proj2 (Z.ltb_ge _ _) Hfd), (proj2 (Z.leb_gt (tl_readers t) 0)) by lia.
  destruct (i32 (tl_size t) <=? fd); cbn [hk_fds]; rewrite Hdel; unfold fun_f; cbn; rewrite Hcs;
    eexists r, _; (split; [done|]; split; [done|]); cbn.
  - exists (tl_readers t). rewrite ?Ht. split; [by destruct t|lia].
  - exists (tl_readers t - 1). split; [done|lia].
Qed.

(** A listening socket: cancelling takes a share of the table lock nobody gave. *)
Lemma cancelAll_run p s x t :
  socks s !! p = Some x -> hk_poller (hook s) = Some t -> 0 <= m_sock x < i32 (tl_size t) -> cancels s <> [] ->
  if tl_readers t <=? 0 then Socket_cancelAll p s = Ub else
  exists b s', Socket_cancelAll p s = Ok b s' /\ socks s' = socks s /\
    length (cancels s') = pred (length (cancels s)) /\ calls (hook s') = calls (hook s) /\
    hk_poller (hook s') = Some (mkTableLock (tl_size t) (tl_readers t - 1)).
Proof.
  intros Hx Ht Hfd Hc. destruct (cancels s) as [|b l] eqn:Hcs; [done|].
  unfold Socket_cancelAll, cancel_event, bind, this, deref. rewrite Hx. cbn -[removal_f Z.leb].
  unfold on_hook, poller_f, has_poller. rewrite Ht. cbn -[removal_f Z.leb]. unfold cancel_answer. cbn -[removal_f Z.leb].
  rewrite Hcs. cbn -[removal_f Z.leb]. rewrite (removal_run _ _ _ t) by done.
  destruct (tl_readers t <=? 0); [done|]. by eexists b, _.
Qed.

Lemma cancel_close_run t k p s x :
  socks s !! p = Some x -> listener t x -> supplied t (S k) s ->
  exists s', (Socket_cancelAll p ;;; Socket_close p ;;; mreturn tt) s = Ok tt s' /\
    socks s' = <[p := closed x]> (socks s) /\ supplied t k s'.
Proof.
  intros Hx [Hfd Hr] ((r & Hp & Hr2) & Hn & Hm).
  pose proof (cancelAll_run p s x _ Hx Hp Hfd) as Hrun. cbn [tl_readers tl_size] in Hrun.
  rewrite (proj2 (Z.leb_gt _ _)) in Hrun by lia.
  destruct Hrun as (b & s1 & Hcancel & Hs1 & Hcs1 & Hcalls1 & Hp1); [by intros E; rewrite E in Hn; cbn in Hn; lia|].
  assert (Hx1 : socks s1 !! p = Some x) by by rewrite Hs1.
  destruct (hook_close_run (m_sock x) (hook s1) _ (proj1 Hfd) Hp1) as (rc & h & Hclose & Hlen & r' & Hp2 & Hr').
  { cbn. lia. } { rewrite Hcalls1. intros E. rewrite E in Hm. cbn in Hm. lia. }
  cbn [tl_readers tl_size] in *.
  assert (Hend : exists s', Socket_close p s1 = Ok false s' /\ hook s' = h /\ cancels s' = cancels s1).
  { unfold Socket_close, bind, this, deref. rewrite Hx1. rewrite (proj2 (Z.eqb_neq _ _)) by lia. rewrite andb_false_r.
    cbn -[hook_close]. unfold update, bind, this, deref. rewrite Hx1. cbn -[hook_close].
    unfold on_hook. cbn -[hook_close]. rewrite Hclose. cbn. rewrite list_lookup_insert_eq by (by eapply lookup_lt_Some).
    by eexists. }
  destruct Hend as (s2 & H2 & Hh & Hc2). exists s2. rewrite (bind_Ok _ _ _ _ _ Hcancel), (bind_Ok _ _ _ _ _ H2).
  split; [done|]. apply (after_close p s1 x Hx1) in H2 as [[Hs2 _] _]. split; [by rewrite Hs2, Hs1|].
  rewrite <- Hh in *. split_and!; [exists r'; split; [done|lia]|rewrite Hc2, Hcs1; lia|rewrite Hlen, Hcalls1; lia].
Qed.

(** The addresses that [init] and [connect] ask for at the end. *)
Definition named x x' : Prop :=
  m_sock x' = m_sock x /\ m_Connected x' = m_Connected x /\ m_type x' = m_type x /\
  m_family x' = m_family x /\
  (m_localAddress x <> None -> m_localAddress x' = m_localAddress x) /\
  (m_remoteAddress x <> None -> m_remoteAddress x' = m_remoteAddress x).

Lemma after_names p s x :
  socks s !! p = Some x ->
  ensures (Socket_getLocalAddress p ;;; Socket_getRemoteAddress p ;;; mreturn true) s
    (fun b s' => b = true /\ exists x', effect (<[p := x']> (socks s)) (acts s) s' /\ named x x').
Proof.
  intros Hx. pose proof (lookup_lt_Some _ _ _ Hx) as Hp.
  eapply ensures_bind; [by apply after_local|]. cbn. intros l s1 (x1 & [Hs1 Ha1] & H1).
  eapply ensures_bind; [apply (after_remote p s1 x1); rewrite Hs1; by apply list_lookup_insert_eq|].
  cbn. intros r s2 (x2 & [Hs2 Ha2] & H2). apply ensures_return. split; [done|]. exists x2.
  split; [split; [by rewrite Hs2, Hs1, list_insert_insert_eq|congruence]|].
  assert (named x x1) as (A1 & A2 & A3 & A4 & A5 & A6).
  { destruct H1 as [->|[a ->]]; [done|]. unfold known_local. by destruct (m_localAddress x) eqn:E. }
  assert (named x1 x2) as (B1 & B2 & B3 & B4 & B5 & B6).
  { destruct H2 as [->|[a ->]]; [done|]. unfold known_remote. by destruct (m_remoteAddress x1) eqn:E. }
  unfold named. rewrite B1, B2, B3, B4. split_and!; try done.
  - intros Hn. rewrite B5; rewrite (A5 Hn); done.
  - intros Hn. rewrite B6; rewrite (A6 Hn); done.
Qed.

(** ** [accept] *)

Lemma get_minus_one b (f : Fds K) : FdManager_get (-1) b f = Ok None f.
Proof. done. Qed.

(** Looking a context up changes nothing. *)
Lemma get_same fd (f f' : Fds K) c : FdManager_get fd false f = Ok c f' -> f' = f.
Proof.
  unfold FdManager_get, get_shared. destruct (fd =? -1); [by intros [= _ <-]|].
  unfold bind, gets, mreturn, data_at, deref. destruct (i32 _ <=? fd); [by intros [= _ <-]|].
  destruct (fd <? 0); [done|]. destruct (m_datas f !! Z.to_nat fd) as [[d|]|]; [by intros [= _ <-]..|done].
Qed.

Lemma after_fds {A} (m : M (Fds K) A) s :
  (forall f a f', m f = Ok a f' -> f' = f) ->
  ensures (on_hook (on_fds m)) s (fun a s' => s' = s /\ m (hk_fds (hook s)) = Ok a (hk_fds (hook s))).
Proof.
  intros Hm a s'. unfold on_hook, on_fds. destruct (m (hk_fds (hook s))) as [a' f| | | | |] eqn:E; try done.
  apply Hm in E as Hf. subst f. intros [= -> <-]. split; [|done]. destruct s as [so [] n c po ac]; done.
Qed.

Lemma ctx_at_same i (f : Fds K) c f' : ctx_at i f = Ok c f' -> f' = f.
Proof. unfold ctx_at, deref. destruct (ctx_heap f !! i); [by intros [= _ <-]|done]. Qed.

(** The descriptor has a context: that of a socket that is not closed. *)
Definition open_socket (fd : Z) (f : Fds K) : Prop :=
  exists c ctx, FdManager_get fd false f = Ok (Some c) f /\ ctx_heap f !! c = Some ctx /\
    m_isSocket ctx = true /\ m_isClosed ctx = false.
Lemma after_ctx c s :
  ensures (on_hook (on_fds (ctx_at c))) s (fun ctx s' => s' = s /\ ctx_heap (hk_fds (hook s)) !! c = Some ctx).
Proof.
  intros ctx s' H. apply after_fds in H as [-> H]; [|intros f a f'; apply ctx_at_same]. split; [done|].
  unfold ctx_at, deref in H. destruct (ctx_heap _ !! c); [by simplify_eq|done].
Qed.

Lemma after_init p fd s x :
  socks s !! p = Some x ->
  ensures (Socket_init p fd) s (fun b s' =>
    (b = false /\ ~ open_socket fd (hk_fds (hook s)) /\ s' = s) \/
    (b = true /\ open_socket fd (hk_fds (hook s)) /\ fd <> -1 /\ exists x',
      effect (<[p := x']> (socks s)) (acts s ++ init_options (set_sock fd x)) s' /\
      named (set_Connected true (set_sock fd x)) x')).
Proof.
  intros Hx. pose proof (lookup_lt_Some _ _ _ Hx) as Hp.
  eapply ensures_bind; [apply after_fds; intros f a f'; apply get_same|]. cbn.
  intros [c|] s1 [-> Hc]; [|apply ensures_return; left; split_and!; [done| |done]].
  2: { intros (c & ctx & Hc' & _). congruence. }
  assert (Hfd : fd <> -1) by (intros ->; rewrite get_minus_one in Hc; by simplify_eq).
  eapply ensures_bind; [apply after_ctx|]. cbn. intros ctx s2 [-> Hctx].
  destruct (m_isSocket ctx && negb (m_isClosed ctx)) eqn:Hg.
  2: { apply ensures_return. left. split_and!; [done| |done]. intros (c' & ctx' & Hc' & Hctx' & Hs & Hcl).
       rewrite Hc in Hc'. injection Hc' as <-. rewrite Hctx in Hctx'. injection Hctx' as <-. by rewrite Hs, Hcl in Hg. }
  apply andb_true_iff in Hg as [Hg1 Hg2%negb_true_iff].
  eapply ensures_bind; [by apply (after_update p _ s x)|]. cbn. intros _ s3 ->.
  set (x1 := set_Connected true (set_sock fd x)). set (s3 := set_socks _ s).
  assert (H3 : socks s3 !! p = Some x1) by (cbn; by apply list_lookup_insert_eq).
  eapply ensures_bind; [by apply (after_initSock p s3 x1)|]. cbn. intros _ s4 [Hs4 Ha4].
  eapply ensures_weaken; [apply (after_names p s4 x1); by rewrite Hs4|]. cbn.
  intros b s5 [-> (x' & [Hs5 Ha5] & Hn)]. right. split_and!; [done|by exists c, ctx|done|]. exists x'.
  split; [|done]. split.
  - rewrite Hs5, Hs4. cbn. by rewrite list_insert_insert_eq.
  - rewrite Ha5, Ha4. done.
Qed.

Lemma insert_last (l : list Socket) x y : <[length l := y]> (l ++ [x]) = l ++ [y].
Proof. rewrite insert_app_r_alt by done. by rewrite Nat.sub_diag. Qed.

(** Closing a socket without a descriptor does nothing. *)
Lemma after_destroy_new p s f t pr :
  socks s !! p = Some (new_Socket f t pr) -> ensures (Socket_destroy p) s (fun _ s' => s' = s).
Proof.
  intros Hx u s'. unfold Socket_destroy, Socket_close, bind, this, deref. rewrite Hx. cbn. rewrite Hx. cbn.
  by intros [= _ <-].
Qed.

Lemma after_accept p s x :
  socks s !! p = Some x ->
  ensures (Socket_accept p) s (fun r s' => exists fd h,
    hook_accept (m_sock x) (hook s) = Ok fd h /\
    match r with
    | Some q => fd <> -1 /\ open_socket fd (hk_fds h) /\ q = length (socks s) /\ exists y,
        effect (socks s ++ [y]) (acts s ++ init_options y) s' /\
        m_sock y = fd /\ m_Connected y = true /\ m_family y = m_family x /\ m_type y = m_type x
    | None => (fd = -1 \/ ~ open_socket fd (hk_fds h)) /\ s' = set_socks (socks s ++
        if fd =? -1 then [] else [new_Socket (m_family x) (m_type x) (m_protocol x)]) (set_hook h s)
    end).
Proof.
  intros Hx. eapply ensures_bind; [apply after_this|]. cbn. intros y s1 [-> Hy]. simplify_eq.
  eapply ensures_bind; [apply after_hook|]. cbn. intros fd s2 [Hh ->].
  destruct (Z.eqb_spec fd (-1)) as [Hfd|Hfd].
  { apply ensures_return. eexists fd, _. split; [exact Hh|]. split; [by left|].
    rewrite (proj2 (Z.eqb_eq _ _) Hfd), app_nil_r. by destruct s. }
  eapply ensures_bind with (Q := fun q s' => q = length (socks s) /\
    s' = set_socks (socks s ++ [new_Socket (m_family x) (m_type x) (m_protocol x)]) (set_hook (hook s2) s)).
  { by intros q s3 [= <- <-]. }
  cbn. intros q s3 [-> ->]. set (z := new_Socket _ _ _) in *. set (s3 := set_socks _ _).
  assert (Hq : socks s3 !! length (socks s) = Some z)
    by (cbn; rewrite lookup_app_r, Nat.sub_diag by done; done).
  eapply ensures_bind; [by apply (after_init _ fd s3 z)|]. cbn. intros b s4 [(-> & Hno & ->)|(-> & Hopen & _ & x' & [Hs4 Ha4] & Hn)].
  - eapply ensures_bind; [by eapply (after_destroy_new _ s3)|]. cbn. intros _ s5 ->.
    apply ensures_return. eexists fd, _. split; [exact Hh|]. split; [by right|]. by rewrite (proj2 (Z.eqb_neq _ _) Hfd).
  - apply ensures_return. eexists fd, _. split; [exact Hh|]. split; [done|]. split; [exact Hopen|]. split; [done|]. exists x'.
    destruct Hn as (N1 & N2 & N3 & N4 & _). cbn in N1, N2, N3, N4. split_and!; try done.
    split; [rewrite Hs4; by rewrite insert_last|]. rewrite Ha4. f_equal.
    unfold init_options. by rewrite N1, N3.
Qed.

(** ** [connect] *)

(** The descriptor [fd] that a socket has, or gets by the acts [pre]. *)
Definition opened x fd (pre : list sock_act) : Prop :=
  isValid x = true /\ fd = m_sock x /\ pre = [] \/ isValid x = false /\ pre = new_acts x fd.

Lemma opened_acts x fd pre : opened x fd pre -> fd <> -1 -> Forall (fun a => exists f t r, a = SSocket f t r) pre.
Proof.
  intros [(_ & _ & ->)|[_ ->]] Hfd; [by constructor|]. unfold new_acts.
  rewrite (proj2 (Z.eqb_neq _ _) Hfd). constructor; [by eexists _, _, _|done].
Qed.

Lemma after_open p s x :
  socks s !! p = Some x ->
  ensures (ensure_valid p) s (fun b s' => exists fd pre,
    opened x fd pre /\ b = negb (fd =? -1) /\
    effect (<[p := set_sock fd x]> (socks s)) (acts s ++ pre) s').
Proof.
  intros Hx. eapply ensures_weaken; [by apply after_ensure|]. cbn.
  intros b s' [(Hv & -> & ->)|(Hv & fd & -> & He)].
  - exists (m_sock x), []. split_and!; [by left|by unfold isValid in Hv|]. rewrite app_nil_r. split; [|done].
    symmetry. apply list_insert_id. rewrite Hx. by destruct x.
  - exists fd, (new_acts x fd). split_and!; [by right|done|done].
Qed.

(** The socket [x] has or gets the descriptor [fd]. *)
Definition takes p s x fd (v : bool) s1 : Prop :=
  ensure_valid p s = Ok v s1 /\ v = negb (fd =? -1) /\ socks s1 = <[p := set_sock fd x]> (socks s).

(** The call that [connect] makes. *)
Definition connect_call fd timeout_ms so_error : M (Hook K) Z :=
  if timeout_ms =? NO_TIMEOUT then hook_connect fd so_error else connect_with_timeout fd timeout_ms so_error.

Lemma after_connect p s x a timeout_ms so_error :
  socks s !! p = Some x ->
  ensures (Socket_connect p a timeout_ms so_error) s (fun b s' =>
  exists v s1 fd pre x', takes p s x fd v s1 /\ opened x fd pre /\
    effect (<[p := x']> (socks s)) (acts s ++ pre) s' /\
    if decide (fd <> -1 /\ getFamily a = m_family x) then
      exists h' r, connect_call fd timeout_ms so_error (hook s1) = Ok r h' /\ b = (r =? 0) /\
        if b then m_sock x' = fd /\ m_Connected x' = true /\ m_family x' = m_family x /\
                  m_type x' = m_type x /\ m_remoteAddress x' = Some a
        else x' = closed (set_remoteAddress (Some a) x)
    else b = false /\ x' = set_sock fd x).
Proof.
  intros Hx. pose proof (lookup_lt_Some _ _ _ Hx) as Hp.
  eapply ensures_bind; [apply ensures_self; by apply after_open|]. cbn. intros v s1 [Hv (fd & pre & Ho & -> & [Hs1 Ha1])].
  assert (Ht : takes p s x fd (negb (fd =? -1)) s1) by by split.
  destruct (Z.eqb_spec fd (-1)) as [Hfd|Hfd]; cbn [negb].
  { apply ensures_return. eexists _, s1, fd, pre, (set_sock fd x). rewrite decide_False by tauto. by split_and!. }
  eapply ensures_bind; [apply after_this|]. cbn. intros y s2 [-> Hy].
  rewrite Hs1, list_lookup_insert_eq in Hy by done. injection Hy as <-. cbn.
  destruct (Z.eqb_spec (getFamily a) (m_family x)) as [Hf|Hf]; cbn [negb].
  2: { eapply ensures_bind; [apply after_address|]. cbn. intros _ s3 ->. apply ensures_return.
       eexists _, s1, fd, pre, (set_sock fd x). rewrite decide_False by tauto. by split_and!. }
  eapply ensures_bind; [apply (after_update p _ s1 (set_sock fd x)); rewrite Hs1; by apply list_lookup_insert_eq|].
  cbn. intros _ s3 ->. eapply ensures_bind; [apply after_hook|]. cbn. intros r s4 [Hr ->].
  change (if timeout_ms =? NO_TIMEOUT then _ else _) with (connect_call fd timeout_ms so_error) in Hr.
  set (x1 := set_remoteAddress (Some a) (set_sock fd x)). set (s5 := set_hook (hook s4) _).
  assert (H5 : socks s5 = <[p := x1]> (socks s)) by (cbn; rewrite Hs1; apply list_insert_insert_eq).
  assert (Hl5 : socks s5 !! p = Some x1) by (rewrite H5; by apply list_lookup_insert_eq).
  destruct (Z.eqb_spec r 0) as [->|Hr0]; cbn [negb].
  - eapply ensures_bind; [by apply (after_update p _ s5 x1)|]. cbn. intros _ s6 ->.
    assert (H6 : <[p := set_Connected true x1]> (socks s5) = <[p := set_Connected true x1]> (socks s))
      by (rewrite H5; apply list_insert_insert_eq).
    eapply ensures_weaken; [apply (after_names p _ (set_Connected true x1));
      change (<[p := set_Connected true x1]> (socks s5) !! p = Some (set_Connected true x1));
      rewrite H6; by apply list_lookup_insert_eq|].
    cbn. intros b s7 [-> (x' & [Hs7 Ha7] & N1 & N2 & N3 & N4 & _ & N6)]. eexists _, s1, fd, pre, x'.
    rewrite decide_True by done. split_and!; [exact Ht|done|split|].
    + rewrite Hs7. transitivity (<[p := x']> (<[p := set_Connected true x1]> (socks s))); [|apply list_insert_insert_eq].
      f_equal. exact H6.
    + rewrite Ha7. cbn. exact Ha1.
    + eexists _, 0. split_and!; [exact Hr|done..|by apply N6].
  - eapply ensures_bind; [apply after_address|]. cbn. intros _ s6 ->.
    eapply ensures_bind; [by apply (after_close p s5 x1)|]. cbn. intros b s7 [[Hs7 Ha7] _].
    apply ensures_return. eexists _, s1, fd, pre, (closed x1). rewrite decide_True by done. split_and!; [exact Ht|done|split|].
    + rewrite Hs7. transitivity (<[p := closed x1]> (<[p := x1]> (socks s))); [|apply list_insert_insert_eq].
      f_equal. exact H5.
    + rewrite Ha7. exact Ha1.
    + eexists _, r. split_and!; [exact Hr|by rewrite (proj2 (Z.eqb_neq _ _) Hr0)|].
      done.
Qed.
(** Connecting: [connect] uses the descriptor the socket has or gets; without
    one, and for an address of another family, it answers [false] and the socket
    is not connected; otherwise it answers [true] exactly when the call answers
    0: then the socket is connected to the address; when the call fails the
    socket is closed but remembers the address, so that it can be reconnected. *)
Theorem connect_spec p s x a timeout_ms so_error :
  socks s !! p = Some x ->
  forall b s', Socket_connect p a timeout_ms so_error s = Ok b s' ->
  exists v s1 fd pre x', takes p s x fd v s1 /\ opened x fd pre /\
    effect (<[p := x']> (socks s)) (acts s ++ pre) s' /\
    if decide (fd <> -1 /\ getFamily a = m_family x) then
      exists h' r, connect_call fd timeout_ms so_error (hook s1) = Ok r h' /\ b = (r =? 0) /\
        if b then m_sock x' = fd /\ m_Connected x' = true /\ m_family x' = m_family x /\
                  m_type x' = m_type x /\ m_remoteAddress x' = Some a
        else x' = closed (set_remoteAddress (Some a) x)
    else b = false /\ x' = set_sock fd x.
Proof. intros Hx b s' H. by apply (after_connect p s x a timeout_ms so_error Hx b s'). Qed.

(** ** [bind] *)

Lemma after_local_hook p s :
  ensures (Socket_getLocalAddress p) s (fun _ s' => hook s' = hook s).
Proof.
  eapply ensures_bind; [apply after_this|]. cbn. intros y s1 [-> Hy].
  destruct (m_localAddress y); [by apply ensures_return|].
  eapply ensures_bind with (Q := fun _ s' => hook s' = hook s).
  { intros r s2. unfold ask_name. destruct (names s) as [|[[r0 bs] n] l]; [done|]. by intros [= _ <-]. }
  cbn. intros [a|] s2 H2; [|by apply ensures_return].
  eapply ensures_bind; [|intros u s3 H; apply ensures_return; exact H].
  unfold update. eapply ensures_bind; [apply after_this|]. cbn. intros z s3 [-> _] u s4 [= _ <-]. done.
Qed.

(** The test for a listener: a second socket that connects to the path. *)
Definition probe (a : Address) so_error : M Net bool :=
  match a with UnixAddress m n => bind_unix m n so_error | _ => mreturn true end.

(** The test of a path: a new socket asks for a descriptor and connects with it.
    A call of [connect] that answers 0 finds a listener; every other outcome, that
    there is no descriptor included, counts as none. *)
Definition no_listener (a : Address) so_error s fd (free : bool) : Prop :=
  let z := new_Socket AF_UNIX SOCK_STREAM 0 in
  exists v s1, takes (length (socks s)) (set_socks (socks s ++ [z]) s) z fd v s1 /\
    if decide (fd <> -1 /\ getFamily a = AF_UNIX) then
      exists h' r, connect_call fd NO_TIMEOUT so_error (hook s1) = Ok r h' /\ free = negb (r =? 0)
    else free = true.
(** What the test creates and does when it finds no listener, or one. *)
Definition probed (a : Address) so_error s (free : bool) (l : list Socket) (t : list sock_act) : Prop :=
  match a with
  | UnixAddress m n => exists fd y, no_listener a so_error s fd free /\
      l = [y] /\ m_sock y = -1 /\ m_Connected y = false /\
      let pre := new_acts (new_Socket AF_UNIX SOCK_STREAM 0) fd in
      if free then exists path, UnixAddress_getPath m n tt = Ok path tt /\ t = pre ++ [SUnlink path]
      else t = pre
  | _ => free = true /\ l = [] /\ t = []
  end.

Lemma after_probe a so_error s :
  ensures (probe a so_error) s (fun free s' => exists l t,
    probed a so_error s free l t /\ effect (socks s ++ l) (acts s ++ t) s').
Proof.
  destruct a as [b|b|m n|b].
  1,2,4: apply ensures_return; exists [], []; by rewrite !app_nil_r.
  cbn [probe probed]. set (z := new_Socket AF_UNIX SOCK_STREAM 0).
  eapply ensures_bind with (Q := fun q s' => q = length (socks s) /\ s' = set_socks (socks s ++ [z]) s);
    [by intros q s' [= <- <-]|]. cbn. intros q s1 [-> ->].
  set (s1 := set_socks _ s). assert (Hs1 : socks s1 = socks s ++ [z]) by done. assert (Ha1 : acts s1 = acts s) by done.
  assert (Hq : socks s1 !! length (socks s) = Some z) by (rewrite Hs1, lookup_app_r, Nat.sub_diag by done; done).
  eapply ensures_bind; [by apply (after_connect _ s1 z)|]. cbn.
  intros b s2 (v & s3 & fd & pre & x' & Ht & [[? _]|[_ ->]] & [Hs2 Ha2] & Hcase); [done|].
  assert (Hfree : no_listener (UnixAddress m n) so_error s fd (negb b)).
  { exists v, s3. split; [exact Ht|].
    destruct (decide _).
    - destruct Hcase as (h' & r & Hr & Hb & _). exists h', r. by rewrite Hb.
    - by destruct Hcase as [-> _]. }
  cbn [socks acts set_socks s1] in Hs2, Ha2. rewrite insert_last in Hs2.
  assert (Hq2 : socks s2 !! length (socks s) = Some x') by (rewrite Hs2, lookup_app_r, Nat.sub_diag by done; done).
  assert (Hend : forall (free : bool) t s3, no_listener (UnixAddress m n) so_error s fd free ->
    socks s3 = socks s2 -> acts s3 = acts s ++ t ->
    (if free then exists path, UnixAddress_getPath m n tt = Ok path tt /\ t = new_acts z fd ++ [SUnlink path]
     else t = new_acts z fd) ->
    ensures (Socket_destroy (length (socks s)) ;;; mreturn free) s3 (fun free s' => exists l t,
      probed (UnixAddress m n) so_error s free l t /\ effect (socks s ++ l) (acts s ++ t) s')).
  { intros free t s4 Hf Hs3 Ha3 Hpath.
    eapply ensures_bind; [apply (after_destroy _ s4 x'); by rewrite Hs3|]. cbn. intros _ s5 [Hs4 Ha4].
    apply ensures_return. exists [closed x'], t. split; [by exists fd, (closed x')|].
    split; [|congruence]. by rewrite Hs4, Hs3, Hs2, insert_last. }
  destruct b; cbn [negb].
  - eapply ensures_bind; [by apply (ensures_return _ _ (fun _ s' => s' = s2))|]. cbn. intros _ s4 ->.
    by apply (Hend false (new_acts z fd)).
  - eapply ensures_bind with (Q := fun _ s' => exists path, UnixAddress_getPath m n tt = Ok path tt /\
      effect (socks s2) (acts s2 ++ [SUnlink path]) s').
    { intros u s4. destruct (UnixAddress_getPath m n tt) as [path []| | | | |]; try done.
      intros Hact. exists path. split; [done|]. by apply after_act in Hact. }
    cbn. intros _ s4 (path & Hpath & Hs4 & Ha4). apply (Hend true (new_acts z fd ++ [SUnlink path])); [done|done| |by exists path].
    by rewrite Ha4, Ha2, <- app_assoc.
Qed.

(** The call that [bind] makes, and what it may learn. *)
Definition bind_call fd (a : Address) : sock_act := SBind fd (take (Z.to_nat (getAddrLen a)) (getAddr a)).
Definition kept_local x x' : Prop := x' = x \/ exists n, x' = known_local x n.

Lemma after_bind_call p s y fd a :
  socks s !! p = Some y ->
  ensures (act_log (bind_call fd a) ;;; r <-- on_hook fun_f ;;
         if negb (r =? 0) then mreturn false else Socket_getLocalAddress p ;;; mreturn true) s
    (fun b s' => exists r y', fun_f (hook s) = Ok r (hook s') /\ b = (r =? 0) /\
      effect (<[p := y']> (socks s)) (acts s ++ [bind_call fd a]) s' /\ kept_local y y').
Proof.
  intros Hy.
  eapply ensures_bind with (Q := fun _ s' => hook s' = hook s /\ effect (socks s) (acts s ++ [bind_call fd a]) s');
    [by intros u s3 [= _ <-]|].
  cbn. intros _ s3 (Hh3 & Hs3 & Ha3).
  eapply ensures_bind; [apply after_hook|]. cbn. intros r s4 [Hr ->]. rewrite Hh3 in Hr.
  set (s5 := set_hook (hook s4) s3). assert (Hs5 : socks s5 = socks s) by done.
  destruct (Z.eqb_spec r 0) as [Hr0|Hr0]; cbn [negb].
  - assert (Hloc : ensures (Socket_getLocalAddress p) s5 (fun _ s' => hook s' = hook s4 /\ exists y',
      effect (<[p := y']> (socks s5)) (acts s5) s' /\ kept_local y y')).
    { intros n s6 H6. split; [by apply (after_local_hook p s5 n)|].
      apply (after_local p s5 y) with (a := n); [by rewrite Hs5|done]. }
    eapply ensures_bind; [exact Hloc|]. cbn. intros n s6 [H6 (y' & [Hs6 Ha6] & Hk)]. apply ensures_return.
    exists r, y'. rewrite H6. split_and!; [exact Hr|by rewrite (proj2 (Z.eqb_eq _ _) Hr0)| |done].
    split; [congruence|]. rewrite Ha6. exact Ha3.
  - apply ensures_return. exists r, y. split_and!; [exact Hr|by rewrite (proj2 (Z.eqb_neq _ _) Hr0)| |by left].
    split; [|exact Ha3]. rewrite Hs5. symmetry. by apply list_insert_id.
Qed.

Lemma after_bind_op p s x a so_error :
  socks s !! p = Some x ->
  ensures (Socket_bind p a so_error) s (fun b s' =>
  exists v s1 fd pre, takes p s x fd v s1 /\ opened x fd pre /\
    if decide (fd <> -1 /\ getFamily a = m_family x) then
      exists free s2 l t, probe a so_error s1 = Ok free s2 /\ probed a so_error s1 free l t /\
      if free then
        exists r x', fun_f (hook s2) = Ok r (hook s') /\ b = (r =? 0) /\
          effect (<[p := x']> (socks s) ++ l) (acts s ++ pre ++ t ++ [bind_call fd a]) s' /\
          kept_local (set_sock fd x) x'
      else b = false /\ effect (<[p := set_sock fd x]> (socks s) ++ l) (acts s ++ pre ++ t) s'
    else b = false /\ effect (<[p := set_sock fd x]> (socks s)) (acts s ++ pre) s').
Proof.
  intros Hx.
  pose proof (lookup_lt_Some _ _ _ Hx) as Hp.
  eapply ensures_bind; [apply ensures_self; by apply after_open|]. cbn. intros v s1 [Hv (fd & pre & Ho & -> & [Hs1 Ha1])].
  assert (Ht : takes p s x fd (negb (fd =? -1)) s1) by by split.
  destruct (Z.eqb_spec fd (-1)) as [Hfd|Hfd]; cbn [negb].
  { apply ensures_return. eexists _, s1, fd, pre. rewrite decide_False by tauto. by split_and!. }
  eapply ensures_bind; [apply after_this|]. cbn. intros y s2 [-> Hy].
  rewrite Hs1, list_lookup_insert_eq in Hy by done. injection Hy as <-. cbn.
  destruct (Z.eqb_spec (getFamily a) (m_family x)) as [Hf|Hf]; cbn [negb].
  2: { eapply ensures_bind; [apply after_address|]. cbn. intros _ s3 ->. apply ensures_return.
       eexists _, s1, fd, pre. rewrite decide_False by tauto. by split_and!. }
  change (match a with UnixAddress m n => _ | _ => _ end) with (probe a so_error).
  eapply ensures_bind; [apply ensures_self, after_probe|]. cbn. intros free s2 [Hpr (l & t & Hl & Hs2 & Ha2)].
  rewrite Hs1 in Hs2. rewrite Ha1, <- app_assoc in Ha2.
  destruct free; cbn [negb].
  2: { apply ensures_return. eexists _, s1, fd, pre. split; [exact Ht|]. split; [done|]. rewrite decide_True by done.
       by exists false, s2, l, t. }
  assert (Hp' : (p < length (<[p := set_sock fd x]> (socks s)))%nat) by by rewrite length_insert.
  eapply ensures_weaken; [apply (after_bind_call p s2 (set_sock fd x)); rewrite Hs2, lookup_app_l by done;
    by apply list_lookup_insert_eq|].
  cbn. intros b s3 (r & x' & Hr & Hb & [Hs3 Ha3] & Hk). eexists _, s1, fd, pre. split; [exact Ht|]. split; [done|].
  rewrite decide_True by done. exists true, s2, l, t. split; [done|]. split; [done|].
  exists r, x'. split; [exact Hr|]. split; [done|]. split; [|done]. split.
  - by rewrite Hs3, Hs2, insert_app_l, list_insert_insert_eq by done.
  - by rewrite Ha3, Ha2, <- !app_assoc.
Qed.

(** C25 (binding): [bind] uses the descriptor the socket has or gets; without one,
    and for an address of another family, it answers [false] and calls nothing,
    but the descriptor it opened stays.  For the path of a Unix address it first
    tries to connect a second socket to the path: when that call answers 0 there
    is a listener, [bind] answers [false] and leaves the path; when it fails for
    whatever reason, and also when there is no descriptor for the second socket,
    the path is unlinked, and only then [bind] binds.  It answers [true] exactly
    when the call answers 0. *)
Theorem bind_spec p s x a so_error :
  socks s !! p = Some x ->
  forall b s', Socket_bind p a so_error s = Ok b s' ->
  exists v s1 fd pre, takes p s x fd v s1 /\ opened x fd pre /\
    if decide (fd <> -1 /\ getFamily a = m_family x) then
      exists free s2 l t, probe a so_error s1 = Ok free s2 /\ probed a so_error s1 free l t /\
      if free then
        exists r x', fun_f (hook s2) = Ok r (hook s') /\ b = (r =? 0) /\
          effect (<[p := x']> (socks s) ++ l) (acts s ++ pre ++ t ++ [bind_call fd a]) s' /\
          kept_local (set_sock fd x) x'
      else b = false /\ effect (<[p := set_sock fd x]> (socks s) ++ l) (acts s ++ pre ++ t) s'
    else b = false /\ effect (<[p := set_sock fd x]> (socks s)) (acts s ++ pre) s'.
Proof. intros Hx b s' H. by apply (after_bind_op p s x a so_error Hx b s'). Qed.

(** C35 (accepting): [accept] makes a new socket of the same family and type, which
    is connected to the descriptor that the call answered and has the options of
    a new socket set, exactly when that descriptor is valid and has a context, of
    a socket that is not closed.  Otherwise the answer is null and nothing more
    happens: in particular nobody closes a descriptor without such a context. *)
Theorem accept_spec p s x :
  socks s !! p = Some x ->
  forall r s', Socket_accept p s = Ok r s' -> exists fd h,
    hook_accept (m_sock x) (hook s) = Ok fd h /\
    match r with
    | Some q => fd <> -1 /\ open_socket fd (hk_fds h) /\ q = length (socks s) /\ exists y,
        effect (socks s ++ [y]) (acts s ++ init_options y) s' /\
        m_sock y = fd /\ m_Connected y = true /\ m_family y = m_family x /\ m_type y = m_type x
    | None => (fd = -1 \/ ~ open_socket fd (hk_fds h)) /\ s' = set_socks (socks s ++
        if fd =? -1 then [] else [new_Socket (m_family x) (m_type x) (m_protocol x)]) (set_hook h s)
    end.
Proof. intros Hx r s' H. by apply (after_accept p s x Hx r s'). Qed.

(** ** The invariant of a socket *)

(** A connected socket has a descriptor. *)
Definition has_descriptor x : Prop := m_Connected x = true -> m_sock x <> -1.
Definition sockets_ok s : Prop := Forall has_descriptor (socks s).
(** Objects stay, with their family and type. *)
Definition same_kind x x' : Prop := m_family x' = m_family x /\ m_type x' = m_type x.
Definition evolves s s' : Prop := forall p x, socks s !! p = Some x -> exists x', socks s' !! p = Some x' /\ same_kind x x'.

(** The operations that the users of sockets call. *)
Inductive socket_op :=
| OCreate (family type protocol : Z)
| OTimeout (p : nat) (type v : Z)
| OOption (p : nat) (level option sec usec : Z)
| OLocal (p : nat)
| ORemote (p : nat)
| OConnect (p : nat) (a : Address) (timeout_ms : Z) (so_error : Z * Z)
| OReconnect (p : nat) (timeout_ms : Z) (so_error : Z * Z)
| OBind (p : nat) (a : Address) (so_error : Z * Z)
| OListen (p : nat) (backlog : Z)
| OAccept (p : nat)
| OClose (p : nat)
| OIo (p : nat) (f : io_fun)
| OError (p : nat) (stored : Z)
| OCancel (p : nat)
| ODestroy (p : nat).
Definition apply_op (o : socket_op) : M Net unit :=
  match o with
  | OCreate f t pr => create (new_Socket f t pr) ;;; mreturn tt
  | OTimeout p type v => set_timeout p type v
  | OOption p level option sec usec => Socket_setOption p level option sec usec ;;; mreturn tt
  | OLocal p => Socket_getLocalAddress p ;;; mreturn tt
  | ORemote p => Socket_getRemoteAddress p ;;; mreturn tt
  | OConnect p a t so => Socket_connect p a t so ;;; mreturn tt
  | OReconnect p t so => Socket_reconnect p t so ;;; mreturn tt
  | OBind p a so => Socket_bind p a so ;;; mreturn tt
  | OListen p n => Socket_listen p n ;;; mreturn tt
  | OAccept p => Socket_accept p ;;; mreturn tt
  | OClose p => Socket_close p ;;; mreturn tt
  | OIo p f => if_connected p f ;;; mreturn tt
  | OError p n => Socket_getError p n ;;; mreturn tt
  | OCancel p => Socket_cancelAll p ;;; mreturn tt
  | ODestroy p => Socket_destroy p
  end.

(** [m] keeps the invariant. *)
Definition upholds {A} (m : M Net A) : Prop :=
  forall s, sockets_ok s -> ensures m s (fun _ s' => sockets_ok s' /\ evolves s s').

Lemma evolves_refl s : evolves s s.
Proof. intros p x Hx. by exists x. Qed.
Lemma upholds_bind {A B} (m : M Net A) (k : A -> M Net B) : upholds m -> (forall a, upholds (k a)) -> upholds (bind m k).
Proof.
  intros Hm Hk s Hs. eapply ensures_bind; [by apply Hm|]. cbn. intros a s1 [Hs1 He1].
  eapply ensures_weaken; [by apply Hk|]. cbn. intros b s2 [Hs2 He2]. split; [done|].
  intros p x Hx. destruct (He1 p x Hx) as (x1 & Hx1 & ? & ?). destruct (He2 p x1 Hx1) as (x2 & Hx2 & ? & ?).
  exists x2. split; [done|]. split; congruence.
Qed.
Lemma upholds_return {A} (a : A) : upholds (mreturn a : M Net A).
Proof. intros s Hs. apply ensures_return. split; [done|apply evolves_refl]. Qed.
(** Operations that leave the sockets alone. *)
Lemma upholds_quiet {A} (m : M Net A) : (forall s, ensures m s (fun _ s' => socks s' = socks s)) -> upholds m.
Proof.
  intros Hm s Hs a s' H. apply Hm in H. unfold sockets_ok, evolves. rewrite H. split; [done|].
  intros p x Hx. by exists x.
Qed.
(** Operations on one socket, which may leave new sockets behind. *)
Lemma upholds_object {A} p (m : M Net A) :
  (forall s, socks s !! p = None -> m s = Ub) ->
  (forall s x, socks s !! p = Some x -> ensures m s (fun _ s' => exists x' l,
    socks s' = <[p := x']> (socks s) ++ l /\ Forall has_descriptor l /\
    (has_descriptor x -> has_descriptor x') /\ same_kind x x')) ->
  upholds m.
Proof.
  intros Hno Hm s Hs a s' H. destruct (socks s !! p) as [x|] eqn:Hx; [|by rewrite Hno in H].
  pose proof (lookup_lt_Some _ _ _ Hx) as Hp.
  destruct (Hm s x Hx a s' H) as (x' & l & Hs' & Hl & Hx' & Hk). unfold sockets_ok. rewrite Hs'. split.
  - apply Forall_app. split; [|done]. apply Forall_insert; [done|]. exact (Hx' (Forall_lookup_1 _ _ _ _ Hs Hx)).
  - intros q y Hy. rewrite Hs'. pose proof (lookup_lt_Some _ _ _ Hy) as Hq.
    rewrite lookup_app_l by (by rewrite length_insert). destruct (decide (q = p)) as [->|Hne].
    + exists x'. rewrite list_lookup_insert_eq by done. by simplify_eq.
    + exists y. by rewrite list_lookup_insert_ne.
Qed.

Lemma upholds_this p : upholds (this p).
Proof. apply upholds_quiet. intros s. eapply ensures_weaken; [apply after_this|]. by intros x s' [-> _]. Qed.
Lemma upholds_hook {A} (m : M (Hook K) A) : upholds (on_hook m).
Proof. apply upholds_quiet. intros s. eapply ensures_weaken; [apply after_hook_effect|]. by intros a s' [-> _]. Qed.
Lemma upholds_act a : upholds (act_log a).
Proof. apply upholds_quiet. by intros s u s' [= _ <-]. Qed.
Lemma upholds_gets {A} (f : Net -> A) : upholds (gets f).
Proof. apply upholds_quiet. intros s. by apply ensures_gets. Qed.
Lemma upholds_address a : upholds (log_address a).
Proof. apply upholds_quiet. intros s. eapply ensures_weaken; [apply after_address|]. by intros u s' ->. Qed.
Lemma upholds_create x : has_descriptor x -> upholds (create x).
Proof.
  intros Hx s Hs. eapply ensures_weaken; [apply after_create|]. cbn. intros q s' [-> [Hs' _]].
  unfold sockets_ok. rewrite Hs'. split; [apply Forall_app; split; [done|by repeat constructor]|].
  intros p y Hy. exists y. split; [|done]. rewrite Hs'. by apply lookup_app_l_Some.
Qed.
Lemma upholds_update p f :
  (forall x, has_descriptor x -> has_descriptor (f x)) -> (forall x, same_kind x (f x)) -> upholds (update p f).
Proof.
  intros Hf Hk. apply (upholds_object p).
  - intros s Hp. unfold update, bind, this, deref. by rewrite Hp.
  - intros s x Hx. eapply ensures_weaken; [by apply after_update|]. cbn. intros _ s' ->.
    exists (f x), []. cbn. rewrite app_nil_r. split_and!; [done|done|apply Hf|apply Hk..].
Qed.

Create HintDb sockets.
#[local] Hint Resolve upholds_return upholds_this upholds_hook upholds_act upholds_gets upholds_address upholds_create : sockets.
(** An operation made of such steps. *)
Ltac upholds_steps :=
  repeat match goal with
  | |- upholds (bind _ _) => apply upholds_bind; [|intros ?]
  | |- upholds (match ?c with _ => _ end) => destruct c
  end; auto with sockets.

Lemma on_missing {A} p (k : Socket -> M Net A) s : socks s !! p = None -> bind (this p) k s = Ub.
Proof. unfold bind, this, deref. by intros ->. Qed.

Lemma known_local_kind x a : has_descriptor x -> has_descriptor (known_local x a) /\ same_kind x (known_local x a).
Proof. unfold known_local. by destruct (m_localAddress x). Qed.
Lemma known_remote_kind x a : has_descriptor x -> has_descriptor (known_remote x a) /\ same_kind x (known_remote x a).
Proof. unfold known_remote. by destruct (m_remoteAddress x). Qed.

Lemma upholds_local p : upholds (Socket_getLocalAddress p).
Proof.
  unfold Socket_getLocalAddress. apply upholds_bind; [apply upholds_this|]. intros x. upholds_steps.
  - apply upholds_quiet. intros s. eapply ensures_weaken; [apply after_ask|]. by intros r s' [-> _].
  - by apply upholds_update.
Qed.
Lemma upholds_remote p : upholds (Socket_getRemoteAddress p).
Proof.
  unfold Socket_getRemoteAddress. apply upholds_bind; [apply upholds_this|]. intros x. upholds_steps.
  - apply upholds_quiet. intros s. eapply ensures_weaken; [apply after_ask|]. by intros r s' [-> _].
  - by apply upholds_update.
Qed.
Lemma upholds_close p : upholds (Socket_close p).
Proof.
  apply (upholds_object p); [intros s; apply on_missing|]. intros s x Hx.
  eapply ensures_weaken; [by apply after_close|]. cbn. intros b s' [[Hs' _] _]. exists (closed x), [].
  by rewrite app_nil_r.
Qed.
#[local] Hint Resolve upholds_local upholds_remote upholds_close : sockets.

(** The descriptor that [connect] and [bind] use. *)
Lemma opened_connected x fd pre : opened x fd pre -> (has_descriptor x -> fd = -1 -> m_Connected x = false).
Proof.
  intros [(Hv & -> & _)|[Hv _]] Hd.
  - by apply negb_true_iff, Z.eqb_neq in Hv.
  - intros _. destruct (m_Connected x) eqn:E; [|done]. exfalso. apply (Hd E).
    unfold isValid in Hv. by apply negb_false_iff, Z.eqb_eq in Hv.
Qed.
Lemma opened_set x fd pre : opened x fd pre -> has_descriptor x -> has_descriptor (set_sock fd x).
Proof. intros Ho Hd Hc Hfd. cbn in *. by rewrite (opened_connected x fd pre Ho Hd Hfd) in Hc. Qed.

Lemma upholds_connect p a timeout_ms so_error : upholds (Socket_connect p a timeout_ms so_error).
Proof.
  apply (upholds_object p); [intros s H; unfold Socket_connect, ensure_valid, bind, this, deref; by rewrite H|].
  intros s x Hx. eapply ensures_weaken; [by apply after_connect|]. cbn.
  intros b s' (v & s1 & fd & pre & x' & _ & Ho & [Hs' _] & Hcase). exists x', []. rewrite app_nil_r.
  split; [done|]. split; [done|]. destruct (decide _) as [[Hfd _]|_].
  - destruct Hcase as (h' & r & _ & _ & Hb). destruct b; [|by subst x'].
    destruct Hb as (Hfd' & _ & Hf & Ht & _). split; [|done]. intros _ _. by rewrite Hfd'.
  - destruct Hcase as [_ ->]. split; [by eapply opened_set|done].
Qed.

Lemma probed_ok a so s free l t : probed a so s free l t -> Forall has_descriptor l.
Proof.
  destruct a; cbn; [intros (_ & -> & _); by constructor..| |intros (_ & -> & _); by constructor].
  intros (fd & y & _ & -> & _ & Hc & _). repeat constructor. intros Hc'. congruence.
Qed.
Lemma upholds_bind_op p a so_error : upholds (Socket_bind p a so_error).
Proof.
  apply (upholds_object p); [intros s H; unfold Socket_bind, ensure_valid, bind, this, deref; by rewrite H|].
  intros s x Hx. eapply ensures_weaken; [by apply after_bind_op|]. cbn.
  intros b s' (v & s1 & fd & pre & _ & Ho & Hcase). destruct (decide _) as [[Hfd _]|_].
  - destruct Hcase as (free & s2 & l & t & _ & Hl%probed_ok & Hcase). destruct free.
    + destruct Hcase as (r & x' & _ & _ & [Hs' _] & Hk). exists x', l. split; [done|]. split; [done|].
      assert (Hd : has_descriptor x -> has_descriptor (set_sock fd x)) by by eapply opened_set.
      destruct Hk as [->|[n ->]]; [done|]. unfold known_local. by destruct (m_localAddress _).
    + destruct Hcase as [_ [Hs' _]]. exists (set_sock fd x), l. split; [done|]. split; [done|].
      split; [by eapply opened_set|done].
  - destruct Hcase as [_ [Hs' _]]. exists (set_sock fd x), []. rewrite app_nil_r.
    split; [done|]. split; [done|]. split; [by eapply opened_set|done].
Qed.
Lemma upholds_accept p : upholds (Socket_accept p).
Proof.
  apply (upholds_object p); [intros s; apply on_missing|]. intros s x Hx.
  assert (Hid : <[p := x]> (socks s) = socks s) by by apply list_insert_id.
  eapply ensures_weaken; [by apply after_accept|]. cbn. intros [q|] s' (fd & h & _ & Hcase).
  - destruct Hcase as (Hfd & _ & _ & y & [Hs' _] & Hy & _). exists x, [y]. rewrite Hid.
    split_and!; [done| |done..]. repeat constructor. intros _. by rewrite Hy.
  - destruct Hcase as [_ ->]. eexists x, _. cbn. rewrite Hid. split_and!; [done| |done..].
    destruct (fd =? -1); [by constructor|]. repeat constructor. by intros ?.
Qed.
#[local] Hint Resolve upholds_connect upholds_bind_op upholds_accept : sockets.

Lemma upholds_option p level option sec usec : upholds (Socket_setOption p level option sec usec).
Proof. unfold Socket_setOption. upholds_steps. Qed.
Lemma upholds_timeout p type v : upholds (set_timeout p type v).
Proof. unfold set_timeout. upholds_steps. Qed.
Lemma upholds_reconnect p timeout_ms so_error : upholds (Socket_reconnect p timeout_ms so_error).
Proof. unfold Socket_reconnect. upholds_steps. by apply upholds_update. Qed.
Lemma upholds_listen p n : upholds (Socket_listen p n).
Proof. unfold Socket_listen. upholds_steps. Qed.
Lemma upholds_io p f : upholds (if_connected p f).
Proof. unfold if_connected. upholds_steps. Qed.
Lemma upholds_error p n : upholds (Socket_getError p n).
Proof. unfold Socket_getError, Socket_getOption. upholds_steps. Qed.
Lemma upholds_cancel p a : upholds (cancel_event p a).
Proof.
  unfold cancel_event. upholds_steps. apply upholds_quiet. intros s r s'. unfold cancel_answer.
  destruct (cancels s); [done|]. by intros [= _ <-].
Qed.
Lemma upholds_destroy p : upholds (Socket_destroy p).
Proof. unfold Socket_destroy. upholds_steps. Qed.
#[local] Hint Resolve upholds_option upholds_timeout upholds_reconnect upholds_listen upholds_io upholds_error upholds_destroy : sockets.

Lemma apply_op_upholds o : upholds (apply_op o).
Proof.
  destruct o; cbn [apply_op]; try (apply upholds_bind; [|intros; apply upholds_return]); auto with sockets.
  - by apply upholds_create.
  - apply upholds_cancel.
Qed.
Lemma run_upholds ops : upholds (for_each apply_op ops).
Proof.
  induction ops as [|o ops IH]; [apply upholds_return|].
  change (upholds (bind (apply_op o) (fun _ => for_each apply_op ops))). apply upholds_bind; [apply apply_op_upholds|done].
Qed.

(** C13 (sockets): whatever operations the users of a set of sockets call, a
    connected socket always has a descriptor, no socket changes its family or
    its type, and the data calls pass a valid descriptor to the system call or
    answer -1 without any call. *)
Theorem socket_invariant ops s s' :
  sockets_ok s -> for_each apply_op ops s = Ok tt s' ->
  sockets_ok s' /\ evolves s s' /\
  forall p x f, socks s' !! p = Some x ->
    if_connected p f s' = (if m_Connected x then on_hook (hook_io f (m_sock x)) s' else Ok (-1) s') /\
    (m_Connected x = true -> m_sock x <> -1).
Proof.
  intros Hs H. destruct (run_upholds ops s Hs tt s' H) as [Hs' He]. split; [done|]. split; [done|].
  intros p x f Hx. split; [|exact (Forall_lookup_1 _ _ _ _ Hs' Hx)].
  unfold if_connected, bind, this, deref. rewrite Hx. by destruct (m_Connected x).
Qed.
End socket_facts.

(** ** Examples *)

#[local] Instance target_example : Target := little_endian_target.

(** One socket; descriptor 5 is a socket of the kernel. *)
Definition net_example family answers (l : list (Z * list Z * Z)) : Net TableKernel :=
  mkNet [new_Socket family SOCK_STREAM 0] (mkHook true fds_example 0 answers [] [] [] None) l [] [].
Definition peer_example : Address := IPv4Address (new_IPv4Address 2130706433 80).
Definition name_example : list Z := [2; 0; 31; 144; 127; 0; 0; 1; 0; 0; 0; 0; 0; 0; 0; 0].

(** [socket] answers 5, [connect] answers 0, or fails. *)
Definition connect_ok : Net TableKernel := net_example AF_INET [(5, 0); (0, 0)] [(0, name_example, 16)].
Definition connect_fails : Net TableKernel := net_example AF_INET [(5, 0); (-1, 111); (0, 0)] [].

Lemma connect_spec_witness :
  (exists s' x, Socket_connect 0 peer_example NO_TIMEOUT (0, 0) connect_ok = Ok true s' /\
     socks s' = [x] /\ m_Connected x = true /\ m_remoteAddress x = Some peer_example) /\
  (exists s', Socket_connect 0 peer_example NO_TIMEOUT (0, 0) connect_fails = Ok false s' /\
     exists fd, socks s' = [closed (set_remoteAddress (Some peer_example) (new_Socket AF_INET SOCK_STREAM 0))]
       /\ acts s' = new_acts (new_Socket AF_INET SOCK_STREAM 0) fd).
Proof.
  set (z := new_Socket AF_INET SOCK_STREAM 0). split.
  - assert (Hb : match Socket_connect 0 peer_example NO_TIMEOUT (0, 0) connect_ok
      with Ok b s => Some (b, fmap m_sock (socks s)) | _ => None end = Some (true, [5])) by (vm_compute; reflexivity).
    destruct (Socket_connect 0 peer_example NO_TIMEOUT (0, 0) connect_ok) as [b s'| | | | |] eqn:E; try discriminate Hb.
    injection Hb as -> Hfd.
    destruct (connect_spec 0 connect_ok z peer_example NO_TIMEOUT (0, 0) eq_refl true s' E)
      as (v & s1 & fd & pre & x' & _ & _ & [Hs _] & Hcase).
    exists s', x'. destruct (decide _) in Hcase; [|by destruct Hcase].
    by destruct Hcase as (h' & r & _ & _ & _ & Hc & _ & _ & Hr).
  - assert (Hb : match Socket_connect 0 peer_example NO_TIMEOUT (0, 0) connect_fails
      with Ok b s => Some (b, fmap m_remoteAddress (socks s)) | _ => None end = Some (false, [Some peer_example])) by (vm_compute; reflexivity).
    destruct (Socket_connect 0 peer_example NO_TIMEOUT (0, 0) connect_fails) as [b s'| | | | |] eqn:E; try discriminate Hb.
    injection Hb as -> Hr.
    destruct (connect_spec 0 connect_fails z peer_example NO_TIMEOUT (0, 0) eq_refl false s' E)
      as (v & s1 & fd & pre & x' & _ & [(Hv & _)|[_ ->]] & [Hs Ha] & Hcase); [done|].
    exists s'. split; [done|]. exists fd. split; [|exact Ha]. rewrite Hs in Hr |- *. destruct (decide _) in Hcase.
    + by destruct Hcase as (h' & r & _ & _ & ->).
    + destruct Hcase as [_ ->]. discriminate Hr.
Defined.

(** Nothing listens at the path: the connection is refused; or there is a listener. *)
Definition path_example : Address :=
  match new_UnixAddress_path (text "/run/s") tt with Ok a _ => a | _ => new_UnixAddress end.
Definition bind_example : Net TableKernel :=
  net_example AF_UNIX [(5, 0); (6, 0); (-1, 111); (0, 0); (0, 0)] [(0, [1; 0], 2)].
Definition bind_taken : Net TableKernel :=
  net_example AF_UNIX [(5, 0); (6, 0); (0, 0); (0, 0)] [(0, [1; 0], 2)].
Lemma bind_spec_witness :
  exists s', Socket_bind 0 path_example (0, 0) bind_example = Ok true s' /\
    exists t, acts s' = SSocket AF_UNIX SOCK_STREAM 0 :: t ++ [bind_call 5 path_example] /\
      t = [SSocket AF_UNIX SOCK_STREAM 0; SUnlink (text "/run/s")].
Proof.
  set (z := new_Socket AF_UNIX SOCK_STREAM 0).
  assert (Hb : match Socket_bind 0 path_example (0, 0) bind_example
    with Ok b s => Some (b, take 3 (acts s), m_sock <$> head (socks s)) | _ => None end
    = Some (true, [SSocket AF_UNIX SOCK_STREAM 0; SSocket AF_UNIX SOCK_STREAM 0; SUnlink (text "/run/s")], Some 5))
    by (vm_compute; reflexivity).
  destruct (Socket_bind 0 path_example (0, 0) bind_example) as [b s'| | | | |] eqn:E; try discriminate Hb.
  injection Hb as -> Hacts Hsock.
  destruct (bind_spec 0 bind_example z path_example (0, 0) eq_refl true s' E)
    as (v & s1 & fd & pre & _ & [(Hv & _)|[_ ->]] & Hcase); [done|].
  destruct (decide _) as [[Hfd _]|_] in Hcase; [|by destruct Hcase].
  destruct Hcase as (free & s2 & l & t & _ & Hp & Hcase). destruct free; [|by destruct Hcase].
  destruct Hcase as (r & x' & _ & _ & [Hs Ha] & Hk). exists s'. split; [done|].
  unfold new_acts in Ha. rewrite (proj2 (Z.eqb_neq _ _) Hfd) in Ha.
  assert (fd = 5) as ->.
  { rewrite Hs in Hsock. cbn in Hsock. injection Hsock as <-. by destruct Hk as [->|[n ->]]. }
  exists t. split; [exact Ha|]. rewrite Ha in Hacts. cbn in Hacts.
  destruct Hp as (fd' & y & _ & _ & _ & _ & path & _ & ->). revert Hacts. unfold new_acts.
  destruct (fd' =? -1); cbn; [done|]. by intros [= ->].
Defined.
(** With a listener nothing is unlinked or bound. *)
Example bind_taken_refused :
  match Socket_bind 0 path_example (0, 0) bind_taken with Ok b s => Some (b, acts s) | _ => None end
  = Some (false, [SSocket AF_UNIX SOCK_STREAM 0; SSocket AF_UNIX SOCK_STREAM 0]).
Proof. vm_compute. reflexivity. Qed.

(** Descriptor 5 is a socket, descriptor 7 is not: it leaks. *)
Definition accept_example fd : Net TableKernel :=
  mkNet [set_sock 3 (new_Socket AF_INET SOCK_STREAM 0)]
    (mkHook true fds_example 0 [(fd, 0); (0, 0); (0, 0)] [] [] [] None) [(0, name_example, 16); (0, name_example, 16)] [] [].
Lemma accept_spec_witness :
  (exists s' y, Socket_accept 0 (accept_example 5) = Ok (Some 1%nat) s' /\ socks s' !! 1%nat = Some y /\
     m_sock y = 5 /\ m_Connected y = true) /\
  (exists s' h, Socket_accept 0 (accept_example 7) = Ok None s' /\
     hook_accept 3 (hook (accept_example 7)) = Ok 7 h /\ hook s' = h).
Proof.
  split.
  - assert (Hb : match Socket_accept 0 (accept_example 5)
      with Ok r s => Some (r, fmap m_sock (socks s)) | _ => None end = Some (Some 1%nat, [3; 5])) by (vm_compute; reflexivity).
    destruct (Socket_accept 0 (accept_example 5)) as [b s'| | | | |] eqn:E; try discriminate Hb. injection Hb as -> Hs.
    destruct (accept_spec 0 (accept_example 5) _ eq_refl _ s' E) as (fd & h & _ & _ & _ & _ & y & [Hs' _] & Hy & Hc & _).
    exists s', y. split; [done|]. rewrite Hs' in Hs |- *. split; [done|]. injection Hs as Hs. done.
  - assert (Hb : match Socket_accept 0 (accept_example 7)
      with Ok r s => Some (r, fmap m_sock (socks s)) | _ => None end = Some (None, [3; -1])) by (vm_compute; reflexivity).
    destruct (Socket_accept 0 (accept_example 7)) as [b s'| | | | |] eqn:E; try discriminate Hb. injection Hb as -> Hs.
    assert (Hf : match hook_accept 3 (hook (accept_example 7)) with Ok fd _ => Some fd | _ => None end = Some 7)
      by (vm_compute; reflexivity).
    destruct (accept_spec 0 (accept_example 7) _ eq_refl _ s' E) as (fd & h & Hh & _ & ->). cbn [m_sock set_sock] in Hh.
    rewrite Hh in Hf. injection Hf as ->. by eexists _, h.
Defined.

Lemma socket_invariant_witness :
  exists s', for_each apply_op [OConnect 0 peer_example NO_TIMEOUT (0, 0); OClose 0; OIo 0 F_send] connect_fails = Ok tt s' /\
    sockets_ok s' /\ evolves connect_fails s'.
Proof.
  assert (Hb : match for_each apply_op [OConnect 0 peer_example NO_TIMEOUT (0, 0); OClose 0; OIo 0 F_send] connect_fails
    with Ok _ _ => true | _ => false end = true) by (vm_compute; reflexivity).
  destruct (for_each apply_op _ connect_fails) as [[] s'| | | | |] eqn:E; try discriminate Hb.
  destruct (socket_invariant _ connect_fails s' ltac:(by repeat constructor) E) as (Hs & He & _).
  by exists s'.
Defined.
