(* ===== verification/TcpServer.v ===== *)
(** * The TCP server (server/TCPserver.h, TCPserver.cpp)

    A server over sockets and two pollers.  The pollers are schedulers given by
    the interface [TaskSink]; a callback is the number of a closure.  Shared
    ownership of sockets is a list of the pointers held outside [m_socks]: the
    last pointer that goes destroys the socket.  What other tasks do while a
    listener waits in [accept] is a list of computations, one for each turn. *)
From S2P Require Import Prelude.
From S2P Require Import Endian Text.
From S2P Require Import Address.
From S2P Require Import FdManager.
From S2P Require Scheduler EventPoller.
From S2P Require Import Hook.
From S2P Require Import Socket.

(** [class TcpServer] *)
Record TcpServer := mkTcpServer {
  m_running : bool; m_name : list Z; m_recvTimeout : Z; m_socks : list nat;
  m_worker : option nat; m_listener : option nat
}.
Definition set_running v t := mkTcpServer v (m_name t) (m_recvTimeout t) (m_socks t) (m_worker t) (m_listener t).
Definition set_socket_list v t := mkTcpServer (m_running t) (m_name t) (m_recvTimeout t) v (m_worker t) (m_listener t).
Definition TcpServer_setName v t := mkTcpServer (m_running t) v (m_recvTimeout t) (m_socks t) (m_worker t) (m_listener t).
Definition TcpServer_setRecvTimeout v t := mkTcpServer (m_running t) (m_name t) v (m_socks t) (m_worker t) (m_listener t).
Definition TcpServer_isStop t : bool := negb (m_running t).

(** [TcpServer(EventPoller* worker, EventPoller* listener)] *)
Definition new_TcpServer (worker listener : option nat) : TcpServer :=
  mkTcpServer false (text "test") (60 * 1000 * 2) [] worker listener.

(** What the server schedules, with the pointers that it captures. *)
Inductive closure :=
| StartListen (sock : nat)
| CloseAll
| HandleClient (client : nat).

Section server.
Context {K S : Type} `{KK : Kernel K} `{TG : Target} `{TS : EventPoller.TaskSink S}.

Record Srv := mkSrv {
  server : TcpServer;
  owned : bool;             (* a shared_ptr owns the server *)
  net : Net K;
  pollers : list S;
  closures : list closure;
  refs : list nat           (* pointers to sockets outside m_socks *)
}.
Definition set_server v s := mkSrv v (owned s) (net s) (pollers s) (closures s) (refs s).
Definition set_net v s := mkSrv (server s) (owned s) v (pollers s) (closures s) (refs s).
Definition set_refs v s := mkSrv (server s) (owned s) (net s) (pollers s) (closures s) v.
Abbreviation SM := (M Srv).
Definition on_net {A} (m : M (Net K) A) : SM A := fun s =>
  match m (net s) with
  | Ok a n => Ok a (set_net n s)
  | Throw e n => Throw e (set_net n s)
  | Abort => Abort
  | Ub => Ub
  | Deadlock => Deadlock
  | NoFuel => NoFuel
  end.
Definition update_server (f : TcpServer -> TcpServer) : SM unit := modify (fun s => set_server (f (server s)) s).
Definition shared_from_this : SM unit := fun s => if owned s then Ok tt s else Throw bad_weak_ptr s.

(** The pointers that a closure captures. *)
Definition captures (c : closure) : list nat :=
  match c with StartListen p | HandleClient p => [p] | CloseAll => [] end.
(** [poller->schedule(closure)] *)
Definition schedule (poller : option nat) (c : closure) : SM unit := fun s =>
  match poller with
  | None => Ub
  | Some i =>
      match pollers s !! i with
      | None => Ub
      | Some e => Ok tt (mkSrv (server s) (owned s) (net s)
          (<[i := EventPoller.sink_schedule (Scheduler.WCb (Some (Z.of_nat (length (closures s))))) e]> (pollers s))
          (closures s ++ [c]) (captures c ++ refs s))
      end
  end.

(** [m_socks.clear()]: a socket without other pointers is destroyed. *)
Definition release (p : nat) : SM unit := fun s =>
  if bool_decide (p ∈ refs s) then Ok tt s else on_net (Socket_destroy p) s.
Definition clear_socks : SM unit :=
  l <-- gets (fun s => m_socks (server s)) ;;
  for_each release l ;;; update_server (set_socket_list []).
(** A pointer outside [m_socks] goes. *)
Fixpoint drop_pointer (p : nat) (l : list nat) : list nat :=
  match l with [] => [] | q :: l => if decide (q = p) then l else q :: drop_pointer p l end.
Definition unref (p : nat) : SM unit := fun s =>
  let s := set_refs (drop_pointer p (refs s)) s in
  if bool_decide (p ∈ m_socks (server s)) then Ok tt s else release p s.

(** ** Binding *)

(** The body of the loop of [bind]: whether the address is in use. *)
Definition bind_one (addr : Address) (so_error : Z * Z) : SM bool :=
  sock <-- on_net (Socket_CreateTCP addr) ;;
  b <-- on_net (Socket_bind sock addr so_error) ;;
  if negb b then on_net (log_address addr) ;;; on_net (Socket_destroy sock) ;;; mreturn false else
  b <-- on_net (Socket_listen sock SOMAXCONN) ;;
  if negb b then on_net (log_address addr) ;;; on_net (Socket_destroy sock) ;;; mreturn false else
  update_server (fun t => set_socket_list (m_socks t ++ [sock]) t) ;;;
  mreturn true.
(** [fails] and [failFlag] are the accumulator. *)
Definition bind_step (acc : list Address * bool) (a : Address * (Z * Z)) : SM (list Address * bool) :=
  ok <-- bind_one a.1 a.2 ;;
  mreturn (if ok : bool then acc else (acc.1 ++ [a.1], true)).
(** [bind(addrs, fails, ssl)]: the result and [fails] *)
Definition TcpServer_bind_all (addrs : list (Address * (Z * Z))) (fails : list Address) : SM (bool * list Address) :=
  r <-- fold_each bind_step addrs (fails, false) ;;
  if r.2 : bool then clear_socks ;;; mreturn (false, r.1) else
  l <-- gets (fun s => m_socks (server s)) ;;
  for_each (fun p => on_net (Socket_toString p) ;;; mreturn tt) l ;;;
  mreturn (true, r.1).
(** [bind(addr, ssl)] *)
Definition TcpServer_bind (addr : Address) (so_error : Z * Z) : SM bool :=
  r <-- TcpServer_bind_all [(addr, so_error)] [] ;; mreturn r.1.

(** ** Starting and stopping *)

(** [start()] up to its end, where it returns nothing: [true] is the early
    return. *)
Definition start_body : SM bool :=
  t <-- gets server ;;
  if m_running t then mreturn true else
  update_server (set_running true) ;;;
  shared_from_this ;;;
  for_each (fun sock => schedule (m_listener t) (StartListen sock)) (m_socks t) ;;;
  mreturn false.
Definition TcpServer_start : SM bool :=
  returned <-- start_body ;; if returned : bool then mreturn true else ub.

Definition TcpServer_stop : SM unit :=
  update_server (set_running false) ;;;
  shared_from_this ;;;
  t <-- gets server ;;
  schedule (m_listener t) CloseAll.
(** The closure that [stop] schedules. *)
Definition close_all : SM unit :=
  l <-- gets (fun s => m_socks (server s)) ;;
  for_each (fun p => on_net (Socket_cancelAll p) ;;; on_net (Socket_close p) ;;; mreturn tt) l ;;;
  clear_socks.

(** [~TcpServer()] *)
Definition TcpServer_destroy : SM unit :=
  l <-- gets (fun s => m_socks (server s)) ;;
  for_each (fun p => on_net (Socket_close p) ;;; mreturn tt) l ;;;
  clear_socks.

(** ** Clients *)

(** A turn of the loop of [startListen]. *)
Definition listen_turn (sock : nat) : SM unit :=
  client <-- on_net (Socket_accept sock) ;;
  match client with
  | Some client =>
      t <-- gets server ;;
      on_net (Socket_setRecvTimeout client (i64 (m_recvTimeout t))) ;;;
      schedule (m_worker t) (HandleClient client)
  | None => mreturn tt
  end.
(** [while(m_running)]; [others] run while [accept] waits. *)
Fixpoint listen_loop (others : list (SM unit)) (sock : nat) : SM unit :=
  t <-- gets server ;;
  if negb (m_running t) then mreturn tt else
  match others with
  | [] => nofuel
  | o :: others => o ;;; listen_turn sock ;;; listen_loop others sock
  end.
Definition TcpServer_startListen (others : list (SM unit)) (sock : nat) : SM unit :=
  shared_from_this ;;; listen_loop others sock.
(** [handleClient(client)] prints the kind of the server. *)
Definition TcpServer_handleClient (client : nat) : SM unit := mreturn tt.

(** The scheduler runs a closure, and drops what it captured. *)
Definition run_closure (others : list (SM unit)) (c : closure) : SM unit :=
  match c with
  | StartListen sock => TcpServer_startListen others sock ;;; unref sock
  | CloseAll => close_all
  | HandleClient client => TcpServer_handleClient client ;;; unref client
  end.
End server.
Arguments Srv K S : clear implicits.
