(* ===== verification/TcpServerFacts.v ===== *)
(** * Facts about the TCP server

    [bind] of several addresses, with [listen] on each socket, is all or nothing;
    what [start] and [stop] hand to the listener's poller, against the interface of
    schedulers; when the closure of [stop] is undefined, when it returns, and what
    it closes. *)
From S2P Require Import Prelude.
From S2P Require Import Endian Text.
From S2P Require Import Address.
From S2P Require Import FdManager.
From S2P Require Scheduler EventPoller EventPollerFacts.
From S2P Require Import Hook.
From S2P Require Import HookFacts.
From S2P Require Import Socket SocketFacts.
From S2P Require Import TcpServer.

Section server_facts.
Context {K S : Type} `{KK : Kernel K} `{TG : Target} `{TS : EventPoller.TaskSink S, TL : !EventPoller.TaskSinkLaws S}.
Abbreviation Srv := (Srv K S).
Implicit Types (s : Srv) (p : nat) (x : Socket).

Lemma ensures_net {A} (m : M (Net K) A) s Q :
  ensures m (net s) Q -> ensures (on_net m) s (fun a s' => exists n, Q a n /\ s' = set_net n s).
Proof.
  intros Hm a s' H. unfold on_net in H. destruct (m (net s)) eqn:E; try done. injection H as <- <-.
  eexists. split; [by apply Hm|done].
Qed.
(** The effect of a call on sockets: their list. *)
Lemma ensures_socks {A} (m : M (Net K) A) s (Q : A -> list Socket -> Prop) :
  ensures m (net s) (fun a n => Q a (socks n)) ->
  ensures (on_net m) s (fun a s' => Q a (socks (net s')) /\ exists n, s' = set_net n s).
Proof. intros Hm. eapply ensures_weaken; [by apply ensures_net|]. cbn. intros a s' (n & HQ & ->). by eauto. Qed.

(** ** Closing many sockets *)

(** The sockets [ps] are closed. *)
Definition shut (ps : list nat) (l : list Socket) : list Socket :=
  imap (fun i x => if bool_decide (i ∈ ps) then closed x else x) l.

Lemma shut_lookup ps l p : shut ps l !! p = (fun x => if bool_decide (p ∈ ps) then closed x else x) <$> l !! p.
Proof. apply list_lookup_imap. Qed.
Lemma shut_nil l : shut [] l = l.
Proof. apply list_eq. intros p. rewrite shut_lookup. by destruct (l !! p). Qed.
Lemma shut_snoc ps l p x : shut ps l !! p = Some x -> <[p := closed x]> (shut ps l) = shut (ps ++ [p]) l.
Proof.
  intros Hp. pose proof (lookup_lt_Some _ _ _ Hp) as Hlt. apply list_eq. intros q.
  rewrite shut_lookup. destruct (decide (q = p)) as [->|Hne].
  - rewrite list_lookup_insert_eq by done. rewrite shut_lookup in Hp. destruct (l !! p) as [y|]; [|done].
    injection Hp as <-. cbn. rewrite (bool_decide_true (p ∈ ps ++ [p])) by set_solver. by case_bool_decide.
  - rewrite list_lookup_insert_ne by done. rewrite shut_lookup. destruct (l !! q) as [y|]; [cbn|done].
    f_equal. destruct (decide (q ∈ ps)) as [Hq|Hq].
    + by rewrite !bool_decide_true by set_solver.
    + by rewrite !bool_decide_false by set_solver.
Qed.

(** Everything but the sockets and the list of the server. *)
Definition frame s s' : Prop :=
  owned s' = owned s /\ pollers s' = pollers s /\ closures s' = closures s /\ refs s' = refs s.

Lemma after_release p s :
  ensures (release p) s (fun _ s' => exists n, s' = set_net n s /\
    (p ∈ refs s -> socks n = socks (net s)) /\
    (p ∉ refs s -> exists x, socks (net s) !! p = Some x /\ socks n = <[p := closed x]> (socks (net s)))).
Proof.
  intros u s'. unfold release. case_bool_decide as Hr.
  - intros [= _ <-]. exists (net s). by destruct s.
  - intros H. unfold on_net in H. destruct (Socket_destroy p (net s)) as [[] n| | | | |] eqn:E; try done.
    injection H as _ <-. exists n. split; [done|]. split; [done|]. intros _.
    destruct (socks (net s) !! p) as [x|] eqn:Hx.
    + exists x. split; [done|]. by apply (after_destroy p (net s) x Hx tt n E).
    + exfalso. unfold Socket_destroy, Socket_close, bind, this, deref in E. by rewrite Hx in E.
Qed.

(** [clear] closes what nobody else holds. *)
Lemma after_clear s :
  ensures clear_socks s (fun _ s' => exists n, s' = set_server (set_socket_list [] (server s)) (set_net n s) /\
    socks n = shut (filter (fun p => p ∉ refs s) (m_socks (server s))) (socks (net s))).
Proof.
  eapply ensures_bind; [by apply (ensures_gets _ _ (fun l s' => l = m_socks (server s) /\ s' = s))|]. cbn.
  intros l s0 [-> ->]. eapply ensures_bind.
  - apply (ensures_for_each _ (fun ps s' => exists n, s' = set_net n s /\
      socks n = shut (filter (fun p => p ∉ refs s) ps) (socks (net s)))).
    + exists (net s). split; [by destruct s|]. by rewrite shut_nil.
    + intros ps p s1 (n & -> & Hn) _. eapply ensures_weaken; [apply after_release|]. cbn.
      intros _ s2 (n2 & -> & Hin & Hout). exists n2. split; [done|]. rewrite filter_app.
      destruct (decide (p ∈ refs s)) as [Hp|Hp].
      * rewrite (Hin Hp), Hn, filter_cons_False, app_nil_r by tauto. done.
      * destruct (Hout Hp) as (x & Hx & ->). rewrite Hn in *. rewrite filter_cons_True by done.
        by rewrite filter_nil, (shut_snoc _ _ _ x).
  - cbn. intros _ s1 (n & -> & Hn). apply ensures_modify. by exists n.
Qed.

(** ** Binding *)

(** A socket that [bind] made for the address. *)
Definition serves (a : Address) x : Prop := m_sock x <> -1 /\ m_family x = getFamily a /\ m_type x = SOCK_STREAM.
Definition descriptor_free x : Prop := m_sock x = -1.

(** What [listen] does with the descriptor [fd] and answers: [true] exactly when
    the call answers 0. *)
Definition listens fd (ok : bool) (n n' : Net K) : Prop :=
  socks n' = socks n /\ acts n' = acts n ++ [SListen fd SOMAXCONN] /\
  exists r, fun_f (hook n) = Ok r (hook n') /\ ok = (r =? 0).

Lemma after_listen p x (n : Net K) :
  socks n !! p = Some x -> m_sock x <> -1 ->
  ensures (Socket_listen p SOMAXCONN) n (fun ok n' => listens (m_sock x) ok n n').
Proof.
  intros Hx Hv. eapply ensures_bind; [apply after_this|]. cbn. intros y n1 [-> Hy]. simplify_eq.
  unfold isValid. rewrite (proj2 (Z.eqb_neq _ _) Hv). cbn [negb].
  eapply ensures_bind with (Q := fun _ n' => hook n' = hook n /\ effect (socks n) (acts n ++ [SListen (m_sock x) SOMAXCONN]) n');
    [by intros u n2 [= _ <-]|]. cbn. intros _ n2 (Hh & Hs & Ha).
  eapply ensures_bind; [apply after_hook|]. cbn. intros r n3 [Hr ->]. apply ensures_return. rewrite Hh in Hr.
  split_and!; [exact Hs|exact Ha|by exists r].
Qed.

Lemma probed_free a so (n : Net K) free l t : probed a so n free l t -> Forall descriptor_free l.
Proof.
  destruct a; cbn; [intros (_ & -> & _); by constructor..| |intros (_ & -> & _); by constructor].
  intros (fd & y & _ & -> & Hy & _). by repeat constructor.
Qed.

(** [bind] on a new socket of the family of the address. *)
Lemma after_bind_new p (n : Net K) a so_error pr :
  socks n !! p = Some (new_Socket (getFamily a) SOCK_STREAM pr) ->
  ensures (Socket_bind p a so_error) n (fun b n' => exists x l,
    socks n' = <[p := x]> (socks n) ++ l /\ Forall descriptor_free l /\ (b = true -> serves a x)).
Proof.
  intros Hx. eapply ensures_weaken; [by apply after_bind_op|]. cbn.
  intros b n' (v & n1 & fd & pre & _ & _ & Hcase). set (z := set_sock fd _) in *.
  destruct (decide _) as [[Hfd _]|_].
  - destruct Hcase as (free & n2 & l & t & _ & Hl%probed_free & Hcase). destruct free.
    + destruct Hcase as (r & x' & _ & _ & [Hs _] & Hk). exists x', l. split; [done|]. split; [done|]. intros _.
      assert (serves a z) by done. destruct Hk as [->|[m ->]]; [done|]. unfold known_local. by destruct (m_localAddress z).
    + destruct Hcase as [-> [Hs _]]. by exists z, l.
  - destruct Hcase as [-> [Hs _]]. exists z, []. by rewrite app_nil_r.
Qed.

Lemma after_drop (addr : Address) p s x :
  socks (net s) !! p = Some x ->
  ensures (on_net (log_address addr) ;;; on_net (Socket_destroy p) ;;; mreturn false) s
    (fun b s' => b = false /\ exists n, s' = set_net n s /\
      effect (<[p := closed x]> (socks (net s))) (acts (net s)) n).
Proof.
  intros Hx. eapply ensures_bind; [apply (ensures_net _ s), after_address|]. cbn. intros _ s1 (n & -> & ->).
  eapply ensures_bind; [apply (ensures_net _ (set_net _ s)); by apply (after_destroy p (net s) x)|]. cbn.
  intros _ s2 (n & Hn & ->). apply ensures_return. split; [done|]. by exists n.
Qed.

(** The outcome [ok] of an address: a new socket of the address is bound to it,
    and when that succeeds it listens. *)
Definition tried a so_error (n n' : Net K) (ok : bool) : Prop :=
  let p := length (socks n) in
  exists b n1, Socket_bind p a so_error (set_socks (socks n ++ [new_Socket (getFamily a) SOCK_STREAM 0]) n) = Ok b n1 /\
    if b then exists x n2, socks n1 !! p = Some x /\ serves a x /\ listens (m_sock x) ok n1 n2 /\ acts n' = acts n2
    else ok = false.

(** One address: the new socket serves it, or everything new is closed. *)
Lemma after_bind_one a so_error s :
  let p := length (socks (net s)) in
  ensures (bind_one a so_error) s (fun ok s' => tried a so_error (net s) (net s') ok /\ exists n x l,
    s' = set_server (if ok : bool then set_socket_list (m_socks (server s) ++ [p]) (server s) else server s) (set_net n s) /\
    socks n = socks (net s) ++ x :: l /\ Forall descriptor_free l /\
    if ok then serves a x else descriptor_free x).
Proof.
  intros p. set (z := new_Socket (getFamily a) SOCK_STREAM 0). set (n1 := set_socks (socks (net s) ++ [z]) (net s)).
  eapply ensures_bind with (Q := fun q s1 => q = p /\ s1 = set_net n1 s); [by intros q s1 [= <- <-]|].
  cbn. intros q s1 [-> ->].
  assert (Hq : socks n1 !! p = Some z) by (cbn; unfold p; rewrite lookup_app_r, Nat.sub_diag by done; done).
  eapply ensures_bind; [apply (ensures_net _ (set_net n1 s)), ensures_self; by apply (after_bind_new _ n1 a so_error 0)|]. cbn.
  intros b s2 (n2 & (Hbind & x & l & H2 & Hl & Hb) & ->).
  assert (Hs2 : socks n2 = socks (net s) ++ x :: l)
    by (rewrite H2; cbn; unfold p; by rewrite insert_last, <- app_assoc).
  assert (Hx : socks n2 !! p = Some x) by (rewrite Hs2, lookup_app_r, Nat.sub_diag by done; done).
  assert (Hfalse : forall (n : Net K) s3, socks n = socks n2 ->
    (exists n', s3 = set_net n' (set_net n s) /\ effect (<[p := closed x]> (socks n)) (acts n) n') -> exists n' x' l,
      s3 = set_server (server s) (set_net n' s) /\ socks n' = socks (net s) ++ x' :: l /\
      Forall descriptor_free l /\ descriptor_free x').
  { intros n s3 Hn (n' & -> & Hn' & _). exists n', (closed x), l. rewrite Hn', Hn, Hs2. unfold p.
    rewrite insert_app_r_alt, Nat.sub_diag by done. by destruct s. }
  destruct b; cbn [negb].
  2: { eapply ensures_weaken; [by apply (after_drop a p (set_net n2 s) x)|]. cbn. intros _ s3 [-> H3].
       split; [by exists false, n2|]. by apply (Hfalse n2). }
  destruct (Hb eq_refl) as [Hfd Hserves].
  eapply ensures_bind; [apply (ensures_net _ (set_net n2 s)); by apply (after_listen p x)|]. cbn.
  intros b s3 (n3 & Hlisten & ->). pose proof (proj1 Hlisten) as H3.
  destruct b; cbn [negb].
  2: { eapply ensures_weaken; [apply (after_drop a p (set_net n3 s) x); cbn; by rewrite H3|]. cbn.
       intros _ s4 [-> (n4 & -> & H4)]. split; [exists true, n2; split; [done|]; exists x, n3; by destruct H4|].
       apply (Hfalse n3); [done|by exists n4]. }
  eapply ensures_bind; [apply (ensures_modify _ _ (fun _ s' => s' =
    set_server (set_socket_list (m_socks (server s) ++ [p]) (server s)) (set_net n3 s))); done|].
  cbn. intros _ s4 ->. apply ensures_return. split; [exists true, n2; split; [done|]; by exists x, n3|].
  exists n3, x, l. rewrite H3. by split_and!.
Qed.

(** The outcomes of the loop of [bind], address by address. *)
Inductive binds : list (Address * (Z * Z)) -> Srv -> list bool -> Srv -> Prop :=
| binds_nil s : binds [] s [] s
| binds_cons a l ok oks s s1 s2 :
    bind_one a.1 a.2 s = Ok ok s1 -> tried a.1 a.2 (net s) (net s1) ok -> binds l s1 oks s2 -> binds (a :: l) s (ok :: oks) s2.
(** The addresses with an outcome. *)
Fixpoint with_outcome (ok : bool) (addrs : list (Address * (Z * Z))) (oks : list bool) : list Address :=
  match addrs, oks with
  | a :: addrs, o :: oks => if Bool.eqb o ok then a.1 :: with_outcome ok addrs oks else with_outcome ok addrs oks
  | _, _ => []
  end.

Lemma fold_binds addrs acc s r s' :
  fold_each bind_step addrs acc s = Ok r s' ->
  exists oks, binds addrs s oks s' /\
    r = (acc.1 ++ with_outcome false addrs oks, acc.2 || negb (forallb id oks)).
Proof.
  revert acc s. induction addrs as [|a addrs IH]; intros acc s Hf.
  - injection Hf as <- <-. exists []. split; [constructor|]. cbn. rewrite app_nil_r, orb_false_r. by destruct acc.
  - apply (bind_Ok_inv (bind_step acc a) (fold_each bind_step addrs)) in Hf as (acc1 & s1 & Hb & Hf).
    apply bind_Ok_inv in Hb as (ok & s1' & Ho & [= <- <-]).
    destruct (IH _ _ Hf) as (oks & Hbs & ->). exists (ok :: oks).
  split; [econstructor; [exact Ho|by apply (after_bind_one _ _ _ _ _ Ho)|exact Hbs]|].
    destruct ok; cbn; [done|]. by rewrite <- app_assoc, orb_true_r.
Qed.

Lemma binds_effect addrs s oks s' :
  binds addrs s oks s' -> exists ps l n,
    s' = set_server (set_socket_list (m_socks (server s) ++ ps) (server s)) (set_net n s) /\
    socks n = socks (net s) ++ l /\
    (forall i x, l !! i = Some x -> m_sock x = -1 \/ (length (socks (net s)) + i)%nat ∈ ps) /\
    Forall2 (fun a p => exists x, socks n !! p = Some x /\ serves a x) (with_outcome true addrs oks) ps.
Proof.
  induction 1 as [s|a addrs ok oks s s1 s2 Hone _ _ (ps & l & n & -> & Hn & Hl & Hps)].
  { exists [], [], (net s). rewrite !app_nil_r. split_and!; [by destruct s as [[] ]|done|done|constructor]. }
  destruct (after_bind_one _ _ _ _ _ Hone) as (_ & n1 & x & l1 & -> & Hn1 & Hl1 & Hx). cbn [net set_net set_server server] in *.
  set (p := length (socks (net s))) in *. rewrite Hn1, <- app_assoc in Hn.
  exists (if ok then p :: ps else ps), (x :: l1 ++ l), n. split_and!.
  - destruct ok; cbn; [|done]. by rewrite <- app_assoc.
  - exact Hn.
  - assert (Htail : forall i y, (l1 ++ l) !! i = Some y -> m_sock y = -1 \/ (p + Datatypes.S i)%nat ∈ ps).
    { intros i y [Hy|[Hge Hy]]%lookup_app_Some; [left; by apply (Forall_lookup_1 _ _ _ _ Hl1 Hy)|].
      destruct (Hl _ _ Hy) as [?|Hin]; [by left|right]. rewrite Hn1, length_app in Hin. cbn in Hin. fold p in Hin.
      by replace (p + Datatypes.S i)%nat with (p + Datatypes.S (length l1) + (i - length l1))%nat by lia. }
    intros [|i] y Hy.
    + injection Hy as <-. destruct ok; [right|by left]. rewrite Nat.add_0_r. by left.
    + destruct (Htail i y Hy) as [?|?]; [by left|right]. destruct ok; [by right|done].
  - destruct ok; cbn; [|done]. constructor; [|done]. exists x. split; [|done].
    rewrite Hn, lookup_app_r, Nat.sub_diag by done. done.
Qed.

Lemma with_outcome_all addrs oks s s' :
  binds addrs s oks s' -> forallb id oks = true -> with_outcome true addrs oks = addrs.*1.
Proof.
  induction 1 as [|a addrs ok oks s s1 s2 _ _ _ IH]; [done|]. cbn. destruct ok; [|done]. intros Hall. by rewrite (IH Hall).
Qed.

Lemma after_toString p (n : Net K) : ensures (Socket_toString p) n (fun _ n' => n' = n).
Proof.
  assert (Ht : forall a, ensures (address_text a) n (fun _ n' => n' = n)).
  { intros a r n'. unfold address_text. destruct (Address_toString a tt); try done. by intros [= _ <-]. }
  eapply ensures_bind; [apply after_this|]. cbn. intros x n1 [-> _].
  eapply ensures_bind with (Q := fun _ n' => n' = n).
  { destruct (m_localAddress x); [|by apply ensures_return].
    eapply ensures_bind; [apply Ht|]. cbn. intros r n1 ->. by apply ensures_return. }
  cbn. intros l n1 ->. eapply ensures_bind with (Q := fun _ n' => n' = n).
  { destruct (m_remoteAddress x); [|by apply ensures_return].
    eapply ensures_bind; [apply Ht|]. cbn. intros r n1 ->. by apply ensures_return. }
  cbn. intros r n1 ->. by apply ensures_return.
Qed.

(** C19 (binding a server): [bind] makes a socket for each address and binds it;
    when that answers [true] it calls [listen] on the socket's descriptor; the
    address is served when both succeed and refused otherwise.  [bind] answers
    [true] exactly when every address is served; then the server has gained one socket for each
    address, in order, of the family of the address and with a descriptor.
    Otherwise [fails] has gained exactly the refused addresses, the server has
    no socket at all, not even those of earlier calls, and every socket that was
    the server's or that the call made is closed, unless someone else holds it. *)
Theorem server_bind_spec addrs fails s b fails' s' :
  TcpServer_bind_all addrs fails s = Ok (b, fails') s' ->
  exists oks s1 ps n, binds addrs s oks s1 /\ b = forallb id oks /\
    fails' = fails ++ with_outcome false addrs oks /\
    s' = set_server (set_socket_list (if b then m_socks (server s) ++ ps else []) (server s)) (set_net n s) /\
    if b then Forall2 (fun a p => exists x, socks n !! p = Some x /\ serves a x) addrs.*1 ps
    else forall p x, socks n !! p = Some x -> p ∉ refs s ->
      p ∈ m_socks (server s) \/ (length (socks (net s)) <= p)%nat -> m_sock x = -1.
Proof.
  intros Hb. apply bind_Ok_inv in Hb as ([fs flag] & s1 & Hf & Hrest).
  apply fold_binds in Hf as (oks & Hbs & [= -> ->]). destruct (binds_effect _ _ _ _ Hbs) as (ps & l & n & Hs1 & Hn & Hl & Hps).
  exists oks, s1, ps. cbn [fst snd orb] in Hrest. destruct (forallb id oks) eqn:Hall; cbn [negb] in Hrest.
  - exists n. apply bind_Ok_inv in Hrest as (l' & s2 & [= <- <-] & Hrest).
    apply bind_Ok_inv in Hrest as (u & s3 & Hfor & [= <- <- <-]).
    assert (Hs3 : s3 = s1).
    { revert u s3 Hfor. apply (ensures_for_each _ (fun _ s' => s' = s1)); [done|]. intros done0 p s2 -> _.
      eapply ensures_bind; [apply (ensures_net _ s1), after_toString|]. cbn. intros _ s3 (n' & -> & ->).
      apply ensures_return. by destruct s1. }
    subst s3. split_and!; [done..|]. by rewrite <- (with_outcome_all _ _ _ _ Hbs Hall).
  - apply bind_Ok_inv in Hrest as (u & s2 & Hc & [= <- <- <-]). apply after_clear in Hc as (n2 & -> & Hn2).
    subst s1. cbn [server net refs set_server set_net m_socks set_socket_list] in *.
    exists n2. split_and!; [done..|]. intros p x Hx Hr Hp. rewrite Hn2, shut_lookup in Hx.
    destruct (socks n !! p) as [y|] eqn:Hy; [|done]. injection Hx as <-. case_bool_decide as Hin; [done|].
    assert (Hnot : p ∉ m_socks (server s) ++ ps) by (intros Hm; apply Hin; by apply list_elem_of_filter).
    apply not_elem_of_app in Hnot as [Hm Hnp]. destruct Hp as [?|Hge]; [done|].
    rewrite Hn, lookup_app_r in Hy by done. destruct (Hl _ _ Hy) as [?|Hin']; [done|].
    by replace (length (socks (net s)) + (p - length (socks (net s))))%nat with p in Hin' by lia.
Qed.

(** ** Starting and stopping *)

(** The callback number [id], as it waits in a poller. *)
Definition callback_task (id : nat) : Scheduler.FiberTask :=
  Scheduler.FiberTask_of (Scheduler.WCb (Some (Z.of_nat id))) (-1).
(** [s'] has scheduled the closures [cs] on the poller [i], in order. *)
Definition scheduled (i : nat) (cs : list closure) s s' : Prop :=
  closures s' = closures s ++ cs /\ length (pollers s') = length (pollers s) /\
  (forall j, j <> i -> pollers s' !! j = pollers s !! j) /\
  forall e, pollers s !! i = Some e -> exists e', pollers s' !! i = Some e' /\
    EventPoller.sink_tasks e' = EventPoller.sink_tasks e ++ (callback_task <$> seq (length (closures s)) (length cs)).

Lemma schedule_run i c s e :
  pollers s !! i = Some e ->
  exists s', schedule (Some i) c s = Ok tt s' /\ scheduled i [c] s s' /\ server s' = server s /\
    owned s' = owned s /\ net s' = net s /\ refs s' = captures c ++ refs s.
Proof.
  intros He. pose proof (lookup_lt_Some _ _ _ He) as Hi. unfold schedule. rewrite He. eexists. split; [done|].
  split_and!; [|done..]. split; [done|]. split_and!; cbn.
  - by rewrite length_insert.
  - intros j Hj. by rewrite list_lookup_insert_ne.
  - intros e0 He0. simplify_eq. eexists. rewrite list_lookup_insert_eq by done. split; [done|].
    rewrite EventPoller.sink_schedule_law. done.
Qed.

Lemma scheduled_nil i s : scheduled i [] s s.
Proof. split; [by rewrite app_nil_r|]. split_and!; [done..|]. intros e He. exists e. by rewrite app_nil_r. Qed.
Lemma scheduled_app i cs1 cs2 s s1 s2 : scheduled i cs1 s s1 -> scheduled i cs2 s1 s2 -> scheduled i (cs1 ++ cs2) s s2.
Proof.
  intros (C1 & L1 & O1 & E1) (C2 & L2 & O2 & E2). unfold scheduled. split_and!.
  - by rewrite C2, C1, <- app_assoc.
  - congruence.
  - intros j Hj. by rewrite O2, O1.
  - intros e He. destruct (E1 e He) as (e1 & He1 & T1). destruct (E2 e1 He1) as (e2 & He2 & T2).
    exists e2. split; [done|]. rewrite T2, T1, C1, !length_app, seq_app, fmap_app, <- app_assoc. done.
Qed.

Lemma schedule_all i s e (f : nat -> closure) l :
  pollers s !! i = Some e ->
  exists s', for_each (fun p => schedule (Some i) (f p)) l s = Ok tt s' /\ scheduled i (f <$> l) s s' /\
    server s' = server s /\ owned s' = owned s /\ net s' = net s.
Proof.
  revert s e. induction l as [|p l IH]; intros s e He.
  - exists s. split_and!; try done. apply scheduled_nil.
  - destruct (schedule_run i (f p) s e He) as (s1 & H1 & Hs1 & Hv & Ho & Hn & _).
    destruct (proj2 (proj2 (proj2 Hs1)) e He) as (e1 & He1 & _).
    destruct (IH s1 e1 He1) as (s2 & H2 & Hs2 & Hv2 & Ho2 & Hn2). exists s2. split_and!; try congruence.
    + cbn [for_each]. by rewrite (bind_Ok _ _ _ _ _ H1).
    + by apply (scheduled_app i [f p] _ s s1).
Qed.

(** Starting a server: on a running server [start] answers [true] and does
    nothing.  Otherwise it sets the server running and hands its listener's
    poller exactly one listening closure for each socket, in order, after what
    waited there; and then it runs off its end without an answer, which is
    undefined.  A server that no shared pointer owns is set running, and then
    the call throws. *)
Theorem server_start_spec i s e :
  m_listener (server s) = Some i -> pollers s !! i = Some e ->
  (m_running (server s) = true -> TcpServer_start s = Ok true s) /\
  (m_running (server s) = false -> owned s = true ->
     TcpServer_start s = Ub /\
     exists s', start_body s = Ok false s' /\ scheduled i (StartListen <$> m_socks (server s)) s s' /\
       server s' = set_running true (server s) /\ net s' = net s) /\
  (m_running (server s) = false -> owned s = false ->
     exists s', TcpServer_start s = Throw bad_weak_ptr s' /\ m_running (server s') = true /\ closures s' = closures s).
Proof.
  intros Hi He. unfold TcpServer_start. split_and!.
  - intros Hr. unfold start_body, bind, gets. by rewrite Hr.
  - intros Hr Ho. set (s0 := set_server (set_running true (server s)) s).
    destruct (schedule_all i s0 e StartListen (m_socks (server s)) He) as (s' & Hrun & Hs & Hv & _ & Hn).
    assert (Hbody : start_body s = Ok false s').
    { unfold start_body. rewrite (bind_Ok (gets server) _ s (server s) s eq_refl), Hr.
      rewrite (bind_Ok (update_server _) _ s tt s0 eq_refl). unfold shared_from_this.
      rewrite (bind_Ok _ _ s0 tt s0) by (cbn; by rewrite Ho).
      rewrite Hi. by rewrite (bind_Ok _ _ s0 tt s' Hrun). }
    split; [by rewrite (bind_Ok _ _ _ _ _ Hbody)|]. by exists s'.
  - intros Hr Ho. set (s0 := set_server (set_running true (server s)) s). exists s0. split; [|done].
    apply bind_Throw. unfold start_body. rewrite (bind_Ok (gets server) _ s (server s) s eq_refl), Hr.
    rewrite (bind_Ok (update_server _) _ s tt s0 eq_refl). apply bind_Throw. unfold shared_from_this. cbn. by rewrite Ho.
Qed.

Lemma after_cancelAll p (n : Net K) : ensures (Socket_cancelAll p) n (fun _ n' => socks n' = socks n).
Proof.
  eapply ensures_bind; [apply after_this|]. cbn. intros x n1 [-> _].
  eapply ensures_bind; [apply after_hook_effect|]. cbn. intros _ n1 [H1 _].
  eapply ensures_bind; [apply after_act|]. cbn. intros _ n2 [H2 _].
  eapply ensures_bind with (Q := fun _ n' => socks n' = socks n).
  { intros b n3. unfold cancel_answer. destruct (cancels n2); [done|]. intros [= _ <-]. cbn. congruence. }
  cbn. intros b n3 H3. eapply ensures_weaken; [apply after_hook_effect|]. cbn. intros r n4 [H4 _]. congruence.
Qed.
(** [close_all] closes every socket of the server, whoever else holds it. *)
Lemma after_close_all s :
  ensures close_all s (fun _ s' => exists n, s' = set_server (set_socket_list [] (server s)) (set_net n s) /\
    socks n = shut (m_socks (server s)) (socks (net s))).
Proof.
  eapply ensures_bind; [by apply (ensures_gets _ _ (fun l s' => l = m_socks (server s) /\ s' = s))|]. cbn.
  intros l s0 [-> ->]. eapply ensures_bind.
  - apply (ensures_for_each _ (fun ps s' => exists n, s' = set_net n s /\ socks n = shut ps (socks (net s)))).
    + exists (net s). split; [by destruct s|]. by rewrite shut_nil.
    + intros ps p s1 (n & -> & Hn) _.
      eapply ensures_bind; [apply (ensures_net _ (set_net n s)), after_cancelAll|].
      cbn. intros b s2 (n1 & Hn1 & ->). destruct (socks n1 !! p) as [x|] eqn:Hx.
      * eapply ensures_bind; [apply (ensures_net _ (set_net n1 s)); by apply (after_close p n1 x)|]. cbn.
        intros b2 s3 (n2 & [[Hn2 _] _] & ->). apply ensures_return. exists n2. split; [done|].
        rewrite Hn2. rewrite Hn1, Hn in *. by apply shut_snoc.
      * intros u s3 H3. apply bind_Ok_inv in H3 as (b3 & s4 & H4 & _). unfold on_net in H4. cbn in H4.
        unfold Socket_close, bind, this, deref in H4. by rewrite Hx in H4.
  - cbn. intros _ s1 (n & -> & Hn). eapply ensures_weaken; [apply after_clear|]. cbn.
    intros _ s2 (n2 & -> & Hn2). exists n2. split; [done|]. rewrite Hn2, Hn. apply list_eq. intros p.
    rewrite !shut_lookup. destruct (socks (net s) !! p) as [x|]; [cbn|done]. f_equal.
    case_bool_decide as H1; case_bool_decide as H2; try done.
    apply list_elem_of_filter in H1 as [_ H1]. by destruct (H2 H1).
Qed.

(** The loop of the closure, over sockets that it can cancel and close. *)
Lemma close_loop_run t ps s :
  NoDup ps -> Forall (fun p => exists x, socks (net s) !! p = Some x /\ listener t x) ps ->
  supplied t (length ps) (net s) ->
  exists n, for_each (fun p => on_net (Socket_cancelAll p) ;;; on_net (Socket_close p) ;;; mreturn tt) ps s
              = Ok tt (set_net n s) /\
    forall p, socks n !! p = (fun x => if bool_decide (p ∈ ps) then closed x else x) <$> socks (net s) !! p.
Proof.
  revert s. induction ps as [|p ps IH]; intros s Hnd Hall Hsup.
  { exists (net s). split; [by destruct s|]. intros p. by destruct (socks (net s) !! p). }
  apply NoDup_cons in Hnd as [Hnot Hnd]. apply Forall_cons in Hall as [(x & Hx & Hl) Hall].
  destruct (cancel_close_run t _ p (net s) x Hx Hl Hsup) as (n1 & Hrun & Hs1 & Hsup1).
  apply bind_Ok_inv in Hrun as (b & n0 & H0 & Hrun). apply bind_Ok_inv in Hrun as (b1 & n1' & H1 & [= <-]).
  destruct (IH (set_net n1' s) Hnd) as (n & Hn & Hsn).
  - cbn [net set_net]. rewrite Hs1. apply Forall_forall. intros q Hq.
    destruct (proj1 (Forall_forall _ _) Hall q Hq) as (y & Hy & Hly). exists y. split; [|exact Hly].
    rewrite list_lookup_insert_ne; [exact Hy|]. by intros ->.
  - exact Hsup1.
  - exists n. split.
    + assert (H0' : on_net (Socket_cancelAll p) s = Ok b (set_net n0 s)) by (unfold on_net; by rewrite H0).
      assert (H1' : on_net (Socket_close p) (set_net n0 s) = Ok b1 (set_net n1' s)) by (unfold on_net; cbn [net set_net]; by rewrite H1).
      cbn [for_each]. unfold bind at 1 2. rewrite H0'. unfold bind at 1. rewrite H1'. exact Hn.
    + intros q. rewrite Hsn. cbn [net set_net]. rewrite Hs1. destruct (decide (q = p)) as [->|Hne].
      * rewrite list_lookup_insert_eq by (by eapply lookup_lt_Some). rewrite Hx. cbn.
        rewrite (bool_decide_true (p ∈ p :: ps)) by by left. by rewrite bool_decide_false.
      * rewrite list_lookup_insert_ne by done. destruct (socks (net s) !! q); [cbn|done]. f_equal.
        destruct (decide (q ∈ ps)) as [Hq|Hq].
        -- rewrite !bool_decide_true; [done|by right|done].
        -- rewrite !bool_decide_false; [done| |done]. by intros [|]%elem_of_cons.
Qed.

(** Destroying a closed socket without a remote address does nothing. *)
Lemma destroy_closed p x (n : Net K) :
  socks n !! p = Some (closed x) -> m_remoteAddress x = None -> Socket_destroy p n = Ok tt n.
Proof.
  intros Hp Hr. unfold Socket_destroy, Socket_close, bind, this, deref. rewrite Hp. cbn. rewrite Hp. cbn.
  rewrite Hr. by destruct (m_localAddress x).
Qed.
Lemma clear_run s :
  Forall (fun p => exists x, socks (net s) !! p = Some (closed x) /\ m_remoteAddress x = None) (m_socks (server s)) ->
  clear_socks s = Ok tt (set_server (set_socket_list [] (server s)) s).
Proof.
  intros Hall. assert (Hfor : for_each release (m_socks (server s)) s = Ok tt s).
  { revert Hall. generalize (m_socks (server s)). induction l as [|p l IH]; intros Hall; [done|].
    apply Forall_cons in Hall as [(x & Hx & Hr) Hall]. cbn [for_each].
    assert (Hrel : release p s = Ok tt s).
    { unfold release. case_bool_decide; [done|]. unfold on_net. rewrite (destroy_closed p x) by done. by destruct s. }
    rewrite (bind_Ok _ _ _ _ _ Hrel). by apply IH. }
  unfold clear_socks. rewrite (bind_Ok _ _ s (m_socks (server s)) s) by done. by rewrite (bind_Ok _ _ _ _ _ Hfor).
Qed.

(** The closure of [stop] on listening sockets: without another thread in the
    table of the poller its first [cancelAll] is undefined; with two for each
    socket, and answers, it returns. *)
Lemma close_all_run t s :
  hk_poller (hook (net s)) = Some t ->
  (forall p ps x, m_socks (server s) = p :: ps -> socks (net s) !! p = Some x -> 0 <= m_sock x < i32 (tl_size t) ->
     tl_readers t <= 0 -> cancels (net s) <> [] -> close_all s = Ub) /\
  (NoDup (m_socks (server s)) ->
   Forall (fun p => exists x, socks (net s) !! p = Some x /\ listener t x) (m_socks (server s)) ->
   supplied t (length (m_socks (server s))) (net s) -> exists s2, close_all s = Ok tt s2).
Proof.
  intros Ht. unfold close_all. rewrite (bind_Ok _ _ s (m_socks (server s)) s) by done. split.
  - intros p ps x -> Hx Hfd Hr Hc. pose proof (cancelAll_run p (net s) x t Hx Ht Hfd Hc) as Hrun.
    rewrite (proj2 (Z.leb_le _ _) Hr) in Hrun. cbn [for_each]. unfold bind, on_net. by rewrite Hrun.
  - intros Hnd Hall Hsup. destruct (close_loop_run t _ s Hnd Hall Hsup) as (n & Hn & Hsn).
    rewrite (bind_Ok _ _ _ _ _ Hn). eexists. apply clear_run. cbn [server net set_net]. apply Forall_forall.
    intros p Hp. destruct (proj1 (Forall_forall _ _) Hall p Hp) as (x & Hx & _ & Hr). exists x. split; [|done].
    rewrite Hsn, Hx. cbn. by rewrite bool_decide_true.
Qed.

(** C36 (stopping a server): [stop] stops every listening loop at its next turn and
    hands the listener's poller one closure.  On the poller's thread that closure
    cancels the waits of each socket and closes it: when the first socket's
    descriptor is in the table of the poller and no other thread shares the lock
    of that table, this is undefined, since [cancelAll] releases the lock twice.
    With enough other shares, and an answer for each call, the closure returns; and
    whenever it returns the server has no sockets and those it had are closed,
    also for everybody else who holds them. *)
Theorem server_stop_spec i s e t :
  m_listener (server s) = Some i -> pollers s !! i = Some e -> owned s = true ->
  hk_poller (hook (net s)) = Some t ->
  exists s1, TcpServer_stop s = Ok tt s1 /\ scheduled i [CloseAll] s s1 /\ TcpServer_isStop (server s1) = true /\
    (forall others p, TcpServer_startListen others p s1 = Ok tt s1) /\
    (forall p ps x, m_socks (server s) = p :: ps -> socks (net s) !! p = Some x ->
       0 <= m_sock x < i32 (tl_size t) -> tl_readers t <= 0 -> cancels (net s) <> [] ->
       run_closure [] CloseAll s1 = Ub) /\
    (NoDup (m_socks (server s)) ->
     Forall (fun p => exists x, socks (net s) !! p = Some x /\ listener t x) (m_socks (server s)) ->
     supplied t (length (m_socks (server s))) (net s) -> exists s2, run_closure [] CloseAll s1 = Ok tt s2) /\
    (forall s2, run_closure [] CloseAll s1 = Ok tt s2 ->
       m_socks (server s2) = [] /\
       forall p x, socks (net s) !! p = Some x -> socks (net s2) !! p =
         Some (if bool_decide (p ∈ m_socks (server s)) then closed x else x)).
Proof.
  intros Hi He Ho Ht. set (s0 := set_server (set_running false (server s)) s).
  destruct (schedule_run i CloseAll s0 e He) as (s1 & H1 & Hs & Hv & Ho1 & Hn & _). exists s1.
  assert (Hm : m_socks (server s1) = m_socks (server s)) by by rewrite Hv.
  assert (Hnet : net s1 = net s) by by rewrite Hn.
  destruct (close_all_run t s1) as [Hub Hok]; [by rewrite Hnet|]. rewrite Hm, Hnet in Hub, Hok. split_and!.
  - unfold TcpServer_stop. rewrite (bind_Ok (update_server _) _ s tt s0 eq_refl). unfold shared_from_this.
    rewrite (bind_Ok _ _ s0 tt s0) by (cbn; by rewrite Ho).
    rewrite (bind_Ok (gets server) _ s0 (server s0) s0 eq_refl). cbn [m_listener server s0 set_server set_running].
    rewrite Hi. exact H1.
  - exact Hs.
  - by rewrite Hv.
  - intros others p. unfold TcpServer_startListen, shared_from_this.
    rewrite (bind_Ok _ _ s1 tt s1) by (by rewrite Ho1; cbn; rewrite Ho).
    assert (Hr : m_running (server s1) = false) by by rewrite Hv.
    destruct others; cbn [listen_loop]; unfold bind, gets; by rewrite Hr.
  - exact Hub.
  - exact Hok.
  - intros s2 Hrun. apply after_close_all in Hrun as (n & -> & Hsn). split; [done|]. intros p x Hx.
    cbn [net set_server set_net]. rewrite Hsn, shut_lookup, Hnet, Hm. by rewrite Hx.
Qed.

(** ** Clients *)

Lemma after_timeout p type v (n : Net K) : ensures (set_timeout p type v) n (fun _ n' => socks n' = socks n).
Proof.
  eapply ensures_bind; [apply after_this|]. cbn. intros x n1 [-> _].
  eapply ensures_bind; [apply after_hook_effect|]. cbn. intros [c|] n2 [H2 _]; [|by apply ensures_return].
  eapply ensures_weaken; [apply after_hook_effect|]. cbn. intros _ n3 [H3 _]. congruence.
Qed.

Lemma drop_pointer_head p (l : list nat) : drop_pointer p (p :: l) = l.
Proof. cbn. by rewrite decide_True. Qed.

(** C18 (clients of a server): a turn of a listening loop either accepts nothing
    and schedules nothing, or makes one connected socket with a descriptor and
    hands the worker's poller exactly one closure for it; when that closure has
    run, nobody holds the socket any more and it is closed. *)
Theorem client_lifecycle p s x i e :
  socks (net s) !! p = Some x -> m_worker (server s) = Some i -> pollers s !! i = Some e ->
  Forall (fun q => q < length (socks (net s)))%nat (refs s ++ m_socks (server s)) ->
  forall s', listen_turn p s = Ok tt s' ->
  (exists n, Socket_accept p (net s) = Ok None n /\ s' = set_net n s) \/
  (exists n y, let q := length (socks (net s)) in
     Socket_accept p (net s) = Ok (Some q) n /\ scheduled i [HandleClient q] s s' /\
     socks (net s') = socks (net s) ++ [y] /\ m_Connected y = true /\ m_sock y <> -1 /\
     forall s2, run_closure [] (HandleClient q) s' = Ok tt s2 ->
       socks (net s2) = socks (net s) ++ [closed y] /\ refs s2 = refs s).
Proof.
  intros Hx Hw He Hfresh s' Hturn. apply bind_Ok_inv in Hturn as (r & s1 & Ha & Hturn).
  unfold on_net in Ha. destruct (Socket_accept p (net s)) as [r0 n| | | | |] eqn:E; try done.
  injection Ha as <- <-. destruct (after_accept p (net s) x Hx _ _ E) as (fd & h & _ & Hacc).
  destruct r0 as [q|]; [right|left; injection Hturn as <-; by exists n].
  destruct Hacc as (Hfd & _ & -> & y & [Hn _] & Hy & Hc & _). set (q := length (socks (net s))) in *.
  apply bind_Ok_inv in Hturn as (t & s2 & [= <- <-] & Hturn).
  apply bind_Ok_inv in Hturn as (u & s3 & Ht & Hsch).
  apply (ensures_net _ (set_net n s) _ (after_timeout q _ _ n)) in Ht as (n3 & Hn3 & ->).
  destruct (schedule_run i (HandleClient q) (set_net n3 s) e He) as (s4 & H4 & Hs4 & Hv & _ & Hnet & Hr).
  change (schedule (m_worker (server s)) (HandleClient q) (set_net n3 s) = Ok tt s') in Hsch.
  rewrite Hw, H4 in Hsch. injection Hsch as <-.
  exists n, y. cbn zeta. split; [done|]. split; [exact Hs4|]. rewrite Hnet. cbn [net set_net].
  split; [congruence|]. split; [done|]. split; [congruence|]. intros s2 Hrun.
  assert (Hq : q ∉ refs s /\ q ∉ m_socks (server s)).
  { split; intros Hin; assert (q < q)%nat; try lia; apply (proj1 (Forall_forall _ _) Hfresh q); set_solver. }
  destruct Hq as [Hq1 Hq2]. unfold run_closure, TcpServer_handleClient in Hrun.
  change (unref q s4 = Ok tt s2) in Hrun. unfold unref in Hrun. rewrite Hr in Hrun. cbn [captures app refs set_net] in Hrun.
  rewrite drop_pointer_head in Hrun. cbn [set_refs server] in Hrun. rewrite Hv in Hrun. cbn [server set_net] in Hrun.
  rewrite bool_decide_false in Hrun by done. apply after_release in Hrun as (n5 & -> & _ & Hout).
  cbn [refs set_refs net] in Hout. destruct (Hout Hq1) as (z & Hz & Hn5). cbn [net set_net refs set_refs].
  split; [|done]. rewrite Hnet in Hn5, Hz. cbn [net set_net] in Hn5, Hz. rewrite Hn3, Hn in Hn5, Hz.
  rewrite lookup_app_r, Nat.sub_diag in Hz by done. injection Hz as <-. rewrite Hn5. apply insert_last.
Qed.
End server_facts.

(** ** Examples *)

#[local] Instance example_target : Target := little_endian_target.
#[local] Existing Instance EventPoller.Scheduler_sink.
#[local] Existing Instance EventPollerFacts.Scheduler_sink_laws.
(** A scheduler on one more thread than its caller. *)
Definition poller_example : Scheduler.Scheduler :=
  Scheduler.mkScheduler false false 1 0 0 100 (Some 1) [100] [] [] 0.
Definition server_example l calls table : Srv TableKernel Scheduler.Scheduler :=
  mkSrv (mkTcpServer false (text "test") 120000 (seq 0 (length l)) (Some 0%nat) (Some 0%nat)) true
    (mkNet l (mkHook true fds_example 0 calls [] [] [] table) [(0, name_example, 16); (0, name_example, 16)] [true; true] [])
    [poller_example] [] [].

(** The first address is bound on descriptor 5 and listened on; the second call
    of [bind] fails. *)
Definition bind_two : list (Address * (Z * Z)) :=
  [(peer_example, (0, 0)); (IPv4Address (new_IPv4Address 0 81), (0, 0))].
Definition server_binds : Srv TableKernel Scheduler.Scheduler :=
  server_example [] [(5, 0); (0, 0); (0, 0); (6, 0); (-1, 98); (0, 0); (0, 0)] None.
Lemma server_bind_spec_witness :
  exists s', TcpServer_bind_all bind_two [] server_binds = Ok (false, [IPv4Address (new_IPv4Address 0 81)]) s' /\
    m_socks (server s') = [] /\ Forall (fun x => m_sock x = -1) (socks (net s')).
Proof.
  assert (Hb : match TcpServer_bind_all bind_two [] server_binds with Ok r _ => Some r | _ => None end
    = Some (false, [IPv4Address (new_IPv4Address 0 81)])) by (vm_compute; reflexivity).
  destruct (TcpServer_bind_all bind_two [] server_binds) as [r s'| | | | |] eqn:E; try discriminate Hb.
  injection Hb as ->. exists s'. split; [reflexivity|].
  destruct (server_bind_spec bind_two [] server_binds _ _ s' E) as (oks & s1 & ps & n & _ & _ & _ & -> & Hall).
  split; [reflexivity|]. apply Forall_forall. intros x [p Hp]%list_elem_of_lookup.
  apply (Hall p x Hp); [by apply not_elem_of_nil|]. right. apply Nat.le_0_l.
Defined.

Definition listeners : list Socket :=
  [set_sock 3 (new_Socket AF_INET SOCK_STREAM 0); set_sock 4 (new_Socket AF_INET SOCK_STREAM 0)].
Definition listening : Srv TableKernel Scheduler.Scheduler :=
  server_example listeners [(5, 0); (0, 0); (0, 0); (0, 0)] (Some (mkTableLock 32 4)).
(** No other thread is in the table of the poller. *)
Definition listening_alone : Srv TableKernel Scheduler.Scheduler :=
  server_example listeners [(5, 0); (0, 0); (0, 0); (0, 0)] (Some (mkTableLock 32 0)).
Lemma server_start_spec_witness :
  TcpServer_start listening = Ub /\
  exists s' e, start_body listening = Ok false s' /\ pollers s' !! 0%nat = Some e /\
    Scheduler.m_fibers e = [callback_task 0; callback_task 1] /\
    closures s' = [StartListen 0; StartListen 1].
Proof.
  destruct (server_start_spec 0 listening poller_example eq_refl eq_refl) as (_ & H & _).
  destruct (H eq_refl eq_refl) as (Hub & s' & Hs & (Hc & _ & _ & Hp) & _). split; [exact Hub|].
  destruct (Hp _ eq_refl) as (e & He & Ht). exists s', e. by split_and!.
Defined.

Lemma server_stop_spec_witness :
  (exists s1 s2, TcpServer_stop listening = Ok tt s1 /\ TcpServer_isStop (server s1) = true /\
    TcpServer_startListen [] 0 s1 = Ok tt s1 /\
    run_closure [] CloseAll s1 = Ok tt s2 /\ m_socks (server s2) = [] /\
    socks (net s2) !! 1%nat = Some (new_Socket AF_INET SOCK_STREAM 0)) /\
  (exists s1, TcpServer_stop listening_alone = Ok tt s1 /\ run_closure [] CloseAll s1 = Ub).
Proof.
  split.
  - destruct (server_stop_spec 0 listening poller_example (mkTableLock 32 4) eq_refl eq_refl eq_refl eq_refl)
      as (s1 & H & _ & Hr & Hl & _ & Hrun & Hend).
    destruct Hrun as (s2 & H2).
    + by apply (bool_decide_unpack _); vm_compute.
    + by repeat (constructor; [eexists; split; [reflexivity|by split]|]).
    + split_and!; [by eexists; split; [reflexivity|]|by apply leb_complete..].
    + destruct (Hend s2 H2) as [Hm Hx]. exists s1, s2. split_and!; [exact H|exact Hr|by apply Hl|exact H2|exact Hm|].
      by rewrite (Hx 1%nat _ eq_refl).
  - destruct (server_stop_spec 0 listening_alone poller_example (mkTableLock 32 0) eq_refl eq_refl eq_refl eq_refl)
      as (s1 & H & _ & _ & _ & Hub & _).
    exists s1. split; [exact H|]. by apply (Hub 0%nat [1%nat] (set_sock 3 (new_Socket AF_INET SOCK_STREAM 0))).
Defined.

Lemma client_lifecycle_witness :
  exists s' s2, listen_turn 0 listening = Ok tt s' /\ closures s' = [HandleClient 2] /\
    run_closure [] (HandleClient 2) s' = Ok tt s2 /\ m_sock <$> socks (net s2) = [3; 4; -1].
Proof.
  assert (Hb : match (listen_turn 0 ;;; run_closure [] (HandleClient 2)) listening with
    Ok _ s => Some (length (socks (net s))) | _ => None end = Some 3%nat) by (vm_compute; reflexivity).
  destruct ((listen_turn 0 ;;; run_closure [] (HandleClient 2)) listening) as [[] s2| | | | |] eqn:E; try discriminate Hb.
  injection Hb as Hlen. apply bind_Ok_inv in E as ([] & s' & Ht & Hr). exists s', s2.
  destruct (client_lifecycle 0 listening _ 0 poller_example eq_refl eq_refl eq_refl) with (s' := s')
    as [(n & Hn & ->)|(n & y & _ & Hc & _ & _ & _ & Hend)]; [by repeat constructor|exact Ht| |].
  - exfalso. assert (Hv : match Socket_accept 0 (net listening) with Ok r _ => r | _ => None end = Some 2%nat)
      by (vm_compute; reflexivity). by rewrite Hn in Hv.
  - destruct (Hend s2 Hr) as [-> _]. split_and!; [exact Ht|exact (proj1 Hc)|exact Hr|reflexivity].
Defined.
