(* ===== verification/EchoServer.v ===== *)
(** * The echo server (src/samples/EchoServer/main.cpp)

    The sample server, and with it the way a client of the library puts sockets
    and byte buffers together: [handleClient] receives into the views of a
    [ByteArray] and prints what came.  The bytes a client sends are a stream that
    the kernel hands out, [incoming]; a [recvmsg] that returns [n] fills the views
    with the next [n] of them.  [strerror] and the name resolver are parameters. *)
From S2P Require Import Prelude.
From S2P Require Import Endian Text.
From S2P Require Import ByteArray ByteArrayFacts ByteArrayView.
From S2P Require Import Address FdManager FdManagerFacts Hook HookFacts Socket SocketFacts TcpServer.
From S2P Require EventPoller.

Section echo.
Context {K : Type} `{KK : Kernel K} `{TG : Target}.
Variable (strerror : Z -> list Z).

(** A client's session: the sockets, the local [ba], what the client has sent and
    was not received yet, and what has been printed. *)
Record Session := mkSession {
  e_net : Net K; e_ba : ByteArray; incoming : list Z; out : list cell
}.
Abbreviation EM := (M Session).
Definition on_net {A} (m : M (Net K) A) : EM A := fun s =>
  match m (e_net s) with
  | Ok a n => Ok a (mkSession n (e_ba s) (incoming s) (out s))
  | Throw e n => Throw e (mkSession n (e_ba s) (incoming s) (out s))
  | Abort => Abort | Ub => Ub | Deadlock => Deadlock | NoFuel => NoFuel
  end.
Definition on_ba {A} (m : M ByteArray A) : EM A := fun s =>
  match m (e_ba s) with
  | Ok a b => Ok a (mkSession (e_net s) b (incoming s) (out s))
  | Throw e b => Throw e (mkSession (e_net s) b (incoming s) (out s))
  | Abort => Abort | Ub => Ub | Deadlock => Deadlock | NoFuel => NoFuel
  end.
(** [std::cout << l] *)
Definition cout (l : list cell) : EM unit :=
  modify (fun s => mkSession (e_net s) (e_ba s) (incoming s) (out s ++ l)).
Definition chars (l : list Z) : list cell := Some <$> l.
Definition newline : list cell := [Some 10].

(** [client->recv(&buffer\[0\], buffer.size())]; the kernel does not return more
    than has been sent, so that such an answer counts as none, and filling more
    than the views hold would be undefined. *)
Definition receive (client : nat) (buffer : list iovec) : EM Z :=
  rt <-- on_net (Socket_recv_iov client) ;;
  (fun s =>
    if rt <=? 0 then Ok (i32 rt) s
    else if Z.of_nat (length (incoming s)) <? rt then NoFuel
    else match scatter (take (Z.to_nat rt) (incoming s)) buffer (e_ba s) with
         | Some b => Ok (i32 rt) (mkSession (e_net s) b (drop (Z.to_nat rt) (incoming s)) (out s))
         | None => Ub
         end).

(** The body of the loop of [handleClient]: whether it goes on. *)
Definition echo_turn (client : nat) : EM bool :=
  on_ba ByteArray_clear ;;;
  buffer <-- on_ba (ByteArray_getWriteBuffers [] 1024) ;;
  rt <-- receive client buffer.2 ;;
  if rt =? 0 then cout (chars (text "client close") ++ newline) ;;; mreturn false
  else if rt <? 0 then
    errno <-- gets (fun s => hk_errno (hook (e_net s))) ;;
    cout (chars (text "client error rt=" ++ int_text rt ++ text " errno=" ++ int_text errno
                 ++ text " errstr=" ++ strerror errno)) ;;;
    mreturn false
  else
    pos <-- gets (fun s => m_position (e_ba s)) ;;
    on_ba (ByteArray_setPosition (u64 (pos + rt))) ;;;
    on_ba (ByteArray_setPosition 0) ;;;
    str <-- on_ba ByteArray_toString ;;
    cout (str ++ newline) ;;;
    mreturn true.
(** [while(true)]; every turn but the last receives something. *)
Fixpoint echo_loop (fuel : nat) (client : nat) : EM unit :=
  match fuel with
  | O => nofuel
  | S fuel => more <-- echo_turn client ;; if more : bool then echo_loop fuel client else mreturn tt
  end.

(** [void EchoServer::handleClient(sylar::Socket::Ptr client)] *)
Definition EchoServer_handleClient (fuel : nat) (client : nat) : EM unit :=
  str <-- on_net (Socket_toString client) ;;
  cout (chars (text "EchoServer::handleClient()" ++ str) ++ newline) ;;;
  modify (fun s => mkSession (e_net s) (new_ByteArray 4096) (incoming s) (out s)) ;;;
  echo_loop fuel client.

(** [EchoServer() = default]: a [TcpServer] with [EventPoller::getThis()] twice. *)
Definition new_EchoServer (this : option nat) : TcpServer := new_TcpServer this this.

(** [while(!es->bind(addr)) { sleep(2); }]; [tries] are what [SO_ERROR] is at
    each attempt. *)
Context {S : Type} `{TS : EventPoller.TaskSink S}.
Fixpoint bind_retry (tries : list (Z * Z)) (addr : Address) : M (Srv K S) unit :=
  match tries with
  | [] => nofuel
  | e :: tries =>
      b <-- TcpServer_bind addr e ;;
      if b : bool then mreturn tt
      else TcpServer.on_net (on_hook (hook_sleep 2)) ;;; bind_retry tries addr
  end.
(** [void run()]; a null address is dereferenced by [bind]. *)
Definition run (getaddrinfo : list Z -> option (list Z) -> Z * Z * Z * Z -> Z * list (option (list Z)))
  (this : option nat) (tries : list (Z * Z)) : M (Srv K S) unit := fun s =>
  match Address_LookupAny getaddrinfo (text "127.0.0.1:34280") AF_INET 0 0 tt with
  | Ok (Some addr) _ =>
      (modify (fun s => mkSrv (new_EchoServer this) true (net s) (pollers s) (closures s) (refs s)) ;;;
       bind_retry tries addr ;;;
       TcpServer_start ;;; mreturn tt) s
  | Ok None _ => Ub
  | Throw e _ => Throw e s
  | Abort => Abort | Ub => Ub | Deadlock => Deadlock | NoFuel => NoFuel
  end.
End echo.
Arguments Session K : clear implicits.

(** ** What a session prints *)

Section echo_facts.
Context {K : Type} `{KK : Kernel K} `{TG : Target}.
Variable (strerror : Z -> list Z).
Implicit Types (s : Session K).

Lemma on_ba_Ok {A} (m : M ByteArray A) s a b :
  m (e_ba s) = Ok a b -> on_ba m s = Ok a (mkSession (e_net s) b (incoming s) (out s)).
Proof. unfold on_ba. by intros ->. Qed.

Lemma scatter_wf b b' : wf b -> paged b' -> same_shape b b' -> m_position b' = m_position b -> m_cur b' = m_cur b -> wf b'.
Proof.
  intros [Hb Hr Hp Hs Hc] Hb' [H1 H2 H3 H4 H5] Hpos Hcur. split; rewrite ?Hpos, ?H2, ?H3, ?H5; auto.
  unfold cursor_ok in *. by rewrite Hcur, Hpos, H1, H2.
Qed.

(** A cleared buffer of the default page size takes [n] bytes and gives them back. *)
Lemma buffer_cleared b :
  wf b -> m_baseSize b = 4096 ->
  exists b1 b2 l, ByteArray_clear b = Ok tt b1 /\ ByteArray_getWriteBuffers [] 1024 b1 = Ok (1024, l) b2
    /\ wf b2 /\ m_baseSize b2 = 4096 /\ m_position b2 = 0 /\ m_size b2 = 0 /\ 1024 < m_capacity b2
    /\ covers 4096 0 1024 l.
Proof.
  intros Hwf Hbase. destruct (clear_spec b Hwf) as (b1 & Hclear & Hwf1 & _ & Hpo1 & _).
  assert (Hb1 : m_baseSize b1 = 4096 /\ m_size b1 = 0).
  { unfold ByteArray_clear in Hclear. destruct (m_nodes b); [done|]. by injection Hclear as <-. }
  destruct Hb1 as [Hb1 Hs1].
  destruct (getWriteBuffers_covers b1 [] 1024 Hwf1) as (l & b2 & Hget & Hwf2 & _ & Hpo2 & Hsi2 & _ & Hb2 & Hcov);
    [right; lia|lia|lia|]. exists b1, b2, l. rewrite Hpo2, Hpo1, Hb2, Hb1 in *. split_and!; try done; try lia.
  pose proof (pg_cap _ (wf_paged _ Hwf2)). pose proof (wf_root _ Hwf2). rewrite Hb2 in *. lia.
Qed.

Lemma buffer_filled b l data :
  wf b -> m_baseSize b = 4096 -> m_position b = 0 -> m_size b = 0 -> 1024 < m_capacity b -> covers 4096 0 1024 l ->
  (0 < length data <= 1024)%nat ->
  exists b1 b2 b3, scatter data l b = Some b1 /\ m_position b1 = 0
    /\ ByteArray_setPosition (Z.of_nat (length data)) b1 = Ok tt b2
    /\ ByteArray_setPosition 0 b2 = Ok tt b3
    /\ ByteArray_toString b3 = Ok (Some <$> data) b3 /\ wf b3 /\ m_baseSize b3 = 4096.
Proof.
  intros Hwf Hbase Hpos Hsize Hcap Hcov Hlen. pose proof (wf_paged _ Hwf) as Hb.
  destruct (covers_scatter 4096 0 1024 l data b Hcov Hb Hbase) as (b1 & Hsc & Hb1 & Hsh & Hpo1 & Hcu1 & Hpg); [lia..|].
  pose proof (scatter_wf b b1 Hwf Hb1 Hsh Hpo1 Hcu1) as Hwf1. destruct Hsh as [S1 S2 S3 S4 S5].
  destruct (setPosition_inside b1 (Z.of_nat (length data)) Hwf1) as (b2 & Hset & Hwf2 & _ & Hco2 & Hba2 & _ & Hca2 & Hsi2); [lia|].
  destruct (setPosition_inside b2 0 Hwf2) as (b3 & Hset' & Hwf3 & Hpo3 & Hco3 & Hba3 & _); [lia|].
  exists b1, b2, b3. split_and!; try done; try congruence.
  rewrite (toString_spec b3 Hwf3), Hpo3, Hco3. f_equal.
  replace (m_size b2 `max` 0) with (m_size b2) by lia. change (take (Z.to_nat (m_size b2)) (pages b2)) with (content b2).
  rewrite Hco2, Hpg, S3, Hsize. replace (Z.to_nat (0 `max` Z.of_nat (length data))) with (length (Some <$> data)) by (rewrite length_fmap; lia).
  change (Z.to_nat 0) with O. rewrite drop_0. exact (take_app_length (Some <$> data) _).
Qed.

(** ** One turn *)

Definition echo_ready s : Prop := wf (e_ba s) /\ m_baseSize (e_ba s) = 4096.

Lemma turn_received client s n net' :
  echo_ready s -> Socket_recv_iov client (e_net s) = Ok n net' -> 0 < n <= 1024 -> n <= Z.of_nat (length (incoming s)) ->
  exists s', echo_turn strerror client s = Ok true s' /\ echo_ready s' /\ e_net s' = net'
    /\ incoming s' = drop (Z.to_nat n) (incoming s)
    /\ out s' = out s ++ (Some <$> take (Z.to_nat n) (incoming s)) ++ newline.
Proof.
  intros [Hwf Hbase] Hrecv Hn Hin. set (data := take (Z.to_nat n) (incoming s)).
  assert (Hlen : Z.of_nat (length data) = n) by (subst data; rewrite length_take; lia).
  destruct (buffer_cleared (e_ba s) Hwf Hbase) as (b1 & b2 & l & Hclear & Hget & Hwf2 & Hb2 & Hp2 & Hs2 & Hc2 & Hcov).
  destruct (buffer_filled b2 l data Hwf2 Hb2 Hp2 Hs2 Hc2 Hcov) as (b3 & b4 & b5 & Hsc & Hp3 & Hset & Hset' & Hstr & Hwf5 & Hb5); [lia|].
  exists (mkSession net' b5 (drop (Z.to_nat n) (incoming s)) (out s ++ (Some <$> data) ++ newline)).
  split; [|done]. unfold echo_turn.
  rewrite (bind_Ok _ _ _ _ _ (on_ba_Ok _ _ _ _ Hclear)).
  match goal with |- bind _ _ ?st = _ => rewrite (bind_Ok _ _ st _ _ (on_ba_Ok _ st _ _ Hget)) end.
  assert (Hr : forall st, e_net st = e_net s -> incoming st = incoming s -> e_ba st = b2 ->
    receive client l st = Ok n (mkSession net' b3 (drop (Z.to_nat n) (incoming s)) (out st))).
  { intros st H1 H2 H3. unfold receive, bind, on_net. rewrite H1, Hrecv. cbn [incoming e_ba e_net out].
    rewrite (proj2 (Z.leb_gt n 0)) by lia. rewrite H2, H3, (proj2 (Z.ltb_ge _ _)) by lia. fold data. rewrite Hsc.
    by rewrite swrap_id by lia. }
  cbn [snd]. match goal with |- bind _ _ ?st = _ => rewrite (bind_Ok _ _ st _ _ (Hr st eq_refl eq_refl eq_refl)) end.
  rewrite (proj2 (Z.eqb_neq n 0)), (proj2 (Z.ltb_ge n 0)) by lia. unfold bind at 1, gets at 1. cbn [e_ba e_net incoming out].
  rewrite Hp3, Z.add_0_l, wrap_id, <- Hlen by lia.
  match goal with |- bind _ _ ?st = _ => rewrite (bind_Ok _ _ st _ _ (on_ba_Ok _ st _ _ Hset)) end.
  match goal with |- bind _ _ ?st = _ => rewrite (bind_Ok _ _ st _ _ (on_ba_Ok _ st _ _ Hset')) end.
  match goal with |- bind _ _ ?st = _ => rewrite (bind_Ok _ _ st _ _ (on_ba_Ok _ st _ _ Hstr)) end.
  done.
Qed.

(** What is printed when the session ends with the answer [n]. *)
Definition farewell (n : Z) (net : Net K) : list Z :=
  if n =? 0 then text "client close" ++ [10]
  else text "client error rt=" ++ int_text n ++ text " errno=" ++ int_text (hk_errno (hook net))
       ++ text " errstr=" ++ strerror (hk_errno (hook net)).

Lemma turn_ended client s n net' :
  echo_ready s -> Socket_recv_iov client (e_net s) = Ok n net' -> - 2 ^ 31 <= n <= 0 ->
  exists b', echo_turn strerror client s
    = Ok false (mkSession net' b' (incoming s) (out s ++ (Some <$> farewell n net'))).
Proof.
  intros [Hwf Hbase] Hrecv Hn.
  destruct (buffer_cleared (e_ba s) Hwf Hbase) as (b1 & b2 & l & Hclear & Hget & _).
  exists b2. unfold echo_turn, farewell. rewrite (bind_Ok _ _ _ _ _ (on_ba_Ok _ _ _ _ Hclear)).
  match goal with |- bind _ _ ?st = _ => rewrite (bind_Ok _ _ st _ _ (on_ba_Ok _ st _ _ Hget)) end.
  assert (Hr : forall st, e_net st = e_net s ->
    receive client l st = Ok n (mkSession net' (e_ba st) (incoming st) (out st))).
  { intros st H1. unfold receive, bind, on_net. rewrite H1, Hrecv. cbn [incoming e_ba e_net out].
    by rewrite (proj2 (Z.leb_le n 0)), swrap_id by lia. }
  cbn [snd]. match goal with |- bind _ _ ?st = _ => rewrite (bind_Ok _ _ st _ _ (Hr st eq_refl)) end.
  destruct (Z.eqb_spec n 0) as [->|Hne].
  - unfold bind, cout, modify, chars, newline, mreturn. cbn [e_net e_ba incoming out]. by rewrite fmap_app.
  - by rewrite (proj2 (Z.ltb_lt n 0)) by lia.
Qed.

(** ** A session *)

(** The answers of [recv] in a row. *)
Inductive answers (client : nat) : Net K -> list Z -> Net K -> Prop :=
| answers_none net : answers client net [] net
| answers_next net n net' ns net'' :
    Socket_recv_iov client net = Ok n net' -> answers client net' ns net'' -> answers client net (n :: ns) net''.

(** [l] cut in pieces of the given lengths. *)
Fixpoint cut (ns : list Z) (l : list Z) : list (list Z) :=
  match ns with [] => [] | n :: ns => take (Z.to_nat n) l :: cut ns (drop (Z.to_nat n) l) end.
Definition lines (ls : list (list Z)) : list cell := ls ≫= (fun l => (Some <$> l) ++ newline).

Lemma cut_concat ns l : concat (cut ns l) = take (sum_list_with Z.to_nat ns) l.
Proof.
  revert l. induction ns as [|n ns IH]; intros l; [done|]. cbn. rewrite IH.
  by rewrite <- take_take_drop.
Qed.

Lemma loop_session client ns n fuel s net1 net2 :
  echo_ready s -> answers client (e_net s) ns net1 -> Socket_recv_iov client net1 = Ok n net2 ->
  Forall (fun n => 0 < n <= 1024) ns -> - 2 ^ 31 <= n <= 0 ->
  (sum_list_with Z.to_nat ns <= length (incoming s))%nat -> (length ns < fuel)%nat ->
  exists b', echo_loop strerror fuel client s
    = Ok tt (mkSession net2 b' (drop (sum_list_with Z.to_nat ns) (incoming s))
               (out s ++ lines (cut ns (incoming s)) ++ (Some <$> farewell n net2))).
Proof.
  intros Hready Hans Hend Hns Hn. revert ns s Hready Hans Hns. induction fuel as [|fuel IH]; [lia|].
  intros ns s Hready Hans Hns Hsum Hfuel. cbn [echo_loop]. inversion Hans as [|net m net' ns' net'' Hrecv Hrest]; subst.
  - destruct (turn_ended client s n net2 Hready Hend Hn) as (b' & Hturn).
    rewrite (bind_Ok _ _ _ _ _ Hturn). by exists b'.
  - apply Forall_cons in Hns as [Hm Hns]. cbn [sum_list_with] in Hsum |- *.
    destruct (turn_received client s m net' Hready Hrecv Hm) as (s' & Hturn & Hready' & Hnet & Hin & Hout); [lia|].
    rewrite (bind_Ok _ _ _ _ _ Hturn). rewrite <- Hnet in Hrest.
    destruct (IH ns' s' Hready' Hrest Hns) as (b' & Hloop); [rewrite Hin, length_drop; lia|cbn in Hfuel; lia|].
    exists b'. rewrite Hloop, Hin, Hout, drop_drop. cbn [cut lines mbind list_bind]. by rewrite <- !app_assoc.
Qed.
End echo_facts.

(** C20: an echo session.  While [recv] answers with 1 to 1024 bytes,
    [handleClient] prints exactly the bytes the client sent, in their order, each
    answer's on a line of its own, however the pages of the buffer lie; it ends
    with the first answer that is not positive, with the rest of the stream
    unread, and says why. *)
Theorem echo_session {K : Type} `{KK : Kernel K} `{TG : Target} (strerror : Z -> list Z)
    (s : Session K) client str ns n fuel net1 net2 :
  Socket_toString client (e_net s) = Ok str (e_net s) ->
  answers client (e_net s) ns net1 -> Socket_recv_iov client net1 = Ok n net2 ->
  Forall (fun n => 0 < n <= 1024) ns -> - 2 ^ 31 <= n <= 0 ->
  (sum_list_with Z.to_nat ns <= length (incoming s))%nat -> (length ns < fuel)%nat ->
  let total := sum_list_with Z.to_nat ns in
  exists s' chunks, EchoServer_handleClient strerror fuel client s = Ok tt s'
    /\ concat chunks = take total (incoming s) /\ length chunks = length ns
    /\ incoming s' = drop total (incoming s) /\ e_net s' = net2
    /\ out s' = out s ++ chars (text "EchoServer::handleClient()" ++ str) ++ newline
         ++ lines chunks ++ (Some <$> farewell strerror n net2).
Proof.
  intros Hstr Hans Hend Hns Hn Hsum Hfuel total. unfold EchoServer_handleClient.
  assert (H1 : on_net (Socket_toString client) s = Ok str s) by (unfold on_net; rewrite Hstr; by destruct s).
  rewrite (bind_Ok _ _ _ _ _ H1). cbn [bind cout modify e_net e_ba incoming out].
  set (s1 := mkSession _ (new_ByteArray 4096) _ _).
  destruct (loop_session strerror client ns n fuel s1 net1 net2) as (b' & Hloop); try done.
  { split; [apply wf_new; lia|done]. }
  eexists _, (cut ns (incoming s)). split; [exact Hloop|]. split; [apply cut_concat|].
  split; [clear; generalize (incoming s); induction ns as [|m ns IH]; intros l; cbn; [done|by rewrite IH]|].
  split; [done|]. split; [done|]. cbn [out s1]. by rewrite <- !app_assoc.
Qed.

#[local] Instance echo_target : Target := little_endian_target.

(** A client that sends ten bytes and closes after eight of them were received. *)
Definition echo_net : Net TableKernel :=
  mkNet [mkSocket 5 SOCK_STREAM AF_INET 0 true None None]
    (mkHook false fds_example 0 [(5, 0); (3, 0); (0, 0)] [] [] [] None) [] [] [].
Definition echo_example : Session TableKernel :=
  mkSession echo_net (new_ByteArray 4096) (text "hello you!") [].
Definition net_after (k : nat) : Net TableKernel :=
  Nat.iter k (fun s => match Socket_recv_iov 0 s with Ok _ s' => s' | _ => s end) echo_net.

Lemma echo_session_witness :
  exists s', EchoServer_handleClient (fun _ => []) 3 0 echo_example = Ok tt s' /\ incoming s' = text "u!".
Proof.
  destruct (echo_session (fun _ => []) echo_example 0
    (match Socket_toString 0 echo_net with Ok l _ => l | _ => [] end) [5; 3] 0 3 (net_after 2) (net_after 3))
    as (s' & chunks & Hrun & _ & _ & Hin & _).
  - vm_compute. reflexivity.
  - apply (answers_next 0 _ 5 (net_after 1)); [vm_compute; reflexivity|].
    apply (answers_next 0 _ 3 (net_after 2)); [vm_compute; reflexivity|]. apply answers_none.
  - vm_compute. reflexivity.
  - repeat constructor; lia.
  - lia.
  - vm_compute. lia.
  - cbn. lia.
  - exists s'. split; [exact Hrun|]. rewrite Hin. vm_compute. reflexivity.
Defined.
