(* ===== verification/ConcurrentVector.v ===== *)
(** * The concurrent vector and singletons (util/ConcurrentVector.h, Singleton.h)

    [ConcurrentVector] as a sequence of atomic parts, which the calls of one
    thread compose and a step relation interleaves; there a change of [m_vector]
    or of [m_mtx] begins and ends, and whoever uses it in between is undefined.
    An entry of [m_mtx] is
    whether the pointer is set.  [Singleton] creates its instance at the first
    call. *)
From S2P Require Import Prelude.

(** ** [ConcurrentVector] *)

Section vector.
Context {A : Type}.
(** [std::vector<ItemType>::max_size()] *)
Variable max_size : Z.

Record ConcurrentVector := mkVector {
  m_size : Z; m_granu : Z; m_mtx_size : Z;
  m_vector : list A;
  m_mtx : list bool
}.
Abbreviation VM := (M ConcurrentVector).

(** The members as their initialisers leave them. *)
Definition blank_vector : ConcurrentVector := mkVector 0 16 8 [] [].
(** [ConcurrentVector(size_t size, size_t granu)] *)
Definition new_ConcurrentVector (size granu : Z) : M unit ConcurrentVector :=
  Assert (0 <? granu) ;;;
  let mtx_size := if m_mtx_size blank_vector <? size / granu then size / granu else m_mtx_size blank_vector in
  if max_size <? size then throw length_error else
  mreturn (mkVector size granu mtx_size [] (replicate (Z.to_nat mtx_size) true)).

(** [hashFunc(n) % m_mtx_size]: the argument of [std::hash<int>] is an [int] *)
Definition stripe (n : Z) (s : ConcurrentVector) : Z := u64 (i32 n) mod m_mtx_size s.
(** Locking [*m_mtx\[mtx_idx\]] *)
Definition lock_stripe (idx : Z) : VM unit := fun s =>
  match m_mtx s !! Z.to_nat idx with
  | Some true => Ok tt s
  | _ => Ub
  end.

(** [m_vector\[index\]], read and assigned *)
Definition item_at (index : Z) : VM A := fun s => deref (m_vector s !! Z.to_nat index) s.
Definition set_item (index : Z) (val : A) : VM unit := fun s =>
  match m_vector s !! Z.to_nat index with
  | Some _ => Ok tt (mkVector (m_size s) (m_granu s) (m_mtx_size s) (<[Z.to_nat index := val]> (m_vector s)) (m_mtx s))
  | None => Ub
  end.

Definition ConcurrentVector_get (index : Z) : VM A :=
  n <-- gets m_size ;;
  if n <=? index then throw out_of_range else
  mtx_idx <-- gets (stripe index) ;;
  lock_stripe mtx_idx ;;; item_at index.

Definition ConcurrentVector_set (index : Z) (val : A) : VM unit :=
  n <-- gets m_size ;;
  if n <=? index then throw out_of_range else
  mtx_idx <-- gets (stripe index) ;;
  lock_stripe mtx_idx ;;; set_item index val.

(** [m_size.fetch_add(1)] *)
Definition grow : VM unit :=
  modify (fun s => mkVector (u64 (m_size s + 1)) (m_granu s) (m_mtx_size s) (m_vector s) (m_mtx s)).
(** [check_mtx()], under its lock: the test, and [m_mtx.emplace_back()] with
    [m_mtx_size.fetch_add(1)] *)
Definition too_few (s : ConcurrentVector) : bool := u64 (m_mtx_size s * m_granu s) <? m_size s.
Definition add_stripe (s : ConcurrentVector) : ConcurrentVector :=
  mkVector (m_size s) (m_granu s) (u64 (m_mtx_size s + 1)) (m_vector s) (m_mtx s ++ [false]).
Definition check_mtx : VM unit := modify (fun s => if too_few s then add_stripe s else s).
(** [m_vector.push_back(val)], under the lock of a stripe *)
Definition append (val : A) : VM unit :=
  modify (fun s => mkVector (m_size s) (m_granu s) (m_mtx_size s) (m_vector s ++ [val]) (m_mtx s)).

Definition ConcurrentVector_push_back (val : A) : VM unit :=
  grow ;;; check_mtx ;;;
  n <-- gets m_size ;;
  mtx_idx <-- gets (stripe n) ;;
  lock_stripe mtx_idx ;;; append val.
Definition ConcurrentVector_emplace_back (val : A) : VM unit :=
  grow ;;; check_mtx ;;;
  n <-- gets m_size ;;
  mtx_idx <-- gets (stripe n) ;;
  lock_stripe mtx_idx ;;; append val.
Definition ConcurrentVector_size (s : ConcurrentVector) : Z := m_size s.

(** ** Several threads *)

(** Where a thread is in [push_back(val)]. *)
Inductive pusher :=
| PGrow (val : A)
| PCheck (val : A)
| PResize (val : A)             (* in [m_mtx.emplace_back], holds [m_check_mtx] *)
| PIndex (val : A)
| PLock (val : A) (idx : Z)
| PAppend (val : A) (idx : Z)   (* holds the lock of the stripe *)
| PWrite (val : A) (idx : Z)    (* in [m_vector.push_back], holds it too *)
| PDone.
(** A thread is changing [m_mtx], or [m_vector]; the stripe it holds. *)
Definition resizing (t : pusher) : bool := match t with PResize _ => true | _ => false end.
Definition writing (t : pusher) : bool := match t with PWrite _ _ => true | _ => false end.
Definition holds (t : pusher) : option Z := match t with PAppend _ i | PWrite _ i => Some i | _ => None end.
(** The lock of a stripe is free. *)
Definition stripe_free (idx : Z) (ts : list pusher) : Prop := Forall (fun t => holds t <> Some idx) ts.

(** The vector and the threads; or undefined behaviour. *)
Inductive pushers := Going (s : ConcurrentVector) (ts : list pusher) | Undefined.

(** One step of one thread.  Changing [m_mtx] and [m_vector] takes time, and an
    access of another thread to the same object meanwhile is a data race. *)
Inductive push_step : pushers -> pushers -> Prop :=
| step_grow i v ts s s' : ts !! i = Some (PGrow v) -> grow s = Ok tt s' ->
    push_step (Going s ts) (Going s' (<[i := PCheck v]> ts))
| step_enough i v ts s : ts !! i = Some (PCheck v) -> existsb resizing ts = false -> too_few s = false ->
    push_step (Going s ts) (Going s (<[i := PIndex v]> ts))
| step_resize i v ts s : ts !! i = Some (PCheck v) -> existsb resizing ts = false -> too_few s = true ->
    push_step (Going s ts) (Going s (<[i := PResize v]> ts))
| step_resized i v ts s : ts !! i = Some (PResize v) ->
    push_step (Going s ts) (Going (add_stripe s) (<[i := PIndex v]> ts))
| step_index i v ts s : ts !! i = Some (PIndex v) ->
    push_step (Going s ts) (Going s (<[i := PLock v (stripe (m_size s) s)]> ts))
| step_lock i v idx ts s s' : ts !! i = Some (PLock v idx) -> existsb resizing ts = false -> stripe_free idx ts ->
    lock_stripe idx s = Ok tt s' -> push_step (Going s ts) (Going s' (<[i := PAppend v idx]> ts))
| step_null i v idx ts s : ts !! i = Some (PLock v idx) -> lock_stripe idx s = Ub -> push_step (Going s ts) Undefined
| step_mtx_race i v idx ts s : ts !! i = Some (PLock v idx) -> existsb resizing ts = true ->
    push_step (Going s ts) Undefined
| step_write i v idx ts s : ts !! i = Some (PAppend v idx) -> existsb writing ts = false ->
    push_step (Going s ts) (Going s (<[i := PWrite v idx]> ts))
| step_race i v idx ts s : ts !! i = Some (PAppend v idx) -> existsb writing ts = true ->
    push_step (Going s ts) Undefined
| step_written i v idx ts s s' : ts !! i = Some (PWrite v idx) -> append v s = Ok tt s' ->
    push_step (Going s ts) (Going s' (<[i := PDone]> ts)).
End vector.
Arguments ConcurrentVector A : clear implicits.

(** ** [Singleton] and [SingletonPtr] *)

Section singleton.
Context {T : Type}.
(** [new T()] *)
Variable construct : M nat T.

(** [m_instance], and how many objects were constructed so far. *)
Record Singleton := mkSingleton { m_instance : option T; constructed : nat }.
(** [getInstance()], under [m_mtx]; a constructor that throws leaves null. *)
Definition Singleton_getInstance : M Singleton T := fun s =>
  match m_instance s with
  | Some p => Ok p s
  | None =>
      match construct (constructed s) with
      | Ok p n => Ok p (mkSingleton (Some p) n)
      | Throw e n => Throw e (mkSingleton None n)
      | Abort => Abort | Ub => Ub | Deadlock => Deadlock | NoFuel => NoFuel
      end
  end.
End singleton.
