(* ===== verification/ConcurrentVectorFacts.v ===== *)
(** * Facts about the concurrent vector and singletons

    Used by one thread the vector is a list, up to the push that meets a lock
    that was never created.  Pushes of several threads lose nothing as long as
    none has been undefined; which races make one so, and that they are reached. *)
From S2P Require Import Prelude.
From S2P Require Import ConcurrentVector.

Section vector_facts.
Context {A : Type}.
Implicit Types (s : ConcurrentVector A) (l : list A).

(** ** One thread *)

(** The state that holds [l], as long as the first lock that was never created
    is not needed. *)
Definition represents s l : Prop :=
  (length l <= 133)%nat /\ m_size s = Z.of_nat (length l) /\ m_granu s = 16 /\ m_vector s = l /\
  m_mtx_size s = (if (128 <? length l)%nat then 9 else 8) /\
  m_mtx s = replicate 8 true ++ (if (128 <? length l)%nat then [false] else []).

Lemma represents_new max_size : 0 <= max_size ->
  exists s, @new_ConcurrentVector A max_size 0 16 tt = Ok s tt /\ represents s [].
Proof.
  intros Hm. eexists. unfold new_ConcurrentVector, bind, Assert, blank_vector. cbn -[represents].
  rewrite (proj2 (Z.ltb_ge _ _) Hm). split; [done|]. by repeat split; cbn; try lia.
Qed.

Lemma stripe_small s n : 0 <= n < 2 ^ 31 -> stripe n s = n mod m_mtx_size s.
Proof. intros Hn. unfold stripe. by rewrite swrap_id, wrap_id by lia. Qed.

(** A lock exists unless its number is 8. *)
Lemma represents_lock s l n :
  represents s l -> 0 <= n < 2 ^ 31 ->
  lock_stripe (stripe n s) s = (if (128 <? length l)%nat && (n mod 9 =? 8) then Ub else Ok tt s).
Proof.
  intros (Hl & _ & _ & _ & Hms & Hmtx) Hn. rewrite stripe_small by done. unfold lock_stripe. rewrite Hmtx, Hms.
  destruct (128 <? length l)%nat; cbn [andb].
  - pose proof (Z.mod_pos_bound n 9 ltac:(lia)) as Hb. destruct (Z.eqb_spec (n mod 9) 8) as [->|Hne]; [done|].
    rewrite lookup_app_l by (rewrite length_replicate; lia). by rewrite lookup_replicate_2 by lia.
  - pose proof (Z.mod_pos_bound n 8 ltac:(lia)) as Hb.
    rewrite app_nil_r. by rewrite lookup_replicate_2 by lia.
Qed.

Lemma represents_push s l v :
  represents s l -> (length l < 133)%nat ->
  exists s', ConcurrentVector_push_back v s = Ok tt s' /\ represents s' (l ++ [v]).
Proof.
  intros (Hl & Hs & Hg & Hv & Hms & Hmtx) Hlt. unfold ConcurrentVector_push_back.
  set (b := (128 <? length l)%nat) in *. set (b' := (128 <? S (length l))%nat).
  set (s2 := mkVector (Z.of_nat (S (length l))) 16 (if b' then 9 else 8) l (replicate 8 true ++ if b' then [false] else [])).
  assert (Hgc : (grow ;;; check_mtx) s = Ok tt s2).
  { unfold bind, grow, check_mtx, too_few, add_stripe, modify. cbn. rewrite Hs, Hg, Hv, Hms, Hmtx. unfold s2.
    rewrite (wrap_id 64 (Z.of_nat (length l) + 1)) by lia. replace (Z.of_nat (length l) + 1) with (Z.of_nat (S (length l))) by lia.
    unfold b, b' in *. destruct (Nat.ltb_spec 128 (length l)); destruct (Nat.ltb_spec 128 (S (length l))); try lia.
    - change (u64 (9 * 16)) with 144. by rewrite (proj2 (Z.ltb_ge _ _)) by lia.
    - change (u64 (8 * 16)) with 128. by rewrite (proj2 (Z.ltb_lt _ _)) by lia.
    - change (u64 (8 * 16)) with 128. by rewrite (proj2 (Z.ltb_ge _ _)) by lia. }
  assert (Hlock : lock_stripe (stripe (m_size s2) s2) s2 = Ok tt s2).
  { rewrite stripe_small by (cbn; lia). unfold lock_stripe, s2. cbn [m_size m_mtx_size m_mtx].
    unfold b'. destruct (Nat.ltb_spec 128 (S (length l))) as [Hlt'|Hge].
    - assert (Hr : 3 <= Z.of_nat (S (length l)) - 126 <= 7) by lia.
      rewrite <- (Z_mod_plus_full (Z.of_nat (S (length l))) (-14) 9).
      replace (Z.of_nat (S (length l)) + -14 * 9) with (Z.of_nat (S (length l)) - 126) by lia.
      rewrite Z.mod_small by lia. rewrite lookup_app_l by (rewrite length_replicate; lia).
      by rewrite lookup_replicate_2 by lia.
    - pose proof (Z.mod_pos_bound (Z.of_nat (S (length l))) 8 ltac:(lia)).
      rewrite app_nil_r. by rewrite lookup_replicate_2 by lia. }
  eexists. split.
  - apply bind_Ok_inv in Hgc as ([] & s1 & H1 & H2). rewrite (bind_Ok _ _ _ _ _ H1), (bind_Ok _ _ _ _ _ H2).
    rewrite (bind_Ok (gets m_size) _ s2 _ s2 eq_refl), (bind_Ok (gets (stripe (m_size s2))) _ s2 _ s2 eq_refl).
    rewrite (bind_Ok _ _ _ _ _ Hlock). reflexivity.
  - unfold represents. cbn [m_size m_granu m_vector m_mtx_size m_mtx s2]. rewrite length_app, Nat.add_1_r.
    split_and!; [lia|done..].
Qed.

(** The operations, on the vector and on a list. *)
Inductive vector_op :=
| VPush (v : A)
| VEmplace (v : A)
| VSet (i : nat) (v : A)
| VGet (i : nat)
| VSize.
Inductive answer := Unit | Item (v : A) | Length (n : Z).
Definition vector_do (o : vector_op) : M (ConcurrentVector A) answer :=
  match o with
  | VPush v => ConcurrentVector_push_back v ;;; mreturn Unit
  | VEmplace v => ConcurrentVector_emplace_back v ;;; mreturn Unit
  | VSet i v => ConcurrentVector_set (Z.of_nat i) v ;;; mreturn Unit
  | VGet i => a <-- ConcurrentVector_get (Z.of_nat i) ;; mreturn (Item a)
  | VSize => n <-- gets ConcurrentVector_size ;; mreturn (Length n)
  end.
Definition list_do (o : vector_op) : M (list A) answer := fun l =>
  match o with
  | VPush v | VEmplace v => Ok Unit (l ++ [v])
  | VSet i v => if decide (i < length l)%nat then Ok Unit (<[i := v]> l) else Throw out_of_range l
  | VGet i => match l !! i with Some a => Ok (Item a) l | None => Throw out_of_range l end
  | VSize => Ok (Length (Z.of_nat (length l))) l
  end.
(** The answers and exceptions of a sequence of calls, and the state after them,
    if all are defined. *)
Fixpoint answers {S} (do : vector_op -> M S answer) (ops : list vector_op) (s : S) : option (list (exn + answer) * S) :=
  match ops with
  | [] => Some ([], s)
  | o :: ops =>
      match do o s with
      | Ok a s' => '(l, s'') ← answers do ops s'; Some (inr a :: l, s'')
      | Throw e s' => '(l, s'') ← answers do ops s'; Some (inl e :: l, s'')
      | _ => None
      end
  end.
Definition is_push (o : vector_op) : bool := match o with VPush _ | VEmplace _ => true | _ => false end.
Definition pushes (ops : list vector_op) : nat := length (List.filter is_push ops).

(** Both sides of a call agree. *)
Definition agree (r : res (ConcurrentVector A) answer) (r' : res (list A) answer) : Prop :=
  match r, r' with
  | Ok a s, Ok a' l => a = a' /\ represents s l
  | Throw e s, Throw e' l => e = e' /\ represents s l
  | _, _ => False
  end.

Lemma represents_get s l i : represents s l -> (length l <= 128)%nat -> agree (vector_do (VGet i) s) (list_do (VGet i) l).
Proof.
  intros Hr Hl. pose proof Hr as (_ & Hs & _ & Hv & _ & _).
  unfold vector_do, list_do, ConcurrentVector_get, item_at, bind, gets. rewrite Hs.
  destruct (Z.leb_spec (Z.of_nat (length l)) (Z.of_nat i)) as [Hge|Hlt].
  - by rewrite lookup_ge_None_2 by lia.
  - rewrite (represents_lock s l) by (done || lia). rewrite (proj2 (Nat.ltb_ge _ _) Hl).
    cbn [andb]. rewrite Nat2Z.id, Hv. destruct (lookup_lt_is_Some_2 l i) as [a ->]; [lia|]. by split.
Qed.
Lemma represents_set s l i v : represents s l -> (length l <= 128)%nat -> agree (vector_do (VSet i v) s) (list_do (VSet i v) l).
Proof.
  intros Hr Hl. pose proof Hr as (H1 & Hs & H2 & Hv & H3 & H4).
  unfold vector_do, list_do, ConcurrentVector_set, set_item, bind, gets. rewrite Hs.
  destruct (Z.leb_spec (Z.of_nat (length l)) (Z.of_nat i)) as [Hge|Hlt].
  - by rewrite decide_False by lia.
  - rewrite (represents_lock s l) by (done || lia). rewrite (proj2 (Nat.ltb_ge _ _) Hl).
    cbn [andb]. rewrite Nat2Z.id, Hv. destruct (lookup_lt_is_Some_2 l i) as [a ->]; [lia|].
    rewrite decide_True by lia. split; [done|]. unfold represents. cbn. by rewrite length_insert.
Qed.

Lemma vector_step s l o :
  represents s l -> (length l + pushes [o] <= 128)%nat -> agree (vector_do o s) (list_do o l).
Proof.
  intros Hr Hl. destruct o as [v|v|i v|i|].
  - destruct (represents_push s l v Hr) as (s' & Hp & Hr'); [cbn in Hl; lia|].
    unfold vector_do. by rewrite (bind_Ok _ _ _ _ _ Hp).
  - destruct (represents_push s l v Hr) as (s' & Hp & Hr'); [cbn in Hl; lia|].
    unfold vector_do. change (ConcurrentVector_emplace_back v) with (ConcurrentVector_push_back v).
    by rewrite (bind_Ok _ _ _ _ _ Hp).
  - apply represents_set; [done|]. lia.
  - apply represents_get; [done|]. lia.
  - unfold vector_do, list_do, bind, gets, mreturn, ConcurrentVector_size. cbn.
    by rewrite (proj1 (proj2 Hr)).
Qed.

Lemma list_do_length o l : match list_do o l with
  | Ok _ l' => length l' = (length l + pushes [o])%nat | Throw _ l' => l' = l | _ => False end.
Proof.
  destruct o; unfold pushes; cbn; [by rewrite length_app|by rewrite length_app|..|lia].
  - destruct (decide _); [rewrite length_insert; lia|done].
  - destruct (l !! i); [lia|done].
Qed.

(** C34 (concurrent vector): used by one thread, a vector with the default
    arguments and at most 128 pushes answers every sequence of calls as a list
    does, exceptions included. *)
Theorem vector_refines_list max_size ops :
  0 <= max_size -> (pushes ops <= 128)%nat ->
  exists s s' l answered, new_ConcurrentVector max_size 0 16 tt = Ok s tt /\
    answers list_do ops [] = Some (answered, l) /\ answers vector_do ops s = Some (answered, s') /\ m_vector s' = l.
Proof.
  intros Hm Hops. destruct (represents_new max_size Hm) as (s & Hnew & Hr). exists s.
  assert (Hgo : forall ops s l, represents s l -> (length l + pushes ops <= 128)%nat ->
    exists s' l' answered, answers list_do ops l = Some (answered, l') /\
      answers vector_do ops s = Some (answered, s') /\ represents s' l').
  { clear. induction ops as [|o ops IH]; intros s l Hr Hl; [by exists s, l, []|].
    assert (Hp : pushes (o :: ops) = (pushes [o] + pushes ops)%nat)
      by (unfold pushes; cbn; by destruct (is_push o)).
    pose proof (vector_step s l o Hr ltac:(lia)) as Ha. pose proof (list_do_length o l) as Hlen. cbn [answers].
    destruct (vector_do o s) as [a s1|e s1| | | |], (list_do o l) as [a' l1|e' l1| | | |]; try done.
    - destruct Ha as [-> Hr1]. destruct (IH s1 l1 Hr1) as (s' & l' & ans & -> & -> & Hr'); [lia|].
      by exists s', l', (inr a' :: ans).
    - destruct Ha as [-> Hr1]. destruct (IH s1 l1 Hr1) as (s' & l' & ans & -> & -> & Hr'); [subst l1; lia|].
      by exists s', l', (inl e' :: ans). }
  destruct (Hgo ops s [] Hr Hops) as (s' & l & ans & Hl & Hv & Hr'). exists s', l, ans.
  split_and!; [done..|]. apply Hr'.
Qed.

Lemma represents_pushes l s l' :
  represents s l' -> (length l' + length l <= 133)%nat ->
  exists s', for_each ConcurrentVector_push_back l s = Ok tt s' /\ represents s' (l' ++ l).
Proof.
  revert s l'. induction l as [|v l IH]; intros s l' Hr Hl; [exists s; by rewrite app_nil_r|].
  cbn in Hl. destruct (represents_push s l' v Hr) as (s1 & Hp & Hr1); [lia|].
  destruct (IH s1 (l' ++ [v]) Hr1) as (s' & Hf & Hr'); [rewrite length_app; cbn; lia|].
  exists s'. rewrite <- app_assoc in Hr'. split; [|done]. cbn [for_each]. by rewrite (bind_Ok _ _ _ _ _ Hp).
Qed.

(** C37: Limits of the vector: the 134th push dereferences a lock that was never
    created, and so does every access to element 8 once 129 elements were pushed;
    a vector constructed with a size has no elements: every access below that
    size is out of bounds, and the first push goes to index 0. *)
Theorem vector_limit max_size :
  (forall l v i w, (length l <= 133)%nat -> 0 <= max_size ->
     exists s0 s, new_ConcurrentVector max_size 0 16 tt = Ok s0 tt /\
       for_each ConcurrentVector_push_back l s0 = Ok tt s /\
       (length l = 133%nat -> ConcurrentVector_push_back v s = Ub) /\
       ((128 < length l)%nat -> 0 <= i < Z.of_nat (length l) -> i mod 9 = 8 ->
          ConcurrentVector_get i s = Ub /\ ConcurrentVector_set i w s = Ub)) /\
  (forall n granu v i, 0 < granu -> 0 <= i < n -> n <= max_size ->
     exists s, new_ConcurrentVector max_size n granu tt = Ok s tt /\
       ConcurrentVector_size s = n /\ ConcurrentVector_get i s = Ub /\ ConcurrentVector_set i v s = Ub).
Proof.
  split.
  - intros l v i w Hl Hm. destruct (represents_new max_size Hm) as (s0 & Hnew & Hr0).
    destruct (represents_pushes l s0 [] Hr0 Hl) as (s & Hf & Hr). exists s0, s. split; [done|]. split; [done|].
    cbn [app] in Hr. pose proof Hr as (_ & Hs & Hg & Hv & Hms & Hmtx). split.
    + intros H133. rewrite H133 in *. cbn in Hms, Hmtx, Hs. unfold ConcurrentVector_push_back, bind, grow, check_mtx, too_few, add_stripe, modify, gets.
      cbn [m_size m_granu m_mtx_size m_vector m_mtx]. rewrite Hs, Hg, Hms, Hmtx.
      change (u64 (9 * 16) <? u64 (133 + 1)) with false. cbn match. unfold stripe, lock_stripe. cbn [m_mtx_size m_mtx].
      reflexivity.
    + intros H128 Hi H8.
      assert (Hlock : lock_stripe (stripe i s) s = Ub).
      { rewrite (represents_lock s l) by (done || lia). by rewrite (proj2 (Nat.ltb_lt _ _) H128), H8. }
      unfold ConcurrentVector_get, ConcurrentVector_set, set_item, bind, gets. rewrite Hs, (proj2 (Z.leb_gt _ _)) by lia.
      by rewrite Hlock.
  - intros n granu v i Hg Hi Hn. unfold new_ConcurrentVector, bind, Assert.
    rewrite (proj2 (Z.ltb_lt _ _) Hg), (proj2 (Z.ltb_ge _ _) Hn). eexists. split; [reflexivity|]. split; [done|].
    unfold ConcurrentVector_get, ConcurrentVector_set, item_at, set_item, bind, gets, lock_stripe. cbn [m_size m_vector].
    rewrite (proj2 (Z.leb_gt _ _)) by lia. by destruct (_ !! _) as [[]|].
Qed.

(** ** Several threads *)

Abbreviation pusher := (pusher (A:=A)).
Implicit Types (ts : list pusher).

Definition start (vs : list A) : list pusher := PGrow <$> vs.
(** The value that a thread still has to append; whether it has grown the size. *)
Definition waiting (t : pusher) : list A :=
  match t with
  | PGrow v | PCheck v | PResize v | PIndex v | PLock v _ | PAppend v _ | PWrite v _ => [v]
  | PDone => []
  end.
Definition in_flight (t : pusher) : nat := match t with PGrow _ | PDone => 0 | _ => 1 end.
Definition flights ts : nat := sum_list (in_flight <$> ts).

(** At most one thread is where [f] says. *)
Definition at_most_one (f : pusher -> bool) ts : Prop :=
  forall i j t t', ts !! i = Some t -> ts !! j = Some t' -> f t = true -> f t' = true -> i = j.
Definition holding (idx : Z) (t : pusher) : bool := bool_decide (holds t = Some idx).
(** The locks exclude, and nobody changes the vector or the locks beside another. *)
Definition exclusive ts : Prop :=
  at_most_one writing ts /\ at_most_one resizing ts /\ forall idx, at_most_one (holding idx) ts.
(** What the size, the elements and the values on their way are. *)
Definition pushing s0 (vs : list A) s ts : Prop :=
  m_size s = u64 (m_size s0 + Z.of_nat (length (m_vector s)) - Z.of_nat (length (m_vector s0)) + Z.of_nat (flights ts)) /\
  m_vector s ++ (ts ≫= waiting) ≡ₚ m_vector s0 ++ vs /\ exclusive ts.

Lemma flights_insert i t t' ts :
  ts !! i = Some t -> (flights (<[i := t']> ts) + in_flight t = flights ts + in_flight t')%nat.
Proof.
  intros Hi. unfold flights. rewrite <- (take_drop_middle ts i t Hi) at 2.
  rewrite insert_take_drop by (by eapply lookup_lt_Some).
  rewrite !fmap_app, !fmap_cons.
  assert (Hs : forall a b : list nat, sum_list (a ++ b) = (sum_list a + sum_list b)%nat)
    by (intros a b; induction a; cbn; lia).
  rewrite !Hs. cbn. lia.
Qed.
Lemma waiting_insert i t t' ts :
  ts !! i = Some t -> (<[i := t']> ts ≫= waiting) ++ waiting t ≡ₚ (ts ≫= waiting) ++ waiting t'.
Proof.
  intros Hi. rewrite <- (take_drop_middle ts i t Hi) at 2.
  rewrite insert_take_drop by (by eapply lookup_lt_Some).
  rewrite !bind_app, !bind_cons. solve_Permutation.
Qed.
Lemma flights_waiting ts : (flights ts <= length (ts ≫= waiting))%nat.
Proof.
  induction ts as [|t ts IH]; [done|]. rewrite bind_cons, length_app. unfold flights in *. cbn.
  destruct t; cbn; lia.
Qed.

Lemma u64_add_mod a b : u64 (u64 a + b) = u64 (a + b).
Proof. unfold wrap. by rewrite Zplus_mod_idemp_l. Qed.

Lemma none_such (f : pusher -> bool) ts i t : existsb f ts = false -> ts !! i = Some t -> f t = false.
Proof.
  intros Hf Hi. destruct (f t) eqn:E; [|done]. rewrite <- Hf. symmetry. apply existsb_exists. exists t.
  split; [|done]. by eapply list_elem_of_In, list_elem_of_lookup_2.
Qed.
Lemma some_such (f : pusher -> bool) ts : existsb f ts = true -> exists i t, ts !! i = Some t /\ f t = true.
Proof.
  intros (t & Hin%list_elem_of_In & Ht)%existsb_exists. apply list_elem_of_lookup in Hin as [i Hi]. eauto.
Qed.
Lemma free_such idx ts : stripe_free idx ts -> existsb (holding idx) ts = false.
Proof.
  intros Hf. destruct (existsb _ ts) eqn:E; [|done]. apply some_such in E as (i & t & Hi & Ht).
  apply bool_decide_eq_true in Ht. by destruct (Forall_lookup_1 _ _ _ _ Hf Hi).
Qed.

Lemma at_most_one_insert f ts i t t' :
  at_most_one f ts -> ts !! i = Some t -> (f t' = true -> f t = true \/ existsb f ts = false) ->
  at_most_one f (<[i := t']> ts).
Proof.
  intros Ho Hi Hf j k x y.
  assert (Hother : forall k y, ts !! k = Some y -> f y = true -> f t' = true -> i = k).
  { intros k' y' Hk Hy Ht. destruct (Hf Ht) as [Ht'|Hno]; [by eapply Ho|].
    by rewrite (none_such f ts k' y' Hno Hk) in Hy. }
  intros [[-> [-> _]]|[_ Hj]]%list_lookup_insert_Some [[-> [-> _]]|[_ Hk]]%list_lookup_insert_Some Hx Hy; try done.
  - by eapply Hother.
  - symmetry. by eapply Hother.
  - by eapply Ho.
Qed.
Lemma exclusive_insert i t t' ts :
  exclusive ts -> ts !! i = Some t ->
  (writing t' = true -> writing t = true \/ existsb writing ts = false) ->
  (resizing t' = true -> resizing t = true \/ existsb resizing ts = false) ->
  (forall idx, holds t' = Some idx -> holds t = Some idx \/ stripe_free idx ts) -> exclusive (<[i := t']> ts).
Proof.
  intros (Hw & Hr & Hh) Hi H1 H2 H3. split_and!; [by eapply at_most_one_insert..|]. intros idx.
  eapply at_most_one_insert; [apply Hh|done|]. unfold holding. intros Ht%bool_decide_eq_true.
  destruct (H3 idx Ht) as [?|?]; [left; by apply bool_decide_eq_true|right; by apply free_such].
Qed.

Ltac excluded :=
  eapply exclusive_insert; [eassumption|eassumption| | |];
  [intros E; first [discriminate E|by left|by right]|intros E; first [discriminate E|by left|by right]
  |intros idx' E; first [discriminate E|injection E as <-; first [by left|by right]]].

(** A step of a thread that changes where it is and nothing it owes. *)
Lemma pushing_move s0 vs s s' ts i t t' :
  pushing s0 vs s ts -> ts !! i = Some t -> exclusive (<[i := t']> ts) ->
  in_flight t' = in_flight t -> waiting t' = waiting t ->
  m_size s' = m_size s -> m_vector s' = m_vector s -> pushing s0 vs s' (<[i := t']> ts).
Proof.
  intros (Hs & Hv & _) Hi Hx Hf Hw Hs' Hv'. pose proof (flights_insert i t t' ts Hi) as Hfl.
  pose proof (waiting_insert i t t' ts Hi) as Hwt. unfold pushing. rewrite Hs', Hv'. split_and!; [| |done].
  - rewrite Hs. do 2 f_equal. lia.
  - rewrite <- Hv. apply Permutation_app_head. rewrite Hw in Hwt. by apply Permutation_app_inv_r in Hwt.
Qed.

Lemma lock_same idx s s' : lock_stripe idx s = Ok tt s' -> s' = s.
Proof. unfold lock_stripe. destruct (m_mtx s !! Z.to_nat idx) as [[]|]; congruence. Qed.

Lemma pushing_step s0 vs s ts s' ts' :
  pushing s0 vs s ts -> push_step (Going s ts) (Going s' ts') -> pushing s0 vs s' ts'.
Proof.
  intros Hp Hstep. pose proof Hp as (Hs & Hv & Hx).
  inversion Hstep as [i v ts1 s1 s2 Hi Hg|i v ts1 s1 Hi Hr Hf|i v ts1 s1 Hi Hr Hf|i v ts1 s1 Hi|i v ts1 s1 Hi
    |i v idx ts1 s1 s2 Hi Hr Hfree Hl| | |i v idx ts1 s1 Hi Hw| |i v idx ts1 s1 s2 Hi Ha]; subst.
  - injection Hg as <-.
    pose proof (flights_insert i _ (PCheck v) ts Hi) as Hfl. pose proof (waiting_insert i _ (PCheck v) ts Hi) as Hwt.
    cbn in Hfl, Hwt. split_and!; cbn [m_size m_vector]; [| |excluded].
    + rewrite Hs, u64_add_mod. f_equal. lia.
    + rewrite <- Hv. apply Permutation_app_head. by apply Permutation_app_inv_r in Hwt.
  - eapply pushing_move; try done. excluded.
  - eapply pushing_move; try done. excluded.
  - eapply pushing_move; try done. excluded.
  - eapply pushing_move; try done. excluded.
  - apply lock_same in Hl as ->. eapply pushing_move; try done. excluded.
  - eapply pushing_move; try done. excluded.
  - injection Ha as <-.
    pose proof (flights_insert i _ PDone ts Hi) as Hfl. pose proof (waiting_insert i _ PDone ts Hi) as Hwt.
    cbn in Hfl, Hwt. rewrite app_nil_r in Hwt. split_and!; cbn [m_size m_vector]; [| |excluded].
    + rewrite Hs, length_app. cbn [length]. f_equal. lia.
    + rewrite <- Hv, <- app_assoc. apply Permutation_app_head. rewrite <- Hwt. solve_Permutation.
Qed.

Lemma start_such (f : pusher -> bool) vs i t : (forall v, f (PGrow v) = false) -> start vs !! i = Some t -> f t = false.
Proof. intros Hf (v & -> & _)%list_lookup_fmap_Some. apply Hf. Qed.
Lemma pushing_start s0 vs : 0 <= m_size s0 < 2 ^ 64 -> pushing s0 vs s0 (start vs).
Proof.
  intros Hs. assert (Hno : forall f, (forall v, f (PGrow v) = false) -> at_most_one f (start vs)).
  { intros f Hf i j t t' Hi _ Ht _. by rewrite (start_such f vs i t Hf Hi) in Ht. }
  split_and!; [| |split_and!; intros; by apply Hno].
  - assert (flights (start vs) = 0)%nat as -> by (clear; unfold flights, start; by induction vs).
    rewrite wrap_id by lia. lia.
  - apply Permutation_app_head. clear. unfold start. induction vs as [|v vs IH]; [done|]. cbn. by constructor.
Qed.

(** What holds of all the configurations with a vector holds along a run. *)
Lemma push_run (I : ConcurrentVector A -> list pusher -> Prop) :
  (forall s ts s' ts', I s ts -> push_step (Going s ts) (Going s' ts') -> I s' ts') ->
  forall c c', rtc push_step c c' -> forall s0 ts0, c = Going s0 ts0 -> I s0 ts0 ->
  match c' with
  | Going s ts => I s ts
  | Undefined => exists s ts, rtc push_step c (Going s ts) /\ I s ts /\ push_step (Going s ts) Undefined
  end.
Proof.
  intros Hstep c c' Hr. induction Hr as [c|c c1 c' H1 Hr IH]; intros s0 ts0 -> HI; [done|].
  destruct c1 as [s1 ts1|].
  - specialize (IH s1 ts1 eq_refl (Hstep _ _ _ _ HI H1)). destruct c' as [s ts|]; [done|].
    destruct IH as (s & ts & Hr' & ? & ?). exists s, ts. split; [by eapply rtc_l|done].
  - assert (c' = Undefined) as -> by (inversion Hr as [|? ? ? H2]; [done|inversion H2]).
    exists s0, ts0. split; [apply rtc_refl|done].
Qed.

(** Some thread can go on until all are done. *)
Lemma push_progress s ts i t : ts !! i = Some t -> t <> PDone -> exists c, push_step (Going s ts) c.
Proof.
  intros Hi Ht. destruct (existsb writing ts) eqn:Hw.
  { apply some_such in Hw as (j & t' & Hj & Ht'). destruct t'; try done. eexists. by eapply step_written. }
  destruct (existsb resizing ts) eqn:Hr.
  { apply some_such in Hr as (j & t' & Hj & Ht'). destruct t'; try done. eexists. by eapply step_resized. }
  set (holder := fun t : pusher => match holds t with Some _ => true | None => false end).
  destruct (existsb holder ts) eqn:Ha.
  { apply some_such in Ha as (j & t' & Hj & Ht'). pose proof (none_such _ _ _ _ Hw Hj) as Hti.
    destruct t'; try done. eexists. by eapply step_write. }
  destruct t as [v|v|v|v|v idx|v idx|v idx|]; try done.
  - eexists. by eapply step_grow.
  - destruct (too_few s) eqn:Hf; eexists; [by eapply step_resize|by eapply step_enough].
  - eexists. by eapply step_resized.
  - eexists. by eapply step_index.
  - destruct (lock_stripe idx s) as [[] s'| | | | |] eqn:Hl; [|..|].
    1: { eexists. eapply step_lock; try done. apply Forall_forall. intros t' [j Hj]%list_elem_of_lookup Ht'.
         pose proof (none_such _ _ _ _ Ha Hj) as Hno. unfold holder in Hno. by rewrite Ht' in Hno. }
    all: assert (Hn : lock_stripe idx s = Ub) by (unfold lock_stripe in *; by destruct (m_mtx s !! Z.to_nat idx) as [[]|]);
      eexists; by eapply step_null.
  - eexists. by eapply step_write.
  - eexists. by eapply step_written.
Qed.

(** The locks that a vector with the default arguments starts with suffice for 128
    pushes: none is added. *)
Definition few_locks s ts : Prop :=
  m_granu s = 16 /\ m_mtx_size s = 8 /\ m_mtx s = replicate 8 true /\
  Forall (fun t => match t with PResize _ => False | PLock _ idx => 0 <= idx < 8 | _ => True end) ts.
(** A push is about to change the elements while another is changing them. *)
Definition overlapping ts : Prop :=
  exists i j v w idx idx', ts !! i = Some (PAppend v idx) /\ ts !! j = Some (PWrite w idx').

Lemma pushing_size s0 vs s ts :
  m_size s0 = 0 -> m_vector s0 = [] -> (length vs <= 128)%nat -> pushing s0 vs s ts -> 0 <= m_size s <= 128.
Proof.
  intros H0 Hv0 Hn (Hs & Hv & _). rewrite H0, Hv0 in Hs. rewrite Hv0 in Hv. apply Permutation_length in Hv.
  rewrite length_app in Hv. pose proof (flights_waiting ts). cbn in Hs, Hv. rewrite Hs, wrap_id; lia.
Qed.
Lemma few_enough s ts : few_locks s ts -> 0 <= m_size s <= 128 -> too_few s = false.
Proof.
  intros (Hg & Hm & _) Hs. unfold too_few. rewrite Hg, Hm. change (u64 (8 * 16)) with 128. lia.
Qed.
Lemma few_lock s ts idx : few_locks s ts -> 0 <= idx < 8 -> lock_stripe idx s = Ok tt s.
Proof. intros (_ & _ & Hm & _) Hi. unfold lock_stripe. rewrite Hm. by rewrite lookup_replicate_2 by lia. Qed.

Lemma few_step s ts s' ts' :
  0 <= m_size s <= 128 -> few_locks s ts -> push_step (Going s ts) (Going s' ts') -> few_locks s' ts'.
Proof.
  intros Hs Hf Hstep. pose proof (few_enough s ts Hf Hs) as He. destruct Hf as (Hg & Hm & Hl & Hts).
  inversion Hstep as [i v ts1 s1 s2 Hi Hgrow|i v ts1 s1 Hi Hr _|i v ts1 s1 Hi Hr Hfew|i v ts1 s1 Hi|i v ts1 s1 Hi
    |i v idx ts1 s1 s2 Hi Hr Hfree Hlock| | |i v idx ts1 s1 Hi Hw| |i v idx ts1 s1 s2 Hi Ha]; subst.
  - injection Hgrow as <-. split_and!; try done. by apply Forall_insert.
  - split_and!; try done. by apply Forall_insert.
  - congruence.
  - by pose proof (Forall_lookup_1 _ _ _ _ Hts Hi).
  - split_and!; try done. apply Forall_insert; [done|]. rewrite stripe_small by lia. rewrite Hm.
    apply Z.mod_pos_bound. lia.
  - apply lock_same in Hlock as ->. split_and!; try done. by apply Forall_insert.
  - split_and!; try done. by apply Forall_insert.
  - injection Ha as <-. split_and!; try done. by apply Forall_insert.
Qed.
Lemma few_undefined s ts : few_locks s ts -> push_step (Going s ts) Undefined -> overlapping ts.
Proof.
  intros Hf Hstep. pose proof Hf as (_ & _ & _ & Hts).
  inversion Hstep as [| | | | | |i v idx ts1 s1 Hi Hl|i v idx ts1 s1 Hi Hr| |i v idx ts1 s1 Hi Hw|]; subst.
  - rewrite (few_lock s ts idx Hf) in Hl; [done|]. apply (Forall_lookup_1 _ _ _ _ Hts Hi).
  - apply some_such in Hr as (j & t & Hj & Ht). pose proof (Forall_lookup_1 _ _ _ _ Hts Hj). by destruct t.
  - apply some_such in Hw as (j & t & Hj & Ht). destruct t as [| | | | | |w idx'|]; try done.
    by exists i, j, v, w, idx, idx'.
Qed.

(** The runs that end badly: two pushes that change the elements of an empty vector
    at once; and a push that needs another lock while the next one takes its own. *)
Lemma elements_race a b :
  rtc push_step (Going (mkVector 0 16 8 [] (replicate 8 true)) (start [a; b]))
    (Going (mkVector 2 16 8 [] (replicate 8 true)) [PWrite a 1; PAppend b 2]).
Proof.
  eapply rtc_l; [by apply (step_grow 0 a)|]. eapply rtc_l; [by apply (step_enough 0 a)|].
  eapply rtc_l; [by apply (step_index 0 a)|]. eapply rtc_l; [by apply (step_lock 0 a 1); [..|repeat constructor|]|].
  eapply rtc_l; [by apply (step_grow 1 b)|]. eapply rtc_l; [by apply (step_enough 1 b)|].
  eapply rtc_l; [by apply (step_index 1 b)|]. eapply rtc_l; [by apply (step_lock 1 b 2); [..|repeat constructor|]|].
  eapply rtc_l; [by apply (step_write 0 a 1)|]. apply rtc_refl.
Qed.
Lemma locks_race l a b :
  rtc push_step (Going (mkVector 127 16 8 l (replicate 8 true)) (start [a; b]))
    (Going (mkVector 129 16 8 l (replicate 8 true)) [PResize a; PLock b 0]).
Proof.
  eapply rtc_l; [by apply (step_grow 1 b)|]. eapply rtc_l; [by apply (step_enough 1 b)|].
  eapply rtc_l; [by apply (step_index 1 b)|]. eapply rtc_l; [by apply (step_grow 0 a)|].
  eapply rtc_l; [by apply (step_resize 0 a)|]. apply rtc_refl.
Qed.

(** C33 (concurrent pushes): however the parts of the pushes of several threads
    interleave, as long as none of them has been undefined at most one thread holds
    a stripe, the elements and the values
    still on their way are those there were and those pushed, and the size
    counts the elements and the pushes that have begun; some thread can go on, and when all are done, every
    value has been appended once.  From a fresh vector with the default arguments
    and at most 128 pushes the only undefined step is that of a push that changes
    the elements while another is changing them.  That happens, since two threads
    may hold different stripes: from an empty vector two pushes come to it, when the size is already 2 and
    reading element 0 is out of bounds; and with 127 elements two pushes come to
    reading the locks while a lock is being added, which is undefined as well. *)
Theorem concurrent_pushes s0 vs :
  0 <= m_size s0 < 2 ^ 64 ->
  (forall s ts, rtc push_step (Going s0 (start vs)) (Going s ts) ->
     pushing s0 vs s ts /\ (forall i t, ts !! i = Some t -> t <> PDone -> exists c, push_step (Going s ts) c) /\
     (Forall (fun t => t = PDone) ts -> m_vector s ≡ₚ m_vector s0 ++ vs)) /\
  (forall max_size, new_ConcurrentVector max_size 0 16 tt = Ok s0 tt -> (length vs <= 128)%nat ->
     rtc push_step (Going s0 (start vs)) Undefined ->
     exists s ts, rtc push_step (Going s0 (start vs)) (Going s ts) /\ overlapping ts) /\
  (forall a b max_size, 0 <= max_size -> exists s0 s ts,
     new_ConcurrentVector max_size 0 16 tt = Ok s0 tt /\
     rtc push_step (Going s0 (start [a; b])) (Going s ts) /\ push_step (Going s ts) Undefined /\ overlapping ts /\
     ConcurrentVector_size s = 2 /\ ConcurrentVector_get 0 s = Ub) /\
  (forall l a b s1, represents s1 l -> length l = 127%nat -> exists s,
     rtc push_step (Going s1 (start [a; b])) (Going s [PResize a; PLock b 0]) /\
     push_step (Going s [PResize a; PLock b 0]) Undefined).
Proof.
  intros Hs0. pose proof (pushing_start s0 vs Hs0) as Hstart. split_and!.
  - intros s ts Hr. assert (Hp : pushing s0 vs s ts)
      by exact (push_run (pushing s0 vs) (pushing_step s0 vs) _ _ Hr _ _ eq_refl Hstart).
    split; [done|]. split; [apply push_progress|]. intros Hdone. destruct Hp as (_ & Hv & _).
    assert (ts ≫= waiting = []) as Hw by (clear -Hdone; induction Hdone as [|t ts -> _ IH]; [done|exact IH]).
    by rewrite Hw, app_nil_r in Hv.
  - intros max_size Hnew Hn Hr. unfold new_ConcurrentVector, bind, Assert in Hnew. cbn -[replicate Z.ltb] in Hnew.
    destruct (max_size <? 0); [done|]. injection Hnew as <-.
    destruct (push_run (fun s ts => pushing (mkVector 0 16 8 [] (replicate 8 true)) vs s ts /\ few_locks s ts)) with (2 := Hr)
      (s0 := mkVector 0 16 8 ([] : list A) (replicate 8 true)) (ts0 := start vs) as (s & ts & Hreach & [_ Hf] & Hu).
    + intros s ts s' ts' [Hp Hf] Hst. split; [by eapply pushing_step|]. eapply few_step; [|exact Hf|exact Hst].
      by apply (pushing_size (mkVector 0 16 8 [] (replicate 8 true)) vs s ts).
    + done.
    + split; [done|]. split_and!; try done. unfold start. apply Forall_fmap, Forall_true. done.
    + exists s, ts. split; [done|]. by eapply few_undefined.
  - intros a b max_size Hm. unfold new_ConcurrentVector, bind, Assert, mreturn. cbn -[start Z.ltb replicate].
    rewrite (proj2 (Z.ltb_ge _ _) Hm). eexists _, _, _. split; [reflexivity|]. split; [apply elements_race|].
    split; [by apply (step_race 1 b 2)|]. split; [by exists 1%nat, 0%nat, b, a, 2, 1|]. by split.
  - intros l a b [sz gr ms v mtx] (_ & Hsz & Hgr & Hv & Hms & Hmtx) Hl. cbn in Hsz, Hgr, Hv, Hms, Hmtx. subst.
    rewrite Hl. eexists. split; [apply locks_race|]. by apply (step_mtx_race 1 b 0).
Qed.
End vector_facts.

(** The instance is made once, by the first call that returns. *)
Lemma singleton_once {T} (construct : M nat T) s p s' :
  Singleton_getInstance construct s = Ok p s' ->
  Singleton_getInstance construct s' = Ok p s' /\
  match m_instance s with
  | Some q => p = q /\ s' = s
  | None => construct (constructed s) = Ok p (constructed s')
  end.
Proof.
  unfold Singleton_getInstance. destruct (m_instance s) as [q|] eqn:Hq; [intros [= <- <-]; by rewrite Hq|].
  destruct (construct (constructed s)) as [q n| | | | |] eqn:Hc; try done. by intros [= <- <-].
Qed.

(** ** Examples *)

Lemma vector_refines_list_witness :
  exists s s' : ConcurrentVector Z, new_ConcurrentVector 1000 0 16 tt = Ok s tt /\
    answers vector_do [VPush 7; VEmplace 8; VGet 2; VSet 0 9; VGet 0; VSize] s
      = Some ([inr Unit; inr Unit; inl out_of_range; inr Unit; inr (Item 9); inr (Length 2)], s') /\
    m_vector s' = [9; 8].
Proof.
  destruct (vector_refines_list (A:=Z) 1000 [VPush 7; VEmplace 8; VGet 2; VSet 0 9; VGet 0; VSize])
    as (s & s' & l & ans & Hnew & Hl & Hv & Hs); [lia|vm_compute; lia|].
  cbn in Hl. injection Hl as <- <-. by exists s, s'.
Defined.

Lemma vector_limit_witness :
  exists s0 s : ConcurrentVector Z, new_ConcurrentVector 1000 0 16 tt = Ok s0 tt /\
    for_each ConcurrentVector_push_back (replicate 133 7) s0 = Ok tt s /\
    ConcurrentVector_push_back 7 s = Ub /\ ConcurrentVector_get 8 s = Ub.
Proof.
  destruct (vector_limit (A:=Z) 1000) as [H _].
  destruct (H (replicate 133 7) 7 8 7) as (s0 & s & Hnew & Hf & Hp & Hg);
    [rewrite length_replicate; lia|lia|].
  rewrite length_replicate in Hp, Hg. exists s0, s.
  split_and!; [done|done|by apply Hp|]. apply Hg; [lia|lia|done].
Defined.

Lemma concurrent_pushes_witness :
  let s0 := mkVector 0 16 8 [] (replicate 8 true) in
  let s := mkVector 1 16 8 [7] (replicate 8 true) in
  rtc push_step (Going s0 (start [7])) (Going s [PDone]) /\ m_vector s ≡ₚ [7].
Proof.
  intros s0 s. assert (Hr : rtc push_step (Going s0 (start [7])) (Going s [PDone])).
  { eapply rtc_l; [by apply (step_grow 0 7)|]. eapply rtc_l; [by apply (step_enough 0 7)|].
    eapply rtc_l; [by apply (step_index 0 7)|]. eapply rtc_l; [by apply (step_lock 0 7 1); [..|repeat constructor|]|].
    eapply rtc_l; [by apply (step_write 0 7 1)|]. eapply rtc_l; [by apply (step_written 0 7 1)|]. apply rtc_refl. }
  split; [exact Hr|]. destruct (concurrent_pushes s0 [7] ltac:(by split)) as [H _].
  destruct (H s [PDone] Hr) as (_ & _ & Hend). apply Hend. by repeat constructor.
Defined.
