(* ===== verification/ConcurrentUse.v ===== *)
(** * Threads that share a concurrent vector (src/src/util/ConcurrentVector.h)

    Several threads, each with a list of calls, on one [ConcurrentVector]: every
    call goes by its accesses of the atomics and of the shared data, and the lock
    of a stripe is shared by [operator\[\]] and exclusive for [set] and the pushes. *)
From S2P Require Import Prelude.
From S2P Require Import ConcurrentVector ConcurrentVectorFacts.

Section use.
Context {A : Type}.
Abbreviation VM := (M (ConcurrentVector A)).
Abbreviation op := (vector_op (A:=A)).
Abbreviation result := (exn + answer (A:=A))%type.

(** Where a thread is in its first call: before it; after [fetch_add]; before the
    number of the stripe is computed; before the lock; with the lock. *)
Inductive place := UNext | UGrown | UIndex | ULock (idx : Z) | UHold (idx : Z).
Record user := mkUser { pc : place; todo : list op; got : list result }.
Definition at_place (p : place) (u : user) : user := mkUser p (todo u) (got u).
(** The call returns or throws; its guard releases the lock. *)
Definition returns (r : result) (u : user) : user := mkUser UNext (tail (todo u)) (got u ++ [r]).

(** The argument of [hashFunc] *)
Definition key (o : op) (s : ConcurrentVector A) : Z :=
  match o with VPush _ | VEmplace _ => m_size s | VSet i _ | VGet i => Z.of_nat i | VSize => 0 end.
(** The access to [m_vector] *)
Definition access (o : op) : VM answer :=
  match o with
  | VPush v | VEmplace v => append v ;;; mreturn Unit
  | VSet i v => set_item (Z.of_nat i) v ;;; mreturn Unit
  | VGet i => a <-- item_at (Z.of_nat i) ;; mreturn (Item a)
  | VSize => n <-- gets ConcurrentVector_size ;; mreturn (Length n)
  end.

(** One step of a thread, with the result of the call when it is the one that
    answers it. *)
Definition user_step (u : user) : VM (user * option result) :=
  match pc u, todo u with
  | UNext, o :: _ =>
      match o with
      | VSize => a <-- access o ;; mreturn (returns (inr a) u, Some (inr a))
      | VPush _ | VEmplace _ => grow ;;; mreturn (at_place UGrown u, None)
      | VSet i _ | VGet i =>
          n <-- gets m_size ;;
          mreturn (if n <=? Z.of_nat i then (returns (inl out_of_range) u, Some (inl out_of_range))
                   else (at_place UIndex u, None))
      end
  | UGrown, _ => check_mtx ;;; mreturn (at_place UIndex u, None)
  | UIndex, o :: _ => idx <-- gets (fun s => stripe (key o s) s) ;; mreturn (at_place (ULock idx) u, None)
  | ULock idx, _ => lock_stripe idx ;;; mreturn (at_place (UHold idx) u, None)
  | UHold _, o :: _ => a <-- access o ;; mreturn (returns (inr a) u, Some (inr a))
  | _, [] => fun _ => NoFuel
  end.

(** [operator\[\]] only reads. *)
Definition reads (u : user) : bool := match todo u with VGet _ :: _ => true | _ => false end.
(** The stripe [idx] can be locked: shared with readers, or alone. *)
Definition may_lock (u : user) (idx : Z) (us : list user) : Prop :=
  Forall (fun w => pc w = UHold idx -> reads u = true /\ reads w = true) us.

Definition event : Type := nat * op * result.
(** A step of thread [i]; what it answers, if it answers a call. *)
Inductive use_step : ConcurrentVector A * list user -> list event -> ConcurrentVector A * list user -> Prop :=
| use_one i u us s u' r s' :
    us !! i = Some u -> (forall idx, pc u = ULock idx -> may_lock u idx us) ->
    user_step u s = Ok (u', r) s' ->
    use_step (s, us) (match r, todo u with Some r, o :: _ => [(i, o, r)] | _, _ => [] end) (s', <[i := u']> us).
Inductive use_run : ConcurrentVector A * list user -> list event -> ConcurrentVector A * list user -> Prop :=
| use_stop c : use_run c [] c
| use_more c es c1 es' c2 : use_run c es c1 -> use_step c1 es' c2 -> use_run c (es ++ es') c2.

(** Two accesses that may not happen at once: a push may move the elements. *)
Definition conflict (o o' : op) : bool :=
  match o, o' with
  | VGet _, VGet _ => false
  | VGet i, VSet j _ | VSet i _, VGet j | VSet i _, VSet j _ => bool_decide (i = j)
  | VSize, _ | _, VSize => false
  | _, _ => true
  end.
Definition race (us : list user) : Prop :=
  exists i j u w o o' ops ops' idx idx', i <> j /\ us !! i = Some u /\ us !! j = Some w
    /\ pc u = UHold idx /\ pc w = UHold idx' /\ todo u = o :: ops /\ todo w = o' :: ops' /\ conflict o o' = true.
(** Nothing is left to call. *)
Definition idle (u : user) : Prop := todo u = [] /\ pc u = UNext.
End use.
