(* ===== verification/ConcurrentUseFacts.v ===== *)
(** * Facts about threads that share a concurrent vector

    Readers and [set]s of several threads answer as if their calls had been made
    one after the other on a list; a push next to them is a data race. *)
From S2P Require Import Prelude.
From S2P Require Import ConcurrentVector ConcurrentVectorFacts ConcurrentUse.

Section use_facts.
Context {A : Type}.
Implicit Types (s : ConcurrentVector A) (l : list A) (o : vector_op (A:=A)) (u w : user (A:=A)) (us : list (user (A:=A))).
Abbreviation op := (vector_op (A:=A)).
Abbreviation result := (exn + answer (A:=A))%type.
Abbreviation event := (event (A:=A)).

(** ** One thread *)

(** The element a call is about. *)
Definition element o : option nat := match o with VGet i | VSet i _ => Some i | _ => None end.
(** Past the test the element is there; the stripe is the one of the element. *)
Definition user_ok (n : nat) u : Prop :=
  Forall (fun o => is_push o = false) (todo u) /\
  match pc u with
  | UNext => True
  | UGrown => False
  | UIndex => exists o ops i, todo u = o :: ops /\ element o = Some i /\ (i < n)%nat
  | ULock idx | UHold idx =>
      exists o ops i, todo u = o :: ops /\ element o = Some i /\ (i < n)%nat /\ idx = Z.of_nat i mod 8
  end.
(** [r] is what the list answers. *)
Definition answered o l (r : result) l' : Prop :=
  list_do o l = match r with inl e => Throw e l' | inr a => Ok a l' end.

Lemma stripe_of s l i : represents s l -> (length l <= 128)%nat -> (i < length l)%nat -> stripe (Z.of_nat i) s = Z.of_nat i mod 8.
Proof.
  intros (_ & _ & _ & _ & Hm & _) Hl Hi. rewrite stripe_small by lia. rewrite Hm.
  by rewrite (proj2 (Nat.ltb_ge _ _) Hl).
Qed.
Lemma lock_of s l i :
  represents s l -> (length l <= 128)%nat -> (i < length l)%nat -> lock_stripe (Z.of_nat i mod 8) s = Ok tt s.
Proof.
  intros Hr Hl Hi. rewrite <- (stripe_of s l i Hr Hl Hi), (represents_lock s l) by (done || lia).
  by rewrite (proj2 (Nat.ltb_ge _ _) Hl).
Qed.

(** The access answers as the list does. *)
Lemma access_ok s l o :
  represents s l -> match element o with Some i => (i < length l)%nat | None => o = VSize end ->
  exists a s' l', access o s = Ok a s' /\ answered o l (inr a) l' /\ represents s' l' /\ length l' = length l.
Proof.
  intros Hr Ho. pose proof Hr as (H1 & Hs & H2 & Hv & H3 & H4).
  destruct o as [v|v|i v|i|]; cbn [element] in Ho; try done; unfold answered, access, bind; cbn [list_do].
  - unfold set_item. rewrite Nat2Z.id, Hv. destruct (lookup_lt_is_Some_2 l i Ho) as [a ->].
    eexists _, _, _. split; [reflexivity|]. rewrite decide_True by done. split; [reflexivity|].
    rewrite length_insert. split; [|done]. unfold represents. cbn. by rewrite length_insert.
  - unfold item_at. rewrite Nat2Z.id, Hv. destruct (lookup_lt_is_Some_2 l i Ho) as [a ->].
    eexists _, _, _. split; [reflexivity|]. by split_and!.
  - unfold gets, ConcurrentVector_size. rewrite Hs. eexists _, _, _. split; [reflexivity|]. by split_and!.
Qed.

(** A step of a thread is silent, or answers its first call as the list does. *)
Lemma user_step_ok s l u :
  represents s l -> (length l <= 128)%nat -> user_ok (length l) u -> todo u <> [] ->
  (exists u', user_step u s = Ok (u', None) s /\ user_ok (length l) u' /\ todo u' = todo u /\ got u' = got u
     /\ (forall idx, pc u' = UHold idx -> pc u = ULock idx))
  \/ (exists o ops r s' l', todo u = o :: ops /\ user_step u s = Ok (returns r u, Some r) s'
        /\ answered o l r l' /\ represents s' l' /\ length l' = length l).
Proof.
  intros Hr Hl [Hpush Hpc] Hne. unfold user_step. destruct (pc u) as [| | |idx|idx] eqn:Ep; [|done| | |].
  - destruct (todo u) as [|o ops] eqn:Et; [done|]. pose proof Hpush as [Ho _]%Forall_cons.
    assert (Htest : forall i, element o = Some i ->
      (if m_size s <=? Z.of_nat i then (length l <= i)%nat else (i < length l)%nat)).
    { intros i _. rewrite (proj1 (proj2 Hr)). destruct (Z.leb_spec (Z.of_nat (length l)) (Z.of_nat i)); lia. }
    destruct o as [v|v|i v|i|]; try done.
    + specialize (Htest i eq_refl). unfold bind, gets. destruct (m_size s <=? Z.of_nat i).
      * right. eexists _, _, _, _, l. split; [done|]. split; [reflexivity|]. unfold answered. cbn. by rewrite decide_False by lia.
      * left. eexists. split; [reflexivity|]. split; [|by split_and!]. split; [cbn; by rewrite Et|].
        cbn. rewrite Et. by exists (VSet i v), ops, i.
    + specialize (Htest i eq_refl). unfold bind, gets. destruct (m_size s <=? Z.of_nat i).
      * right. eexists _, _, _, _, l. split; [done|]. split; [reflexivity|]. unfold answered. cbn. by rewrite lookup_ge_None_2.
      * left. eexists. split; [reflexivity|]. split; [|by split_and!]. split; [cbn; by rewrite Et|].
        cbn. rewrite Et. by exists (VGet i), ops, i.
    + right. destruct (access_ok s l VSize Hr eq_refl) as (a & s' & l' & Ha & Hans & Hr' & Hl').
      rewrite (bind_Ok _ _ _ _ _ Ha). by eexists _, _, _, _, l'.
  - destruct Hpc as (o & ops & i & Et & Ho & Hi). left. rewrite Et. eexists. split; [reflexivity|].
    split; [|by split_and!]. split; [by cbn|]. cbn. rewrite Et. exists o, ops, i. split_and!; try done.
    rewrite <- (stripe_of s l i Hr Hl Hi). by destruct o; try done; injection Ho as ->.
  - destruct Hpc as (o & ops & i & Et & Ho & Hi & ->). left. rewrite (bind_Ok _ _ _ _ _ (lock_of s l i Hr Hl Hi)).
    eexists. split; [reflexivity|]. split; [split; [done|by exists o, ops, i]|]. split_and!; try done. by intros idx [= <-].
  - destruct Hpc as (o & ops & i & Et & Ho & Hi & ->). right. rewrite Et.
    destruct (access_ok s l o Hr) as (a & s' & l' & Ha & Hans & Hr' & Hl'); [by rewrite Ho|].
    rewrite (bind_Ok _ _ _ _ _ Ha). by eexists _, _, _, _, l'.
Qed.

(** ** All threads *)

(** The calls that were answered and the answers, of all threads and of one. *)
Definition calls (es : list event) : list op := (fun e : event => e.1.2) <$> es.
Definition results (es : list event) : list result := (fun e : event => e.2) <$> es.
Definition of_thread (j : nat) (es : list event) : list event := List.filter (fun e : event => (e.1.1 =? j)%nat) es.
(** Thread [j] has made the first calls of its program and got their answers. *)
Definition progress (ps : list (list op)) (es : list event) us : Prop :=
  length us = length ps /\
  forall j p u, ps !! j = Some p -> us !! j = Some u ->
    p = calls (of_thread j es) ++ todo u /\ got u = results (of_thread j es).

(** Two threads with one stripe both read. *)
Definition apart us : Prop :=
  forall i j u w idx, i <> j -> us !! i = Some u -> us !! j = Some w -> pc u = UHold idx -> pc w = UHold idx ->
    reads u = true /\ reads w = true.
Record shared_inv (ps : list (list op)) (l0 : list A) (es : list event) (c : ConcurrentVector A * list (user (A:=A))) (l : list A) : Prop := {
  sh_answers : answers list_do (calls es) l0 = Some (results es, l);
  sh_vector : represents c.1 l;
  sh_length : (length l <= 128)%nat;
  sh_users : Forall (user_ok (length l)) c.2;
  sh_apart : apart c.2;
  sh_progress : progress ps es c.2
}.

Lemma answers_snoc (ops : list op) o l0 rs l r l' :
  answers list_do ops l0 = Some (rs, l) -> answered o l r l' -> answers list_do (ops ++ [o]) l0 = Some (rs ++ [r], l').
Proof.
  revert l0 rs. induction ops as [|x ops IH]; intros l0 rs Ha Ho.
  - injection Ha as <- ->. unfold answered in Ho. cbn. rewrite Ho. by destruct r.
  - cbn [app answers] in Ha |- *. destruct (list_do x l0) as [a l1|e l1| | | |]; try done;
      (destruct (answers list_do ops l1) as [[rs1 l2]|] eqn:E; [|done]; injection Ha as <- <-;
       by rewrite (IH l1 rs1 E Ho)).
Qed.

Lemma of_thread_app j es es' : of_thread j (es ++ es') = of_thread j es ++ of_thread j es'.
Proof. apply List.filter_app. Qed.
Lemma apart_insert i u u' us :
  apart us -> us !! i = Some u -> (forall idx, pc u' = UHold idx -> may_lock u idx us /\ reads u' = reads u) ->
  apart (<[i := u']> us).
Proof.
  intros Hap Hi Hlock j k w1 w2 idx Hjk Hj Hk Hp1 Hp2.
  apply list_lookup_insert_Some in Hj as [(<- & <- & _)|[Hij Hj]];
    apply list_lookup_insert_Some in Hk as [(<- & <- & _)|[Hik Hk]]; try done.
  - destruct (Hlock idx Hp1) as [Hm ->]. by apply (Forall_lookup_1 _ _ _ _ Hm Hk).
  - destruct (Hlock idx Hp2) as [Hm ->]. by apply and_comm, (Forall_lookup_1 _ _ _ _ Hm Hj).
  - by apply (Hap j k w1 w2 idx).
Qed.
Lemma progress_insert ps es us i u u' e :
  progress ps es us -> us !! i = Some u ->
  todo u = calls (of_thread i e) ++ todo u' -> got u' = got u ++ results (of_thread i e) ->
  (forall j, j <> i -> of_thread j e = []) -> progress ps (es ++ e) (<[i := u']> us).
Proof.
  intros [Hlen Hp] Hi Ht Hg Hother. split; [by rewrite length_insert|]. intros j p w Hj Hw.
  unfold calls, results in *. rewrite of_thread_app, !fmap_app.
  apply list_lookup_insert_Some in Hw as [(<- & <- & _)|[Hij Hw]].
  - destruct (Hp i p u Hj Hi) as [-> Hgot]. by rewrite Hg, Hgot, Ht, app_assoc.
  - rewrite Hother by done. rewrite !app_nil_r. by apply (Hp j p w).
Qed.

Lemma shared_next ps l0 es c l es' c' :
  shared_inv ps l0 es c l -> use_step c es' c' -> exists l', shared_inv ps l0 (es ++ es') c' l'.
Proof.
  intros [Ha Hv Hl Hu Hap Hp] Hstep. destruct Hstep as [i u us s u' r s' Hi Hlock Hrun]. cbn [fst snd] in *.
  pose proof (Forall_lookup_1 _ _ _ _ Hu Hi) as Huok.
  assert (Hne : todo u <> []).
  { intros E. destruct Huok as [_ Hpc]. unfold user_step in Hrun. rewrite E in Hrun, Hpc.
    destruct (pc u); try done; by destruct Hpc as (? & ? & ? & ? & _). }
  destruct (user_step_ok s l u Hv Hl Huok Hne) as [(u2 & Hrun2 & Hok & Ht & Hg & Hhold)|(o & ops & a & s2 & l' & Ht & Hrun2 & Hans & Hr' & Hl')];
    rewrite Hrun in Hrun2; injection Hrun2 as -> -> ->.
  - exists l. rewrite app_nil_r. split; try done; cbn [fst snd].
    + by apply Forall_insert.
    + eapply apart_insert; [done..|]. intros idx Hidx. split; [by apply Hlock, Hhold|]. unfold reads. by rewrite Ht.
    + rewrite <- (app_nil_r es). eapply progress_insert; [done..|by rewrite Ht|by rewrite Hg, app_nil_r|done].
  - exists l'. rewrite Ht. split; cbn [fst snd]; rewrite ?Hl'; try done.
    + unfold calls, results in *. rewrite !fmap_app. by eapply answers_snoc.
    + apply Forall_insert; [done|]. destruct Huok as [Hpush _]. split; [|done]. rewrite Ht in Hpush. cbn. rewrite Ht.
      by apply Forall_cons in Hpush as [_ ?].
    + by eapply apart_insert.
    + eapply progress_insert; [done..| | |]; unfold of_thread, calls, results; cbn; rewrite ?Nat.eqb_refl; cbn; [by rewrite Ht|done|].
      intros j Hj. by rewrite (proj2 (Nat.eqb_neq _ _)) by congruence.
Qed.

Abbreviation users ps := ((fun p => mkUser UNext p []) <$> ps).
Lemma shared_start s l (ps : list (list op)) :
  represents s l -> (length l <= 128)%nat -> Forall (Forall (fun o => is_push o = false)) ps ->
  shared_inv ps l [] (s, users ps) l.
Proof.
  intros Hr Hl Hps. split; cbn [fst snd]; try done.
  - apply Forall_fmap. eapply Forall_impl; [exact Hps|]. intros p Hp. by split.
  - intros i j u w idx _ Hi _ Hh. apply list_lookup_fmap_Some in Hi as (p & -> & _). done.
  - split; [by rewrite length_fmap|]. intros j p u Hj Hu. rewrite list_lookup_fmap, Hj in Hu. by injection Hu as <-.
Qed.
Lemma shared_run ps l0 s0 es c :
  represents s0 l0 -> (length l0 <= 128)%nat -> Forall (Forall (fun o => is_push o = false)) ps ->
  use_run (s0, users ps) es c -> exists l, shared_inv ps l0 es c l.
Proof.
  intros Hr Hl Hps. remember (s0, users ps) as c0 eqn:E. intros Hrun. induction Hrun as [c|c es c1 es' c2 _ IH Hs].
  - subst c. exists l0. by apply shared_start.
  - destruct (IH E) as [l Hinv]. by eapply shared_next.
Qed.

Lemma no_race ps l0 es c l : shared_inv ps l0 es c l -> ~ race c.2.
Proof.
  intros [_ _ _ Hu Hap _] (i & j & u & w & o & o' & ops & ops' & idx & idx' & Hij & Hi & Hj & Hpi & Hpj & Hti & Htj & Hc).
  pose proof (Forall_lookup_1 _ _ _ _ Hu Hi) as [_ H1]. pose proof (Forall_lookup_1 _ _ _ _ Hu Hj) as [_ H2].
  rewrite Hpi in H1. rewrite Hpj in H2.
  destruct H1 as (o1 & ops1 & n & E1 & Hn & _ & ->), H2 as (o2 & ops2 & m & E2 & Hm & _ & ->).
  rewrite Hti in E1. rewrite Htj in E2. injection E1 as <- <-. injection E2 as <- <-.
  assert (n = m /\ (forall k, o <> VGet k) \/ n = m /\ (forall k, o' <> VGet k)) as Hcase.
  { destruct o, o'; try done; cbn in Hc, Hn, Hm; injection Hn as ->; injection Hm as ->; apply bool_decide_eq_true in Hc; auto. }
  assert (n = m) as -> by (by destruct Hcase as [[-> _]|[-> _]]).
  destruct (Hap i j u w _ Hij Hi Hj Hpi Hpj) as [R1 R2]. unfold reads in R1, R2. rewrite Hti in R1. rewrite Htj in R2.
  destruct Hcase as [[_ Hc']|[_ Hc']]; [destruct o|destruct o']; try done; by eapply Hc'.
Qed.

Definition holds u : bool := match pc u with UHold _ => true | _ => false end.
Definition busy u : bool := match todo u with [] => false | _ => true end.
(** A thread that holds a lock, or, when none does, any that has a call left. *)
Lemma can_step ps l0 es c l :
  shared_inv ps l0 es c l -> Forall idle c.2 \/ exists es' c', use_step c es' c'.
Proof.
  intros [_ Hv Hl Hu Hap _]. destruct c as [s us]. cbn [fst snd] in *.
  assert (Hgo : forall i u, us !! i = Some u -> todo u <> [] -> (forall idx, pc u = ULock idx -> may_lock u idx us) ->
    exists es' c', use_step (s, us) es' c').
  { intros i u Hi Hne Hlock.
    destruct (user_step_ok s l u Hv Hl (Forall_lookup_1 _ _ _ _ Hu Hi) Hne)
      as [(u2 & Hrun & _)|(o & ops & a & s2 & l' & _ & Hrun & _)]; eexists _, _; by eapply use_one. }
  destruct (decide (Exists (fun u => holds u = true) us)) as [Hex|Hno].
  - right. apply Exists_exists in Hex as (u & Hin & Hpc). apply list_elem_of_lookup in Hin as [i Hi].
    unfold holds in Hpc. destruct (pc u) as [| | | |idx] eqn:E; try done.
    apply (Hgo i u Hi); [|congruence]. destruct (Forall_lookup_1 _ _ _ _ Hu Hi) as [_ H1]. rewrite E in H1.
    destruct H1 as (o & ops & k & -> & _). done.
  - destruct (decide (Exists (fun u => busy u = true) us)) as [Hex|Hnone].
    + right. apply Exists_exists in Hex as (u & Hin & Hne). apply list_elem_of_lookup in Hin as [i Hi].
      apply (Hgo i u Hi); [by destruct (todo u) eqn:E; unfold busy in Hne; rewrite E in Hne|].
      intros idx _. apply Forall_forall. intros w Hw Hpc. destruct Hno. apply Exists_exists. exists w.
      split; [done|]. unfold holds. by rewrite Hpc.
    + left. apply Forall_forall. intros u Hin. pose proof Hin as [i Hi]%list_elem_of_lookup.
      assert (Ht : todo u = []).
      { destruct (todo u) eqn:E; [done|]. destruct Hnone. apply Exists_exists. exists u. unfold busy. by rewrite E. }
      split; [done|]. destruct (Forall_lookup_1 _ _ _ _ Hu Hi) as [_ H1]. rewrite Ht in H1.
      destruct (pc u); try done; by destruct H1 as (? & ? & ? & ? & _).
Qed.

(** ** Properties *)

(** C32: threads that read and set the elements of a vector with at most 128
    elements, however their steps interleave, get the answers that a list gives
    to the same calls one after the other, each thread's calls in the order of its
    program and each call at one of its own steps; no two accesses race, no step
    is undefined, and until all calls are answered some thread can go on. *)
Theorem accesses_linearizable (ps : list (list op)) l0 s0 es s us :
  represents s0 l0 -> (length l0 <= 128)%nat -> Forall (Forall (fun o => is_push o = false)) ps ->
  use_run (s0, users ps) es (s, us) ->
  answers list_do (calls es) l0 = Some (results es, m_vector s)
  /\ progress ps es us /\ ~ race us
  /\ (Forall idle us \/ exists es' c', use_step (s, us) es' c')
  /\ (forall i u, us !! i = Some u -> todo u <> [] -> exists u' r s', user_step u s = Ok (u', r) s').
Proof.
  intros Hr Hl Hps Hrun. destruct (shared_run ps l0 s0 es _ Hr Hl Hps Hrun) as [l Hinv].
  pose proof Hinv as [Ha Hv Hlen Hu _ Hp]. cbn [fst snd] in *.
  assert (Hvec : m_vector s = l) by apply Hv. rewrite Hvec.
  split; [done|]. split; [done|]. split; [exact (no_race _ _ _ _ _ Hinv)|]. split; [exact (can_step _ _ _ _ _ Hinv)|].
  intros i u Hi Hne. destruct (user_step_ok s l u Hv Hlen (Forall_lookup_1 _ _ _ _ Hu Hi) Hne)
    as [(u' & Hs & _)|(o & ops & r & s' & l' & _ & Hs & _)]; eauto.
Qed.
End use_facts.

(** ** Examples *)

(** Which thread takes the next step, executed. *)
Section drive.
Context {A : Type}.
Implicit Types (c : ConcurrentVector A * list (user (A:=A))).

Definition may_lock_b (u : user (A:=A)) (idx : Z) (us : list (user (A:=A))) : bool :=
  forallb (fun w => match pc w with UHold i => negb (i =? idx) || (reads u && reads w) | _ => true end) us.
Definition try_step (i : nat) c : option (list (event (A:=A)) * (ConcurrentVector A * list (user (A:=A)))) :=
  match c.2 !! i with
  | Some u =>
      if match pc u with ULock idx => may_lock_b u idx c.2 | _ => true end then
        match user_step u c.1 with
        | Ok (u', r) s' => Some (match r, todo u with Some r, o :: _ => [(i, o, r)] | _, _ => [] end, (s', <[i := u']> c.2))
        | _ => None
        end
      else None
  | None => None
  end.
Fixpoint drive (js : list nat) (es : list (event (A:=A))) c :=
  match js with
  | [] => Some (es, c)
  | i :: js => match try_step i c with Some (es', c') => drive js (es ++ es') c' | None => None end
  end.

Lemma may_lock_b_spec u idx us : may_lock_b u idx us = true -> may_lock (A:=A) u idx us.
Proof.
  intros H. apply Forall_forall. intros w Hw Hpc. apply list_elem_of_In in Hw.
  pose proof (proj1 (forallb_forall _ _) H w Hw) as Hb. cbn in Hb. rewrite Hpc, Z.eqb_refl in Hb.
  by apply andb_true_iff in Hb.
Qed.
Lemma try_step_spec i c es c' : try_step i c = Some (es, c') -> use_step c es c'.
Proof.
  destruct c as [s us]. unfold try_step. cbn [fst snd]. destruct (us !! i) as [u|] eqn:Hi; [|done].
  destruct (match pc u with ULock idx => may_lock_b u idx us | _ => true end) eqn:Hl; [|done].
  destruct (user_step u s) as [[u' r] s'| | | | |] eqn:Hs; try done. intros [= <- <-]. apply use_one; [done| |done].
  intros idx Hpc. rewrite Hpc in Hl. by apply may_lock_b_spec.
Qed.
Lemma drive_use js es c es' c' c0 : use_run c0 es c -> drive js es c = Some (es', c') -> use_run c0 es' c'.
Proof.
  revert es c. induction js as [|i js IH]; intros es c Hr; cbn [drive]; [by intros [= <- <-]|].
  destruct (try_step i c) as [[e c1]|] eqn:E; [|done]. apply IH. eapply use_more; [done|]. by apply (try_step_spec i).
Qed.
End drive.

(** A vector of one element that one thread reads and sets while another reads it. *)
Definition vector_example : ConcurrentVector Z := mkVector 1 16 8 [7] (replicate 8 true).
Definition programs_example : list (list (vector_op (A:=Z))) := [[VGet 0; VSet 0 9; VGet 1]; [VGet 0; VSize]].
Definition users_example : list (user (A:=Z)) := (fun p => mkUser UNext p []) <$> programs_example.
(** Both read under one lock, then the first waits for the second to set. *)
Definition schedule_example : list nat := [0; 1; 0; 1; 0; 1; 0; 0; 0; 1; 0; 0; 0; 1]%nat.
Definition events_example : list (event (A:=Z)) :=
  [(0%nat, VGet 0, inr (Item 7)); (1%nat, VGet 0, inr (Item 7)); (0%nat, VSet 0 9, inr Unit);
   (0%nat, VGet 1, inl out_of_range); (1%nat, VSize, inr (Length 1))].

Lemma accesses_linearizable_witness :
  exists s us, use_run (vector_example, users_example) events_example (s, us)
    /\ answers list_do (calls events_example) [7] = Some (results events_example, m_vector s) /\ ~ race us.
Proof.
  destruct (drive schedule_example [] (vector_example, users_example)) as [[es [s us]]|] eqn:E; [|vm_compute in E; discriminate].
  assert (Hr : use_run (vector_example, users_example) es (s, us)) by (eapply drive_use; [apply use_stop|exact E]).
  assert (Hes : es = events_example) by (vm_compute in E; by injection E as <- _ _). subst es.
  exists s, us. split; [exact Hr|].
  destruct (accesses_linearizable programs_example [7] vector_example events_example s us) as (Ha & _ & Hn & _).
  - by repeat split; cbn; try lia.
  - cbn. lia.
  - by repeat constructor.
  - exact Hr.
  - split; [exact Ha|exact Hn].
Defined.

(** Note: A push next to a reader is a data race: the push of the second element and
    the read of the first hold different stripes. *)
Lemma push_races_reader :
  exists es s us, use_run (vector_example, [mkUser UNext [VGet 0] []; mkUser UNext [VPush 8] []]) es (s, us) /\ race us.
Proof.
  destruct (drive [0; 1; 0; 1; 0; 1; 1]%nat [] (vector_example, [mkUser UNext [VGet 0] []; mkUser UNext [VPush 8] []]))
    as [[es [s us]]|] eqn:E; [|vm_compute in E; discriminate].
  exists es, s, us. split; [eapply drive_use; [apply use_stop|exact E]|].
  vm_compute in E. injection E as <- <- <-. exists 0%nat, 1%nat. by eexists _, _, _, _, _, _, _, _.
Qed.
