(* ===== verification/Thread.v ===== *)
(** * Threads (thread/thread.h, thread.cpp, Mutex.h)

    The semaphore, the task object, and the life of a [Thread] as a step
    relation between the thread that constructs, joins and destroys it and the
    thread it starts.  The thread id and the names of the system are given. *)
From S2P Require Import Prelude.
From S2P Require Import Text.

(** ** [semaphore] *)

(** [semaphore(uint32_t count)]: [init] is the result of [sem_init] *)
Definition new_semaphore (init count : Z) : M unit Z :=
  if init =? 0 then mreturn count else throw logic_error.
(** [wait()] returns when the count is positive. *)
Definition semaphore_wait (sem : Z) : option Z := if 0 <? sem then Some (sem - 1) else None.
(** [notify(size_t n)] *)
Fixpoint semaphore_notify (n : nat) (sem : Z) : Z :=
  match n with O => sem | S n => semaphore_notify n (sem + 1) end.

(** ** [TaskBody] *)

Section task.
Context {F R : Type}.
(** A function object, which may be empty; whether another object shares it. *)
Record TaskBody := mkTask { _strongTask : option (option F); shared : bool; _weakTask : option (option F) }.
(** [TaskBody(FUNC&& task)] *)
Definition new_TaskBody (f : option F) : TaskBody := mkTask (Some f) false (Some f).
(** [operator bool()] *)
Definition TaskBody_bool (t : TaskBody) : bool :=
  match _strongTask t with Some (Some _) => true | _ => false end.
(** [operator=(std::nullptr_t)] *)
Definition TaskBody_reset (t : TaskBody) : TaskBody := mkTask None (shared t) (_weakTask t).
(** [_weakTask.lock()] *)
Definition TaskBody_lock (t : TaskBody) : option (option F) :=
  match _strongTask t with Some f => Some f | None => if shared t then _weakTask t else None end.
(** [operator()]: the call, or the default value *)
Definition TaskBody_call {S} (call : F -> M S R) (defaultValue : R) (t : TaskBody) : M S R :=
  match TaskBody_lock t with
  | Some (Some f) => call f
  | _ => mreturn defaultValue
  end.
End task.
Arguments TaskBody F : clear implicits.

(** ** [Thread] *)

(** Where the constructing thread is: before the [std::thread], before the
    assignment to [m_thread], before [m_sem.wait()], after the constructor, after
    the destructor. *)
Inductive owner_phase := ONew | OSpawned | OWait | OReady | OGone.
(** Where the new thread is: not started, before [m_running = true], before
    [setup()], before [m_sem.notify()], before the call of [*m_task], at the end. *)
Inductive child_phase := TNone | TStart | TSetup | TNotify | TCall | TEnd.
(** [m_thread]: null, joinable, or joined or detached *)
Inductive handle := HNull | HJoinable | HDone.

Record Thread := mkThread {
  owner : owner_phase; child : child_phase;
  m_id : Z; m_name : list Z; m_running : bool; m_sem : Z; m_thread : handle;
  t_thread : handle; t_thread_name : list Z;   (* thread locals of the new thread *)
  calls : nat                                  (* calls of the task *)
}.
Definition set_owner v s := mkThread v (child s) (m_id s) (m_name s) (m_running s) (m_sem s) (m_thread s) (t_thread s) (t_thread_name s) (calls s).
Definition set_child v s := mkThread (owner s) v (m_id s) (m_name s) (m_running s) (m_sem s) (m_thread s) (t_thread s) (t_thread_name s) (calls s).
Definition set_running v s := mkThread (owner s) (child s) (m_id s) (m_name s) v (m_sem s) (m_thread s) (t_thread s) (t_thread_name s) (calls s).
Definition set_sem v s := mkThread (owner s) (child s) (m_id s) (m_name s) (m_running s) v (m_thread s) (t_thread s) (t_thread_name s) (calls s).
Definition set_thread v s := mkThread (owner s) (child s) (m_id s) (m_name s) (m_running s) (m_sem s) v (t_thread s) (t_thread_name s) (calls s).
Definition set_calls v s := mkThread (owner s) (child s) (m_id s) (m_name s) (m_running s) (m_sem s) (m_thread s) (t_thread s) (t_thread_name s) v.

(** The name that the constructor keeps. *)
Definition thread_name (name : list Z) : list Z := match name with [] => text "UNKNOWN" | _ => take 15 name end.
(** The members when the body of the constructor begins. *)
Definition new_Thread (name : list Z) : Thread :=
  mkThread ONew TNone (-1) (thread_name name) false 0 HNull HNull (text "UNKNOWN") 0.

(** [setup()] on the thread [tid] *)
Definition Thread_setup (tid : Z) (s : Thread) : Thread :=
  mkThread (owner s) (child s) tid (m_name s) (m_running s) (m_sem s) (m_thread s) (m_thread s) (m_name s) (calls s).
(** [t_setName(name)] *)
Definition Thread_t_setName (name : list Z) (s : Thread) : Thread :=
  match name with
  | [] => s
  | _ => mkThread (owner s) (child s) (m_id s) (m_name s) (m_running s) (m_sem s) (m_thread s) (t_thread s) name (calls s)
  end.

(** [join()], which returns when the thread has ended. *)
Definition Thread_join (s : Thread) : option Thread :=
  match m_thread s with
  | HNull => None
  | HJoinable => match child s with TEnd => Some (set_running false (set_thread HDone s)) | _ => None end
  | HDone => Some (set_running false s)
  end.
(** [~Thread()] and the destructor of [m_thread]: detaching what is not joinable
    throws, and a joinable thread terminates the program. *)
Definition Thread_destroy : M Thread unit := fun s =>
  match m_thread s, m_running s with
  | HJoinable, true => Ok tt (set_owner OGone (set_thread HDone s))
  | HJoinable, false | HDone, true => Abort
  | HDone, false | HNull, _ => Ok tt (set_owner OGone s)
  end.

(** One step of the owner or of the new thread, which runs on [tid]. *)
Inductive thread_step (tid : Z) : Thread -> Thread -> Prop :=
| step_spawn s : owner s = ONew -> thread_step tid s (set_owner OSpawned (set_child TStart s))
| step_assign s : owner s = OSpawned -> thread_step tid s (set_owner OWait (set_thread HJoinable s))
| step_wait s n : owner s = OWait -> semaphore_wait (m_sem s) = Some n ->
    thread_step tid s (set_owner OReady (set_sem n s))
| step_join s s' : owner s = OReady -> Thread_join s = Some s' -> thread_step tid s s'
| step_destroy s s' : owner s = OReady -> Thread_destroy s = Ok tt s' -> thread_step tid s s'
| step_start s : child s = TStart -> thread_step tid s (set_child TSetup (set_running true s))
| step_setup s : child s = TSetup -> thread_step tid s (set_child TNotify (Thread_setup tid s))
| step_notify s : child s = TNotify -> thread_step tid s (set_child TCall (set_sem (semaphore_notify 1 (m_sem s)) s))
| step_call s : child s = TCall -> owner s <> OGone -> thread_step tid s (set_child TEnd (set_calls (S (calls s)) s)).
