(* ===== verification/ThreadFacts.v ===== *)
(** * Facts about threads

    The handshake between a [Thread] and the thread it starts. *)
From S2P Require Import Prelude.
From S2P Require Import Text.
From S2P Require Import Thread.

(** A task that was reset, and that nobody shares, is not called. *)
Lemma task_reset {F R S} (call : F -> M S R) d (t : TaskBody F) s :
  shared t = false -> TaskBody_call call d (TaskBody_reset t) s = Ok d s.
Proof. intros Hs. unfold TaskBody_call, TaskBody_lock, TaskBody_reset. cbn. by rewrite Hs. Qed.

Definition child_started (s : Thread) : Prop := child s = TCall \/ child s = TEnd.

(** What relates the two threads. *)
Record handshake (tid : Z) (name : list Z) (s : Thread) : Prop := {
  hs_name : m_name s = thread_name name;
  hs_sem : m_sem s = (match child s with TCall | TEnd => 1 | _ => 0 end)
             - (match owner s with OReady | OGone => 1 | _ => 0 end);
  hs_owner : match owner s with
             | ONew => child s = TNone /\ m_thread s = HNull
             | OSpawned => child s <> TNone /\ m_thread s = HNull
             | OWait => child s <> TNone /\ m_thread s = HJoinable
             | OReady => child_started s /\
                 (m_thread s = HJoinable /\ m_running s = true \/ m_thread s = HDone /\ m_running s = false /\ child s = TEnd)
             | OGone => child_started s /\ m_thread s = HDone
             end;
  hs_child : match child s with
             | TNone | TStart => m_running s = false
             | TSetup => m_running s = true
             | TNotify => m_running s = true /\ m_id s = tid /\ t_thread_name s = m_name s
             | TCall | TEnd => m_id s = tid /\ t_thread_name s = m_name s /\
                 (match owner s with OReady | OGone => True | _ => m_running s = true end)
             end;
  hs_calls : calls s = match child s with TEnd => 1%nat | _ => 0%nat end
}.

Lemma handshake_init tid name : handshake tid name (new_Thread name).
Proof. by split. Qed.

Lemma destroy_ready s :
  m_thread s = HJoinable /\ m_running s = true \/ m_thread s = HDone /\ m_running s = false ->
  Thread_destroy s = Ok tt (set_owner OGone (set_thread HDone s)).
Proof.
  unfold Thread_destroy. intros [[-> ->]|[Hm ->]]; [done|]. rewrite Hm. destruct s; cbn in *; by subst.
Qed.

Lemma handshake_step tid name s s' : handshake tid name s -> thread_step tid s s' -> handshake tid name s'.
Proof.
  intros [Hn Hsem Ho Hc Hk] Hstep. destruct Hstep as [s E|s E|s n E Hw|s s' E Hj|s s' E Hd|s E|s E|s E|s E Hg].
  5: { rewrite E in Ho. rewrite destroy_ready in Hd by tauto. injection Hd as <-.
       destruct s as [o c i n r sem m tt tn k]; cbn in *; subst. split; cbn; try done; tauto. }
  all: destruct s as [o c i n0 r sem m tt tn k]; cbn in *; subst.
  - destruct Ho as [-> ->]. by split.
  - destruct Ho as [Hch ->]. split; cbn; try done.
  - destruct Ho as [Hch ->]. unfold semaphore_wait in Hw. destruct (0 <? _) eqn:Hlt in Hw; [|done]. injection Hw as <-.
    destruct c; try done; split; cbn; unfold child_started; naive_solver.
  - destruct Ho as [Hst Ho]. unfold Thread_join in Hj. cbn in Hj.
    destruct m, c; try done; injection Hj as <-; split; cbn; unfold child_started in *; naive_solver.
  - destruct o; split; cbn in *; unfold child_started in *; naive_solver.
  - destruct o; split; cbn in *; unfold child_started in *; naive_solver.
  - destruct o; split; cbn in *; unfold child_started in *; naive_solver.
  - destruct o; split; cbn in *; unfold child_started in *; naive_solver.
Qed.

Lemma handshake_reachable tid name s : rtc (thread_step tid) (new_Thread name) s -> handshake tid name s.
Proof.
  generalize (handshake_init tid name). generalize (new_Thread name). intros s0 H0 Hr.
  induction Hr as [|s1 s2 s3 H1 _ IH]; [done|]. apply IH. by eapply handshake_step.
Qed.

(** A step of a run, with the state computed. *)
Ltac run_step L := eapply rtc_l; [by eapply L|]; unfold new_Thread, Thread_setup, set_owner, set_child, set_running, set_sem, set_thread, set_calls;
  cbn [owner child m_id m_name m_running m_sem m_thread t_thread t_thread_name calls semaphore_notify Z.add Z.sub Z.opp Z.pos_sub].

(** C31 (threads): however the two threads interleave, when the constructor has
    returned the new thread has its id and its name and has not been called more
    than once; the semaphore is back to 0; destroying the object never meets a
    joinable thread, and joining returns exactly when the task has ended.  But
    the constructor does not order two things: the new thread may copy [m_thread]
    before it is assigned, and an object may be destroyed before its thread has
    read [m_task] from it. *)
Theorem thread_handshake tid name s :
  rtc (thread_step tid) (new_Thread name) s -> owner s = OReady ->
  m_id s = tid /\ t_thread_name s = thread_name name /\ m_sem s = 0 /\ (calls s <= 1)%nat /\
  (exists s', Thread_destroy s = Ok tt s') /\
  (is_Some (Thread_join s) <-> calls s = 1%nat) /\
  (exists s1, rtc (thread_step tid) (new_Thread name) s1 /\ owner s1 = OReady /\ t_thread s1 = HNull) /\
  (exists s2, rtc (thread_step tid) (new_Thread name) s2 /\ owner s2 = OGone /\ child s2 = TCall).
Proof.
  intros Hr E. destruct (handshake_reachable tid name s Hr) as [Hn Hsem Ho Hc Hk]. rewrite E in *.
  destruct Ho as [Hst Ho].
  assert (Hid : m_id s = tid /\ t_thread_name s = m_name s).
  { destruct Hst as [Hst|Hst]; rewrite Hst in Hc; tauto. }
  split_and!; [apply Hid|by rewrite (proj2 Hid)| | | | | |].
  - by destruct Hst as [Hst|Hst]; rewrite Hst in Hsem.
  - destruct (child s); lia.
  - eexists. apply destroy_ready. tauto.
  - unfold Thread_join. rewrite Hk. destruct Ho as [[-> _]|(-> & _ & ->)]; [|split; eauto].
    destruct Hst as [->| ->]; (split; [intros H; by destruct H|intros H; by try discriminate H]).
  - eexists. split; [|split; [|]].
    + run_step step_spawn. run_step step_start. run_step step_setup.
      run_step step_assign. run_step step_notify.
      run_step step_wait. apply rtc_refl.
    + reflexivity.
    + reflexivity.
  - eexists. split; [|split; [|]].
    + run_step step_spawn. run_step step_assign. run_step step_start.
      run_step step_setup. run_step step_notify.
      run_step step_wait. run_step step_destroy. apply rtc_refl.
    + reflexivity.
    + reflexivity.
Qed.

Lemma thread_handshake_witness :
  exists s, rtc (thread_step 42) (new_Thread (text "worker")) s /\ owner s = OReady /\ m_id s = 42 /\
    t_thread_name s = text "worker" /\ is_Some (Thread_join s).
Proof.
  set (s0 := new_Thread (text "worker")).
  set (s4 := mkThread OReady TEnd 42 (text "worker") true 0 HJoinable HJoinable (text "worker") 1).
  assert (Hr : rtc (thread_step 42) s0 s4).
  { run_step step_spawn. run_step step_assign. run_step step_start.
    run_step step_setup. run_step step_notify.
    run_step step_wait. run_step step_call. apply rtc_refl. }
  exists s4. destruct (thread_handshake 42 (text "worker") s4 Hr eq_refl) as (Hid & Hn & _ & _ & _ & Hj & _).
  split_and!; [exact Hr|reflexivity|exact Hid|exact Hn|by apply Hj].
Defined.
