(* ===== verification/Daemon.v ===== *)
(** * The daemon (util/daemon.h, daemon.cpp)

    The process that watches the program.  The answers of [getpid], [time],
    [fork] and [waitpid] are scripts; the program is a computation. *)
From S2P Require Import Prelude.

(** [struct ProcessInfo] *)
Record ProcessInfo := mkProcess {
  parend_id : Z; main_id : Z; restart_cnt : Z; parend_start_time : Z; main_start_time : Z
}.
Definition new_ProcessInfo : ProcessInfo := mkProcess 0 0 0 0 0.
Definition restart_timeout : Z := 5.

(** What is asked of the system besides, in order. *)
Inductive process_act := ADaemon | AFork | AWait (pid : Z) | ASleep (seconds : Z).
Record Daemon := mkDaemon {
  info : ProcessInfo;
  pids : list Z; times : list Z; forks : list Z; statuses : list Z;
  process_acts : list process_act
}.
Abbreviation DM := (M Daemon).

Definition set_info v s := mkDaemon v (pids s) (times s) (forks s) (statuses s) (process_acts s).
Definition process_log (a : process_act) : DM unit :=
  modify (fun s => mkDaemon (info s) (pids s) (times s) (forks s) (statuses s) (process_acts s ++ [a])).
(** The next answer; a script that ends bounds the model. *)
Definition getpid : DM Z := fun s =>
  match pids s with
  | [] => NoFuel
  | p :: l => Ok p (mkDaemon (info s) l (times s) (forks s) (statuses s) (process_acts s))
  end.
Definition time : DM Z := fun s =>
  match times s with
  | [] => NoFuel
  | t :: l => Ok t (mkDaemon (info s) (pids s) l (forks s) (statuses s) (process_acts s))
  end.
Definition fork : DM Z := process_log AFork ;;; fun s =>
  match forks s with
  | [] => NoFuel
  | p :: l => Ok p (mkDaemon (info s) (pids s) (times s) l (statuses s) (process_acts s))
  end.
Definition waitpid (pid : Z) : DM Z := process_log (AWait pid) ;;; fun s =>
  match statuses s with
  | [] => NoFuel
  | v :: l => Ok v (mkDaemon (info s) (pids s) (times s) (forks s) l (process_acts s))
  end.

Section daemon.
(** [main_cb(argc, argv)] *)
Variable main_cb : DM Z.

(** [run(argc, argv, main_cb)] up to its end, where it returns nothing *)
Definition run_body : DM unit :=
  p <-- getpid ;; modify (fun s => set_info (mkProcess (parend_id (info s)) p (restart_cnt (info s)) (parend_start_time (info s)) (main_start_time (info s))) s) ;;;
  t <-- time ;; modify (fun s => set_info (mkProcess (parend_id (info s)) (main_id (info s)) (restart_cnt (info s)) (parend_start_time (info s)) t) s) ;;;
  main_cb ;;; mreturn tt.
Definition run : DM Z := run_body ;;; ub.

(** [parend_id] and [parend_start_time] of this process *)
Definition note_parent : DM unit :=
  p <-- getpid ;; modify (fun s => set_info (mkProcess p (main_id (info s)) (restart_cnt (info s)) (parend_start_time (info s)) (main_start_time (info s))) s) ;;;
  t <-- time ;; modify (fun s => set_info (mkProcess (parend_id (info s)) (main_id (info s)) (restart_cnt (info s)) t (main_start_time (info s))) s).

(** What follows the [if] that looks at the status of the child. *)
Definition restart : DM unit :=
  modify (fun s => set_info (mkProcess (parend_id (info s)) (main_id (info s)) (u64 (restart_cnt (info s) + 1)) (parend_start_time (info s)) (main_start_time (info s))) s) ;;;
  process_log (ASleep restart_timeout).
(** The loop of [run_daemon]; a branch answers whether it goes on. *)
Fixpoint daemon_loop (fuel : nat) : DM Z :=
  match fuel with
  | O => nofuel
  | S fuel =>
      pid <-- fork ;;
      if pid =? 0 then getpid ;;; run
      else if pid <? 0 then mreturn 0
      else
        getpid ;;;
        status <-- waitpid pid ;;
        let goes_on := if status =? 9 then false else false in
        if goes_on : bool then restart ;;; daemon_loop fuel else mreturn 0
  end.
Definition run_daemon (fuel : nat) : DM Z :=
  getpid ;;; process_log ADaemon ;;; note_parent ;;; daemon_loop fuel.

Definition start_daemon (fuel : nat) (is_daemon : bool) : DM Z :=
  if negb is_daemon then note_parent ;;; run else run_daemon fuel.
End daemon.
