(* ===== verification/DaemonFacts.v ===== *)
(** * Facts about the daemon

    Every way through [start_daemon]. *)
From S2P Require Import Prelude.
From S2P Require Import Daemon.

Section daemon_facts.
Variable main_cb : M Daemon Z.

(** The process as its parent has noted itself. *)
Definition parent p t (i : ProcessInfo) : ProcessInfo :=
  mkProcess p (main_id i) (restart_cnt i) t (main_start_time i).

Lemma note_parent_run s p t ps ts :
  pids s = p :: ps -> times s = t :: ts ->
  note_parent s = Ok tt (mkDaemon (parent p t (info s)) ps ts (forks s) (statuses s) (process_acts s)).
Proof. intros Hp Ht. destruct s. cbn in *. subst. reflexivity. Qed.

(** The program runs as [pid] from time [t] on. *)
Lemma run_body_run s p t ps ts :
  pids s = p :: ps -> times s = t :: ts ->
  let s1 := mkDaemon (mkProcess (parend_id (info s)) p (restart_cnt (info s)) (parend_start_time (info s)) t)
              ps ts (forks s) (statuses s) (process_acts s) in
  forall r s2, main_cb s1 = Ok r s2 -> run_body main_cb s = Ok tt s2 /\ run main_cb s = Ub.
Proof.
  intros Hp Ht s1 r s2 Hm.
  assert (Hb : run_body main_cb s = Ok tt s2).
  { unfold run_body, bind, getpid, time, modify. rewrite Hp. cbn. rewrite Ht. cbn.
    change (match main_cb s1 with Ok _ s' => mreturn tt s' | Throw e s' => Throw e s' | Abort => Abort
      | Ub => Ub | Deadlock => Deadlock | NoFuel => NoFuel end = Ok tt s2). by rewrite Hm. }
  split; [done|]. unfold run, bind. by rewrite Hb.
Qed.

(** The daemon: without [is_daemon] the program runs once in this process,
    and then [run] ends without an answer, which is undefined; with it the
    program runs once in a child, with the same end, while the parent waits for
    that child once, whatever its status, and answers 0: it never restarts a
    child that died and never counts a restart.  When [fork] fails it answers 0
    without running the program. *)
Theorem start_daemon_spec s p0 p t ps ts :
  pids s = p0 :: p :: ps -> times s = t :: ts ->
  (* in the foreground *)
  (forall t2 ts2 r s2, ts = t2 :: ts2 ->
     main_cb (mkDaemon (mkProcess p0 p (restart_cnt (info s)) t t2) ps ts2 (forks s) (statuses s) (process_acts s)) = Ok r s2 ->
     forall fuel, start_daemon main_cb fuel false s = Ub) /\
  (* the parent *)
  (forall pid fs fuel, forks s = pid :: fs ->
     (pid < 0 -> start_daemon main_cb (S fuel) true s = Ok 0
        (mkDaemon (parent p t (info s)) ps ts fs (statuses s) (process_acts s ++ [ADaemon; AFork]))) /\
     (0 < pid -> forall q qs status ss, ps = q :: qs -> statuses s = status :: ss ->
        start_daemon main_cb (S fuel) true s = Ok 0
          (mkDaemon (parent p t (info s)) qs ts fs ss (process_acts s ++ [ADaemon; AFork; AWait pid]))) /\
     (* the child *)
     (pid = 0 -> forall q0 q qs t2 ts2 r s2, ps = q0 :: q :: qs -> ts = t2 :: ts2 ->
        main_cb (mkDaemon (mkProcess p q (restart_cnt (info s)) t t2) qs ts2 fs (statuses s)
          (process_acts s ++ [ADaemon; AFork])) = Ok r s2 ->
        start_daemon main_cb (S fuel) true s = Ub)).
Proof.
  intros Hp Ht. split.
  - intros t2 ts2 r s2 -> Hm fuel. unfold start_daemon. cbn [negb].
    rewrite (bind_Ok _ _ _ _ _ (note_parent_run s p0 t (p :: ps) _ Hp Ht)).
    by eapply run_body_run.
  - intros pid fs fuel Hf.
    set (s1 := mkDaemon (info s) (p :: ps) (times s) (forks s) (statuses s) (process_acts s ++ [ADaemon])).
    set (s2 := mkDaemon (parent p t (info s)) ps ts (forks s) (statuses s) (process_acts s ++ [ADaemon])).
    set (s3 := mkDaemon (parent p t (info s)) ps ts fs (statuses s) (process_acts s ++ [ADaemon; AFork])).
    assert (Hloop : start_daemon main_cb (S fuel) true s = daemon_loop main_cb (S fuel) s2).
    { unfold start_daemon, run_daemon. cbn [negb].
      set (s0 := mkDaemon (info s) (p :: ps) (times s) (forks s) (statuses s) (process_acts s)).
      rewrite (bind_Ok getpid _ s p0 s0) by (unfold getpid; by rewrite Hp).
      rewrite (bind_Ok (process_log ADaemon) _ s0 tt s1 eq_refl).
      by rewrite (bind_Ok _ _ _ _ _ (note_parent_run s1 p t ps ts eq_refl Ht)). }
    assert (Hfork : fork s2 = Ok pid s3).
    { unfold fork, bind, process_log, modify. cbn. rewrite Hf. unfold s3. by rewrite <- app_assoc. }
    rewrite Hloop. cbn [daemon_loop]. rewrite (bind_Ok _ _ _ _ _ Hfork). split_and!.
    + intros Hneg. by rewrite (proj2 (Z.eqb_neq _ _)), (proj2 (Z.ltb_lt _ _)) by lia.
    + intros Hpos q qs status ss -> Hst. rewrite (proj2 (Z.eqb_neq _ _)), (proj2 (Z.ltb_ge _ _)) by lia.
      rewrite (bind_Ok getpid _ s3 q (mkDaemon (info s3) qs ts fs (statuses s) (process_acts s3)) eq_refl).
      unfold waitpid, bind, process_log, modify. cbn. rewrite Hst. rewrite <- app_assoc. by destruct (status =? 9).
    + intros -> q0 q qs t2 ts2 r s4 -> -> Hm. cbn [Z.eqb].
      rewrite (bind_Ok getpid _ s3 q0 (mkDaemon (info s3) (q :: qs) (t2 :: ts2) fs (statuses s) (process_acts s3)) eq_refl).
      by eapply run_body_run.
Qed.
End daemon_facts.

(** The child 77 dies of a signal: the parent answers 0 at once. *)
Lemma start_daemon_spec_witness :
  exists s', start_daemon (mreturn 0) 5 true (mkDaemon new_ProcessInfo [10; 11; 11] [1000] [77] [139] []) = Ok 0 s' /\
    process_acts s' = [ADaemon; AFork; AWait 77] /\ restart_cnt (info s') = 0.
Proof.
  destruct (start_daemon_spec (mreturn 0) (mkDaemon new_ProcessInfo [10; 11; 11] [1000] [77] [139] []) 10 11 1000 [11] []
    eq_refl eq_refl) as [_ H].
  destruct (H 77 [] 4%nat eq_refl) as (_ & H2 & _). eexists. split; [by eapply H2|]. by split.
Defined.
